(* ===== verification/_CoqProject ===== *)
-Q . S2P
Prelude.v
Sequence.v
Packet.v
Codec.v
Words.v
Control.v
HandshakePacket.v
Extensions.v
PacketFilter.v
PacketFilterFacts.v
ConnectionGroup.v
StandbyRtt.v
StandbyRttFacts.v
ReceiveWindow.v
LossList.v
LossListFacts.v
LossListReports.v
Rtt.v
RangeDropQueue.v
PayloadPool.v
Fenwick.v
SendBuffer.v
SendBufferFacts.v
SendBufferSteps.v
SendBufferTheorems.v
OccupiedIndex.v
RejectedMessages.v
ReceiveBuffer.v
ReceiveBufferFacts.v
ReceiveBufferQueries.v
ReceiveBufferSteps.v
ReceiveBufferOps.v
ReceiveBufferReads.v
ReceiveBufferStream.v
ReceiveBufferDrops.v
ReceiveBufferRanges.v
ReceiveBufferPeerDrops.v
ReceiveBufferTheorems.v
MessageStream.v
Reassembly.v
LinkSender.v
Link.v
Live.v
Timing.v
TimingFacts.v
Tsbpd.v
