(* ===== verification/Prelude.v ===== *)
(** * A verification development of the SRT transport library

    The library under src/ implements the SRT protocol (secure reliable
    transport over UDP) in C++: a protocol core that does no I/O
    (include/robotweax/srt/*.hpp and src/*.cpp) and a runtime of threads, sockets
    and a compatibility API around it (src/compat).  This development models
    the core as functions on explicit states and proves what makes its
    components correct.

    ** The program and the files that model it

    Data flows from the application into the send buffer, is paced and sent as
    packets, is retransmitted on loss reports or timeouts, and is retired by
    acknowledgements; the receiver tracks which sequence numbers are missing,
    reports them, acknowledges, estimates rates and the round-trip time, and
    releases packets at the time their timestamps say.

    - [Prelude]: machine integers as [Z] with their wrap-around ([u8] to [u64],
      [i32], [i64]), byte lists, rings as rotated lists, counting, record
      updates, the tactics [zlia], [b2p], [case_if] and [setter].
    - [Sequence]: sequence.hpp.  31-bit sequence numbers and 32-bit timestamps with
      wrap-aware distance; modules [SequenceNumber] and [PacketTimestamp].
    - [Packet]: packet.hpp, error.hpp and the payload budget of crypto.hpp; headers
      are records, enumerations inductive types with their wire codes.
    - [Codec]: codec.hpp, codec.cpp.  Datagram encoding and decoding, layout of
      protected payloads.  A caller's storage is a byte list argument.
    - [Words]: the network-order reads and writes and sub-range writes that the
      fixed-layout messages share.
    - [HandshakePacket]: the Handshake record of handshake.hpp and its codec in
      handshake.cpp.  [Extensions]: handshake_extensions.hpp and .cpp and
      hsv5_version_policy.hpp: extension records, handshake parameters, text
      extensions, path identifiers, live option negotiation.
    - [PacketFilter]: packet_filter.hpp and .cpp: the filter configuration as text
      and record, its negotiation, the filter control header and the receive
      policy; [PacketFilterFacts] holds their lemmas.
    - [ConnectionGroup]: connection_group.hpp and .cpp.  [StandbyRtt]:
      standby_rtt.hpp and .cpp, with the measurement and the send budget as
      modules; [StandbyRttFacts] holds their lemmas.
    - [Control]: control.hpp, control.cpp.  Payloads of acknowledgements, drop
      requests and loss reports, with the loop of session.cpp that decodes a
      loss report.
    - [ReceiveWindow]: class ReceiveWindow of reliability.cpp.
    - [LossList], [LossListFacts], [LossListReports]: class ReceiveLossList of
      reliability.cpp; definitions, the set it stands for, reports.
    - [Rtt]: rtt.hpp, rtt.cpp.  ACK numbers, ACK tracker, RTT estimator.
    - [RangeDropQueue]: detail/range_drop_queue.hpp.
    - [PayloadPool]: payload_pool.hpp.  The memory the allocator of
      payload_pool.cpp returns is the argument [arena].
    - [Fenwick]: the tree of tombstone counts in send_buffer.cpp (dropped_prefix
      and the update loop of discard_slot).
    - [SendBuffer]: class SendBuffer of send_buffer.cpp, all operations.  The
      record [SendBuffer.t] has the class's members; slots are updated by index.
      [SendBufferFacts] holds the invariant and the lemmas on the ring,
      [SendBufferSteps] one lemma per operation, [SendBufferTheorems] the contract.
    - [OccupiedIndex], [RejectedMessages]: the 64-way bit index of occupied slots and
      the binary trie of rejected message numbers inside receive_buffer.cpp, each as
      a component of its own.
    - [ReceiveBuffer]: class ReceiveBuffer of receive_buffer.cpp, all operations, with
      the members of the class as the record [ReceiveBuffer.t].
      [ReceiveBufferFacts] holds the physical invariant and the window as seen from the
      head, [ReceiveBufferQueries] the queries and their caches,
      [ReceiveBufferSteps] the trimming of the head, [ReceiveBufferOps] insertion and
      ordered reads, [ReceiveBufferReads] unordered reads, [ReceiveBufferStream]
      stream reads, [ReceiveBufferDrops], [ReceiveBufferRanges] and
      [ReceiveBufferPeerDrops] the drops, [ReceiveBufferTheorems] the contract.
    - [MessageStream]: the frames of a stream of messages.  [Reassembly]: the receive
      buffer fed by a network that reorders, repeats and loses packets of a message
      stream while the application reads.
    - [LinkSender], [Link]: a send buffer and a receive buffer joined by a network of
      encoded datagrams, as a transition system of submissions, transmissions,
      arrivals, reads and acknowledgements.
    - [Live]: live.hpp, live.cpp.  Arrival rates, live rate control, drift sampling.
    - [Timing]: timing.hpp, timing.cpp.  Control timers, retransmission timer,
      pacer, wake monitor, delivery clock; [TimingFacts] and [Tsbpd] hold the
      theorems.  Clocks shared by a group live in a heap of clocks; the platform
      switch for sub-millisecond pacing is a boolean argument.

    ** What is proved

    - The link: for every interleaving of sending, loss, repetition, reordering,
      acknowledgement and reading in which no datagram is half the sequence space
      late, the application reads an initial segment of the accepted messages, and no
      packet is retired before it arrived.
    - Reassembly: whatever the network does to the packets of a stream, the messages
      read are the first ones of the stream, byte for byte, and a message whose
      packets have all arrived inside the window can be read.
    - Wire format: encoding and decoding are inverse to each other for
      packets, protected payloads, acknowledgements and loss reports; the loop
      that decodes a loss report ends on arbitrary bytes with bounded, well-formed
      results.
    - Send buffer: an invariant over all operation sequences with exact
      counters and Fenwick tree, fragmentation, retirement by
      acknowledgement, the range check of loss reports, the order of sending
      with retransmissions first,
      the too-late drop, the compaction of the request ring.
    - Receive buffer: an invariant that ties counters, indexes, trie, bounds and
      caches to the slots, over all operation sequences in which peer-requested drops are
      made only while no payload is rejected (an example shows that it fails
      otherwise); while no payload is rejected, stream reads and what peer drop
      requests keep; the bit index and the trie against a set and a multiset; how
      a discard stops acknowledgement for good.
    - Receiver bookkeeping: the receive window and the loss list
      implement abstract sets of sequence numbers under every sequence of
      operations, across wrap-around; reports are handed out in order, exactly
      once, after the reorder tolerance.
    - Acknowledgement numbers and round-trip time: the tracker against a table of
      outstanding numbers, the estimate against the filter in unbounded integers,
      its bounds and convergence.
    - Drop announcements and payload storage.
    - Rates and drift: exact averages, exact pacing rate, bounded and convergent
      drift correction.
    - Timers: deadlines agree with polls short of the end of 64-bit time, linear
      timeout growth, the pacing bound for sends that the pacer's query
      permits, the wake monitor's hysteresis.
    - Negotiation: listener and caller end with the same packet filter; round trips of
      handshakes, extensions, group records and probe datagrams.
    - Standby measurement: a recorded sample is the time of one echoed probe, probes and
      echoes keep their distance, and the shared send budget starves no slot.
    - Delivery clock: unwrapping of timestamps, in-order delivery under
      drift correction, shared group clocks.

    ** Bounds and fuel

    Unsigned arithmetic wraps at its width; signed arithmetic of the clock and
    the drift sampler wraps at 64 bits in the model, and the theorems assume times
    below 2^53 microseconds (285 years), where nothing wraps and the C++
    behaviour is defined.  Loops are structural recursions on their
    natural bound where there is one (slots of a ring, bytes of a payload, ranges
    of a batch).  Fuel is used for the binary search of the loss list (its
    length), the window advance (its capacity), the removal of a range (the list
    length plus the possible split), the Fenwick loops (the tree size), the
    loss report decoder (the number of bytes, running out being a value of its own), the trimming, acknowledgement and
    message loops of the receive buffer (its capacity) and the descents in the
    trie (33, one more than the key bits); each is proved sufficient by
    the theorems on the function.  Slot indices of the C++ code are pointers into
    the slot array; the model uses the index.  Exceptions thrown by constructors are
    [None].  Each operation under a mutex is one step.

    ** What is not modelled

    The builds with experimental congestion controllers, filters or control
    authentication are not modelled; the default build is.  The reliability session
    that composes the parts, the handshake state machines, rendezvous, key
    material, forward error correction, file congestion control, the peer drop
    queue and socket options are not modelled.
    Cryptographic libraries, system calls, threads, tracing and the C API are
    outside: they are I/O or third-party code. *)
From Stdlib Require Export ZArith Lia.
From stdpp Require Export base numbers list.

#[global] Open Scope Z_scope.

(** Rewriting database of the development's normal forms. *)
Create HintDb srt.
Create Rewrite HintDb srt.

(** * Machine integers *)

(** Unsigned integers are [Z] values kept in range by an explicit wrap; the
    wrap is written exactly where the C++ expression has that type. *)
Definition u8 (x : Z) : Z := x mod 2 ^ 8.
Definition u16 (x : Z) : Z := x mod 2 ^ 16.
Definition u32 (x : Z) : Z := x mod 2 ^ 32.
Definition u64 (x : Z) : Z := x mod 2 ^ 64.

(** [static_cast] to a signed type (two's complement since C++20). *)
Definition i32 (x : Z) : Z := (x + 2 ^ 31) mod 2 ^ 32 - 2 ^ 31.
Definition i64 (x : Z) : Z := (x + 2 ^ 63) mod 2 ^ 64 - 2 ^ 63.

Definition u32_max : Z := 2 ^ 32 - 1.
Definition u64_max : Z := 2 ^ 64 - 1.

Definition is_u8 (x : Z) : Prop := 0 <= x < 2 ^ 8.
Definition is_u16 (x : Z) : Prop := 0 <= x < 2 ^ 16.
Definition is_u32 (x : Z) : Prop := 0 <= x < 2 ^ 32.
Definition is_u64 (x : Z) : Prop := 0 <= x < 2 ^ 64.

(** Linear arithmetic after expanding every division and remainder. *)
Ltac zlia := Z.div_mod_to_equations; lia.

(** Turn boolean comparisons into propositions wherever they occur. *)
Ltac b2p :=
  repeat match goal with
  | H : andb _ _ = true |- _ => apply andb_true_iff in H as [? ?]
  | H : orb _ _ = false |- _ => apply orb_false_iff in H as [? ?]
  | H : andb _ _ = false |- _ => apply andb_false_iff in H as [?|?]
  | H : orb _ _ = true |- _ => apply orb_true_iff in H as [?|?]
  | H : negb _ = true |- _ => apply negb_true_iff in H
  | H : negb _ = false |- _ => apply negb_false_iff in H
  | H : (_ =? _) = true |- _ => apply Z.eqb_eq in H
  | H : (_ =? _) = false |- _ => apply Z.eqb_neq in H
  | H : (_ <? _) = true |- _ => apply Z.ltb_lt in H
  | H : (_ <? _) = false |- _ => apply Z.ltb_ge in H
  | H : (_ <=? _) = true |- _ => apply Z.leb_le in H
  | H : (_ <=? _) = false |- _ => apply Z.leb_gt in H
  | H : (_ =? _)%nat = true |- _ => apply Nat.eqb_eq in H
  | H : (_ =? _)%nat = false |- _ => apply Nat.eqb_neq in H
  | H : (_ <? _)%nat = true |- _ => apply Nat.ltb_lt in H
  | H : (_ <? _)%nat = false |- _ => apply Nat.ltb_ge in H
  | H : (_ <=? _)%nat = true |- _ => apply Nat.leb_le in H
  | H : (_ <=? _)%nat = false |- _ => apply Nat.leb_gt in H
  end.

(** Case analysis on the scrutinee of the first conditional in sight. *)
Ltac case_if :=
  match goal with
  | |- context [if ?b then _ else _] => destruct b eqn:?
  | H : context [if ?b then _ else _] |- _ => destruct b eqn:?
  end; b2p.

Lemma mod_mod_pow2 (x a b : Z) :
  0 <= a <= b -> (x mod 2 ^ b) mod 2 ^ a = x mod 2 ^ a.
Proof.
  intros ?. replace b with ((b - a) + a) by lia.
  rewrite Z.pow_add_r by lia.
  rewrite (Z.mul_comm (2 ^ (b - a))), Z.rem_mul_r by (try apply Z.pow_nonzero; try apply Z.pow_pos_nonneg; lia).
  rewrite Z.mul_comm, Z_mod_plus_full, Zmod_mod. reflexivity.
Qed.

Lemma u32_id x : is_u32 x -> u32 x = x.
Proof. apply Z.mod_small. Qed.
Lemma u64_id x : is_u64 x -> u64 x = x.
Proof. apply Z.mod_small. Qed.
Lemma u32_range x : is_u32 (u32 x).
Proof. apply Z.mod_pos_bound. lia. Qed.
Lemma u64_range x : is_u64 (u64 x).
Proof. apply Z.mod_pos_bound. lia. Qed.
Lemma i32_id x : - 2 ^ 31 <= x < 2 ^ 31 -> i32 x = x.
Proof. intros. unfold i32. rewrite Z.mod_small; lia. Qed.
Lemma i64_id x : - 2 ^ 63 <= x < 2 ^ 63 -> i64 x = x.
Proof. intros. unfold i64. rewrite Z.mod_small; lia. Qed.

(** * Lists as storage *)

(** [std::copy] of [bs] into [dest] at offset [at_], for an in-range copy. *)
Definition overwrite {A} (at_ : nat) (bs dest : list A) : list A :=
  take at_ dest ++ bs ++ drop (at_ + length bs) dest.

Lemma overwrite_length {A} at_ (bs dest : list A) :
  (at_ + length bs <= length dest)%nat ->
  length (overwrite at_ bs dest) = length dest.
Proof.
  intros. unfold overwrite. rewrite !length_app, length_take, length_drop. lia.
Qed.

Lemma overwrite_app {A} (p q bs : list A) :
  overwrite (length p) bs (p ++ q) = p ++ bs ++ drop (length bs) q.
Proof.
  unfold overwrite. rewrite take_app_length, <- drop_drop, drop_app_length.
  reflexivity.
Qed.

Lemma overwrite_read {A} at_ (bs dest : list A) :
  (at_ + length bs <= length dest)%nat ->
  take (length bs) (drop at_ (overwrite at_ bs dest)) = bs.
Proof.
  intros H. unfold overwrite.
  assert (E : length (take at_ dest) = at_) by (rewrite length_take; lia).
  rewrite drop_app_ge, E, Nat.sub_diag, drop_0 by lia. apply take_app_length.
Qed.

Lemma overwrite_elsewhere {A} at_ at' n (bs dest : list A) :
  (at_ + length bs <= length dest)%nat ->
  (at_ + length bs <= at' \/ at' + n <= at_)%nat ->
  take n (drop at' (overwrite at_ bs dest)) = take n (drop at' dest).
Proof.
  intros H Hd. unfold overwrite. apply list_eq. intros i.
  destruct (decide (i < n)%nat) as [Hi|Hi]; [|rewrite !lookup_take_ge by lia; reflexivity].
  rewrite !lookup_take_lt, !lookup_drop by assumption.
  assert (E : length (take at_ dest) = at_) by (rewrite length_take; lia).
  destruct Hd as [Hd|Hd].
  - rewrite lookup_app_r, E, lookup_app_r, lookup_drop by lia. f_equal. lia.
  - rewrite lookup_app_l, lookup_take_lt by lia. reflexivity.
Qed.

(** Two adjacent copies are one copy. *)
Lemma overwrite_adjacent {A} at_ (xs ys dest : list A) :
  (at_ + length xs + length ys <= length dest)%nat ->
  overwrite (at_ + length xs) ys (overwrite at_ xs dest) = overwrite at_ (xs ++ ys) dest.
Proof.
  intros H. set (p := take at_ dest). set (q := drop (at_ + length xs) dest).
  assert (Ep : length (p ++ xs) = (at_ + length xs)%nat) by (unfold p; rewrite length_app, length_take; lia).
  assert (E : overwrite at_ xs dest = (p ++ xs) ++ q) by (unfold overwrite; rewrite app_assoc; reflexivity).
  rewrite E, <- Ep, overwrite_app. unfold overwrite, q. rewrite drop_drop, length_app, <- !app_assoc, Nat.add_assoc.
  reflexivity.
Qed.

Lemma land_disjoint (a b k : Z) :
  0 <= k -> a mod 2 ^ k = 0 -> 0 <= b < 2 ^ k -> Z.land a b = 0.
Proof.
  intros Hk Ha Hb. apply Z.bits_inj'. intros i Hi.
  rewrite Z.land_spec, Z.bits_0. destruct (Z.lt_ge_cases i k).
  - rewrite <- (Z.mod_pow2_bits_low a k i), Ha, Z.bits_0 by lia. reflexivity.
  - rewrite <- (Z.mod_small b (2 ^ k)), Z.mod_pow2_bits_high by lia.
    apply andb_false_r.
Qed.

(** Bit fields that do not overlap add up. *)
Lemma lor_add (a b k : Z) :
  0 <= k -> a mod 2 ^ k = 0 -> 0 <= b < 2 ^ k -> Z.lor a b = a + b.
Proof.
  intros. assert (Z.land a b = 0) by (apply (land_disjoint a b k); assumption).
  rewrite <- Z.lxor_lor by assumption. symmetry.
  apply Z.add_nocarry_lxor. assumption.
Qed.

Lemma lookup_total_app_add {A} `{Inhabited A} (l1 l2 : list A) i :
  (l1 ++ l2) !!! (length l1 + i)%nat = l2 !!! i.
Proof.
  rewrite !list_lookup_total_alt, lookup_app_r by lia. repeat f_equal. lia.
Qed.

(** * Ring buffers *)

(** A ring of [length l] slots with its head at physical index [h], read in
    logical order. *)
Definition rot {A} (h : nat) (l : list A) : list A := drop h l ++ take h l.

Lemma length_rot {A} h (l : list A) : length (rot h l) = length l.
Proof. unfold rot. rewrite length_app, length_drop, length_take. lia. Qed.

Lemma rot_0 {A} (l : list A) : rot 0 l = l.
Proof. unfold rot. simpl. rewrite drop_0, app_nil_r. reflexivity. Qed.

Lemma ring_index (h i n : nat) :
  (h < n)%nat -> (i <= n)%nat ->
  ((h + i) mod n = if h + i <? n then h + i else h + i - n)%nat.
Proof.
  intros. destruct (Nat.ltb_spec (h + i) n); [apply Nat.mod_small; lia|].
  destruct (decide (h + i - n < n)%nat); [|lia].
  symmetry. apply (Nat.mod_unique _ _ 1); lia.
Qed.

Lemma ring_index_lt (i n : nat) : (0 < n)%nat -> (i mod n < n)%nat.
Proof. intros. apply Nat.mod_upper_bound. lia. Qed.

Lemma rot_lookup {A} (l : list A) h i :
  (h < length l)%nat -> (i < length l)%nat ->
  rot h l !! i = l !! ((h + i) mod length l)%nat.
Proof.
  intros Hh Hi. rewrite ring_index by lia. unfold rot.
  destruct (Nat.ltb_spec (h + i) (length l)).
  - rewrite lookup_app_l by (rewrite length_drop; lia). apply lookup_drop.
  - rewrite lookup_app_r by (rewrite length_drop; lia). rewrite length_drop.
    rewrite lookup_take_lt by lia. f_equal. lia.
Qed.

Lemma rot_insert {A} (l : list A) h i x :
  (h < length l)%nat -> (i < length l)%nat ->
  rot h (<[((h + i) mod length l)%nat := x]> l) = <[i := x]> (rot h l).
Proof.
  intros Hh Hi. apply list_eq. intros j.
  destruct (decide (j < length l)%nat) as [Hj|Hj].
  2:{ rewrite !lookup_ge_None_2; rewrite ?length_insert, ?length_rot, ?length_insert; auto; lia. }
  rewrite rot_lookup, length_insert by (rewrite length_insert; lia).
  assert (Hm := ring_index_lt (h + i) (length l) ltac:(lia)).
  destruct (decide (i = j)) as [->|Hne].
  - rewrite !list_lookup_insert_eq by (rewrite ?length_rot; lia). reflexivity.
  - rewrite list_lookup_insert_ne, list_lookup_insert_ne, rot_lookup by (try lia;
      rewrite !ring_index by lia; repeat case_if; lia). reflexivity.
Qed.

Lemma rot_advance {A} (l : list A) h k :
  (h < length l)%nat -> (k <= length l)%nat ->
  rot ((h + k) mod length l) l = rot k (rot h l).
Proof.
  intros Hh Hk. rewrite ring_index by lia. unfold rot.
  destruct (Nat.ltb_spec (h + k) (length l)).
  - rewrite drop_app_le, take_app_le, drop_drop by (rewrite length_drop; lia).
    rewrite <- app_assoc. f_equal. rewrite <- (take_take_drop l h k).
    reflexivity.
  - rewrite drop_app_ge, take_app_ge by (rewrite length_drop; lia).
    rewrite length_drop, app_assoc.
    replace (k - (length l - h))%nat with (h + k - length l)%nat by lia.
    set (j := (h + k - length l)%nat). rewrite take_take, Nat.min_l by lia.
    f_equal. rewrite <- (take_drop h l) at 1.
    rewrite drop_app_le by (rewrite length_take; lia). reflexivity.
Qed.

Lemma rot_lookup_total {A} `{Inhabited A} (l : list A) h i :
  (h < length l)%nat -> (i < length l)%nat ->
  l !!! ((h + i) mod length l)%nat = rot h l !!! i.
Proof. intros. rewrite !list_lookup_total_alt, rot_lookup; auto. Qed.

(** * Counting *)

Fixpoint countb {A} (f : A -> bool) (l : list A) : nat :=
  match l with
  | [] => 0
  | x :: l => (if f x then 1 else 0) + countb f l
  end.

Lemma countb_app {A} (f : A -> bool) l1 l2 :
  countb f (l1 ++ l2) = (countb f l1 + countb f l2)%nat.
Proof. induction l1; simpl; [reflexivity|]. rewrite IHl1. lia. Qed.

#[global] Instance countb_permutation {A} (f : A -> bool) : Proper ((≡ₚ) ==> eq) (countb f).
Proof. induction 1; simpl; lia. Qed.

Lemma countb_le {A} (f : A -> bool) l : (countb f l <= length l)%nat.
Proof. induction l; simpl; [lia|]. destruct (f a); lia. Qed.

Lemma countb_zero {A} (f : A -> bool) l x :
  countb f l = 0%nat -> x ∈ l -> f x = false.
Proof.
  intros H Hx. induction Hx; simpl in H; destruct (f _) eqn:E; auto; lia.
Qed.

Lemma lookup_total_middle {A} `{Inhabited A} (l1 l2 : list A) x :
  (l1 ++ x :: l2) !!! length l1 = x.
Proof. rewrite <- (Nat.add_0_r (length l1)), lookup_total_app_add. reflexivity. Qed.

(** Splitting a list at a position in range. *)
Lemma split_index {A} `{Inhabited A} (l : list A) i :
  (i < length l)%nat ->
  l = take i l ++ l !!! i :: drop (S i) l /\ length (take i l) = i.
Proof.
  intros Hi. destruct (lookup_lt_is_Some_2 l i Hi) as [x Hx].
  rewrite (list_lookup_total_correct _ _ _ Hx). split.
  - symmetry. apply take_drop_middle. assumption.
  - rewrite length_take. lia.
Qed.

Lemma countb_filter {A} (f : A -> bool) l : countb f l = length (List.filter f l).
Proof. induction l as [|x l IH]; simpl; [auto|]. rewrite IH. destruct (f x); reflexivity. Qed.

Lemma existsb_false {A} (f : A -> bool) l x : existsb f l = false -> x ∈ l -> f x = false.
Proof.
  intros H Hx. destruct (f x) eqn:E; [|reflexivity].
  rewrite <- H. symmetry. apply existsb_exists. exists x.
  split; [apply list_elem_of_In|]; assumption.
Qed.

(** Replacing one element changes a count or a sum by that element. *)
Lemma insert_split {A} (l : list A) i x y : l !! i = Some x ->
  l = take i l ++ x :: drop (S i) l /\ <[i := y]> l = take i l ++ y :: drop (S i) l.
Proof.
  intros H. split; [symmetry; apply take_drop_middle; assumption|].
  apply insert_take_drop. apply lookup_lt_Some in H. assumption.
Qed.

Lemma countb_insert {A} (f : A -> bool) l i x y : l !! i = Some x ->
  (countb f (<[i := y]> l) + (if f x then 1 else 0) = countb f l + (if f y then 1 else 0))%nat.
Proof.
  intros H. destruct (insert_split l i x y H) as [E1 E2]. rewrite E2. rewrite E1 at 3.
  rewrite !countb_app. simpl. lia.
Qed.

Lemma sum_insert {A} (f : A -> nat) l i x y : l !! i = Some x ->
  (sum_list_with f (<[i := y]> l) + f x = sum_list_with f l + f y)%nat.
Proof.
  intros H. destruct (insert_split l i x y H) as [E1 E2]. rewrite E2. rewrite E1 at 3.
  rewrite !sum_list_with_app. simpl. lia.
Qed.

Lemma sum_lookup_le {A} (f : A -> nat) l i x : l !! i = Some x -> (f x <= sum_list_with f l)%nat.
Proof.
  intros H. destruct (insert_split l i x x H) as [E _]. rewrite E, sum_list_with_app. simpl. lia.
Qed.

(** * Record update *)

(** [setter eta proj] is the function that replaces field [proj]; [eta] is the
    record type's constructor applied to all its projections. *)
Ltac setter eta proj :=
  let e := eval cbv delta [eta] in eta in
  match eval pattern proj in e with
  | ?s _ => let r := eval cbv beta in (fun v => s (fun _ => v)) in exact r
  end.

