(* ===== verification/Sequence.v ===== *)
(** Wrap-aware sequence numbers and timestamps
    (include/robotweax/srt/sequence.hpp). *)
From S2P Require Import Prelude.

Module SequenceNumber.

(** A sequence number is its 31-bit [value_]. *)
Definition t : Type := Z.
Definition mask : Z := 0x7fffffff.
Definition modulus : Z := 0x80000000.
Definition half_range : Z := modulus / 2.

Definition make (value : Z) : t := Z.land value mask.
Definition next (s : t) : t := make (u32 (s + 1)).
Definition advanced (s : t) (count : Z) : t := make (u32 (s + count)).

Definition distance_from (s origin : t) : Z :=
  let forward := Z.land (u32 (s - origin)) mask in
  if half_range <=? forward
  then - i32 (u32 (modulus - forward))
  else i32 forward.

Definition is_after (s other : t) : bool := 0 <? distance_from s other.

(** The class invariant: only the constructor writes [value_]. *)
Definition wf (s : t) : Prop := 0 <= s < modulus.

(** Forward offset of [s] from a reference point, in [0, 2^31). *)
Definition off (base s : t) : Z := (s - base) mod modulus.

(** Replace the class constants by their numerals before arithmetic. *)
Ltac consts :=
  change half_range with 0x40000000 in *; unfold modulus, mask in *.

Lemma make_mod v : make v = v mod modulus.
Proof. apply (Z.land_ones v 31). lia. Qed.

Lemma make_wf v : wf (make v).
Proof. rewrite make_mod. apply Z.mod_pos_bound. reflexivity. Qed.

Lemma make_id s : wf s -> make s = s.
Proof. intros. rewrite make_mod. apply Z.mod_small. assumption. Qed.

Lemma advanced_mod s n : advanced s n = (s + n) mod modulus.
Proof.
  unfold advanced. rewrite make_mod. apply (mod_mod_pow2 _ 31 32). lia.
Qed.

Lemma next_mod s : next s = (s + 1) mod modulus.
Proof. apply advanced_mod. Qed.

Lemma land_u32_mask x : Z.land (u32 x) mask = x mod modulus.
Proof.
  change (make (u32 x) = x mod modulus). rewrite make_mod.
  apply (mod_mod_pow2 _ 31 32). lia.
Qed.

(** The signed distance is the representative of the difference modulo 2^31
    that lies in [-2^30, 2^30). *)
Lemma distance_mod s o :
  distance_from s o =
  let f := (s - o) mod modulus in
  if half_range <=? f then f - modulus else f.
Proof.
  unfold distance_from. rewrite land_u32_mask. cbv zeta.
  pose proof (Z.mod_pos_bound (s - o) modulus eq_refl).
  consts.
  case_if; rewrite ?u32_id by (unfold is_u32; lia); rewrite ?i32_id; lia.
Qed.

Lemma distance_range s o : - half_range <= distance_from s o < half_range.
Proof.
  rewrite distance_mod. cbv zeta.
  pose proof (Z.mod_pos_bound (s - o) modulus eq_refl).
  consts. case_if; lia.
Qed.

Lemma distance_congr s o : (s - o) mod modulus = distance_from s o mod modulus.
Proof.
  rewrite distance_mod. cbv zeta. consts. case_if; zlia.
Qed.

Lemma congr_unique d k :
  - half_range <= d < half_range -> - half_range <= k < half_range ->
  d mod modulus = k mod modulus -> d = k.
Proof.
  consts. intros. zlia.
Qed.

Lemma distance_unique s o k :
  - half_range <= k < half_range -> (s - o) mod modulus = k mod modulus ->
  distance_from s o = k.
Proof.
  intros. apply congr_unique; auto using distance_range.
  rewrite <- distance_congr. assumption.
Qed.

Lemma distance_advanced s k :
  - half_range <= k < half_range -> distance_from (advanced s k) s = k.
Proof.
  intros. apply distance_unique; [assumption|].
  rewrite advanced_mod, Zminus_mod_idemp_l. f_equal. lia.
Qed.

Lemma advanced_distance s o : wf s -> advanced o (distance_from s o) = s.
Proof.
  intros. rewrite advanced_mod, <- Zplus_mod_idemp_r, <- distance_congr.
  rewrite Zplus_mod_idemp_r. replace (o + (s - o)) with s by lia.
  apply Z.mod_small. assumption.
Qed.

Lemma distance_self s : distance_from s s = 0.
Proof. apply distance_unique; [easy|]. f_equal. lia. Qed.

Lemma distance_0 s o : wf s -> wf o -> distance_from s o = 0 -> s = o.
Proof.
  intros Hs Ho H. pose proof (advanced_distance s o Hs) as E.
  rewrite H, advanced_mod, Z.add_0_r, Z.mod_small in E; auto.
Qed.

(** ** Offsets from a reference point *)

Lemma off_range b s : 0 <= off b s < modulus.
Proof. apply Z.mod_pos_bound. reflexivity. Qed.

Lemma off_inj b s t : wf s -> wf t -> off b s = off b t -> s = t.
Proof. unfold wf, off, modulus. intros. zlia. Qed.

(** Within a half-space window, distances are differences of offsets. *)
Lemma distance_off b s o :
  off b s < half_range -> off b o < half_range ->
  distance_from s o = off b s - off b o.
Proof.
  intros. pose proof (off_range b s). pose proof (off_range b o).
  apply distance_unique; [consts; lia|].
  unfold off. rewrite <- Zminus_mod. f_equal. lia.
Qed.

Lemma off_advanced b s n :
  0 <= off b s + n < modulus -> off b (advanced s n) = off b s + n.
Proof.
  intros. unfold off at 1. rewrite advanced_mod, Zminus_mod_idemp_l.
  replace (s + n - b) with ((s - b) + n) by lia.
  rewrite <- Zplus_mod_idemp_l. apply Z.mod_small. assumption.
Qed.

Lemma advanced_prev s : advanced s mask = advanced s (-1).
Proof.
  rewrite !advanced_mod. replace (s + mask) with (s + -1 + 1 * modulus) by (unfold mask, modulus; lia).
  apply Z_mod_plus_full.
Qed.

Lemma off_next b s : off b s + 1 < modulus -> off b (next s) = off b s + 1.
Proof. intros. pose proof (off_range b s). apply off_advanced. lia. Qed.

Lemma off_prev b s : 0 < off b s -> off b (advanced s mask) = off b s - 1.
Proof.
  intros. pose proof (off_range b s). rewrite advanced_prev.
  apply off_advanced. lia.
Qed.

Lemma off_self b : off b b = 0.
Proof. unfold off. rewrite Z.sub_diag. reflexivity. Qed.

Lemma advanced_wf s n : wf (advanced s n).
Proof. apply make_wf. Qed.
Lemma next_wf s : wf (next s).
Proof. apply make_wf. Qed.

#[global] Arguments make : simpl never.
#[global] Arguments next : simpl never.
#[global] Arguments advanced : simpl never.
#[global] Arguments distance_from : simpl never.
#[global] Arguments off : simpl never.

End SequenceNumber.

Module PacketTimestamp.

(** A timestamp is its 32-bit [value_]. *)
Definition t : Type := Z.
Definition wf (s : t) : Prop := is_u32 s.

Definition distance_from (s origin : t) : Z :=
  let forward := u32 (s - origin) in
  if 0x80000000 <=? forward
  then - i64 (u64 (0x100000000 - forward))
  else i64 forward.

Lemma ts_distance_mod s o :
  distance_from s o =
  let f := (s - o) mod 2 ^ 32 in
  if 2 ^ 31 <=? f then f - 2 ^ 32 else f.
Proof.
  unfold distance_from. cbv zeta. change (u32 (s - o)) with ((s - o) mod 2 ^ 32).
  pose proof (Z.mod_pos_bound (s - o) (2 ^ 32) eq_refl).
  change 0x80000000 with (2 ^ 31).
  case_if; rewrite ?u64_id by (unfold is_u64; lia); rewrite ?i64_id; lia.
Qed.

Lemma ts_distance_unique s o k :
  - 2 ^ 31 <= k < 2 ^ 31 -> (s - o) mod 2 ^ 32 = k mod 2 ^ 32 ->
  distance_from s o = k.
Proof. intros. rewrite ts_distance_mod. cbv zeta. case_if; zlia. Qed.

End PacketTimestamp.
