(* ===== verification/Packet.v ===== *)
(** Error codes and wire-level packet descriptors
    (include/robotweax/srt/error.hpp, packet.hpp and the crypto-suite part of
    crypto.hpp). *)
From S2P Require Import Prelude Sequence.

(** ** Errors *)

Module Error.
Inductive t :=
| none | buffer_too_small | packet_too_short | invalid_packet_type
| invalid_control_type | invalid_control_payload | invalid_handshake_size
| invalid_handshake_value | invalid_extension | invalid_state | io_error
| would_block | unsupported | invalid_key_material | cryptographic_failure
| authentication_failure | invalid_payload_size.
#[export] Instance eq_dec : EqDecision t.
Proof. solve_decision. Defined.
End Error.
Export (hints) Error.

(** A result structure is either its payload ([error == none]) or an error. *)
Inductive Result (A : Type) :=
| Ok (a : A)
| Err (e : Error.t).
Arguments Ok {A} _.
Arguments Err {A} _.

(** ** Packet descriptors *)

Definition packet_header_size : nat := 16.
Definition maximum_data_payload_size : nat := 1456.

Module PacketKind.
Inductive t := data | control.
#[export] Instance eq_dec : EqDecision t.
Proof. solve_decision. Defined.
End PacketKind.
Export (hints) PacketKind.

(** Enumerations carry their numeric codes and the cast from a code. *)
Module MessageBoundary.
Inductive t := subsequent | last | first | solo.
Definition code (b : t) : Z :=
  match b with subsequent => 0 | last => 1 | first => 2 | solo => 3 end.
Definition of_code (c : Z) : t :=
  if c =? 0 then subsequent else if c =? 1 then last
  else if c =? 2 then first else solo.
#[export] Instance eq_dec : EqDecision t.
Proof. solve_decision. Defined.
End MessageBoundary.
Export (hints) MessageBoundary.

Module EncryptionKey.
Inductive t := none | even | odd | reserved.
Definition code (k : t) : Z :=
  match k with none => 0 | even => 1 | odd => 2 | reserved => 3 end.
Definition of_code (c : Z) : t :=
  if c =? 0 then none else if c =? 1 then even
  else if c =? 2 then odd else reserved.
#[export] Instance eq_dec : EqDecision t.
Proof. solve_decision. Defined.
End EncryptionKey.
Export (hints) EncryptionKey.

(** This enumeration has a fixed 16-bit underlying type, so an object of it can
    also hold a code without an enumerator: [unlisted]. *)
Module ControlType.
Inductive t :=
| handshake | keepalive | acknowledgement | negative_acknowledgement
| congestion_warning | shutdown | acknowledgement_of_ack | drop_request
| peer_error | user_defined | unlisted (c : Z).
Definition code (t : t) : Z :=
  match t with
  | handshake => 0x0000 | keepalive => 0x0001 | acknowledgement => 0x0002
  | negative_acknowledgement => 0x0003 | congestion_warning => 0x0004
  | shutdown => 0x0005 | acknowledgement_of_ack => 0x0006
  | drop_request => 0x0007 | peer_error => 0x0008 | user_defined => 0x7fff
  | unlisted c => c
  end.
Definition of_code (c : Z) : t :=
  if c =? 0 then handshake else if c =? 1 then keepalive
  else if c =? 2 then acknowledgement else if c =? 3 then negative_acknowledgement
  else if c =? 4 then congestion_warning else if c =? 5 then shutdown
  else if c =? 6 then acknowledgement_of_ack else if c =? 7 then drop_request
  else if c =? 8 then peer_error else if c =? 0x7fff then user_defined
  else unlisted c.
#[export] Instance eq_dec : EqDecision t.
Proof. solve_decision. Defined.

(** An [unlisted] code is a 16-bit code that no enumerator has. *)
Definition wf (t : t) : Prop :=
  match t with unlisted c => of_code c = t /\ is_u16 c | _ => True end.
End ControlType.
Export (hints) ControlType.

Record DataHeader := {
  sequence : SequenceNumber.t;
  message_number : Z;
  boundary : MessageBoundary.t;
  in_order : bool;
  encryption_key : EncryptionKey.t;
  retransmitted : bool;
  timestamp : PacketTimestamp.t;
  destination_socket_id : Z;
}.

Record ControlHeader := {
  ctype : ControlType.t;
  subtype : Z;
  type_specific : Z;
  ctimestamp : PacketTimestamp.t;
  cdestination_socket_id : Z;
}.

Definition default_data_header : DataHeader :=
  {| sequence := 0; message_number := 0; boundary := MessageBoundary.subsequent;
     in_order := false; encryption_key := EncryptionKey.none; retransmitted := false;
     timestamp := 0; destination_socket_id := 0 |}.

Definition default_control_header : ControlHeader :=
  {| ctype := ControlType.handshake; subtype := 0; type_specific := 0; ctimestamp := 0;
     cdestination_socket_id := 0 |}.

(** [PacketView] and [MutablePacketView] have the same fields; the borrowed
    payload span is the byte list it denotes. *)
Record PacketView := {
  kind : PacketKind.t;
  data : DataHeader;
  control : ControlHeader;
  payload : list Z;
}.

Definition has_valid_control_payload_shape (payload : list Z) : bool :=
  negb (length payload =? 0)%nat && (length payload mod 4 =? 0)%nat.

Definition control_uses_zero_word_payload (type : ControlType.t) : bool :=
  match type with
  | ControlType.keepalive | ControlType.congestion_warning
  | ControlType.shutdown | ControlType.acknowledgement_of_ack
  | ControlType.peer_error => true
  | _ => false
  end.

Fixpoint all_zero (l : list Z) : bool :=
  match l with
  | [] => true
  | value :: rest => if negb (value =? 0) then false else all_zero rest
  end.

Definition is_zero_word_payload (payload : list Z) : bool :=
  if negb (length payload =? 4)%nat then false else all_zero payload.

(** ** Cipher suites and payload budgets *)

Module CryptoMode.
Inductive t := automatic | aes_ctr | aes_gcm.
#[export] Instance eq_dec : EqDecision t.
Proof. solve_decision. Defined.
End CryptoMode.
Export (hints) CryptoMode.

Module KeyMaterialCipher.
Inductive t := none | aes_ctr | aes_gcm.
End KeyMaterialCipher.

Module KeyMaterialAuthentication.
Inductive t := none | aes_gcm.
End KeyMaterialAuthentication.

Record CryptoSuite := {
  suite_mode : CryptoMode.t;
  suite_cipher : KeyMaterialCipher.t;
  suite_authentication : KeyMaterialAuthentication.t;
  initialization_vector_size : nat;
  suite_tag_size : nat;
}.

Definition aes_ctr_crypto_suite : CryptoSuite :=
  {| suite_mode := CryptoMode.aes_ctr;
     suite_cipher := KeyMaterialCipher.aes_ctr;
     suite_authentication := KeyMaterialAuthentication.none; initialization_vector_size := 16;
     suite_tag_size := 0 |}.

Definition aes_gcm_crypto_suite : CryptoSuite :=
  {| suite_mode := CryptoMode.aes_gcm;
     suite_cipher := KeyMaterialCipher.aes_gcm;
     suite_authentication := KeyMaterialAuthentication.aes_gcm; initialization_vector_size := 12;
     suite_tag_size := 16 |}.

Definition crypto_suite_for_mode (mode : CryptoMode.t) : option CryptoSuite :=
  match mode with
  | CryptoMode.aes_ctr => Some aes_ctr_crypto_suite
  | CryptoMode.aes_gcm => Some aes_gcm_crypto_suite
  | CryptoMode.automatic => None
  end.

Record CryptoPayloadBudget := {
  budget_error : Error.t;
  maximum_datagram_payload_size : nat;
  packet_filter_overhead_size : nat;
  authentication_tag_size : nat;
  maximum_wire_payload_size : nat;
  maximum_plaintext_payload_size : nat;
}.

Definition budget_failure (e : Error.t) : CryptoPayloadBudget :=
  {| budget_error := e; maximum_datagram_payload_size := 0;
     packet_filter_overhead_size := 0; authentication_tag_size := 0;
     maximum_wire_payload_size := 0; maximum_plaintext_payload_size := 0 |}.

Definition make_crypto_payload_budget (effective_mode : CryptoMode.t)
    (maximum_segment_size transport_overhead_size filter_overhead : nat)
    : CryptoPayloadBudget :=
  match crypto_suite_for_mode effective_mode with
  | None => budget_failure Error.unsupported
  | Some suite =>
    if (maximum_segment_size <=? transport_overhead_size)%nat
    then budget_failure Error.invalid_state
    else
      let transport_payload_size :=
        (maximum_segment_size - transport_overhead_size)%nat in
      let datagram_payload_size :=
        if (transport_payload_size <? maximum_data_payload_size)%nat
        then transport_payload_size else maximum_data_payload_size in
      if (datagram_payload_size <=? filter_overhead)%nat
      then budget_failure Error.invalid_state
      else
        let wire_payload_size := (datagram_payload_size - filter_overhead)%nat in
        if (wire_payload_size <=? suite_tag_size suite)%nat
        then budget_failure Error.invalid_state
        else
          {| budget_error := Error.none;
             maximum_datagram_payload_size := datagram_payload_size;
             packet_filter_overhead_size := filter_overhead;
             authentication_tag_size := suite_tag_size suite;
             maximum_wire_payload_size := wire_payload_size;
             maximum_plaintext_payload_size :=
               (wire_payload_size - suite_tag_size suite)%nat |}
  end.

(** ** Codes and casts are inverse *)

Lemma boundary_of_code_code b : MessageBoundary.of_code (MessageBoundary.code b) = b.
Proof. destruct b; reflexivity. Qed.
Lemma key_of_code_code k : EncryptionKey.of_code (EncryptionKey.code k) = k.
Proof. destruct k; reflexivity. Qed.
Lemma boundary_code_range b : 0 <= MessageBoundary.code b < 4.
Proof. destruct b; simpl; lia. Qed.
Lemma key_code_range k : 0 <= EncryptionKey.code k < 4.
Proof. destruct k; simpl; lia. Qed.
Lemma boundary_code_of_code c :
  0 <= c < 4 -> MessageBoundary.code (MessageBoundary.of_code c) = c.
Proof. intros. unfold MessageBoundary.of_code. repeat case_if; simpl; lia. Qed.
Lemma key_code_of_code c :
  0 <= c < 4 -> EncryptionKey.code (EncryptionKey.of_code c) = c.
Proof. intros. unfold EncryptionKey.of_code. repeat case_if; simpl; lia. Qed.
Lemma control_code_of_code c : ControlType.code (ControlType.of_code c) = c.
Proof. unfold ControlType.of_code. repeat case_if; simpl; congruence. Qed.
Lemma control_of_code_code t :
  ControlType.wf t -> ControlType.of_code (ControlType.code t) = t.
Proof. destruct t; simpl; tauto. Qed.
#[export] Hint Rewrite boundary_of_code_code key_of_code_code control_code_of_code : srt.
Lemma control_code_nonneg t : ControlType.wf t -> 0 <= ControlType.code t.
Proof. destruct t; simpl; unfold is_u16; lia. Qed.
Lemma control_of_code_wf c : is_u16 c -> ControlType.wf (ControlType.of_code c).
Proof.
  intros Hc. pose proof (control_code_of_code c) as E.
  destruct (ControlType.of_code c) eqn:Ht; simpl in *; auto. subst. auto.
Qed.
