(* ===== verification/Codec.v ===== *)
(** The SRT packet codec (src/codec.cpp, include/robotweax/srt/codec.hpp). *)
From S2P Require Import Prelude Sequence Packet.

(** ** Network-order words *)

Definition shl32 (x n : Z) : Z := u32 (Z.shiftl x n).

(** [read_u32(bytes + at)]; the callers have checked the size. *)
Definition read_u32 (bytes : list Z) (at_ : nat) : Z :=
  Z.lor (Z.lor (Z.lor (shl32 (bytes !!! at_) 24)
                      (shl32 (bytes !!! (at_ + 1)%nat) 16))
               (shl32 (bytes !!! (at_ + 2)%nat) 8))
        (bytes !!! (at_ + 3)%nat).

Definition word_bytes (value : Z) : list Z :=
  [Z.land (Z.shiftr value 24) 0xff; Z.land (Z.shiftr value 16) 0xff;
   Z.land (Z.shiftr value 8) 0xff; Z.land value 0xff].

(** [write_u32(bytes + at, value)] stores four bytes in place. *)
Definition write_u32 (bytes : list Z) (at_ : nat) (value : Z) : list Z :=
  overwrite at_ (word_bytes value) bytes.

Definition is_known_control_type (type : Z) : bool :=
  (type <=? ControlType.code ControlType.peer_error) || (type =? ControlType.code ControlType.user_defined).

(** ** Packets *)

Definition decode_packet (bytes : list Z) : Result PacketView :=
  if (length bytes <? packet_header_size)%nat then Err Error.packet_too_short
  else
    let word0 := read_u32 bytes 0 in
    let word1 := read_u32 bytes 4 in
    let timestamp := read_u32 bytes 8 in
    let socket_id := read_u32 bytes 12 in
    let payload := drop packet_header_size bytes in
    if Z.land word0 0x80000000 =? 0 then
      Ok {| kind := PacketKind.data;
            data := {|
              sequence := SequenceNumber.make word0;
              boundary := MessageBoundary.of_code (Z.land (Z.shiftr word1 30) 0x3);
              in_order := negb (Z.land (Z.shiftr word1 29) 0x1 =? 0);
              encryption_key := EncryptionKey.of_code (Z.land (Z.shiftr word1 27) 0x3);
              retransmitted := negb (Z.land (Z.shiftr word1 26) 0x1 =? 0);
              message_number := Z.land word1 0x03ffffff;
              timestamp := timestamp;
              destination_socket_id := socket_id |};
            control := default_control_header;
            payload := payload |}
    else
      let type := u16 (Z.land (Z.shiftr word0 16) 0x7fff) in
      if negb (is_known_control_type type) then Err Error.invalid_control_type
      else if negb (has_valid_control_payload_shape payload)
      then Err Error.invalid_control_payload
      else
        Ok {| kind := PacketKind.control;
              data := default_data_header;
              control := {|
                ctype := ControlType.of_code type;
                subtype := u16 (Z.land word0 0xffff);
                type_specific := word1;
                ctimestamp := timestamp;
                cdestination_socket_id := socket_id |};
              payload := payload |}.

Definition add_zero_word (packet : PacketView) : bool :=
  match kind packet with
  | PacketKind.control =>
      (length (payload packet) =? 0)%nat
      && control_uses_zero_word_payload (ctype (control packet))
  | PacketKind.data => false
  end.

(** The words of the fixed header, or the error of an unlisted control type. *)
Definition header_words (packet : PacketView) : Result (Z * Z * Z * Z) :=
  match kind packet with
  | PacketKind.data =>
      let d := data packet in
      Ok (sequence d,
          Z.lor (Z.lor (Z.lor (Z.lor
            (shl32 (MessageBoundary.code (boundary d)) 30)
            (shl32 (Z.b2z (in_order d)) 29))
            (shl32 (EncryptionKey.code (encryption_key d)) 27))
            (shl32 (Z.b2z (retransmitted d)) 26))
            (Z.land (message_number d) 0x03ffffff),
          timestamp d,
          destination_socket_id d)
  | PacketKind.control =>
      let c := control packet in
      let type := ControlType.code (ctype c) in
      if negb (is_known_control_type type) then Err Error.invalid_control_type
      else
        Ok (Z.lor (Z.lor 0x80000000 (shl32 type 16)) (subtype c),
            type_specific c, ctimestamp c, cdestination_socket_id c)
  end.

(** Returns the result and the destination storage after the call. *)
Definition encode_packet (packet : PacketView) (destination : list Z)
    : Result nat * list Z :=
  let add_zero := add_zero_word packet in
  let payload_size := if add_zero then 4%nat else length (payload packet) in
  let required := (packet_header_size + payload_size)%nat in
  if (length destination <? required)%nat then (Err Error.buffer_too_small, destination)
  else
    match header_words packet with
    | Err e => (Err e, destination)
    | Ok (word0, word1, timestamp, socket_id) =>
        let destination := write_u32 destination 0 word0 in
        let destination := write_u32 destination 4 word1 in
        let destination := write_u32 destination 8 timestamp in
        let destination := write_u32 destination 12 socket_id in
        let destination :=
          overwrite packet_header_size (payload packet) destination in
        let destination :=
          if add_zero then overwrite packet_header_size [0; 0; 0; 0] destination
          else destination in
        (Ok required, destination)
    end.

(** ** Protected payloads *)

Record ProtectedPayloadView := {
  ciphertext : list Z;
  authentication_tag : list Z;
}.

Definition decode_protected_payload (protected : list Z)
    (budget : CryptoPayloadBudget) : Result ProtectedPayloadView :=
  if bool_decide (budget_error budget = Error.none) then
    if (length protected <? authentication_tag_size budget)%nat
       || (maximum_wire_payload_size budget <? length protected)%nat
    then Err Error.invalid_payload_size
    else
      let ciphertext_size :=
        (length protected - authentication_tag_size budget)%nat in
      if (maximum_plaintext_payload_size budget <? ciphertext_size)%nat
      then Err Error.invalid_payload_size
      else Ok {| ciphertext := take ciphertext_size protected;
                 authentication_tag := drop ciphertext_size protected |}
  else Err (budget_error budget).

(** The output spans are (offset, length) pairs into the destination. *)
Record ProtectedPayloadLayout := {
  ciphertext_span : nat * nat;
  tag_span : nat * nat;
  protected_bytes : nat;
}.

Definition prepare_protected_payload (destination_size plaintext_size : nat)
    (budget : CryptoPayloadBudget) : Result ProtectedPayloadLayout :=
  if bool_decide (budget_error budget = Error.none) then
    if (maximum_plaintext_payload_size budget <? plaintext_size)%nat
    then Err Error.invalid_payload_size
    else
      let protected_size := (plaintext_size + authentication_tag_size budget)%nat in
      if (maximum_wire_payload_size budget <? protected_size)%nat
      then Err Error.invalid_payload_size
      else if (destination_size <? protected_size)%nat
      then Err Error.buffer_too_small
      else Ok {| ciphertext_span := (0%nat, plaintext_size);
                 tag_span := (plaintext_size, authentication_tag_size budget);
                 protected_bytes := protected_size |}
  else Err (budget_error budget).

(** * Words *)

Lemma shl32_small x n :
  0 <= n -> 0 <= x -> x * 2 ^ n < 2 ^ 32 -> shl32 x n = x * 2 ^ n.
Proof.
  intros. unfold shl32. rewrite Z.shiftl_mul_pow2 by assumption.
  apply u32_id. split; [|assumption]. apply Z.mul_nonneg_nonneg; [lia|].
  apply Z.pow_nonneg. lia.
Qed.

Lemma be_word a b c d :
  is_u8 a -> is_u8 b -> is_u8 c -> is_u8 d ->
  Z.lor (Z.lor (Z.lor (shl32 a 24) (shl32 b 16)) (shl32 c 8)) d =
  a * 2 ^ 24 + b * 2 ^ 16 + c * 2 ^ 8 + d.
Proof.
  unfold is_u8. intros. rewrite !shl32_small by lia.
  rewrite (lor_add _ (b * 2 ^ 16) 24) by zlia.
  rewrite (lor_add _ (c * 2 ^ 8) 16) by zlia.
  rewrite (lor_add _ d 8) by zlia. reflexivity.
Qed.

Lemma word_bytes_div v :
  word_bytes v =
  [v / 2 ^ 24 mod 2 ^ 8; v / 2 ^ 16 mod 2 ^ 8; v / 2 ^ 8 mod 2 ^ 8; v mod 2 ^ 8].
Proof.
  unfold word_bytes. change 0xff with (Z.ones 8).
  rewrite !Z.land_ones, !Z.shiftr_div_pow2 by lia. reflexivity.
Qed.

Lemma word_bytes_u8 v : Forall is_u8 (word_bytes v).
Proof.
  rewrite word_bytes_div. repeat constructor; apply Z.mod_pos_bound; lia.
Qed.

Lemma length_word_bytes v : length (word_bytes v) = 4%nat.
Proof. reflexivity. Qed.

Lemma read_u32_app p q i : read_u32 (p ++ q) (length p + i) = read_u32 q i.
Proof.
  unfold read_u32. rewrite <- !Nat.add_assoc, !lookup_total_app_add. reflexivity.
Qed.

Lemma read_word_bytes v r : is_u32 v -> read_u32 (word_bytes v ++ r) 0 = v.
Proof.
  intros Hv. unfold read_u32. rewrite word_bytes_div. simpl.
  rewrite be_word by (apply Z.mod_pos_bound; lia).
  unfold is_u32 in Hv. zlia.
Qed.

Lemma word_bytes_read a b c d r :
  Forall is_u8 [a; b; c; d] ->
  word_bytes (read_u32 (a :: b :: c :: d :: r) 0) = [a; b; c; d].
Proof.
  intros H. repeat (apply Forall_cons in H as [? H]). unfold read_u32. simpl.
  rewrite be_word by assumption. rewrite word_bytes_div. unfold is_u8 in *.
  repeat f_equal; zlia.
Qed.

Lemma read_u32_is_u32 a b c d r :
  Forall is_u8 [a; b; c; d] -> is_u32 (read_u32 (a :: b :: c :: d :: r) 0).
Proof.
  intros H. repeat (apply Forall_cons in H as [? H]). unfold read_u32. simpl.
  rewrite be_word by assumption. unfold is_u8, is_u32 in *. lia.
Qed.

#[global] Arguments read_u32 : simpl never.
#[global] Arguments write_u32 : simpl never.
#[global] Arguments word_bytes : simpl never.

(** * The fixed header as four words *)

Definition header_bytes (w : Z * Z * Z * Z) : list Z :=
  let '(w0, w1, w2, w3) := w in
  word_bytes w0 ++ word_bytes w1 ++ word_bytes w2 ++ word_bytes w3.

Lemma split_at {A} n (l : list A) :
  (n <= length l)%nat -> exists p r, l = p ++ r /\ length p = n.
Proof.
  intros. exists (take n l), (drop n l).
  split; [symmetry; apply take_drop | rewrite length_take; lia].
Qed.

Lemma length_header_bytes w : length (header_bytes w) = 16%nat.
Proof. destruct w as [[[]]]. reflexivity. Qed.

Lemma header_writes w0 w1 w2 w3 destination :
  (16 <= length destination)%nat ->
  write_u32 (write_u32 (write_u32 (write_u32 destination 0 w0) 4 w1) 8 w2) 12 w3 =
  header_bytes (w0, w1, w2, w3) ++ drop 16 destination.
Proof.
  intros. destruct (split_at 16 destination) as (h & t & -> & Hh); [assumption|].
  do 16 (destruct h as [|? h]; [discriminate Hh|]).
  destruct h; [|discriminate Hh]. reflexivity.
Qed.

Definition encoded_payload (packet : PacketView) : list Z :=
  if add_zero_word packet then [0; 0; 0; 0] else payload packet.

(** A successful encoding is the header, the payload (or the canonical zero
    word), and the untouched rest of the destination. *)
Lemma encode_packet_ok packet destination w :
  header_words packet = Ok w ->
  (packet_header_size + length (encoded_payload packet) <= length destination)%nat ->
  encode_packet packet destination =
  (Ok (packet_header_size + length (encoded_payload packet))%nat,
   header_bytes w ++ encoded_payload packet
   ++ drop (packet_header_size + length (encoded_payload packet)) destination).
Proof.
  intros Hw Hlen. destruct w as [[[w0 w1] w2] w3].
  unfold encode_packet, encoded_payload in *. rewrite Hw.
  assert (Hz : add_zero_word packet = true -> payload packet = []).
  { unfold add_zero_word. destruct (kind packet); [discriminate|].
    intros; b2p. destruct (payload packet); [reflexivity|discriminate]. }
  set (n := length (if add_zero_word packet then [0; 0; 0; 0] else payload packet)) in *.
  replace (if add_zero_word packet then 4%nat else length (payload packet)) with n
    by (unfold n; destruct (add_zero_word packet); reflexivity).
  assert ((length destination <? packet_header_size + n)%nat = false) as ->
    by (apply Nat.ltb_ge; assumption).
  f_equal. rewrite header_writes by (unfold packet_header_size in *; lia).
  unfold packet_header_size in *.
  set (h := header_bytes _). assert (Hh : length h = 16%nat) by reflexivity.
  rewrite <- Hh, <- drop_drop, !overwrite_app. unfold n.
  destruct (add_zero_word packet); [rewrite Hz by reflexivity|]; reflexivity.
Qed.

(** * Round trips *)

(** What an SRT packet descriptor may hold: field widths, an enumerated control
    type, and whole control words (possibly none for the zero-word controls). *)
Definition packet_wf (p : PacketView) : Prop :=
  match kind p with
  | PacketKind.data =>
      SequenceNumber.wf (sequence (data p)) /\ 0 <= message_number (data p) < 2 ^ 26 /\
      is_u32 (timestamp (data p)) /\ is_u32 (destination_socket_id (data p)) /\
      control p = default_control_header
  | PacketKind.control =>
      data p = default_data_header /\
      ControlType.wf (ctype (control p)) /\
      is_known_control_type (ControlType.code (ctype (control p))) = true /\
      is_u16 (subtype (control p)) /\ is_u32 (type_specific (control p)) /\
      is_u32 (ctimestamp (control p)) /\ is_u32 (cdestination_socket_id (control p)) /\
      has_valid_control_payload_shape (encoded_payload p) = true
  end.

Lemma data_word1 b io ek rt mn :
  0 <= b < 4 -> 0 <= ek < 4 ->
  Z.lor (Z.lor (Z.lor (Z.lor (shl32 b 30) (shl32 (Z.b2z io) 29)) (shl32 ek 27))
               (shl32 (Z.b2z rt) 26)) (Z.land mn 0x03ffffff) =
  b * 2 ^ 30 + Z.b2z io * 2 ^ 29 + ek * 2 ^ 27 + Z.b2z rt * 2 ^ 26 + mn mod 2 ^ 26.
Proof.
  intros. change 0x03ffffff with (Z.ones 26). rewrite Z.land_ones by lia.
  assert (0 <= Z.b2z io <= 1 /\ 0 <= Z.b2z rt <= 1) by (destruct io, rt; simpl; lia).
  pose proof (Z.mod_pos_bound mn (2 ^ 26) ltac:(lia)).
  rewrite !shl32_small by lia.
  rewrite (lor_add _ (Z.b2z io * 2 ^ 29) 30) by zlia.
  rewrite (lor_add _ (ek * 2 ^ 27) 29) by zlia.
  rewrite (lor_add _ (Z.b2z rt * 2 ^ 26) 27) by zlia.
  rewrite (lor_add _ (mn mod 2 ^ 26) 26) by zlia. reflexivity.
Qed.

Lemma control_word0 type sub :
  0 <= type < 2 ^ 15 -> is_u16 sub ->
  Z.lor (Z.lor 0x80000000 (shl32 type 16)) sub = 2 ^ 31 + type * 2 ^ 16 + sub.
Proof.
  unfold is_u16. intros. rewrite shl32_small by lia.
  rewrite (lor_add _ (type * 2 ^ 16) 31) by zlia.
  rewrite (lor_add _ sub 16) by zlia. reflexivity.
Qed.

Lemma known_type_range type :
  0 <= type -> is_known_control_type type = true -> 0 <= type < 2 ^ 15.
Proof. unfold is_known_control_type. simpl. intros. b2p; lia. Qed.

(** Extraction of a bit field from a word. *)
Lemma field w s n : 0 <= s -> 0 <= n ->
  Z.land (Z.shiftr w s) (Z.ones n) = w / 2 ^ s mod 2 ^ n.
Proof. intros. rewrite Z.land_ones, Z.shiftr_div_pow2; auto. Qed.

Lemma control_bit w : is_u32 w -> (Z.land w 0x80000000 =? 0) = (w <? 2 ^ 31).
Proof.
  unfold is_u32. intros Hw.
  assert (E : Z.land w 0x80000000 = w / 2 ^ 31 * 2 ^ 31).
  { change 0x80000000 with (Z.shiftl (Z.ones 1) 31).
    rewrite <- Z.shiftl_mul_pow2, <- (Z.mod_small (w / 2 ^ 31) (2 ^ 1)), <- field by zlia.
    apply Z.bits_inj'. intros i Hi.
    rewrite Z.land_spec, !Z.shiftl_spec, Z.land_spec by assumption.
    destruct (Z.lt_ge_cases i 31).
    - rewrite !(Z.testbit_neg_r _ (i - 31)), andb_false_r by lia. reflexivity.
    - rewrite Z.shiftr_spec by lia. repeat f_equal. lia. }
  rewrite E. destruct (Z.ltb_spec w (2 ^ 31)); apply Z.eqb_eq || apply Z.eqb_neq; zlia.
Qed.

Definition words_u32 (w : Z * Z * Z * Z) : Prop :=
  let '(w0, w1, w2, w3) := w in is_u32 w0 /\ is_u32 w1 /\ is_u32 w2 /\ is_u32 w3.

Lemma read_header w0 w1 w2 w3 r :
  words_u32 (w0, w1, w2, w3) ->
  let b := header_bytes (w0, w1, w2, w3) ++ r in
  read_u32 b 0 = w0 /\ read_u32 b 4 = w1 /\ read_u32 b 8 = w2 /\ read_u32 b 12 = w3.
Proof.
  intros (? & ? & ? & ?). simpl header_bytes.
  repeat split.
  - exact (read_word_bytes w0 _ ltac:(assumption)).
  - etransitivity; [|apply (read_word_bytes w1 (word_bytes w2 ++ word_bytes w3 ++ r)); assumption].
    apply (read_u32_app (word_bytes w0) _ 0).
  - etransitivity; [|apply (read_word_bytes w2 (word_bytes w3 ++ r)); assumption].
    apply (read_u32_app (word_bytes w0 ++ word_bytes w1) _ 0).
  - etransitivity; [|apply (read_word_bytes w3 r); assumption].
    apply (read_u32_app (word_bytes w0 ++ word_bytes w1 ++ word_bytes w2) _ 0).
Qed.

(** Any 16 bytes are the header of some four words. *)
Lemma header_of_bytes h :
  length h = 16%nat -> Forall is_u8 h ->
  exists w, h = header_bytes w /\ words_u32 w.
Proof.
  intros Hl Hb. do 16 (destruct h as [|? h]; [discriminate Hl|]).
  destruct h; [|discriminate Hl]. clear Hl.
  repeat (apply Forall_cons in Hb as [? Hb]).
  eexists (read_u32 [z; z0; z1; z2] 0, read_u32 [z3; z4; z5; z6] 0,
           read_u32 [z7; z8; z9; z10] 0, read_u32 [z11; z12; z13; z14] 0).
  split; [|repeat split; apply read_u32_is_u32; auto].
  unfold header_bytes. rewrite !word_bytes_read by auto. reflexivity.
Qed.

Lemma header_words_u32 p w : packet_wf p -> header_words p = Ok w -> words_u32 w.
Proof.
  unfold packet_wf, header_words. destruct (kind p).
  - intros (Hs & Hm & Ht & Hd & _) [= <-]. repeat split; try apply Ht; try apply Hd.
    1, 2: unfold SequenceNumber.wf, SequenceNumber.modulus in Hs; lia.
    all: rewrite data_word1 by (apply boundary_code_range || apply key_code_range).
    all: pose proof (boundary_code_range (boundary (data p)));
         pose proof (key_code_range (encryption_key (data p)));
         pose proof (Z.mod_pos_bound (message_number (data p)) (2 ^ 26) ltac:(lia));
         destruct (in_order (data p)), (retransmitted (data p)); simpl Z.b2z; lia.
  - intros (_ & Hw & Hk & Hs & ? & ? & ? & _). rewrite Hk. intros [= <-].
    pose proof (known_type_range _ (control_code_nonneg _ Hw) Hk).
    split; [|tauto]. rewrite control_word0 by assumption.
    unfold is_u16, is_u32 in *. lia.
Qed.

Lemma header_words_ok p : packet_wf p -> exists w, header_words p = Ok w.
Proof.
  unfold packet_wf, header_words. destruct (kind p); [eauto|].
  intros (_ & _ & -> & _). eauto.
Qed.

Definition with_payload (p : PacketView) (bytes : list Z) : PacketView :=
  {| kind := kind p; data := data p; control := control p; payload := bytes |}.

Lemma b2z_nonzero b : negb (Z.b2z b =? 0) = b.
Proof. destruct b; reflexivity. Qed.

(** Decoding the words of a well-formed packet gives the packet back. *)
Lemma decode_header_words p w :
  packet_wf p -> header_words p = Ok w ->
  decode_packet (header_bytes w ++ encoded_payload p) =
  Ok (with_payload p (encoded_payload p)).
Proof.
  intros Hp Hw. pose proof (header_words_u32 p w Hp Hw) as Hu.
  destruct w as [[[w0 w1] w2] w3]. unfold decode_packet.
  rewrite length_app, length_header_bytes.
  change (16 + ?n <? packet_header_size)%nat with false. cbv zeta.
  destruct (read_header _ _ _ _ (encoded_payload p) Hu) as (-> & -> & -> & ->).
  change (drop packet_header_size ?l) with (encoded_payload p).
  destruct Hu as (Hw0 & _). rewrite control_bit by assumption. clear Hw0.
  change 0x3 with (Z.ones 2). change 0x1 with (Z.ones 1).
  change 0x03ffffff with (Z.ones 26). change 0x7fff with (Z.ones 15).
  change 0xffff with (Z.ones 16). rewrite !field, !Z.land_ones by lia.
  unfold packet_wf, header_words, with_payload in *.
  destruct p as [k d c pl]; simpl in *. destruct k.
  - destruct Hp as (Hs & Hm & _ & _ & ->). injection Hw as <- <- <- <-.
    rewrite data_word1 by (apply boundary_code_range || apply key_code_range).
    rewrite SequenceNumber.make_id by assumption.
    pose proof (boundary_code_range (boundary d)). pose proof (key_code_range (encryption_key d)).
    rewrite (Z.mod_small (message_number d)) by assumption.
    replace (sequence d <? 2 ^ 31) with true
      by (symmetry; apply Z.ltb_lt; apply Hs).
    destruct d as [s mn bo io ek rt ts ds]; simpl in *.
    assert (0 <= Z.b2z io <= 1 /\ 0 <= Z.b2z rt <= 1) by (destruct io, rt; simpl; lia).
    do 2 f_equal. f_equal.
    + zlia.
    + rewrite <- (boundary_of_code_code bo) at 2. f_equal. zlia.
    + rewrite <- (b2z_nonzero io) at 2. do 2 f_equal. zlia.
    + rewrite <- (key_of_code_code ek) at 2. f_equal. zlia.
    + rewrite <- (b2z_nonzero rt) at 2. do 2 f_equal. zlia.
  - destruct Hp as (-> & Ht & Hk & Hs & _ & _ & _ & Hshape).
    rewrite Hk in Hw. injection Hw as <- <- <- <-.
    pose proof (known_type_range _ (control_code_nonneg _ Ht) Hk).
    rewrite control_word0 by assumption.
    set (cd := ControlType.code (ctype c)) in *.
    replace ((2 ^ 31 + cd * 2 ^ 16 + subtype c) / 2 ^ 16 mod 2 ^ 15) with cd
      by (unfold is_u16 in *; zlia).
    replace ((2 ^ 31 + cd * 2 ^ 16 + subtype c) mod 2 ^ 16) with (subtype c)
      by (unfold is_u16 in *; zlia).
    unfold u16. rewrite (Z.mod_small cd), (Z.mod_small (subtype c)) by (unfold is_u16 in *; lia).
    replace (2 ^ 31 + cd * 2 ^ 16 + subtype c <? 2 ^ 31) with false
      by (symmetry; apply Z.ltb_ge; unfold is_u16 in *; lia).
    rewrite Hk, Hshape. unfold cd. rewrite control_of_code_code by assumption.
    destruct c; reflexivity.
Qed.

Lemma has_shape_nonempty l :
  has_valid_control_payload_shape l = true -> l <> [].
Proof. intros H ->. discriminate H. Qed.

(** What a successful decoding says about its input. *)
Lemma decode_packet_ok bytes v :
  Forall is_u8 bytes -> decode_packet bytes = Ok v ->
  exists w, header_words v = Ok w /\ packet_wf v /\
    encoded_payload v = payload v /\ bytes = header_bytes w ++ payload v.
Proof.
  intros Hb Hd. unfold decode_packet in Hd.
  destruct (Nat.ltb_spec (length bytes) packet_header_size); [discriminate|].
  destruct (split_at 16 bytes) as (h & r & -> & Hh); [assumption|].
  apply Forall_app in Hb as [Hb _].
  destruct (header_of_bytes h Hh Hb) as (w & -> & Hu).
  destruct w as [[[w0 w1] w2] w3]. cbv zeta in Hd.
  destruct (read_header _ _ _ _ r Hu) as (E0 & E1 & E2 & E3).
  rewrite E0, E1, E2, E3 in Hd. clear E0 E1 E2 E3.
  change (drop packet_header_size ?l) with r in Hd.
  exists (w0, w1, w2, w3). destruct Hu as (H0 & H1 & H2 & H3).
  rewrite control_bit in Hd by assumption. revert Hd.
  change 0x3 with (Z.ones 2). change 0x1 with (Z.ones 1).
  change 0x03ffffff with (Z.ones 26). change 0x7fff with (Z.ones 15).
  change 0xffff with (Z.ones 16). rewrite !field, !Z.land_ones by lia.
  unfold u16. unfold is_u32 in *.
  destruct (Z.ltb_spec w0 (2 ^ 31)).
  - intros [= <-]. unfold header_words, packet_wf, encoded_payload; simpl.
    repeat split; auto; try (apply SequenceNumber.make_wf || lia || zlia).
    match goal with |- Ok (?a, ?b, _, _) = _ =>
      assert (a = w0) as ->; [|assert (b = w1) as ->; [|reflexivity]] end.
    + apply SequenceNumber.make_id. unfold SequenceNumber.wf, SequenceNumber.modulus. lia.
    + rewrite data_word1 by (apply boundary_code_range || apply key_code_range).
      rewrite boundary_code_of_code, key_code_of_code by (apply Z.mod_pos_bound; lia).
      assert (Hbit : forall x, Z.b2z (negb (x mod 2 ^ 1 =? 0)) = x mod 2 ^ 1).
      { intros x. destruct (Z.eqb_spec (x mod 2 ^ 1) 0); simpl; zlia. }
      rewrite !Hbit. zlia.
  - rewrite (Z.mod_small (w0 / 2 ^ 16 mod 2 ^ 15)) by zlia. rewrite Zmod_mod.
    destruct (is_known_control_type (w0 / 2 ^ 16 mod 2 ^ 15)) eqn:Hk; [|discriminate].
    destruct (has_valid_control_payload_shape r) eqn:Hr; [|discriminate]. simpl negb. cbv iota.
    intros [= <-]. unfold header_words, packet_wf, encoded_payload, add_zero_word; simpl.
    rewrite control_code_of_code, Hk.
    assert ((length r =? 0)%nat = false) as ->
      by (apply Nat.eqb_neq; destruct r; [discriminate Hr|discriminate]).
    simpl. repeat split; auto; try lia; try zlia.
    + match goal with |- Ok (?a, _, _, _) = _ => assert (a = w0) as ->; [|reflexivity] end.
      rewrite control_word0 by (unfold is_u16; zlia). zlia.
    + apply control_of_code_wf. unfold is_u16. zlia.
Qed.

(** What the encoder writes for a well-formed packet, and that it decodes to it. *)
Lemma encoded_decodes (p : PacketView) (destination : list Z) :
  packet_wf p ->
  (packet_header_size + length (encoded_payload p) <= length destination)%nat ->
  let n := (packet_header_size + length (encoded_payload p))%nat in
  let '(result, storage) := encode_packet p destination in
  result = Ok n /\
  decode_packet (take n storage) = Ok (with_payload p (encoded_payload p)) /\
  drop n storage = drop n destination.
Proof.
  intros Hp Hl n. destruct (header_words_ok p Hp) as [w Hw].
  rewrite (encode_packet_ok p destination w Hw Hl).
  assert (Hn : n = length (header_bytes w ++ encoded_payload p))
    by (rewrite length_app, length_header_bytes; reflexivity).
  repeat split; rewrite app_assoc, Hn.
  - rewrite take_app_length. apply decode_header_words; assumption.
  - rewrite drop_app_length, <- Hn. reflexivity.
Qed.

(** C3: Encoding a well-formed packet into large enough storage writes
    exactly header and payload (the canonical zero word for an empty keepalive,
    congestion warning, shutdown, ACKACK or peer error), decoding what was
    written gives the packet back field by field, and the bytes after the
    packet are untouched. *)
Theorem encode_decode_packet (p : PacketView) (destination : list Z) :
  packet_wf p ->
  (packet_header_size + length (encoded_payload p) <= length destination)%nat ->
  let n := (packet_header_size + length (encoded_payload p))%nat in
  let '(result, storage) := encode_packet p destination in
  result = Ok n /\
  decode_packet (take n storage) = Ok (with_payload p (encoded_payload p)) /\
  drop n storage = drop n destination.
Proof. apply encoded_decodes. Qed.

(** C4: Every datagram the decoder accepts is the canonical encoding of the
    packet it returns: the packet is well-formed, and encoding it reproduces
    the datagram byte for byte, whatever the destination held before. *)
Theorem decode_encode_packet (bytes : list Z) (v : PacketView) (destination : list Z) :
  Forall is_u8 bytes -> decode_packet bytes = Ok v ->
  (length bytes <= length destination)%nat ->
  packet_wf v /\
  encode_packet v destination =
  (Ok (length bytes), bytes ++ drop (length bytes) destination).
Proof.
  intros Hb Hd Hl. destruct (decode_packet_ok bytes v Hb Hd) as (w & Hw & Hv & He & Hbytes).
  split; [assumption|].
  assert (Hn : length bytes = (packet_header_size + length (encoded_payload v))%nat)
    by (rewrite Hbytes, length_app, length_header_bytes, He; reflexivity).
  rewrite (encode_packet_ok v destination w) by (assumption || lia).
  rewrite <- Hn. f_equal. rewrite app_assoc. f_equal. rewrite He. symmetry. exact Hbytes.
Qed.

Lemma crypto_budget_sizes mode mss overhead filter :
  let b := make_crypto_payload_budget mode mss overhead filter in
  budget_error b = Error.none ->
  (maximum_plaintext_payload_size b + authentication_tag_size b
     = maximum_wire_payload_size b)%nat /\
  (maximum_wire_payload_size b + filter <= maximum_data_payload_size)%nat /\
  (overhead + filter + maximum_wire_payload_size b <= mss)%nat /\
  (0 < maximum_plaintext_payload_size b)%nat.
Proof.
  unfold make_crypto_payload_budget. destruct (crypto_suite_for_mode mode) as [su|];
    [|discriminate]. cbv zeta. generalize maximum_data_payload_size. intros m.
  repeat (case_if; simpl; try discriminate); intros; lia.
Qed.

(** C17: A protected payload laid out under a negotiated budget splits back into
    its parts: for every plaintext the budget admits, preparation in storage of
    the wire size succeeds, the ciphertext and tag spans are adjacent and fill
    exactly the wire payload, the wire payload respects MSS, packet-filter
    reservation and the 1456-byte ceiling, and decoding the concatenation of any
    ciphertext and tag of those sizes returns both. *)
Theorem protected_payload_roundtrip mode mss overhead filter (text tag : list Z)
    (destination_size : nat) :
  let b := make_crypto_payload_budget mode mss overhead filter in
  budget_error b = Error.none ->
  (length text <= maximum_plaintext_payload_size b)%nat ->
  length tag = authentication_tag_size b ->
  (length (text ++ tag) <= destination_size)%nat ->
  prepare_protected_payload destination_size (length text) b =
    Ok {| ciphertext_span := (0%nat, length text);
          tag_span := (length text, length tag);
          protected_bytes := length (text ++ tag) |} /\
  decode_protected_payload (text ++ tag) b =
    Ok {| ciphertext := text; authentication_tag := tag |} /\
  (overhead + filter + length (text ++ tag) <= mss)%nat /\
  (filter + length (text ++ tag) <= maximum_data_payload_size)%nat.
Proof.
  intros b He Ht Hg Hd. destruct (crypto_budget_sizes mode mss overhead filter He)
    as (H1 & H2 & H3 & _). fold b in H1, H2, H3. rewrite length_app in *.
  unfold prepare_protected_payload, decode_protected_payload.
  rewrite !bool_decide_eq_true_2 by assumption. rewrite length_app, <- Hg in *. cbv zeta.
  repeat split; try lia.
  - repeat (case_if; try lia). reflexivity.
  - rewrite Nat.add_sub, take_app_length, drop_app_length.
    repeat (case_if; try lia). reflexivity.
Qed.

(** A keepalive, whose empty payload is sent as one zero word. *)
Definition sample_keepalive : PacketView :=
  {| kind := PacketKind.control; data := default_data_header;
     control := {| ctype := ControlType.keepalive; subtype := 0; type_specific := 7;
                   ctimestamp := 1000; cdestination_socket_id := 42 |};
     payload := [] |}.

Lemma encode_decode_packet_witness :
  (encode_packet sample_keepalive (repeat 9 22)).1 = Ok 20%nat /\
  drop 20 (encode_packet sample_keepalive (repeat 9 22)).2 = [9; 9].
Proof.
  pose proof (encode_decode_packet sample_keepalive (repeat 9 22)) as H.
  destruct H as (H1 & _ & H3).
  - repeat split; vm_compute; (reflexivity || discriminate || auto).
  - vm_compute. lia.
  - split; [exact H1|exact H3].
Defined.

Lemma decode_encode_packet_witness :
  encode_packet (with_payload sample_keepalive [0; 0; 0; 0]) (repeat 9 20)
  = (Ok 20%nat, [128; 1; 0; 0; 0; 0; 0; 7; 0; 0; 3; 232; 0; 0; 0; 42; 0; 0; 0; 0]).
Proof.
  refine (proj2 (decode_encode_packet
    [128; 1; 0; 0; 0; 0; 0; 7; 0; 0; 3; 232; 0; 0; 0; 42; 0; 0; 0; 0] _ (repeat 9 20) _ _ _)).
  - repeat constructor; vm_compute; (reflexivity || discriminate).
  - vm_compute. reflexivity.
  - vm_compute. lia.
Defined.

Lemma protected_payload_roundtrip_witness :
  let b := make_crypto_payload_budget CryptoMode.aes_gcm 1500 44 0 in
  decode_protected_payload ([1; 2; 3] ++ repeat 7 16) b
  = Ok {| ciphertext := [1; 2; 3]; authentication_tag := repeat 7 16 |}.
Proof.
  apply (protected_payload_roundtrip CryptoMode.aes_gcm 1500 44 0 [1; 2; 3] (repeat 7 16) 19);
    vm_compute; (reflexivity || lia).
Defined.
