(* ===== verification/Words.v ===== *)
(** Sequences of network-order words: the reads and writes at consecutive
    offsets that every fixed-layout message of the protocol is made of
    (the [read_u16], [read_u32], [read_u64] and [write_*] helpers that
    src/handshake.cpp, src/handshake_extensions.cpp, src/connection_group.cpp
    and src/standby_rtt.cpp define). *)
From S2P Require Import Prelude Codec.

(** [read_u16(bytes + at)]. *)
Definition read_u16 (bytes : list Z) (at_ : nat) : Z :=
  u16 (Z.lor (Z.shiftl (bytes !!! at_) 8) (bytes !!! (at_ + 1)%nat)).

Definition half_bytes (value : Z) : list Z :=
  [Z.land (Z.shiftr value 8) 0xff; Z.land value 0xff].

(** [write_u16(bytes + at, value)]. *)
Definition write_u16 (bytes : list Z) (at_ : nat) (value : Z) : list Z :=
  overwrite at_ (half_bytes value) bytes.

(** [read_u64] and [write_u64] are two words, the high one first. *)
Definition read_u64 (bytes : list Z) (at_ : nat) : Z :=
  Z.lor (u64 (Z.shiftl (read_u32 bytes at_) 32)) (read_u32 bytes (at_ + 4)).

Definition write_u64 (bytes : list Z) (at_ : nat) (value : Z) : list Z :=
  write_u32 (write_u32 bytes at_ (u32 (Z.shiftr value 32)))
            (at_ + 4) (u32 (Z.land value 0xffffffff)).

(** [destination.subspan(at, count)] written by [f]: the callee sees only the
    sub-range and its writes land in the enclosing storage. *)
Definition in_subspan {A} (at_ count : nat) (f : list Z -> A * list Z)
    (destination : list Z) : A * list Z :=
  let '(result, written) := f (take count (drop at_ destination)) in
  (result, overwrite at_ written destination).

(** [(size + 3U) & ~std::size_t{3U}]: the size rounded up to whole words. *)
Definition padded (size : nat) : nat :=
  Z.to_nat (Z.land (Z.of_nat size + 3) (Z.lnot 3)).

(** * Sixteen-bit words *)

Lemma be_half a b : is_u8 a -> is_u8 b ->
  u16 (Z.lor (Z.shiftl a 8) b) = a * 2 ^ 8 + b.
Proof.
  unfold is_u8, u16. intros. rewrite Z.shiftl_mul_pow2 by lia.
  rewrite (lor_add _ b 8) by zlia. apply Z.mod_small. lia.
Qed.

Lemma half_bytes_div v : half_bytes v = [v / 2 ^ 8 mod 2 ^ 8; v mod 2 ^ 8].
Proof.
  unfold half_bytes. change 0xff with (Z.ones 8).
  rewrite !Z.land_ones, Z.shiftr_div_pow2 by lia. reflexivity.
Qed.

Lemma half_bytes_u8 v : Forall is_u8 (half_bytes v).
Proof. rewrite half_bytes_div. repeat constructor; apply Z.mod_pos_bound; lia. Qed.

Lemma read_u16_app p q i : read_u16 (p ++ q) (length p + i) = read_u16 q i.
Proof.
  unfold read_u16. rewrite <- !Nat.add_assoc, !lookup_total_app_add. reflexivity.
Qed.

Lemma read_half_bytes v r : is_u16 v -> read_u16 (half_bytes v ++ r) 0 = v.
Proof.
  intros Hv. unfold read_u16. rewrite half_bytes_div. simpl.
  rewrite be_half by (apply Z.mod_pos_bound; lia). unfold is_u16 in Hv. zlia.
Qed.

Lemma half_bytes_read a b r :
  Forall is_u8 [a; b] -> half_bytes (read_u16 (a :: b :: r) 0) = [a; b].
Proof.
  intros H. repeat (apply Forall_cons in H as [? H]). unfold read_u16. simpl.
  rewrite be_half by assumption. rewrite half_bytes_div. unfold is_u8 in *.
  repeat f_equal; zlia.
Qed.

Lemma read_u16_is_u16 bytes i : is_u16 (read_u16 bytes i).
Proof. apply Z.mod_pos_bound. lia. Qed.

#[global] Arguments read_u16 : simpl never.
#[global] Arguments write_u16 : simpl never.
#[global] Arguments half_bytes : simpl never.

(** * Consecutive words *)

Definition words_bytes (ws : list Z) : list Z := concat (map word_bytes ws).

#[global] Arguments words_bytes : simpl never.

Lemma length_words_bytes ws : length (words_bytes ws) = (4 * length ws)%nat.
Proof. unfold words_bytes. induction ws; simpl in *; lia. Qed.

Lemma words_bytes_app ws vs : words_bytes (ws ++ vs) = words_bytes ws ++ words_bytes vs.
Proof. unfold words_bytes. rewrite map_app, concat_app. reflexivity. Qed.

Lemma write_word_app ws q i v :
  i = (4 * length ws)%nat ->
  write_u32 (words_bytes ws ++ q) i v = words_bytes (ws ++ [v]) ++ drop 4 q.
Proof.
  intros ->. unfold write_u32. rewrite <- length_words_bytes, overwrite_app.
  rewrite words_bytes_app, <- app_assoc. reflexivity.
Qed.

Lemma read_word_app k i ws r w :
  i = (4 * k)%nat -> ws !! k = Some w -> is_u32 w ->
  read_u32 (words_bytes ws ++ r) i = w.
Proof.
  intros -> Hk Hw. apply list_elem_of_split_length in Hk as (l1 & l2 & -> & ->).
  rewrite <- length_words_bytes, words_bytes_app, <- app_assoc.
  rewrite <- (Nat.add_0_r (length _)), read_u32_app.
  change (words_bytes (w :: l2)) with (word_bytes w ++ words_bytes l2).
  rewrite <- app_assoc. apply read_word_bytes. assumption.
Qed.

Lemma read_word k i ws w :
  i = (4 * k)%nat -> ws !! k = Some w -> is_u32 w ->
  read_u32 (words_bytes ws) i = w.
Proof. intros. rewrite <- (app_nil_r (words_bytes ws)). eauto using read_word_app. Qed.

(** Storing words one after another from the start of [destination]. *)
Ltac write_words destination :=
  rewrite <- (app_nil_l destination) at 1;
  change (@nil Z) with (words_bytes []) at 1;
  repeat (rewrite write_word_app by reflexivity; simpl (_ ++ [_]));
  rewrite ?drop_drop; simpl (_ + _)%nat.

Lemma words_bytes_cons w ws : words_bytes (w :: ws) = word_bytes w ++ words_bytes ws.
Proof. reflexivity. Qed.

Lemma words_bytes_u8 ws : Forall is_u8 (words_bytes ws).
Proof.
  induction ws; [constructor|]. apply Forall_app. split; [apply word_bytes_u8|assumption].
Qed.

Lemma read_words ws r i v :
  Forall is_u32 ws -> ws !! i = Some v -> read_u32 (words_bytes ws ++ r) (4 * i) = v.
Proof.
  intros Hw Hi. eapply read_word_app; [reflexivity|eassumption|].
  eapply Forall_lookup_1; eassumption.
Qed.

(** Any byte string of [4 n] bytes is [n] words. *)
Lemma words_of_bytes n h :
  length h = (4 * n)%nat -> Forall is_u8 h ->
  exists ws, h = words_bytes ws /\ length ws = n /\ Forall is_u32 ws.
Proof.
  revert h. induction n as [|n IH]; intros h Hl Hb.
  - exists []. destruct h; [repeat constructor|discriminate].
  - do 4 (destruct h as [|? h]; [exfalso; cbn [length] in Hl; lia|]).
    destruct (IH h) as (ws & -> & <- & Hws).
    { cbn [length] in Hl. lia. }
    { do 4 (apply Forall_cons in Hb as [_ Hb]). assumption. }
    assert (H4 : Forall is_u8 [z; z0; z1; z2]) by (apply (Forall_take _ 4) in Hb; exact Hb).
    exists (read_u32 [z; z0; z1; z2] 0 :: ws). repeat split.
    + rewrite words_bytes_cons, word_bytes_read by assumption. reflexivity.
    + constructor; [apply read_u32_is_u32|]; assumption.
Qed.

(** Reading a word or a half after a prefix of known length. *)
Lemma read_u32_at p v r n bytes :
  bytes = p ++ word_bytes v ++ r -> length p = n -> is_u32 v -> read_u32 bytes n = v.
Proof.
  intros -> <- Hv. rewrite <- (Nat.add_0_r (length p)), read_u32_app.
  apply read_word_bytes. assumption.
Qed.

Lemma read_u16_at p v r n bytes :
  bytes = p ++ half_bytes v ++ r -> length p = n -> is_u16 v -> read_u16 bytes n = v.
Proof.
  intros -> <- Hv. rewrite <- (Nat.add_0_r (length p)), read_u16_app.
  apply read_half_bytes. assumption.
Qed.

(** * Sub-ranges *)

Lemma in_subspan_eq {A} p q (f : list Z -> A * list Z) at_ count r w s :
  length p = at_ -> length q = count -> length w = count ->
  f q = (r, w) -> in_subspan at_ count f (p ++ q ++ s) = (r, p ++ w ++ s).
Proof.
  intros <- <- Hw Hf. unfold in_subspan.
  rewrite drop_app_length, take_app_length, Hf, overwrite_app, Hw, drop_app_length.
  reflexivity.
Qed.

Lemma in_subspan_fst {A} (f : list Z -> A * list Z) at_ count destination :
  fst (in_subspan at_ count f destination) = fst (f (take count (drop at_ destination))).
Proof. unfold in_subspan. destruct (f _). reflexivity. Qed.

(** * Padding *)

Lemma padded_div n : padded n = ((n + 3) / 4 * 4)%nat.
Proof.
  unfold padded. change (Z.lnot 3) with (Z.lnot (Z.ones 2)). rewrite <- Z.ldiff_land.
  rewrite Z.ldiff_ones_r, Z.shiftl_mul_pow2, Z.shiftr_div_pow2 by lia.
  replace (Z.of_nat n + 3) with (Z.of_nat (n + 3)) by lia.
  change (2 ^ 2) with (Z.of_nat 4). rewrite <- Nat2Z.inj_div, <- Nat2Z.inj_mul.
  apply Nat2Z.id.
Qed.

Lemma padded_spec n : (n <= padded n < n + 4)%nat /\ (padded n mod 4 = 0)%nat.
Proof.
  rewrite padded_div. split; [|apply Nat.Div0.mod_mul].
  pose proof (Nat.div_mod_eq (n + 3) 4). pose proof (Nat.mod_upper_bound (n + 3) 4). lia.
Qed.

Lemma padded_fixed n : (n mod 4 = 0)%nat -> padded n = n.
Proof.
  intros H. rewrite padded_div. pose proof (Nat.div_mod_eq n 4).
  assert ((n + 3) / 4 = n / 4)%nat as ->; [|lia].
  symmetry. apply (Nat.div_unique _ _ _ 3); lia.
Qed.
