(* ===== verification/Control.v ===== *)
(** Control-packet payloads: acknowledgements, drop requests and loss lists
    (src/control.cpp, include/robotweax/srt/control.hpp). *)
From S2P Require Import Prelude Sequence Packet Codec Words.

Record SequenceRange := {
  range_first : SequenceNumber.t;
  range_last : SequenceNumber.t;
}.

Module AcknowledgementKind.
Inductive t := lite | small | full.
#[export] Instance eq_dec : EqDecision t.
Proof. solve_decision. Defined.
End AcknowledgementKind.
Export (hints) AcknowledgementKind.

Record Acknowledgement := {
  ack_kind : AcknowledgementKind.t;
  acknowledgement_number : Z;
  next_sequence : SequenceNumber.t;
  round_trip_time_microseconds : Z;
  round_trip_time_variance_microseconds : Z;
  available_receive_buffer_packets : Z;
  receive_rate_packets_per_second : Z;
  estimated_link_capacity_packets_per_second : Z;
  receive_rate_bytes_per_second : Z;
  has_rate_metrics : bool;
}.

Record DropRequest := {
  drop_message_number : Z;
  drop_sequences : SequenceRange;
}.

Definition valid_sequence_word (value : Z) : bool :=
  Z.land value (u32 (Z.lnot SequenceNumber.mask)) =? 0.

Definition is_control_of (type : ControlType.t) (packet : PacketView) : bool :=
  bool_decide (kind packet = PacketKind.control)
  && bool_decide (ctype (control packet) = type).

Definition decode_acknowledgement (packet : PacketView) : Result Acknowledgement :=
  if negb (is_control_of ControlType.acknowledgement packet)
  then Err Error.invalid_control_type
  else
    let payload := payload packet in
    let size := length payload in
    if (size =? 4)%nat then
      if negb (type_specific (control packet) =? 0)
      then Err Error.invalid_control_payload
      else
        let next_word := read_u32 payload 0 in
        if negb (valid_sequence_word next_word)
        then Err Error.invalid_control_payload
        else Ok {| ack_kind := AcknowledgementKind.lite;
                   acknowledgement_number := type_specific (control packet);
                   next_sequence := SequenceNumber.make next_word;
                   round_trip_time_microseconds := 100000;
                   round_trip_time_variance_microseconds := 50000;
                   available_receive_buffer_packets := 0;
                   receive_rate_packets_per_second := 0;
                   estimated_link_capacity_packets_per_second := 0;
                   receive_rate_bytes_per_second := 0;
                   has_rate_metrics := false |}
    else if (negb (size =? 16)%nat && negb (size =? 24)%nat
             && negb (size =? 28)%nat && negb (size =? 32)%nat)
            || negb (size mod 4 =? 0)%nat
    then Err Error.invalid_control_payload
    else
      let next_word := read_u32 payload 0 in
      if negb (valid_sequence_word next_word)
      then Err Error.invalid_control_payload
      else
        Ok {| ack_kind := if (size =? 16)%nat then AcknowledgementKind.small
                          else AcknowledgementKind.full;
              acknowledgement_number := type_specific (control packet);
              next_sequence := SequenceNumber.make next_word;
              round_trip_time_microseconds := read_u32 payload 4;
              round_trip_time_variance_microseconds := read_u32 payload 8;
              available_receive_buffer_packets := read_u32 payload 12;
              receive_rate_packets_per_second :=
                if (24 <=? size)%nat then read_u32 payload 16 else 0;
              estimated_link_capacity_packets_per_second :=
                if (24 <=? size)%nat then read_u32 payload 20 else 0;
              receive_rate_bytes_per_second :=
                if (28 <=? size)%nat then read_u32 payload 24 else 0;
              has_rate_metrics := (24 <=? size)%nat |}.

Definition encode_acknowledgement_payload (a : Acknowledgement)
    (destination : list Z) : Result nat * list Z :=
  let required :=
    match ack_kind a with
    | AcknowledgementKind.lite => 4%nat
    | AcknowledgementKind.small => 16%nat
    | AcknowledgementKind.full => 28%nat
    end in
  if (length destination <? required)%nat
  then (Err Error.buffer_too_small, destination)
  else
    let destination := write_u32 destination 0 (next_sequence a) in
    if bool_decide (ack_kind a = AcknowledgementKind.lite)
    then (Ok required, destination)
    else
      let destination := write_u32 destination 4 (round_trip_time_microseconds a) in
      let destination :=
        write_u32 destination 8 (round_trip_time_variance_microseconds a) in
      let destination :=
        write_u32 destination 12 (available_receive_buffer_packets a) in
      let destination :=
        if bool_decide (ack_kind a = AcknowledgementKind.full) then
          let destination :=
            write_u32 destination 16 (receive_rate_packets_per_second a) in
          let destination :=
            write_u32 destination 20 (estimated_link_capacity_packets_per_second a) in
          write_u32 destination 24 (receive_rate_bytes_per_second a)
        else destination in
      (Ok required, destination).

Definition decode_drop_request (packet : PacketView) : Result DropRequest :=
  if negb (is_control_of ControlType.drop_request packet)
  then Err Error.invalid_control_type
  else if negb (length (payload packet) =? 8)%nat
  then Err Error.invalid_control_payload
  else
    let first_word := read_u32 (payload packet) 0 in
    let last_word := read_u32 (payload packet) 4 in
    if negb (valid_sequence_word first_word) || negb (valid_sequence_word last_word)
    then Err Error.invalid_control_payload
    else
      let first := SequenceNumber.make first_word in
      let last := SequenceNumber.make last_word in
      if SequenceNumber.distance_from last first <? 0
      then Err Error.invalid_control_payload
      else Ok {| drop_message_number :=
                   Z.land (type_specific (control packet)) 0x03ffffff;
                 drop_sequences := {| range_first := first; range_last := last |} |}.

Definition encode_drop_request_payload (request : DropRequest)
    (destination : list Z) : Result nat * list Z :=
  let r := drop_sequences request in
  if SequenceNumber.distance_from (range_last r) (range_first r) <? 0
  then (Err Error.invalid_control_payload, destination)
  else if (length destination <? 8)%nat
  then (Err Error.buffer_too_small, destination)
  else
    let destination := write_u32 destination 0 (range_first r) in
    (Ok 8%nat, write_u32 destination 4 (range_last r)).

Definition decode_loss_range (payload : list Z) : Result (SequenceRange * nat) :=
  if (length payload <? 4)%nat then Err Error.invalid_control_payload
  else
    let first_word := read_u32 payload 0 in
    let is_range := negb (Z.land first_word 0x80000000 =? 0) in
    let first := SequenceNumber.make first_word in
    if negb is_range
    then Ok ({| range_first := first; range_last := first |}, 4%nat)
    else if (length payload <? 8)%nat then Err Error.invalid_control_payload
    else
      let last_word := read_u32 payload 4 in
      if negb (Z.land last_word 0x80000000 =? 0)
      then Err Error.invalid_control_payload
      else
        let last := SequenceNumber.make last_word in
        if SequenceNumber.distance_from last first <? 0
        then Err Error.invalid_control_payload
        else Ok ({| range_first := first; range_last := last |}, 8%nat).

(** The loop over [ranges], with [written] bytes already stored. *)
Fixpoint encode_loss_ranges_from (written : nat) (ranges : list SequenceRange)
    (destination : list Z) : Result nat * list Z :=
  match ranges with
  | [] => (Ok written, destination)
  | range :: rest =>
      if SequenceNumber.distance_from (range_last range) (range_first range) <? 0
      then (Err Error.invalid_control_payload, destination)
      else
        let single := range_first range =? range_last range in
        let required := if single then 4%nat else 8%nat in
        if (length destination - written <? required)%nat
        then (Err Error.buffer_too_small, destination)
        else
          let destination :=
            write_u32 destination written
              (Z.lor (range_first range) (if single then 0 else 0x80000000)) in
          if single then encode_loss_ranges_from (written + 4) rest destination
          else
            encode_loss_ranges_from (written + 4 + 4) rest
              (write_u32 destination (written + 4) (range_last range))
  end.

Definition encode_loss_ranges (ranges : list SequenceRange) (destination : list Z)
    : Result nat * list Z :=
  encode_loss_ranges_from 0 ranges destination.

#[global] Arguments valid_sequence_word : simpl never.

(** The loop that every consumer of a NAK payload runs: decode one range,
    advance by the bytes it consumed, until the payload is empty or a range is
    invalid.  The loop of the code has no bound; [None] says that it is still running
    after [fuel] turns. *)
Fixpoint decode_loss_report_fuel (fuel : nat) (payload : list Z)
    : option (Result (list SequenceRange)) :=
  match payload with
  | [] => Some (Ok [])
  | _ =>
    match fuel with
    | O => None
    | S fuel =>
      match decode_loss_range payload with
      | Err e => Some (Err e)
      | Ok (range, consumed) =>
        match decode_loss_report_fuel fuel (drop consumed payload) with
        | None => None
        | Some (Err e) => Some (Err e)
        | Some (Ok rest) => Some (Ok (range :: rest))
        end
      end
    end
  end.

Definition decode_loss_report (payload : list Z) : option (Result (list SequenceRange)) :=
  decode_loss_report_fuel (length payload) payload.

(** * Sequence words *)

Lemma valid_sequence_word_lt v :
  is_u32 v -> valid_sequence_word v = (v <? SequenceNumber.modulus).
Proof. exact (control_bit v). Qed.

Definition packet_of (type : ControlType.t) (specific : Z) (bytes : list Z) : PacketView :=
  {| kind := PacketKind.control; data := default_data_header;
     control := {| ctype := type; subtype := 0; type_specific := specific;
                   ctimestamp := 0; cdestination_socket_id := 0 |};
     payload := bytes |}.

(** What the encoder can represent for each kind of acknowledgement. *)
Definition ack_wf (a : Acknowledgement) : Prop :=
  SequenceNumber.wf (next_sequence a) /\ is_u32 (acknowledgement_number a) /\
  is_u32 (round_trip_time_microseconds a) /\
  is_u32 (round_trip_time_variance_microseconds a) /\
  is_u32 (available_receive_buffer_packets a) /\
  is_u32 (receive_rate_packets_per_second a) /\
  is_u32 (estimated_link_capacity_packets_per_second a) /\
  is_u32 (receive_rate_bytes_per_second a) /\
  match ack_kind a with
  | AcknowledgementKind.lite =>
      acknowledgement_number a = 0 /\ round_trip_time_microseconds a = 100000 /\
      round_trip_time_variance_microseconds a = 50000 /\
      available_receive_buffer_packets a = 0 /\
      receive_rate_packets_per_second a = 0 /\
      estimated_link_capacity_packets_per_second a = 0 /\
      receive_rate_bytes_per_second a = 0 /\ has_rate_metrics a = false
  | AcknowledgementKind.small =>
      receive_rate_packets_per_second a = 0 /\
      estimated_link_capacity_packets_per_second a = 0 /\
      receive_rate_bytes_per_second a = 0 /\ has_rate_metrics a = false
  | AcknowledgementKind.full => has_rate_metrics a = true
  end.

Definition ack_words (a : Acknowledgement) : list Z :=
  match ack_kind a with
  | AcknowledgementKind.lite => [next_sequence a]
  | AcknowledgementKind.small =>
      [next_sequence a; round_trip_time_microseconds a;
       round_trip_time_variance_microseconds a; available_receive_buffer_packets a]
  | AcknowledgementKind.full =>
      [next_sequence a; round_trip_time_microseconds a;
       round_trip_time_variance_microseconds a; available_receive_buffer_packets a;
       receive_rate_packets_per_second a;
       estimated_link_capacity_packets_per_second a; receive_rate_bytes_per_second a]
  end.

Definition ack_size (a : Acknowledgement) : nat := 4 * length (ack_words a).

Lemma encode_ack_ok a destination :
  (ack_size a <= length destination)%nat ->
  encode_acknowledgement_payload a destination =
  (Ok (ack_size a), words_bytes (ack_words a) ++ drop (ack_size a) destination).
Proof.
  intros Hl. unfold encode_acknowledgement_payload, ack_size, ack_words in *.
  destruct (ack_kind a) eqn:Hk; cbv zeta; simpl in Hl;
    rewrite (proj2 (Nat.ltb_ge _ _) Hl), ?bool_decide_eq_true_2 by reflexivity;
    rewrite ?(bool_decide_eq_false_2 (_ = _)) by discriminate;
    f_equal; write_words destination; reflexivity.
Qed.

Lemma seq_wf_u32 s : SequenceNumber.wf s -> is_u32 s.
Proof. unfold SequenceNumber.wf, SequenceNumber.modulus, is_u32. lia. Qed.
#[export] Hint Resolve seq_wf_u32 : srt.

Lemma valid_word_wf s : SequenceNumber.wf s -> valid_sequence_word s = true.
Proof.
  intros H. rewrite valid_sequence_word_lt by auto with srt.
  apply Z.ltb_lt. apply H.
Qed.

Lemma decode_ack_words a :
  ack_wf a ->
  decode_acknowledgement
    (packet_of ControlType.acknowledgement (acknowledgement_number a)
       (words_bytes (ack_words a))) = Ok a.
Proof.
  destruct a as [k n s r v w p l b h]. unfold ack_wf, ack_words; simpl.
  intros (Hs & Hn & Hr & Hv & Hw & Hp & Hl & Hb & Hk).
  unfold decode_acknowledgement. change (is_control_of _ _) with true.
  cbn [negb payload packet_of control type_specific]. cbv zeta. rewrite length_words_bytes.
  destruct k; cbn [length Nat.mul Nat.add Nat.eqb Nat.leb negb andb orb];
    change (_ mod 4 =? 0)%nat with true; cbn [negb];
    rewrite (read_word 0 0 _ s) by auto with srt;
    rewrite valid_word_wf, SequenceNumber.make_id by assumption; cbn [negb].
  - destruct Hk as (-> & -> & -> & -> & -> & -> & -> & ->). reflexivity.
  - destruct Hk as (-> & -> & -> & ->).
    rewrite (read_word 1 4 _ r), (read_word 2 8 _ v), (read_word 3 12 _ w) by auto.
    reflexivity.
  - subst h.
    rewrite (read_word 1 4 _ r), (read_word 2 8 _ v), (read_word 3 12 _ w),
      (read_word 4 16 _ p), (read_word 5 20 _ l), (read_word 6 24 _ b) by auto.
    reflexivity.
Qed.

(** * Loss lists and drop requests *)

Definition range_valid (r : SequenceRange) : Prop :=
  SequenceNumber.wf (range_first r) /\ SequenceNumber.wf (range_last r) /\
  0 <= SequenceNumber.distance_from (range_last r) (range_first r).

Definition range_words (r : SequenceRange) : list Z :=
  if range_first r =? range_last r then [range_first r]
  else [Z.lor (range_first r) 0x80000000; range_last r].

Definition loss_words (rs : list SequenceRange) : list Z := concat (map range_words rs).

Lemma length_range_words r : (1 <= length (range_words r) <= 2)%nat.
Proof. unfold range_words. destruct (_ =? _); simpl; lia. Qed.

Lemma range_flag s : SequenceNumber.wf s -> Z.lor s 0x80000000 = s + 2 ^ 31.
Proof.
  unfold SequenceNumber.wf, SequenceNumber.modulus. intros.
  rewrite Z.lor_comm, (lor_add _ s 31) by (lia || reflexivity). lia.
Qed.

Lemma encode_loss_ranges_from_ok rs : forall ws q,
  Forall range_valid rs -> (4 * length (loss_words rs) <= length q)%nat ->
  encode_loss_ranges_from (4 * length ws) rs (words_bytes ws ++ q) =
  (Ok (4 * length (ws ++ loss_words rs))%nat,
   words_bytes (ws ++ loss_words rs) ++ drop (4 * length (loss_words rs)) q).
Proof.
  induction rs as [|r rs IH]; intros ws q Hv Hl.
  { simpl. rewrite app_nil_r. reflexivity. }
  apply Forall_cons in Hv as [(Hf & Hla & Hd) Hv].
  change (loss_words (r :: rs)) with (range_words r ++ loss_words rs) in *.
  cbn [encode_loss_ranges_from]. rewrite (proj2 (Z.ltb_ge _ _) Hd). cbv zeta.
  rewrite length_app, length_words_bytes.
  rewrite length_app in Hl. unfold range_words in *.
  destruct (range_first r =? range_last r);
    [change (length [range_first r]) with 1%nat in *
    |change (length [Z.lor (range_first r) 0x80000000; range_last r]) with 2%nat in *];
    (rewrite (proj2 (Nat.ltb_ge _ _)) by lia);
    rewrite !write_word_app by (rewrite ?length_app; simpl; lia).
  - replace (4 * length ws + 4)%nat with (4 * length (ws ++ [Z.lor (range_first r) 0]))%nat
      by (rewrite length_app; simpl; lia).
    rewrite IH by (rewrite ?length_drop; assumption || lia).
    rewrite Z.lor_0_r, <- !app_assoc, drop_drop. simpl (_ ++ _).
    rewrite !length_app. simpl length. repeat (f_equal; try lia).
  - replace (4 * length ws + 4 + 4)%nat
      with (4 * length ((ws ++ [Z.lor (range_first r) 0x80000000]) ++ [range_last r]))%nat
      by (rewrite !length_app; simpl; lia).
    rewrite IH by (rewrite ?length_drop; assumption || lia).
    rewrite <- !app_assoc, !drop_drop. simpl (_ ++ _).
    rewrite !length_app. simpl length. repeat (f_equal; try lia).
Qed.

Lemma decode_range_words r ws :
  range_valid r ->
  decode_loss_range (words_bytes (range_words r ++ ws)) =
  Ok (r, (4 * length (range_words r))%nat).
Proof.
  intros (Hf & Hla & Hd). unfold decode_loss_range, range_words.
  rewrite length_words_bytes, length_app.
  assert (Hu : is_u32 (range_first r)) by auto with srt.
  destruct (Z.eqb_spec (range_first r) (range_last r)) as [E|E].
  - rewrite (proj2 (Nat.ltb_ge _ _)) by (simpl; lia). cbv zeta. simpl (_ ++ _).
    rewrite (read_word 0 0 _ (range_first r)) by auto.
    rewrite control_bit, (proj2 (Z.ltb_lt _ _)) by (auto; apply Hf). simpl negb. cbv iota.
    rewrite SequenceNumber.make_id by assumption. destruct r; simpl in *. subst. reflexivity.
  - rewrite !(proj2 (Nat.ltb_ge _ _)) by (simpl; lia). cbv zeta. simpl (_ ++ _).
    rewrite range_flag by assumption.
    assert (is_u32 (range_first r + 2 ^ 31)).
    { unfold SequenceNumber.wf, SequenceNumber.modulus, is_u32 in *. lia. }
    rewrite (read_word 0 0 _ (range_first r + 2 ^ 31)), (read_word 1 4 _ (range_last r)) by auto with srt.
    rewrite !control_bit by auto with srt.
    rewrite (proj2 (Z.ltb_ge (range_first r + 2 ^ 31) _)) by (unfold SequenceNumber.wf in Hf; lia).
    rewrite (proj2 (Z.ltb_lt (range_last r) _)) by apply Hla. simpl negb. cbv iota.
    assert (SequenceNumber.make (range_first r + 2 ^ 31) = range_first r) as ->.
    { rewrite SequenceNumber.make_mod. change (2 ^ 31) with SequenceNumber.modulus.
      rewrite <- (Z.mul_1_l SequenceNumber.modulus) at 1. rewrite Z_mod_plus_full.
      apply Z.mod_small. assumption. }
    rewrite SequenceNumber.make_id, (proj2 (Z.ltb_ge _ _) Hd) by assumption.
    destruct r; reflexivity.
Qed.

Lemma decode_loss_report_step fuel p :
  p <> [] ->
  decode_loss_report_fuel (S fuel) p =
  match decode_loss_range p with
  | Err e => Some (Err e)
  | Ok (range, consumed) =>
    match decode_loss_report_fuel fuel (drop consumed p) with
    | None => None
    | Some (Err e) => Some (Err e)
    | Some (Ok rest) => Some (Ok (range :: rest))
    end
  end.
Proof. destruct p; [congruence|reflexivity]. Qed.

Lemma decode_loss_report_words rs : forall fuel,
  Forall range_valid rs -> (length rs <= fuel)%nat ->
  decode_loss_report_fuel fuel (words_bytes (loss_words rs)) = Some (Ok rs).
Proof.
  induction rs as [|r rs IH]; intros fuel Hv Hf; [destruct fuel; reflexivity|].
  apply Forall_cons in Hv as [Hr Hv].
  change (loss_words (r :: rs)) with (range_words r ++ loss_words rs).
  destruct fuel as [|fuel]; [simpl in Hf; lia|].
  rewrite decode_loss_report_step.
  - rewrite decode_range_words, words_bytes_app, <- length_words_bytes, drop_app_length by assumption.
    rewrite IH by (assumption || simpl in Hf; lia). reflexivity.
  - intros E. apply (f_equal length) in E. rewrite length_words_bytes, length_app in E.
    pose proof (length_range_words r). simpl in E. lia.
Qed.

Lemma length_loss_words rs : (length rs <= length (loss_words rs))%nat.
Proof.
  unfold loss_words. induction rs as [|r rs IH]; simpl; [lia|]. rewrite length_app.
  pose proof (length_range_words r). lia.
Qed.

Lemma decode_loss_range_ok payload r n :
  Forall is_u8 payload -> decode_loss_range payload = Ok (r, n) ->
  range_valid r /\ (4 <= n <= length payload)%nat.
Proof.
  intros Hb Hd. unfold decode_loss_range in Hd. unfold range_valid.
  repeat (case_if; try discriminate); cbv zeta in *;
    repeat (case_if; try discriminate); injection Hd as <- <-; simpl;
    rewrite ?SequenceNumber.distance_self; repeat split;
    try apply SequenceNumber.make_wf; lia.
Qed.

Lemma decode_loss_range_err payload e :
  decode_loss_range payload = Err e -> e = Error.invalid_control_payload.
Proof.
  unfold decode_loss_range. cbv zeta. intros H. repeat (case_match; simplify_eq); reflexivity.
Qed.

(** Every turn of the loop consumes a word or two. *)
Lemma decode_loss_report_ends n : forall payload, Forall is_u8 payload -> (length payload <= n)%nat ->
  exists r, (forall fuel, (length payload <= 4 * fuel)%nat -> decode_loss_report_fuel fuel payload = Some r) /\
  match r with
  | Ok rs => Forall range_valid rs /\ (4 * length rs <= length payload)%nat
  | Err e => e = Error.invalid_control_payload
  end.
Proof.
  induction n as [|n IH]; intros payload Hb Hn;
    (destruct payload as [|b bs]; [exists (Ok []); split; [intros []; reflexivity|simpl; auto]|]); [simpl in Hn; lia|].
  assert (Hne : b :: bs <> []) by discriminate. set (p := b :: bs) in *.
  assert (Hp : (0 < length p)%nat) by (simpl; lia). clearbody p.
  destruct (decode_loss_range p) as [[r k]|e] eqn:Hr.
  - destruct (decode_loss_range_ok p r k Hb Hr) as (Hv & H4 & Hk).
    destruct (IH (drop k p) ltac:(apply Forall_drop; assumption) ltac:(rewrite length_drop; lia)) as (rest & Hf & Hrest).
    rewrite length_drop in Hf, Hrest.
    exists (match rest with Ok rest => Ok (r :: rest) | Err e => Err e end). split.
    + intros [|fuel] Hl; [lia|]. rewrite decode_loss_report_step, Hr, Hf by (assumption || lia). destruct rest; reflexivity.
    + destruct rest as [rest|e]; [|assumption]. destruct Hrest. split; [constructor; assumption|simpl; lia].
  - exists (Err e). split; [|exact (decode_loss_range_err p e Hr)].
    intros [|fuel] Hl; [lia|]. rewrite decode_loss_report_step, Hr by assumption. reflexivity.
Qed.

(** C18: Acknowledgement payloads of all three kinds round trip: encoding writes
    the kind's exact size (4, 16 or 28 bytes), leaves the rest of the storage
    alone, and decoding the ACK packet carrying those bytes and the ACK number
    gives back every field. *)
Theorem acknowledgement_roundtrip (a : Acknowledgement) (destination : list Z) :
  ack_wf a -> (ack_size a <= length destination)%nat ->
  let '(result, storage) := encode_acknowledgement_payload a destination in
  result = Ok (ack_size a) /\
  decode_acknowledgement
    (packet_of ControlType.acknowledgement (acknowledgement_number a)
       (take (ack_size a) storage)) = Ok a /\
  drop (ack_size a) storage = drop (ack_size a) destination.
Proof.
  intros Ha Hl. rewrite encode_ack_ok by assumption.
  assert (Hn : ack_size a = length (words_bytes (ack_words a)))
    by (rewrite length_words_bytes; reflexivity).
  repeat split; rewrite Hn.
  - rewrite take_app_length. apply decode_ack_words. assumption.
  - apply drop_app_length.
Qed.

(** C19: A NAK payload round trips: any list of forward ranges is encoded, single
    sequences in one word and longer ranges in two, and the decoding loop run
    over the written bytes returns the same ranges in the same order. *)
Theorem loss_report_roundtrip (rs : list SequenceRange) (destination : list Z) :
  Forall range_valid rs -> (4 * length (loss_words rs) <= length destination)%nat ->
  let n := (4 * length (loss_words rs))%nat in
  let '(result, storage) := encode_loss_ranges rs destination in
  result = Ok n /\ decode_loss_report (take n storage) = Some (Ok rs) /\
  drop n storage = drop n destination.
Proof.
  intros Hv Hl n. unfold encode_loss_ranges.
  pose proof (encode_loss_ranges_from_ok rs [] destination Hv Hl) as E.
  change (_ ++ loss_words rs) with (loss_words rs) in E.
  change (words_bytes [] ++ destination) with destination in E.
  change (4 * length [])%nat with 0%nat in E. rewrite E. clear E.
  assert (Hn : n = length (words_bytes (loss_words rs)))
    by (rewrite length_words_bytes; reflexivity).
  fold n. repeat split; rewrite Hn; [|apply drop_app_length].
  rewrite take_app_length. apply decode_loss_report_words; [assumption|].
  rewrite length_words_bytes. pose proof (length_loss_words rs). lia.
Qed.

(** C20: Whatever bytes a peer sends as a NAK payload, the decoding loop ends, after
    at most one turn per started 32-bit word, and running it longer changes nothing.
    It ends with an invalid-payload error or with forward ranges of well-formed
    sequence numbers, at most one per word: the 364 words a maximum-size packet can
    carry fit the decoder's fixed arrays. *)
Theorem loss_report_terminates (payload : list Z) : Forall is_u8 payload ->
  exists r, decode_loss_report payload = Some r /\
  (forall fuel, (length payload <= 4 * fuel)%nat -> decode_loss_report_fuel fuel payload = Some r) /\
  match r with
  | Ok rs => Forall range_valid rs /\ (4 * length rs <= length payload)%nat
  | Err e => e = Error.invalid_control_payload
  end.
Proof.
  intros Hb. destruct (decode_loss_report_ends (length payload) payload Hb (le_n _)) as (r & Hf & Hr).
  exists r. split; [|auto]. apply Hf. lia.
Qed.

Lemma acknowledgement_roundtrip_witness :
  let a := {| ack_kind := AcknowledgementKind.small; next_sequence := 77;
              acknowledgement_number := 5; round_trip_time_microseconds := 20000;
              round_trip_time_variance_microseconds := 4000;
              available_receive_buffer_packets := 8192;
              receive_rate_packets_per_second := 0;
              estimated_link_capacity_packets_per_second := 0;
              receive_rate_bytes_per_second := 0; has_rate_metrics := false |} in
  (encode_acknowledgement_payload a (repeat 1 17)).1 = Ok 16%nat.
Proof.
  intros a. pose proof (acknowledgement_roundtrip a (repeat 1 17)) as H.
  destruct H as (H1 & _ & _); [| |exact H1].
  - repeat split; vm_compute; (reflexivity || discriminate).
  - vm_compute. lia.
Defined.

Lemma loss_report_roundtrip_witness :
  (encode_loss_ranges [{| range_first := 2147483647; range_last := 2 |};
                       {| range_first := 5; range_last := 5 |}] (repeat 1 12)).1 = Ok 12%nat.
Proof.
  pose proof (loss_report_roundtrip [{| range_first := 2147483647; range_last := 2 |};
                                     {| range_first := 5; range_last := 5 |}] (repeat 1 12)) as H.
  destruct H as (H1 & _ & _); [| |exact H1].
  - repeat constructor; vm_compute; (reflexivity || discriminate).
  - vm_compute. lia.
Defined.

Lemma loss_report_terminates_witness :
  decode_loss_report [128; 0; 0; 3; 0; 0; 0; 9] = Some (Ok [{| range_first := 3; range_last := 9 |}]) /\
  decode_loss_report_fuel 2 [128; 0; 0; 3; 0; 0; 0; 9] = decode_loss_report [128; 0; 0; 3; 0; 0; 0; 9].
Proof.
  split; [vm_compute; reflexivity|]. destruct (loss_report_terminates [128; 0; 0; 3; 0; 0; 0; 9]) as (r & H1 & H2 & _).
  - repeat constructor; vm_compute; (reflexivity || discriminate).
  - rewrite H1. apply H2. cbn. lia.
Defined.
