(* ===== verification/HandshakePacket.v ===== *)
(** The fixed part of a handshake message: its fields, the checks on them and
    its wire form (include/robotweax/srt/handshake.hpp, src/handshake.cpp). *)
From S2P Require Import Prelude Sequence Packet Codec Words.

Definition handshake_size : nat := 48.
Definition handshake_version_4 : Z := 4.
Definition handshake_version_5 : Z := 5.
Definition handshake_srt_magic : Z := 0x4a17.
Definition handshake_extension_flag_handshake : Z := 0x0001.
Definition handshake_extension_flag_key_material : Z := 0x0002.
Definition handshake_extension_flag_config : Z := 0x0004.

(** The enumeration has a signed 32-bit underlying type; requests of at least
    1000 carry a rejection reason and have no enumerator. *)
Module HandshakeRequest.
Inductive t := conclusion | agreement | done | wave_a_hand | induction | unlisted (c : Z).
Definition code (r : t) : Z :=
  match r with
  | conclusion => -1 | agreement => -2 | done => -3
  | wave_a_hand => 0 | induction => 1 | unlisted c => c
  end.
Definition of_code (c : Z) : t :=
  if c =? -1 then conclusion else if c =? -2 then agreement
  else if c =? -3 then done else if c =? 0 then wave_a_hand
  else if c =? 1 then induction else unlisted c.
#[export] Instance eq_dec : EqDecision t.
Proof. solve_decision. Defined.

(** An [unlisted] code is a 32-bit code that no enumerator has. *)
Definition wf (r : t) : Prop := of_code (code r) = r /\ - 2 ^ 31 <= code r < 2 ^ 31.
End HandshakeRequest.
Export (hints) HandshakeRequest.

Module Handshake.
Record t := {
  version : Z;
  encryption_field : Z;
  extension_field : Z;
  initial_sequence : SequenceNumber.t;
  maximum_transmission_unit : Z;
  flow_window : Z;
  request : HandshakeRequest.t;
  socket_id : Z;
  syn_cookie : Z;
  peer_address : list Z;
}.

Definition default : t :=
  {| version := handshake_version_5; encryption_field := 0; extension_field := 0;
     initial_sequence := 0; maximum_transmission_unit := 1500; flow_window := 25600;
     request := HandshakeRequest.induction; socket_id := 0; syn_cookie := 0;
     peer_address := [0; 0; 0; 0] |}.

#[export] Instance eq_dec : EqDecision t.
Proof. solve_decision. Defined.

Definition eta_t (p : t) : t :=
  Build_t (version p) (encryption_field p) (extension_field p) (initial_sequence p)
    (maximum_transmission_unit p) (flow_window p) (request p) (socket_id p)
    (syn_cookie p) (peer_address p).
Definition set_version : Z -> t -> t := ltac:(setter eta_t version).
Definition set_encryption_field : Z -> t -> t := ltac:(setter eta_t encryption_field).
Definition set_extension_field : Z -> t -> t := ltac:(setter eta_t extension_field).
Definition set_initial_sequence : SequenceNumber.t -> t -> t := ltac:(setter eta_t initial_sequence).
Definition set_syn_cookie : Z -> t -> t := ltac:(setter eta_t syn_cookie).
End Handshake.
Export (hints) Handshake.
Import Handshake.

(** ** Validity *)

Definition valid_request (request : Z) : bool :=
  (request =? HandshakeRequest.code HandshakeRequest.induction)
  || (request =? HandshakeRequest.code HandshakeRequest.wave_a_hand)
  || (request =? HandshakeRequest.code HandshakeRequest.conclusion)
  || (request =? HandshakeRequest.code HandshakeRequest.agreement)
  || (1000 <=? request).

Definition valid_initial_sequence (value : Z) : bool := value <=? SequenceNumber.mask.

Definition valid_flow_window (value : Z) : bool := (2 <=? value) && (value <=? 2 ^ 31 - 1).

(** ** The codec *)

Definition decode_handshake_payload (payload : list Z) : Result (Handshake.t * list Z) :=
  if (length payload <? handshake_size)%nat then Err Error.invalid_handshake_size
  else
    let version := read_u32 payload 0 in
    let fields := read_u32 payload 4 in
    let initial_sequence := read_u32 payload 8 in
    let mtu := read_u32 payload 12 in
    let flow_window := read_u32 payload 16 in
    let request := i32 (read_u32 payload 20) in
    let packet :=
      {| version := version;
         encryption_field := u16 (Z.shiftr fields 16);
         extension_field := u16 (Z.land fields 0xffff);
         initial_sequence := SequenceNumber.make initial_sequence;
         maximum_transmission_unit := mtu;
         flow_window := flow_window;
         request := HandshakeRequest.of_code request;
         socket_id := read_u32 payload 24;
         syn_cookie := read_u32 payload 28;
         peer_address :=
           map (fun index => read_u32 payload (32 + index * 4)) (seq 0 4) |} in
    if (negb (version =? handshake_version_4) && negb (version =? handshake_version_5))
       || negb (valid_initial_sequence initial_sequence)
       || (mtu <? 76)
       || negb (valid_flow_window flow_window) || negb (valid_request request)
    then Err Error.invalid_handshake_value
    else Ok (packet, drop handshake_size payload).

Definition decode_handshake (payload : list Z) : Result Handshake.t :=
  match decode_handshake_payload payload with
  | Err e => Err e
  | Ok (handshake, _) => Ok handshake
  end.

(** Returns the error and the destination storage after the call. *)
Definition encode_handshake (packet : Handshake.t) (destination : list Z)
    : Error.t * list Z :=
  if (length destination <? handshake_size)%nat then (Error.buffer_too_small, destination)
  else
    let request := HandshakeRequest.code (request packet) in
    if (negb (version packet =? handshake_version_4)
        && negb (version packet =? handshake_version_5))
       || negb (valid_initial_sequence (initial_sequence packet))
       || (maximum_transmission_unit packet <? 76)
       || negb (valid_flow_window (flow_window packet)) || negb (valid_request request)
    then (Error.invalid_handshake_value, destination)
    else
      let d := write_u32 destination 0 (version packet) in
      let d := write_u32 d 4 (Z.lor (shl32 (encryption_field packet) 16)
                                    (extension_field packet)) in
      let d := write_u32 d 8 (initial_sequence packet) in
      let d := write_u32 d 12 (maximum_transmission_unit packet) in
      let d := write_u32 d 16 (flow_window packet) in
      let d := write_u32 d 20 (u32 request) in
      let d := write_u32 d 24 (socket_id packet) in
      let d := write_u32 d 28 (syn_cookie packet) in
      let d := fold_left (fun d index =>
        write_u32 d (32 + index * 4) (peer_address packet !!! index)) (seq 0 4) d in
      (Error.none, d).

Definition encode_handshake_payload (handshake : Handshake.t) (extensions : list Z)
    (destination : list Z) : Result nat * list Z :=
  let required := (handshake_size + length extensions)%nat in
  if (length destination <? required)%nat then (Err Error.buffer_too_small, destination)
  else
    let '(error, destination) :=
      in_subspan 0 handshake_size (encode_handshake handshake) destination in
    if bool_decide (error = Error.none) then
      (Ok required, overwrite handshake_size extensions destination)
    else (Err error, destination).

(** * The wire form *)

(** The field widths of a handshake object. *)
Definition handshake_wf (p : Handshake.t) : Prop :=
  is_u32 (version p) /\ is_u16 (encryption_field p) /\ is_u16 (extension_field p) /\
  SequenceNumber.wf (initial_sequence p) /\ is_u32 (maximum_transmission_unit p) /\
  is_u32 (flow_window p) /\ HandshakeRequest.wf (request p) /\
  is_u32 (socket_id p) /\ is_u32 (syn_cookie p) /\
  length (peer_address p) = 4%nat /\ Forall is_u32 (peer_address p).

(** The value checks both directions of the codec apply. *)
Definition handshake_valid (p : Handshake.t) : bool :=
  ((version p =? handshake_version_4) || (version p =? handshake_version_5))
  && valid_initial_sequence (initial_sequence p)
  && (76 <=? maximum_transmission_unit p)
  && valid_flow_window (flow_window p)
  && valid_request (HandshakeRequest.code (request p)).

Definition handshake_words (p : Handshake.t) : list Z :=
  [version p; Z.lor (shl32 (encryption_field p) 16) (extension_field p);
   initial_sequence p; maximum_transmission_unit p; flow_window p;
   u32 (HandshakeRequest.code (request p)); socket_id p; syn_cookie p]
  ++ peer_address p.

Definition handshake_bytes (p : Handshake.t) : list Z := words_bytes (handshake_words p).

Lemma invalid_negb version seq mtu flow req :
  (negb (version =? handshake_version_4) && negb (version =? handshake_version_5))
  || negb (valid_initial_sequence seq) || (mtu <? 76)
  || negb (valid_flow_window flow) || negb (valid_request req) =
  negb (((version =? handshake_version_4) || (version =? handshake_version_5))
  && valid_initial_sequence seq && (76 <=? mtu)
  && valid_flow_window flow && valid_request req).
Proof.
  rewrite !negb_andb, negb_orb, <- Z.ltb_antisym. reflexivity.
Qed.

Lemma length_handshake_bytes p :
  length (peer_address p) = 4%nat -> length (handshake_bytes p) = handshake_size.
Proof.
  intros H. unfold handshake_bytes, handshake_words.
  rewrite length_words_bytes, length_app, H. reflexivity.
Qed.

Lemma encode_handshake_ok p destination :
  length (peer_address p) = 4%nat -> handshake_valid p = true ->
  (handshake_size <= length destination)%nat ->
  encode_handshake p destination =
  (Error.none, handshake_bytes p ++ drop handshake_size destination).
Proof.
  intros Hp Hv Hl. unfold encode_handshake. rewrite invalid_negb.
  unfold handshake_valid in Hv. rewrite Hv, (proj2 (Nat.ltb_ge _ _)) by assumption.
  cbn [negb]. f_equal. unfold handshake_bytes, handshake_words.
  destruct (peer_address p) as [|a0 [|a1 [|a2 [|a3 []]]]]; try discriminate Hp.
  destruct (split_at 48 destination) as (h & t & -> & Hh); [assumption|].
  rewrite (drop_app_length' h t) by (symmetry; exact Hh).
  do 48 (destruct h as [|? h]; [discriminate Hh|]). destruct h; [|discriminate Hh].
  reflexivity.
Qed.

Lemma fields_word a b : is_u16 a -> is_u16 b ->
  Z.lor (shl32 a 16) b = a * 2 ^ 16 + b.
Proof.
  unfold is_u16. intros. rewrite shl32_small by lia. apply (lor_add _ b 16); zlia.
Qed.

Lemma fields_split a b : is_u16 a -> is_u16 b ->
  u16 (Z.shiftr (a * 2 ^ 16 + b) 16) = a /\ u16 (Z.land (a * 2 ^ 16 + b) 0xffff) = b.
Proof.
  unfold is_u16, u16. intros. change 0xffff with (Z.ones 16).
  rewrite Z.land_ones, Z.shiftr_div_pow2 by lia. zlia.
Qed.

Lemma handshake_words_u32 p : handshake_wf p -> Forall is_u32 (handshake_words p).
Proof.
  intros (? & He & Hx & Hs & ? & ? & ? & ? & ? & _ & ?).
  unfold handshake_words. rewrite fields_word by assumption.
  repeat (apply Forall_cons; split); try assumption.
  - unfold is_u16, is_u32 in *. lia.
  - unfold SequenceNumber.wf, SequenceNumber.modulus, is_u32 in *. lia.
  - apply u32_range.
Qed.

Lemma i32_u32 c : - 2 ^ 31 <= c < 2 ^ 31 -> i32 (u32 c) = c.
Proof. unfold i32, u32. intros. zlia. Qed.
Lemma u32_i32 c : is_u32 c -> u32 (i32 c) = c.
Proof. unfold i32, u32, is_u32. intros. zlia. Qed.

(** Every handshake of twelve words decodes to the fields of these words. *)
Lemma decode_words ws r :
  length ws = 12%nat -> Forall is_u32 ws ->
  decode_handshake_payload (words_bytes ws ++ r) =
  let packet :=
    {| version := ws !!! 0%nat; encryption_field := u16 (Z.shiftr (ws !!! 1%nat) 16);
       extension_field := u16 (Z.land (ws !!! 1%nat) 0xffff);
       initial_sequence := SequenceNumber.make (ws !!! 2%nat);
       maximum_transmission_unit := ws !!! 3%nat; flow_window := ws !!! 4%nat;
       request := HandshakeRequest.of_code (i32 (ws !!! 5%nat));
       socket_id := ws !!! 6%nat; syn_cookie := ws !!! 7%nat;
       peer_address := drop 8 ws |} in
  if ((ws !!! 0%nat =? handshake_version_4) || (ws !!! 0%nat =? handshake_version_5))
     && valid_initial_sequence (ws !!! 2%nat) && (76 <=? ws !!! 3%nat)
     && valid_flow_window (ws !!! 4%nat) && valid_request (i32 (ws !!! 5%nat))
  then Ok (packet, r) else Err Error.invalid_handshake_value.
Proof.
  intros Hl Hw. unfold decode_handshake_payload.
  assert (Hb : length (words_bytes ws) = handshake_size) by (rewrite length_words_bytes, Hl; reflexivity).
  rewrite length_app, Hb, (proj2 (Nat.ltb_ge _ _)), invalid_negb by lia.
  rewrite <- Hb, drop_app_length.
  assert (R : forall i, (i < 12)%nat -> read_u32 (words_bytes ws ++ r) (4 * i) = ws !!! i).
  { intros i Hi. apply read_words; [assumption|].
    apply list_lookup_lookup_total_lt. rewrite Hl. assumption. }
  cbn [map seq].
  pose proof (R 0 ltac:(lia))%nat as R0. pose proof (R 1 ltac:(lia))%nat as R1.
  pose proof (R 2 ltac:(lia))%nat as R2. pose proof (R 3 ltac:(lia))%nat as R3.
  pose proof (R 4 ltac:(lia))%nat as R4. pose proof (R 5 ltac:(lia))%nat as R5.
  pose proof (R 6 ltac:(lia))%nat as R6. pose proof (R 7 ltac:(lia))%nat as R7.
  pose proof (R 8 ltac:(lia))%nat as R8. pose proof (R 9 ltac:(lia))%nat as R9.
  pose proof (R 10 ltac:(lia))%nat as R10. pose proof (R 11 ltac:(lia))%nat as R11.
  cbn [Nat.mul Nat.add] in *.
  rewrite R0, R1, R2, R3, R4, R5, R6, R7, R8, R9, R10, R11.
  do 12 (destruct ws as [|? ws]; [discriminate Hl|]). destruct ws; [|discriminate Hl].
  cbn [drop]. destruct (_ && _); reflexivity.
Qed.

Lemma request_code_of_code c : HandshakeRequest.code (HandshakeRequest.of_code c) = c.
Proof. unfold HandshakeRequest.of_code. repeat case_if; subst; reflexivity. Qed.

(** ** Both round trips *)

(** What is encoded decodes to the same handshake, the extensions follow. *)
Lemma handshake_decodes p r :
  handshake_wf p -> handshake_valid p = true ->
  decode_handshake_payload (handshake_bytes p ++ r) = Ok (p, r).
Proof.
  intros Hwf Hv. pose proof (handshake_words_u32 p Hwf) as Hw.
  destruct Hwf as (_ & He & Hx & Hs & _ & _ & [Hr Hr'] & _ & _ & Hp & _).
  unfold handshake_bytes. rewrite decode_words; [|unfold handshake_words; rewrite length_app, Hp; reflexivity|assumption].
  unfold handshake_words. cbn -[u16 i32 u32 Z.shiftr Z.land Z.lor valid_initial_sequence
    valid_flow_window valid_request SequenceNumber.make Z.leb Z.eqb].
  rewrite i32_u32 by assumption. unfold handshake_valid in Hv. rewrite Hv.
  rewrite Hr, fields_word by assumption. destruct (fields_split _ _ He Hx) as [-> ->].
  rewrite SequenceNumber.make_id by assumption. destruct p; reflexivity.
Qed.

(** What decodes is what encodes to the same bytes. *)
Lemma handshake_reencodes payload p r :
  Forall is_u8 payload -> decode_handshake_payload payload = Ok (p, r) ->
  handshake_valid p = true /\ handshake_wf p /\ payload = handshake_bytes p ++ r.
Proof.
  intros Hb H.
  destruct (Nat.lt_ge_cases (length payload) handshake_size) as [Hl|Hl].
  { unfold decode_handshake_payload in H. rewrite (proj2 (Nat.ltb_lt _ _)) in H by assumption. discriminate. }
  destruct (split_at _ _ Hl) as (h & t & -> & Hh). apply Forall_app in Hb as [Hb _].
  destruct (words_of_bytes 12 h Hh Hb) as (ws & -> & Hn & Hw).
  rewrite decode_words in H by assumption.
  do 12 (destruct ws as [|? ws]; [discriminate Hn|]). destruct ws; [|discriminate Hn].
  cbn -[u16 i32 u32 Z.shiftr Z.land Z.lor valid_initial_sequence words_bytes
    valid_flow_window valid_request SequenceNumber.make Z.leb Z.eqb Z.ltb] in H.
  destruct (_ && _) eqn:Hc in H; [|discriminate]. injection H as <- <-.
  repeat match goal with H : Forall is_u32 (_ :: _) |- _ => apply Forall_cons in H as [? H] end.
  assert (Hs : SequenceNumber.wf z1).
  { unfold valid_initial_sequence in Hc. b2p. all: unfold is_u32, SequenceNumber.wf, SequenceNumber.mask, SequenceNumber.modulus in *; lia. }
  assert (Hf : z0 = u16 (Z.shiftr z0 16) * 2 ^ 16 + u16 (Z.land z0 0xffff)).
  { unfold u16, is_u32 in *. change 0xffff with (Z.ones 16).
    rewrite Z.land_ones, Z.shiftr_div_pow2 by lia. zlia. }
  unfold handshake_bytes, handshake_words, handshake_valid, handshake_wf. cbn [version encryption_field
    extension_field initial_sequence maximum_transmission_unit flow_window request socket_id syn_cookie peer_address].
  rewrite SequenceNumber.make_id, request_code_of_code, u32_i32 by assumption.
  rewrite fields_word by (apply Z.mod_pos_bound; lia). rewrite <- Hf.
  split; [assumption|]. split; [|reflexivity].
  repeat match goal with |- _ /\ _ => split end; try assumption; try (apply Z.mod_pos_bound; lia);
    try reflexivity; try (repeat constructor; apply Z.mod_pos_bound; lia).
  - split; rewrite request_code_of_code; [reflexivity|]. unfold i32. zlia.
  - do 4 (apply Forall_cons; split; [assumption|]). constructor.
Qed.

(** The encoder accepts exactly the valid handshakes, and writes nothing
    otherwise. *)
Lemma encode_handshake_invalid p destination :
  (handshake_size <= length destination)%nat -> handshake_valid p = false ->
  encode_handshake p destination = (Error.invalid_handshake_value, destination).
Proof.
  intros Hl Hv. unfold encode_handshake. rewrite invalid_negb.
  unfold handshake_valid in Hv. rewrite Hv, (proj2 (Nat.ltb_ge _ _)) by assumption.
  reflexivity.
Qed.

Lemma encode_handshake_payload_ok p extensions destination :
  length (peer_address p) = 4%nat -> handshake_valid p = true ->
  (handshake_size + length extensions <= length destination)%nat ->
  encode_handshake_payload p extensions destination =
  (Ok (handshake_size + length extensions)%nat,
   handshake_bytes p ++ extensions
   ++ drop (handshake_size + length extensions) destination).
Proof.
  intros Hp Hv Hl. unfold encode_handshake_payload.
  rewrite (proj2 (Nat.ltb_ge _ _)) by assumption.
  destruct (split_at handshake_size destination) as (h & t & -> & Hh); [lia|].
  assert (Hb := length_handshake_bytes p Hp).
  rewrite (in_subspan_eq [] h _ _ _ Error.none (handshake_bytes p) t); auto.
  - cbn [bool_decide decide_rel]. rewrite bool_decide_true by reflexivity. f_equal.
    cbn [app]. rewrite <- Hb at 1. rewrite overwrite_app, <- drop_drop, <- Hh, drop_app_length.
    reflexivity.
  - rewrite encode_handshake_ok by (auto; lia). rewrite <- Hh, drop_all, app_nil_r. reflexivity.
Qed.
