(* ===== verification/Extensions.v ===== *)
(** Handshake extension records: their framing, the handshake parameters, the
    text extensions, path identifiers and the negotiation of the live options
    (include/robotweax/srt/handshake_extensions.hpp,
    src/handshake_extensions.cpp, src/hsv5_version_policy.hpp).  The build
    without the experimental congestion controllers is modelled. *)
From Stdlib Require Strings.String Strings.Ascii.
From S2P Require Import Prelude Packet Codec Words.
Import Stdlib.Strings.String.StringSyntax.
Delimit Scope string_scope with string.

Definition extension_header_size : nat := 4.
Definition handshake_extension_content_size : nat := 12.
Definition maximum_stream_id_size : nat := 512.
Definition minimum_hsv5_srt_version : Z := 0x00010300.
Definition path_identifier_content_size : nat := 40.
(** [SRT_VERSION_VALUE]: 1.5.7. *)
Definition srt_version_value : Z := 0x010507.

(** The bytes of a string literal. *)
Definition chars (s : String.string) : list Z :=
  map (fun c => Z.of_N (Ascii.N_of_ascii c)) (String.list_ascii_of_string s).

(** ** Types *)

(** The enumeration has a 16-bit underlying type and keeps unknown codes. *)
Module HandshakeExtensionType.
Inductive t :=
| handshake_request | handshake_response | key_material_request
| key_material_response | stream_id | congestion | packet_filter | group
| session_authentication | path_identifier | standby_rtt
| implementation_identity | multicast_dispatch | unlisted (c : Z).
Definition code (type : t) : Z :=
  match type with
  | handshake_request => 1 | handshake_response => 2 | key_material_request => 3
  | key_material_response => 4 | stream_id => 5 | congestion => 6
  | packet_filter => 7 | group => 8 | session_authentication => 0x7f10
  | path_identifier => 0x7f11 | standby_rtt => 0x7f12
  | implementation_identity => 0x7f13 | multicast_dispatch => 0x7f14
  | unlisted c => c
  end.
Definition of_code (c : Z) : t :=
  if c =? 1 then handshake_request else if c =? 2 then handshake_response
  else if c =? 3 then key_material_request else if c =? 4 then key_material_response
  else if c =? 5 then stream_id else if c =? 6 then congestion
  else if c =? 7 then packet_filter else if c =? 8 then group
  else if c =? 0x7f10 then session_authentication
  else if c =? 0x7f11 then path_identifier else if c =? 0x7f12 then standby_rtt
  else if c =? 0x7f13 then implementation_identity
  else if c =? 0x7f14 then multicast_dispatch else unlisted c.
#[export] Instance eq_dec : EqDecision t.
Proof. solve_decision. Defined.
Definition is_listed (type : t) : bool :=
  match type with unlisted _ => false | _ => true end.
End HandshakeExtensionType.
Export (hints) HandshakeExtensionType.

(** An 8-bit enumeration; codes from 128 are reserved for experiments. *)
Module CongestionController.
Inductive t := live | file | control | unlisted (c : Z).
Definition code (controller : t) : Z :=
  match controller with live => 0 | file => 1 | control => 2 | unlisted c => c end.
#[export] Instance eq_dec : EqDecision t.
Proof. solve_decision. Defined.
End CongestionController.
Export (hints) CongestionController.

Definition is_experimental_congestion_controller (controller : CongestionController.t) : bool :=
  128 <=? CongestionController.code controller.

Definition uses_file_congestion_control (controller : CongestionController.t) : bool :=
  bool_decide (controller = CongestionController.file)
  || bool_decide (controller = CongestionController.control).

Definition congestion_controller_name (controller : CongestionController.t) : list Z :=
  match controller with
  | CongestionController.live => chars "live"%string
  | CongestionController.file => chars "file"%string
  | CongestionController.control => chars "control-v1"%string
  | CongestionController.unlisted _ => []
  end.

(** [None] is the [false] return. *)
Definition parse_congestion_controller (name : list Z) : option CongestionController.t :=
  if bool_decide (name = chars "live"%string) then Some CongestionController.live
  else if bool_decide (name = chars "file"%string) then Some CongestionController.file
  else if bool_decide (name = chars "control-v1"%string) then Some CongestionController.control
  else None.

Module HandshakeExtensionFlag.
Definition tsbpd_send : Z := 0x00000001.
Definition tsbpd_receive : Z := 0x00000002.
Definition crypt : Z := 0x00000004.
Definition too_late_packet_drop : Z := 0x00000008.
Definition periodic_nak : Z := 0x00000010.
Definition retransmit_flag : Z := 0x00000020.
Definition stream : Z := 0x00000040.
Definition packet_filter : Z := 0x00000080.
End HandshakeExtensionFlag.

Definition has_flag (flags flag : Z) : bool := negb (Z.land flags flag =? 0).

Module PathIdentifier.
Record t := { bytes : list Z; size : Z }.
Definition empty : t := {| bytes := replicate 32 0; size := 0 |}.
Definition valid (p : t) : bool := (0 <? size p) && (size p <=? 32).
#[export] Instance eq_dec : EqDecision t.
Proof. solve_decision. Defined.
End PathIdentifier.
Export (hints) PathIdentifier.

Module HandshakeExtensionParameters.
Record t := {
  srt_version : Z;
  flags : Z;
  receiver_tsbpd_delay_milliseconds : Z;
  sender_tsbpd_delay_milliseconds : Z;
}.
Definition default : t :=
  {| srt_version := srt_version_value;
     flags := Z.lor (Z.lor (Z.lor (Z.lor (Z.lor (Z.lor
       HandshakeExtensionFlag.tsbpd_send HandshakeExtensionFlag.tsbpd_receive)
       HandshakeExtensionFlag.crypt) HandshakeExtensionFlag.too_late_packet_drop)
       HandshakeExtensionFlag.periodic_nak) HandshakeExtensionFlag.retransmit_flag)
       HandshakeExtensionFlag.packet_filter;
     receiver_tsbpd_delay_milliseconds := 120;
     sender_tsbpd_delay_milliseconds := 120 |}.
Definition wf (p : t) : Prop :=
  is_u32 (srt_version p) /\ is_u32 (flags p) /\
  is_u16 (receiver_tsbpd_delay_milliseconds p) /\
  is_u16 (sender_tsbpd_delay_milliseconds p).
#[export] Instance eq_dec : EqDecision t.
Proof. solve_decision. Defined.
End HandshakeExtensionParameters.
Export (hints) HandshakeExtensionParameters.
Import HandshakeExtensionParameters.

Definition buffer_mode (parameters : HandshakeExtensionParameters.t) : bool :=
  negb (Z.land (flags parameters) HandshakeExtensionFlag.stream =? 0).

Definition compatible_transmission_mode (local peer : HandshakeExtensionParameters.t) : bool :=
  Bool.eqb (buffer_mode local) (buffer_mode peer).

(** ** Live options *)

Record NegotiatedLiveOptions := {
  send_tsbpd : bool;
  receive_tsbpd : bool;
  too_late_packet_drop : bool;
  sender_too_late_packet_drop : bool;
  periodic_nak : bool;
  retransmit_flag : bool;
  receive_delay_milliseconds : Z;
  peer_receive_delay_milliseconds : Z;
  peer_periodic_nak : bool;
}.

Definition negotiate_live_options (local peer : HandshakeExtensionParameters.t)
    : NegotiatedLiveOptions :=
  let send := has_flag (flags local) HandshakeExtensionFlag.tsbpd_send
    && has_flag (flags peer) HandshakeExtensionFlag.tsbpd_receive in
  let receive := has_flag (flags local) HandshakeExtensionFlag.tsbpd_receive
    && has_flag (flags peer) HandshakeExtensionFlag.tsbpd_send in
  {| send_tsbpd := send;
     receive_tsbpd := receive;
     too_late_packet_drop :=
       receive && has_flag (flags local) HandshakeExtensionFlag.too_late_packet_drop;
     sender_too_late_packet_drop :=
       send && has_flag (flags peer) HandshakeExtensionFlag.too_late_packet_drop;
     periodic_nak := has_flag (flags local) HandshakeExtensionFlag.periodic_nak
       && has_flag (flags peer) HandshakeExtensionFlag.periodic_nak;
     retransmit_flag := has_flag (flags local) HandshakeExtensionFlag.retransmit_flag
       && has_flag (flags peer) HandshakeExtensionFlag.retransmit_flag;
     receive_delay_milliseconds :=
       if receive then Z.max (receiver_tsbpd_delay_milliseconds local)
                             (sender_tsbpd_delay_milliseconds peer) else 0;
     peer_receive_delay_milliseconds :=
       if send then Z.max (sender_tsbpd_delay_milliseconds local)
                          (receiver_tsbpd_delay_milliseconds peer) else 0;
     peer_periodic_nak := has_flag (flags peer) HandshakeExtensionFlag.periodic_nak |}.

(** ** Peer versions *)

Module Hsv5PeerVersionStatus.
Inductive t := compatible | pre_hsv5 | below_configured_minimum.
#[export] Instance eq_dec : EqDecision t.
Proof. solve_decision. Defined.
End Hsv5PeerVersionStatus.
Export (hints) Hsv5PeerVersionStatus.

Definition classify_hsv5_peer_version (advertised_version configured_minimum : Z)
    : Hsv5PeerVersionStatus.t :=
  if advertised_version <? minimum_hsv5_srt_version then Hsv5PeerVersionStatus.pre_hsv5
  else if advertised_version <? configured_minimum
  then Hsv5PeerVersionStatus.below_configured_minimum
  else Hsv5PeerVersionStatus.compatible.

(** ** Records *)

Record HandshakeExtensionView := {
  ext_type : HandshakeExtensionType.t;
  ext_content : list Z;
}.

Definition is_known_extension (type : Z) : bool :=
  ((HandshakeExtensionType.code HandshakeExtensionType.handshake_request <=? type)
   && (type <=? HandshakeExtensionType.code HandshakeExtensionType.group))
  || (type =? HandshakeExtensionType.code HandshakeExtensionType.session_authentication)
  || (type =? HandshakeExtensionType.code HandshakeExtensionType.path_identifier)
  || (type =? HandshakeExtensionType.code HandshakeExtensionType.standby_rtt)
  || (type =? HandshakeExtensionType.code HandshakeExtensionType.implementation_identity)
  || (type =? HandshakeExtensionType.code HandshakeExtensionType.multicast_dispatch).

(** The record and the number of bytes consumed. *)
Definition decode_extension (bytes : list Z) : Result (HandshakeExtensionView * nat) :=
  if (length bytes <? extension_header_size)%nat then Err Error.invalid_extension
  else
    let raw_type := read_u16 bytes 0 in
    let length_words := read_u16 bytes 2 in
    let content_size := (Z.to_nat length_words * 4)%nat in
    let total_size := (extension_header_size + content_size)%nat in
    if (length bytes <? total_size)%nat then Err Error.invalid_extension
    else Ok ({| ext_type := HandshakeExtensionType.of_code raw_type;
                ext_content := take content_size (drop extension_header_size bytes) |},
             total_size).

Definition encode_extension (type : HandshakeExtensionType.t) (content destination : list Z)
    : Result nat * list Z :=
  if negb (length content mod 4 =? 0)%nat || (2 ^ 16 - 1 <? Z.of_nat (length content / 4))
  then (Err Error.invalid_extension, destination)
  else
    let required := (extension_header_size + length content)%nat in
    if (length destination <? required)%nat then (Err Error.buffer_too_small, destination)
    else
      let raw_type := HandshakeExtensionType.code type in
      if negb (is_known_extension raw_type) then (Err Error.unsupported, destination)
      else
        let d := write_u16 destination 0 raw_type in
        let d := write_u16 d 2 (u16 (Z.of_nat (length content / 4))) in
        (Ok required, overwrite extension_header_size content d).

(** ** Handshake parameters *)

Definition decode_handshake_parameters (extension : HandshakeExtensionView)
    : Result HandshakeExtensionParameters.t :=
  if (negb (bool_decide (ext_type extension = HandshakeExtensionType.handshake_request))
      && negb (bool_decide (ext_type extension = HandshakeExtensionType.handshake_response)))
     || (length (ext_content extension) <? handshake_extension_content_size)%nat
  then Err Error.invalid_extension
  else
    let content := ext_content extension in
    Ok {| srt_version := read_u32 content 0;
          flags := read_u32 content 4;
          receiver_tsbpd_delay_milliseconds := read_u16 content 8;
          sender_tsbpd_delay_milliseconds := read_u16 content 10 |}.

Definition encode_handshake_parameters (type : HandshakeExtensionType.t)
    (parameters : HandshakeExtensionParameters.t) (destination : list Z)
    : Result nat * list Z :=
  if negb (bool_decide (type = HandshakeExtensionType.handshake_request))
     && negb (bool_decide (type = HandshakeExtensionType.handshake_response))
  then (Err Error.invalid_extension, destination)
  else
    let content := replicate handshake_extension_content_size 0 in
    let content := write_u32 content 0 (srt_version parameters) in
    let content := write_u32 content 4 (flags parameters) in
    let content := write_u16 content 8 (receiver_tsbpd_delay_milliseconds parameters) in
    let content := write_u16 content 10 (sender_tsbpd_delay_milliseconds parameters) in
    encode_extension type content destination.

(** ** Text extensions *)

Definition is_text_extension (type : HandshakeExtensionType.t) : bool :=
  match type with
  | HandshakeExtensionType.stream_id | HandshakeExtensionType.congestion
  | HandshakeExtensionType.packet_filter => true
  | _ => false
  end.

(** Text is stored in words of four characters, each word byte-swapped. *)
Definition wire_index (index : nat) : nat := (index / 4 * 4 + (3 - index mod 4))%nat.

Definition encode_extension_text (type : HandshakeExtensionType.t) (text destination : list Z)
    : Result nat * list Z :=
  if negb (is_text_extension type) || (maximum_stream_id_size <? length text)%nat
  then (Err Error.invalid_extension, destination)
  else
    let padded_size := padded (length text) in
    let required := (extension_header_size + padded_size)%nat in
    if (length destination <? required)%nat then (Err Error.buffer_too_small, destination)
    else
      let d := write_u16 destination 0 (HandshakeExtensionType.code type) in
      let d := write_u16 d 2 (u16 (Z.of_nat (padded_size / 4))) in
      let content := replicate padded_size 0 in
      let content := fold_left (fun content index =>
        <[wire_index index := text !!! index]> content) (seq 0 (length text)) content in
      (Ok required, overwrite extension_header_size content d).

Definition encode_stream_id (stream_id destination : list Z) : Result nat * list Z :=
  encode_extension_text HandshakeExtensionType.stream_id stream_id destination.

(** The characters before the first NUL. *)
Fixpoint c_string (text : list Z) : list Z :=
  match text with
  | [] => []
  | c :: rest => if c =? 0 then [] else c :: c_string rest
  end.

(** The view of the decoded text. *)
Definition decode_extension_text (extension : HandshakeExtensionView) : Result (list Z) :=
  let content := ext_content extension in
  if negb (is_text_extension (ext_type extension))
     || (maximum_stream_id_size <? length content)%nat
     || negb (length content mod 4 =? 0)%nat
  then Err Error.invalid_extension
  else
    let text := map (fun index => content !!! wire_index index) (seq 0 (length content)) in
    Ok (c_string text).

(** ** Path identifiers *)

Definition decode_path_identifier (extension : HandshakeExtensionView)
    : Result PathIdentifier.t :=
  let content := ext_content extension in
  if negb (bool_decide (ext_type extension = HandshakeExtensionType.path_identifier))
     || negb (length content =? path_identifier_content_size)%nat
     || negb (read_u32 content 0 =? 1)
  then Err Error.invalid_extension
  else
    let size := read_u32 content 4 in
    if negb ((0 <? size) && (size <=? 32)) then Err Error.invalid_extension
    else if existsb (fun index => negb (content !!! (8 + index)%nat =? 0))
              (seq (Z.to_nat size) (32 - Z.to_nat size))
    then Err Error.invalid_extension
    else Ok {| PathIdentifier.bytes :=
                 overwrite 0 (take (Z.to_nat size) (drop 8 content)) (replicate 32 0);
               PathIdentifier.size := size |}.

Definition encode_path_identifier (identifier : PathIdentifier.t) (destination : list Z)
    : Result nat * list Z :=
  if negb (PathIdentifier.valid identifier) then (Err Error.invalid_extension, destination)
  else
    let content := replicate path_identifier_content_size 0 in
    let content := write_u32 content 0 1 in
    let content := write_u32 content 4 (PathIdentifier.size identifier) in
    let content := overwrite 8
      (take (Z.to_nat (PathIdentifier.size identifier)) (PathIdentifier.bytes identifier))
      content in
    encode_extension HandshakeExtensionType.path_identifier content destination.

(** * Framing *)

(** The wire form of one record. *)
Definition extension_bytes (type : HandshakeExtensionType.t) (content : list Z) : list Z :=
  half_bytes (HandshakeExtensionType.code type)
  ++ half_bytes (Z.of_nat (length content / 4)) ++ content.

Lemma length_extension_bytes type content :
  length (extension_bytes type content) = (4 + length content)%nat.
Proof. reflexivity. Qed.

Lemma listed_of_code type : HandshakeExtensionType.is_listed type = true ->
  HandshakeExtensionType.of_code (HandshakeExtensionType.code type) = type /\
  is_known_extension (HandshakeExtensionType.code type) = true /\
  is_u16 (HandshakeExtensionType.code type).
Proof. destruct type; try discriminate; intros _; repeat split; simpl; lia. Qed.

(** Content of whole words that fits the length field. *)
Definition framed (content : list Z) : Prop :=
  (length content mod 4 = 0)%nat /\ Z.of_nat (length content) < 2 ^ 18.

Lemma framed_words content : framed content ->
  is_u16 (Z.of_nat (length content / 4)) /\ (length content / 4 * 4 = length content)%nat.
Proof.
  intros [Hm Hl]. pose proof (Nat.div_mod_eq (length content) 4). unfold is_u16.
  split; lia.
Qed.

Lemma write_record type n content destination :
  (4 + length content <= length destination)%nat ->
  overwrite 4 content (write_u16 (write_u16 destination 0 type) 2 n) =
  (half_bytes type ++ half_bytes n ++ content) ++ drop (4 + length content) destination.
Proof.
  intros H. destruct (split_at 4 destination) as (p & r & -> & Hp); [lia|].
  do 4 (destruct p as [|? p]; [discriminate Hp|]). destruct p; [|discriminate Hp].
  cbn. unfold half_bytes. cbn. reflexivity.
Qed.

Lemma encode_extension_ok type content destination :
  HandshakeExtensionType.is_listed type = true -> framed content ->
  (4 + length content <= length destination)%nat ->
  encode_extension type content destination =
  (Ok (4 + length content)%nat,
   extension_bytes type content ++ drop (4 + length content) destination).
Proof.
  intros Ht Hf Hl. destruct (listed_of_code type Ht) as (_ & Hk & _).
  destruct (framed_words _ Hf) as [Hu _]. destruct Hf as [Hm _].
  unfold encode_extension, extension_header_size.
  rewrite Hm, Hk, (proj2 (Z.ltb_ge _ _)), (proj2 (Nat.ltb_ge _ _)) by (unfold is_u16 in Hu; lia).
  cbn [negb orb Nat.eqb]. rewrite write_record by assumption.
  unfold u16. rewrite Z.mod_small by assumption. reflexivity.
Qed.

Lemma read_second_half a b r :
  is_u16 b -> read_u16 (half_bytes a ++ half_bytes b ++ r) 2 = b.
Proof.
  intros. etransitivity; [apply (read_u16_app (half_bytes a) _ 0)|].
  apply read_half_bytes. assumption.
Qed.

Lemma decode_extension_bytes type content rest :
  HandshakeExtensionType.is_listed type = true -> framed content ->
  decode_extension (extension_bytes type content ++ rest) =
  Ok ({| ext_type := type; ext_content := content |}, (4 + length content)%nat).
Proof.
  intros Ht Hf. destruct (listed_of_code type Ht) as (Hc & _ & Hu).
  destruct (framed_words _ Hf) as [Hn Hd].
  unfold decode_extension. rewrite length_app, length_extension_bytes.
  unfold extension_header_size, extension_bytes.
  rewrite (proj2 (Nat.ltb_ge _ _)) by lia. rewrite <- !app_assoc.
  rewrite read_half_bytes, read_second_half, Nat2Z.id, Hd, Hc by assumption.
  rewrite (proj2 (Nat.ltb_ge _ _)) by lia. f_equal. f_equal. f_equal.
  unfold half_bytes. cbn. apply take_app_length.
Qed.

(** A successful decoding consumes a header and whole words. *)
Lemma decode_extension_consumes bytes view n :
  decode_extension bytes = Ok (view, n) ->
  (4 <= n <= length bytes)%nat /\ n = (4 + length (ext_content view))%nat /\
  (length (ext_content view) mod 4 = 0)%nat.
Proof.
  unfold decode_extension. repeat case_if; try discriminate. intros [= <- <-].
  cbn [ext_content]. rewrite length_take, length_drop. unfold extension_header_size in *.
  rewrite Nat.min_l by lia. split; [lia|]. split; [reflexivity|]. apply Nat.Div0.mod_mul.
Qed.

(** * Round trips of the contents *)

Definition parameters_content (p : HandshakeExtensionParameters.t) : list Z :=
  word_bytes (srt_version p) ++ word_bytes (flags p)
  ++ half_bytes (receiver_tsbpd_delay_milliseconds p)
  ++ half_bytes (sender_tsbpd_delay_milliseconds p).

Definition is_parameters_type (type : HandshakeExtensionType.t) : bool :=
  match type with
  | HandshakeExtensionType.handshake_request | HandshakeExtensionType.handshake_response => true
  | _ => false
  end.

Lemma encode_handshake_parameters_ok type p destination :
  is_parameters_type type = true -> (16 <= length destination)%nat ->
  encode_handshake_parameters type p destination =
  (Ok 16%nat, extension_bytes type (parameters_content p) ++ drop 16 destination).
Proof.
  intros Ht Hl. unfold encode_handshake_parameters.
  replace (negb _ && negb _) with false by (destruct type; try discriminate; reflexivity).
  change (write_u16 (write_u16 (write_u32 (write_u32 _ 0 _) 4 _) 8 _) 10 _)
    with (parameters_content p).
  apply encode_extension_ok; [destruct type; try discriminate; reflexivity| |assumption].
  split; [reflexivity|]. change (length (parameters_content p)) with 12%nat. lia.
Qed.

Lemma decode_parameters_content type p :
  is_parameters_type type = true -> HandshakeExtensionParameters.wf p ->
  decode_handshake_parameters {| ext_type := type; ext_content := parameters_content p |} = Ok p.
Proof.
  intros Ht (Hv & Hf & Hr & Hs). unfold decode_handshake_parameters. cbn [ext_type ext_content].
  replace (negb _ && negb _) with false by (destruct type; try discriminate; reflexivity).
  change (length (parameters_content p) <? handshake_extension_content_size)%nat with false.
  cbn [orb]. f_equal.
  set (c := parameters_content p).
  assert (R0 : read_u32 c 0 = srt_version p)
    by (apply (read_u32_at [] _ (drop 4 c)); [reflexivity|reflexivity|assumption]).
  assert (R4 : read_u32 c 4 = flags p)
    by (apply (read_u32_at (take 4 c) _ (drop 8 c)); [reflexivity|reflexivity|assumption]).
  assert (R8 : read_u16 c 8 = receiver_tsbpd_delay_milliseconds p)
    by (apply (read_u16_at (take 8 c) _ (drop 10 c)); [reflexivity|reflexivity|assumption]).
  assert (R10 : read_u16 c 10 = sender_tsbpd_delay_milliseconds p)
    by (apply (read_u16_at (take 10 c) _ []); [reflexivity|reflexivity|assumption]).
  rewrite R0, R4, R8, R10. destruct p; reflexivity.
Qed.

(** ** Text *)

Lemma wire_index_involutive i : wire_index (wire_index i) = i.
Proof.
  unfold wire_index. pose proof (Nat.div_mod_eq i 4). pose proof (Nat.mod_upper_bound i 4).
  assert (E : ((i / 4 * 4 + (3 - i mod 4)) / 4 = i / 4)%nat).
  { symmetry. apply (Nat.div_unique _ _ _ (3 - i mod 4)); lia. }
  pose proof (Nat.div_mod_eq (i / 4 * 4 + (3 - i mod 4)) 4). lia.
Qed.

Lemma wire_index_lt i n : (n mod 4 = 0)%nat -> (i < n)%nat -> (wire_index i < n)%nat.
Proof.
  intros Hn Hi. unfold wire_index. pose proof (Nat.div_mod_eq n 4).
  assert (i / 4 < n / 4)%nat by (apply Nat.Div0.div_lt_upper_bound; lia). lia.
Qed.

(** The bytes a text extension stores. *)
Definition text_content (text : list Z) : list Z :=
  fold_left (fun content index => <[wire_index index := text !!! index]> content)
    (seq 0 (length text)) (replicate (padded (length text)) 0).

Lemma text_fill (text c0 : list Z) n :
  length (fold_left (fun content index => <[wire_index index := text !!! index]> content)
    (seq 0 n) c0) = length c0 /\
  forall j, (wire_index j < length c0)%nat ->
    fold_left (fun content index => <[wire_index index := text !!! index]> content)
      (seq 0 n) c0 !!! wire_index j =
    if (j <? n)%nat then text !!! j else c0 !!! wire_index j.
Proof.
  induction n as [|n [IHl IH]]; [split; intros; reflexivity|].
  rewrite seq_S, fold_left_app. cbn [fold_left Nat.add]. rewrite length_insert.
  split; [assumption|]. intros j Hj.
  destruct (decide (j = n)) as [->|Hne].
  - rewrite list_lookup_total_insert_eq by (rewrite IHl; assumption).
    rewrite (proj2 (Nat.ltb_lt _ _)) by lia. reflexivity.
  - rewrite list_lookup_total_insert_ne, IH.
    2: assumption.
    2:{ intros E. apply (f_equal wire_index) in E. rewrite !wire_index_involutive in E. lia. }
    destruct (Nat.ltb_spec j n), (Nat.ltb_spec j (S n)); auto; lia.
Qed.

Lemma length_text_content text : length (text_content text) = padded (length text).
Proof. unfold text_content. rewrite (proj1 (text_fill _ _ _)). apply length_replicate. Qed.

Lemma text_content_lookup text j : (j < padded (length text))%nat ->
  text_content text !!! wire_index j = (text ++ replicate (padded (length text) - length text) 0) !!! j.
Proof.
  intros Hj. destruct (padded_spec (length text)) as [Hp Hm].
  unfold text_content. rewrite (proj2 (text_fill _ _ _)).
  2:{ rewrite length_replicate. apply wire_index_lt; assumption. }
  destruct (Nat.ltb_spec j (length text)).
  - rewrite lookup_total_app_l by assumption. reflexivity.
  - rewrite lookup_total_app_r by assumption. rewrite !lookup_total_replicate_2; auto; [lia|].
    apply wire_index_lt; assumption.
Qed.

Lemma c_string_text text n :
  Forall (fun c => c <> 0) text -> c_string (text ++ replicate n 0) = text.
Proof.
  induction 1 as [|c text Hc _ IH]; [destruct n; reflexivity|]. cbn [app c_string].
  rewrite (proj2 (Z.eqb_neq _ _)), IH by assumption. reflexivity.
Qed.

(** Text without NUL characters that fits. *)
Definition text_ok (text : list Z) : Prop :=
  (length text <= maximum_stream_id_size)%nat /\ Forall (fun c => c <> 0) text.

Lemma padded_text text : text_ok text ->
  (padded (length text) <= maximum_stream_id_size)%nat.
Proof.
  intros [H _]. destruct (padded_spec (length text)) as [? Hm].
  unfold maximum_stream_id_size in *. pose proof (Nat.div_mod_eq (padded (length text)) 4). lia.
Qed.

Lemma text_content_framed text : text_ok text -> framed (text_content text).
Proof.
  intros H. pose proof (padded_text _ H). destruct (padded_spec (length text)).
  unfold framed, maximum_stream_id_size in *. rewrite length_text_content. lia.
Qed.

Lemma encode_extension_text_ok type text destination :
  is_text_extension type = true -> text_ok text ->
  (4 + padded (length text) <= length destination)%nat ->
  encode_extension_text type text destination =
  (Ok (4 + padded (length text))%nat,
   extension_bytes type (text_content text) ++ drop (4 + padded (length text)) destination).
Proof.
  intros Ht Hok Hl. unfold encode_extension_text, extension_header_size. rewrite Ht.
  rewrite (proj2 (Nat.ltb_ge maximum_stream_id_size _)) by apply Hok. cbn [negb orb].
  rewrite (proj2 (Nat.ltb_ge _ _)) by assumption. fold (text_content text).
  pose proof (framed_words _ (text_content_framed _ Hok)) as [Hu _].
  rewrite length_text_content in Hu.
  rewrite write_record by (rewrite length_text_content; assumption).
  unfold extension_bytes, u16. rewrite length_text_content, Z.mod_small by assumption.
  reflexivity.
Qed.

Lemma decode_text_content type text :
  is_text_extension type = true -> text_ok text ->
  decode_extension_text {| ext_type := type; ext_content := text_content text |} = Ok text.
Proof.
  intros Ht Hok. unfold decode_extension_text. cbn [ext_type ext_content].
  pose proof (padded_text _ Hok) as Hp. destruct (padded_spec (length text)) as [Hb Hm].
  rewrite length_text_content, Ht, Hm, (proj2 (Nat.ltb_ge _ _)) by assumption. cbn [negb orb Nat.eqb].
  f_equal. transitivity (c_string (text ++ replicate (padded (length text) - length text) 0));
    [f_equal|apply c_string_text, Hok].
  apply list_eq. intros j.
  destruct (decide (j < padded (length text))%nat) as [Hj|Hj].
  - rewrite (list_lookup_fmap _ (seq _ _) j), lookup_seq_lt by assumption. cbn [fmap option_fmap option_map Nat.add].
    rewrite text_content_lookup by assumption. symmetry. apply list_lookup_lookup_total_lt.
    rewrite length_app, length_replicate. lia.
  - rewrite !lookup_ge_None_2; rewrite ?length_map, ?length_seq, ?length_app, ?length_replicate; auto; lia.
Qed.

(** ** Path identifiers *)

(** A valid identifier in its 32-byte array, zero beyond its size. *)
Definition path_ok (p : PathIdentifier.t) : Prop :=
  length (PathIdentifier.bytes p) = 32%nat /\ PathIdentifier.valid p = true /\
  drop (Z.to_nat (PathIdentifier.size p)) (PathIdentifier.bytes p) =
  replicate (32 - Z.to_nat (PathIdentifier.size p)) 0.

Definition path_content (p : PathIdentifier.t) : list Z :=
  word_bytes 1 ++ word_bytes (PathIdentifier.size p) ++ PathIdentifier.bytes p.

Lemma path_size p : path_ok p -> (Z.to_nat (PathIdentifier.size p) <= 32)%nat /\
  0 < PathIdentifier.size p <= 32.
Proof. intros (_ & Hv & _). unfold PathIdentifier.valid in Hv. b2p. lia. Qed.

Lemma zero_filled_prefix n (l : list Z) m : (n <= length l)%nat -> m = (length l - n)%nat ->
  drop n l = replicate m 0 -> overwrite 0 (take n l) (replicate (length l) 0) = l.
Proof.
  intros Hn -> Hd. unfold overwrite. cbn [take app Nat.add].
  rewrite length_take, Nat.min_l, drop_replicate, <- Hd by assumption.
  apply take_drop.
Qed.

Lemma encode_path_identifier_ok p destination :
  path_ok p -> (44 <= length destination)%nat ->
  encode_path_identifier p destination =
  (Ok 44%nat, extension_bytes HandshakeExtensionType.path_identifier (path_content p)
              ++ drop 44 destination).
Proof.
  intros Hok Hl. pose proof (path_size p Hok) as [Hs _]. destruct Hok as (Hb & Hv & Hd).
  unfold encode_path_identifier. rewrite Hv. cbn [negb].
  set (content := overwrite 8 _ _).
  assert (content = path_content p) as ->.
  { unfold content, path_content, path_identifier_content_size.
    change (write_u32 (write_u32 (replicate 40 0) 0 1) 4 (PathIdentifier.size p))
      with ((word_bytes 1 ++ word_bytes (PathIdentifier.size p)) ++ replicate 32 0).
    rewrite (overwrite_app (word_bytes 1 ++ word_bytes (PathIdentifier.size p))), <- app_assoc.
    do 2 f_equal. pose proof (zero_filled_prefix (Z.to_nat (PathIdentifier.size p))
      (PathIdentifier.bytes p) (32 - Z.to_nat (PathIdentifier.size p))) as Z0.
    rewrite Hb in Z0. apply Z0; auto. }
  assert (length (path_content p) = 40%nat) as E
    by (unfold path_content; rewrite !length_app, !length_word_bytes, Hb; reflexivity).
  rewrite encode_extension_ok; rewrite ?E; auto.
  split; rewrite E; [reflexivity|lia].
Qed.

Lemma decode_path_content p : path_ok p ->
  decode_path_identifier {| ext_type := HandshakeExtensionType.path_identifier;
                            ext_content := path_content p |} = Ok p.
Proof.
  intros Hok. pose proof (path_size p Hok) as [Hs Hu]. destruct Hok as (Hb & Hv & Hd).
  unfold decode_path_identifier. cbn [ext_type ext_content].
  assert (length (path_content p) = 40%nat) as E
    by (unfold path_content; rewrite !length_app, !length_word_bytes, Hb; reflexivity).
  assert (R0 : read_u32 (path_content p) 0 = 1) by reflexivity.
  assert (R4 : read_u32 (path_content p) 4 = PathIdentifier.size p).
  { etransitivity; [apply (read_u32_app (word_bytes 1) _ 0)|]. apply read_word_bytes. unfold is_u32. lia. }
  rewrite E, R0, R4. rewrite bool_decide_true by reflexivity. cbn [negb orb Nat.eqb path_identifier_content_size Z.eqb Pos.eqb].
  unfold PathIdentifier.valid in Hv. rewrite Hv. cbn [negb].
  assert (T : forall i, path_content p !!! (8 + i)%nat = PathIdentifier.bytes p !!! i)
    by (intros i; exact (lookup_total_app_add (word_bytes 1 ++ word_bytes (PathIdentifier.size p)) _ i)).
  destruct (existsb _ _) eqn:Ex.
  - apply existsb_exists in Ex as (i & Hi & Hz). apply in_seq in Hi. rewrite T in Hz.
    replace i with (Z.to_nat (PathIdentifier.size p) + (i - Z.to_nat (PathIdentifier.size p)))%nat in Hz by lia.
    rewrite <- lookup_total_drop, Hd, lookup_total_replicate_2 in Hz by lia. discriminate.
  - change (drop 8 (path_content p)) with (PathIdentifier.bytes p). f_equal.
    rewrite <- Hb at 1. rewrite (zero_filled_prefix _ _ (32 - Z.to_nat (PathIdentifier.size p))); rewrite ?Hb; auto.
    destruct p; reflexivity.
Qed.

Lemma controller_name_parses c :
  congestion_controller_name c <> [] -> parse_congestion_controller (congestion_controller_name c) = Some c.
Proof. destruct c; try reflexivity. intros []. reflexivity. Qed.

Lemma controller_name_text c : text_ok (congestion_controller_name c).
Proof. split; [destruct c; cbn; unfold maximum_stream_id_size; lia|destruct c; repeat constructor; discriminate]. Qed.

(** * Live options agree on both ends *)

(** Each direction of the connection has one receiver delay, one drop policy
    and one marking policy, whichever end computes them. *)
Lemma live_options_mirror a b :
  send_tsbpd (negotiate_live_options a b) = receive_tsbpd (negotiate_live_options b a) /\
  peer_receive_delay_milliseconds (negotiate_live_options a b) =
    receive_delay_milliseconds (negotiate_live_options b a) /\
  sender_too_late_packet_drop (negotiate_live_options a b) =
    too_late_packet_drop (negotiate_live_options b a) /\
  periodic_nak (negotiate_live_options a b) = periodic_nak (negotiate_live_options b a) /\
  retransmit_flag (negotiate_live_options a b) = retransmit_flag (negotiate_live_options b a).
Proof.
  unfold negotiate_live_options. cbn [send_tsbpd receive_tsbpd peer_receive_delay_milliseconds
    receive_delay_milliseconds sender_too_late_packet_drop too_late_packet_drop periodic_nak retransmit_flag].
  rewrite !(andb_comm (has_flag (flags b) _)), (Z.max_comm (receiver_tsbpd_delay_milliseconds b)).
  repeat split.
Qed.
