(* ===== verification/PacketFilter.v ===== *)
(** Packet filter configurations: their text form, the negotiation between the
    two ends, the filter control header and the receive policy
    (include/robotweax/srt/packet_filter.hpp, src/packet_filter.cpp).  The build
    without the experimental filters is modelled, in which [experimental()] is
    false. *)
From Stdlib Require Strings.String.
From S2P Require Import Prelude Sequence Packet Words Extensions.
Import Stdlib.Strings.String.StringSyntax.

Definition maximum_packet_filter_configuration_size : nat := 512.
Definition fec_filter_header_size : nat := 4.
Definition sensor_profile_filter_v1 : list Z :=
  chars "fec-sensor-v1,cols:4,rows:1,arq:never"%string.

(** ** Data *)

Module PacketFilterLayout.
Inductive t := even | staircase.
#[export] Instance eq_dec : EqDecision t.
Proof. solve_decision. Defined.
End PacketFilterLayout.
Export (hints) PacketFilterLayout.

Module PacketFilterArqLevel.
Inductive t := never | on_request | always.
#[export] Instance eq_dec : EqDecision t.
Proof. solve_decision. Defined.
End PacketFilterArqLevel.
Export (hints) PacketFilterArqLevel.

(** The text array and its size are the characters of [view()]. *)
Module PacketFilterConfiguration.
Record t := {
  enabled : bool;
  columns : Z;
  rows : Z;
  layout : PacketFilterLayout.t;
  arq : PacketFilterArqLevel.t;
  columns_specified : bool;
  rows_specified : bool;
  layout_specified : bool;
  arq_specified : bool;
  text : list Z;
}.
Definition default : t :=
  {| enabled := false; columns := 0; rows := 1; layout := PacketFilterLayout.staircase;
     arq := PacketFilterArqLevel.on_request; columns_specified := false;
     rows_specified := false; layout_specified := false; arq_specified := false;
     text := [] |}.
#[export] Instance eq_dec : EqDecision t.
Proof. solve_decision. Defined.
Definition eta_t (c : t) : t :=
  Build_t (enabled c) (columns c) (rows c) (layout c) (arq c) (columns_specified c)
    (rows_specified c) (layout_specified c) (arq_specified c) (text c).
Definition set_enabled : bool -> t -> t := ltac:(setter eta_t enabled).
Definition set_columns : Z -> t -> t := ltac:(setter eta_t columns).
Definition set_rows : Z -> t -> t := ltac:(setter eta_t rows).
Definition set_layout : PacketFilterLayout.t -> t -> t := ltac:(setter eta_t layout).
Definition set_arq : PacketFilterArqLevel.t -> t -> t := ltac:(setter eta_t arq).
Definition set_columns_specified : bool -> t -> t := ltac:(setter eta_t columns_specified).
Definition set_rows_specified : bool -> t -> t := ltac:(setter eta_t rows_specified).
Definition set_layout_specified : bool -> t -> t := ltac:(setter eta_t layout_specified).
Definition set_arq_specified : bool -> t -> t := ltac:(setter eta_t arq_specified).
Definition set_text : list Z -> t -> t := ltac:(setter eta_t text).
End PacketFilterConfiguration.
Export (hints) PacketFilterConfiguration.
Import PacketFilterConfiguration.

(** [text.starts_with(prefix)]. *)
Definition starts_with (text prefix : list Z) : bool :=
  bool_decide (take (length prefix) text = prefix).

Definition sensor_profile (c : PacketFilterConfiguration.t) : bool :=
  starts_with (text c) (chars "fec-sensor-v1,"%string).

Definition extra_header_size (c : PacketFilterConfiguration.t) : nat :=
  if enabled c then fec_filter_header_size else 0.

Definition valid_fec_geometry (columns rows : Z) : bool :=
  if 128 <? columns then false
  else if rows =? 1 then true
  else if (rows =? 0) || (rows =? -1) then false
  else
    let column_size := if rows <? 0 then u64 (- rows) else u64 rows in
    (columns <=? 128) && (u64 (columns * column_size) <? SequenceNumber.half_range).

(** ** Text *)

(** [None] when the text is too long or holds a NUL. *)
Definition store_text (configuration : PacketFilterConfiguration.t) (value : list Z)
    : option PacketFilterConfiguration.t :=
  if (maximum_packet_filter_configuration_size <? length value)%nat then None
  else if existsb (fun c => c =? 0) value then None
  else Some (set_text value configuration).

(** [std::from_chars] in base 10 that must consume the whole text: digits,
    after a minus sign for a signed type, within the type's range. *)
Fixpoint parse_digits (accumulated : Z) (digits : list Z) : option Z :=
  match digits with
  | [] => Some accumulated
  | c :: rest =>
      if (48 <=? c) && (c <=? 57) then parse_digits (accumulated * 10 + (c - 48)) rest else None
  end.

Definition parse_unsigned (maximum : Z) (value : list Z) : option Z :=
  match value with
  | [] => None
  | _ => match parse_digits 0 value with
         | Some n => if n <=? maximum then Some n else None
         | None => None
         end
  end.

Definition parse_u32 : list Z -> option Z := parse_unsigned (2 ^ 32 - 1).

Definition parse_i32 (value : list Z) : option Z :=
  match value with
  | [] => None
  | c :: rest =>
      if c =? 45 then
        match parse_unsigned (2 ^ 31) rest with Some n => Some (- n) | None => None end
      else parse_unsigned (2 ^ 31 - 1) value
  end.

Definition append (value : list Z) (destination : PacketFilterConfiguration.t)
    : option PacketFilterConfiguration.t :=
  if (maximum_packet_filter_configuration_size - length (text destination) <? length value)%nat
  then None else Some (set_text (text destination ++ value) destination).

(** [std::to_chars] in base 10. *)
Fixpoint decimal (fuel : nat) (n : Z) : list Z :=
  match fuel with
  | O => []
  | S fuel => (if n <? 10 then [] else decimal fuel (n / 10)) ++ [48 + n mod 10]
  end.
Definition to_chars (value : Z) : list Z :=
  if value <? 0 then 45 :: decimal 20 (- value) else decimal 20 value.

Definition append_integer (value : Z) (destination : PacketFilterConfiguration.t)
    : option PacketFilterConfiguration.t := append (to_chars value) destination.

Definition arq_name (level : PacketFilterArqLevel.t) : list Z :=
  match level with
  | PacketFilterArqLevel.never => chars "never"%string
  | PacketFilterArqLevel.always => chars "always"%string
  | PacketFilterArqLevel.on_request => chars "onreq"%string
  end.
Definition layout_name (l : PacketFilterLayout.t) : list Z :=
  match l with
  | PacketFilterLayout.even => chars "even"%string
  | PacketFilterLayout.staircase => chars "staircase"%string
  end.

Definition format_effective (configuration : PacketFilterConfiguration.t) (profile : bool)
    : option PacketFilterConfiguration.t :=
  let c := set_text [] configuration in
  if profile then append sensor_profile_filter_v1 c
  else
    c ← append (chars "fec,arq:"%string) c;
    c ← append (arq_name (arq configuration)) c;
    c ← append (chars ",cols:"%string) c;
    c ← append_integer (columns configuration) c;
    c ← append (chars ",layout:"%string) c;
    c ← append (layout_name (layout configuration)) c;
    c ← append (chars ",rows:"%string) c;
    append_integer (rows configuration) c.

(** ** Negotiation *)

(** The value both ends use, or [None] on a conflict. *)
Definition merge_value {V} `{EqDecision V} (local_specified : bool) (local : V)
    (peer_specified : bool) (peer default_value : V) : option V :=
  if local_specified && peer_specified && negb (bool_decide (local = peer)) then None
  else Some (if local_specified then local
             else if peer_specified then peer else default_value).

Definition response_value {V} (local_specified : bool) (local : V)
    (response_specified : bool) (response default_value : V) : V :=
  if response_specified then response
  else if local_specified then local else default_value.

(** The four resolved fields. *)
Definition resolve_fields (local peer : PacketFilterConfiguration.t) (peer_overrides : bool)
    : option (Z * Z * PacketFilterLayout.t * PacketFilterArqLevel.t) :=
  if peer_overrides then
    Some (response_value (columns_specified local) (columns local)
            (columns_specified peer) (columns peer) 0,
          response_value (rows_specified local) (rows local)
            (rows_specified peer) (rows peer) 1,
          response_value (layout_specified local) (layout local)
            (layout_specified peer) (layout peer) PacketFilterLayout.staircase,
          response_value (arq_specified local) (arq local)
            (arq_specified peer) (arq peer) PacketFilterArqLevel.on_request)
  else
    c ← merge_value (columns_specified local) (columns local)
          (columns_specified peer) (columns peer) 0;
    r ← merge_value (rows_specified local) (rows local)
          (rows_specified peer) (rows peer) 1;
    l ← merge_value (layout_specified local) (layout local)
          (layout_specified peer) (layout peer) PacketFilterLayout.staircase;
    a ← merge_value (arq_specified local) (arq local)
          (arq_specified peer) (arq peer) PacketFilterArqLevel.on_request;
    Some (c, r, l, a).

Definition resolve_effective_configuration (local peer : PacketFilterConfiguration.t)
    (peer_overrides : bool) : Result PacketFilterConfiguration.t :=
  if negb (enabled local) && negb (enabled peer) then Ok default
  else
    let profile := sensor_profile local in
    if negb (Bool.eqb profile (sensor_profile peer)) then Err Error.invalid_state
    else
      match resolve_fields local peer peer_overrides with
      | None => Err Error.invalid_state
      | Some (c, r, l, a) =>
          if c <? 2 then Err Error.invalid_state
          else if negb (valid_fec_geometry c r) then Err Error.invalid_state
          else
            let result :=
              {| enabled := true; columns := c; rows := r; layout := l; arq := a;
                 columns_specified := true; rows_specified := true;
                 layout_specified := true; arq_specified := true; text := [] |} in
            match format_effective result profile with
            | None => Err Error.invalid_state
            | Some result => Ok result
            end
      end.

Definition negotiate_packet_filter_configuration (local peer : PacketFilterConfiguration.t)
    (rendezvous : bool) : Result PacketFilterConfiguration.t :=
  if negb (enabled local) && negb (enabled peer) then Ok default
  else if rendezvous && enabled local && enabled peer
          && negb (bool_decide (text local = text peer))
  then Err Error.invalid_state
  else
    match resolve_effective_configuration local peer false with
    | Err e => Err e
    | Ok resolved =>
        if rendezvous then
          match store_text resolved (if enabled local then text local else text peer) with
          | None => Err Error.invalid_state
          | Some resolved => Ok resolved
          end
        else Ok resolved
    end.

Definition apply_packet_filter_response (local response : PacketFilterConfiguration.t)
    : Result PacketFilterConfiguration.t :=
  if negb (enabled response) then Err Error.invalid_state
  else resolve_effective_configuration local response true.

Definition fec_geometry_fits_receive_capacity (configuration : PacketFilterConfiguration.t)
    (receive_capacity_packets : Z) : bool :=
  if negb (enabled configuration) then true
  else if (receive_capacity_packets =? 0) || (columns configuration <? 2)
          || (rows configuration =? 0) || (rows configuration =? -1)
  then false
  else
    let rows := if rows configuration <? 0 then - rows configuration else rows configuration in
    columns configuration <=? receive_capacity_packets / rows.

(** ** Parsing *)

(** [text.find(c, offset)]; [None] is [npos]. *)
Fixpoint find_char (c : Z) (value : list Z) : option nat :=
  match value with
  | [] => None
  | x :: rest => if x =? c then Some 0%nat else S <$> find_char c rest
  end.
Definition find_from (c : Z) (value : list Z) (offset : nat) : option nat :=
  (fun i => (offset + i)%nat) <$> find_char c (drop offset value).

(** One [key:value] item of the text; [None] is [invalid_state]. *)
Definition parse_field (key value : list Z) (c : PacketFilterConfiguration.t)
    : option PacketFilterConfiguration.t :=
  if bool_decide (key = chars "cols"%string) then
    if columns_specified c then None
    else n ← parse_u32 value;
         if (n <? 2) || (2 ^ 31 - 1 <? n) then None
         else Some (set_columns_specified true (set_columns n c))
  else if bool_decide (key = chars "rows"%string) then
    if rows_specified c then None
    else n ← parse_i32 value;
         if (n <? 1) && (-2 <? n) then None
         else Some (set_rows_specified true (set_rows n c))
  else if bool_decide (key = chars "layout"%string) then
    if layout_specified c
       || (negb (bool_decide (value = chars "even"%string))
           && negb (bool_decide (value = chars "staircase"%string))) then None
    else Some (set_layout_specified true
           (set_layout (if bool_decide (value = chars "even"%string)
                        then PacketFilterLayout.even else PacketFilterLayout.staircase) c))
  else if bool_decide (key = chars "arq"%string) then
    if arq_specified c then None
    else
      level ← (if bool_decide (value = chars "never"%string) then Some PacketFilterArqLevel.never
               else if bool_decide (value = chars "onreq"%string)
               then Some PacketFilterArqLevel.on_request
               else if bool_decide (value = chars "always"%string)
               then Some PacketFilterArqLevel.always else None);
      Some (set_arq_specified true (set_arq level c))
  else None.

Definition parse_item (item : list Z) (c : PacketFilterConfiguration.t)
    : option PacketFilterConfiguration.t :=
  match item, find_char 58 item with
  | [], _ | _, None | _, Some O => None
  | _, Some colon =>
      if (colon + 1 =? length item)%nat then None
      else parse_field (take colon item) (drop (colon + 1) item) c
  end.

(** The item loop, one iteration per unit of fuel. *)
Fixpoint parse_items (fuel : nat) (value : list Z) (offset : nat)
    (c : PacketFilterConfiguration.t) : option PacketFilterConfiguration.t :=
  match fuel with
  | O => None
  | S fuel =>
      if (length value <=? offset)%nat then Some c
      else
        let comma := find_from 44 value offset in
        let end_ := match comma with Some n => n | None => length value end in
        c ← parse_item (take (end_ - offset) (drop offset value)) c;
        match comma with
        | None => Some c
        | Some comma =>
            if (comma + 1 =? length value)%nat then None
            else parse_items fuel value (comma + 1) c
        end
  end.

Definition parse_packet_filter_configuration (value : list Z)
    : Result PacketFilterConfiguration.t :=
  match value with
  | [] => Ok default
  | _ =>
    match store_text default value with
    | None => Err Error.invalid_state
    | Some configuration =>
      let first_comma := find_char 44 value in
      let type := match first_comma with Some n => take n value | None => value end in
      if negb (bool_decide (type = chars "fec"%string))
         && negb (bool_decide (type = chars "fec-sensor-v1"%string))
      then Err Error.unsupported
      else
        let configuration := set_enabled true configuration in
        let profile := bool_decide (type = chars "fec-sensor-v1"%string) in
        match first_comma with
        | None => if profile then Err Error.invalid_state else Ok configuration
        | Some first_comma =>
            match parse_items (length value) value (first_comma + 1) configuration with
            | None => Err Error.invalid_state
            | Some c =>
                if columns_specified c && rows_specified c
                   && negb (valid_fec_geometry (columns c) (rows c))
                then Err Error.invalid_state
                else if profile
                  && (negb (bool_decide (value = sensor_profile_filter_v1))
                      || negb (columns_specified c) || negb (columns c =? 4)
                      || negb (rows_specified c) || negb (rows c =? 1)
                      || negb (arq_specified c)
                      || negb (bool_decide (arq c = PacketFilterArqLevel.never))
                      || (layout_specified c
                          && negb (bool_decide (layout c = PacketFilterLayout.staircase))))
                then Err Error.invalid_state
                else Ok c
            end
        end
    end
  end.

(** ** The filter control header *)

Record FecControlHeader := {
  group_index : Z;
  flags_recovery : Z;
  length_recovery : Z;
}.

Definition encode_fec_control_header (header : FecControlHeader) (destination : list Z)
    : Error.t * list Z :=
  if (group_index header <? -1) || (3 <? flags_recovery header)
  then (Error.invalid_control_payload, destination)
  else if (length destination <? fec_filter_header_size)%nat
  then (Error.buffer_too_small, destination)
  else
    (Error.none,
     overwrite 0 [u8 (group_index header); u8 (flags_recovery header);
                  Z.land (Z.shiftr (length_recovery header) 8) 0xff;
                  Z.land (length_recovery header) 0xff] destination).

(** The header and the recovery payload after it. *)
Definition decode_fec_control_payload (payload : list Z) : Result (FecControlHeader * list Z) :=
  if (length payload <? fec_filter_header_size)%nat then Err Error.invalid_control_payload
  else
    let raw_index := payload !!! 0%nat in
    if ((127 <? raw_index) && negb (raw_index =? 0xff)) || (3 <? payload !!! 1%nat)
    then Err Error.invalid_control_payload
    else
      Ok ({| group_index := if raw_index =? 0xff then -1 else raw_index;
             flags_recovery := payload !!! 1%nat;
             length_recovery := read_u16 payload 2 |},
          drop fec_filter_header_size payload).

(** ** The receive policy *)

Module PacketFilterReceiveDisposition.
Inductive t := pass_through | consume_filter_control | invalid_filter_control.
#[export] Instance eq_dec : EqDecision t.
Proof. solve_decision. Defined.
End PacketFilterReceiveDisposition.

Module PacketFilterPolicy.
Record t := {
  configuration : PacketFilterConfiguration.t;
  reconstruction_available : bool;
}.

Definition effective_arq_level (p : t) : PacketFilterArqLevel.t :=
  if negb (enabled (configuration p)) then PacketFilterArqLevel.always
  else if bool_decide (arq (configuration p) = PacketFilterArqLevel.on_request)
          && negb (reconstruction_available p)
  then PacketFilterArqLevel.always
  else arq (configuration p).

Definition report_detected_loss_immediately (p : t) : bool :=
  bool_decide (effective_arq_level p = PacketFilterArqLevel.always).

Definition inspect (p : t) (packet : PacketView) : PacketFilterReceiveDisposition.t :=
  let c := configuration p in
  if negb (enabled c) || negb (bool_decide (kind packet = PacketKind.data))
     || negb (message_number (data packet) =? 0)
  then PacketFilterReceiveDisposition.pass_through
  else
    match decode_fec_control_payload (payload packet) with
    | Err _ => PacketFilterReceiveDisposition.invalid_filter_control
    | Ok (header, _) =>
        if ((0 <=? group_index header)
            && ((rows c =? 1) || (columns c <=? group_index header)))
           || ((group_index header =? -1) && (rows c <? 0))
        then PacketFilterReceiveDisposition.invalid_filter_control
        else PacketFilterReceiveDisposition.consume_filter_control
    end.
End PacketFilterPolicy.
