(* ===== verification/PacketFilterFacts.v ===== *)
(** Packet filter configurations: the item loop terminates, the canonical text
    of a negotiated configuration parses back to it, and both ends of a
    negotiation arrive at the same filter. *)
From Stdlib Require Strings.String.
From S2P Require Import Prelude Sequence Packet Words Extensions PacketFilter.
Import Stdlib.Strings.String.StringSyntax.
Import PacketFilterConfiguration.

(** * Searching and splitting *)

Lemma find_char_app c p rest : c ∉ p -> find_char c (p ++ c :: rest) = Some (length p).
Proof.
  induction p as [|x p IH]; intros H; cbn [app find_char length].
  - rewrite Z.eqb_refl. reflexivity.
  - apply not_elem_of_cons in H as [Hx Hp]. rewrite (proj2 (Z.eqb_neq _ _)), IH by auto. reflexivity.
Qed.

Lemma find_char_none c p : c ∉ p -> find_char c p = None.
Proof.
  induction p as [|x p IH]; intros H; cbn [find_char]; [reflexivity|].
  apply not_elem_of_cons in H as [Hx Hp]. rewrite (proj2 (Z.eqb_neq _ _)), IH by auto. reflexivity.
Qed.

Lemma find_char_lt c p i : find_char c p = Some i -> (i < length p)%nat.
Proof.
  revert i. induction p as [|x p IH]; intros i; cbn [find_char length]; [discriminate|].
  destruct (x =? c); [intros [= <-]; lia|].
  destruct (find_char c p); intros [= <-]. specialize (IH _ eq_refl). lia.
Qed.

Lemma parse_item_field key value c :
  58 ∉ key -> key <> [] -> value <> [] ->
  parse_item (key ++ 58 :: value) c = parse_field key value c.
Proof.
  intros Hk Hn Hv. unfold parse_item. pose proof (find_char_app 58 key value Hk) as F.
  destruct key as [|k key]; [congruence|]. cbn [app] in *. rewrite F. cbn [length].
  change (k :: key ++ 58 :: value) with ((k :: key) ++ 58 :: value).
  rewrite (proj2 (Nat.eqb_neq _ _)).
  2:{ rewrite length_app. destruct value; [congruence|]. cbn [length]. lia. }
  f_equal.
  - exact (take_app_length (k :: key) _).
  - replace (S (length key) + 1)%nat with (length ((k :: key) ++ [58])) by (rewrite length_app; cbn [length]; lia).
    change (58 :: value) with ([58] ++ value). rewrite app_assoc. apply drop_app_length.
Qed.

Lemma parse_items_next fuel p item rest c :
  44 ∉ item -> item <> [] -> rest <> [] ->
  parse_items (S fuel) (p ++ item ++ 44 :: rest) (length p) c =
  c' ← parse_item item c; parse_items fuel ((p ++ item ++ [44]) ++ rest) (length (p ++ item ++ [44])) c'.
Proof.
  intros Hc Hi Hr. cbn [parse_items]. unfold find_from.
  rewrite drop_app_length, find_char_app by assumption. cbn [fmap option_fmap option_map].
  rewrite (proj2 (Nat.leb_gt _ _)) by (rewrite !length_app; destruct item; [congruence|cbn [length]; lia]).
  replace (length p + length item - length p)%nat with (length item) by lia. rewrite take_app_length.
  destruct (parse_item item c) as [c'|]; [|reflexivity]. cbn [mbind option_bind].
  rewrite (proj2 (Nat.eqb_neq _ _)) by (rewrite !length_app; destruct rest; [congruence|cbn [length]; lia]).
  f_equal; [rewrite <- !app_assoc; reflexivity|rewrite !length_app; cbn [length]; lia].
Qed.

Lemma parse_items_last fuel p item c :
  44 ∉ item -> item <> [] -> parse_items (S fuel) (p ++ item) (length p) c = parse_item item c.
Proof.
  intros Hc Hi. cbn [parse_items]. unfold find_from.
  rewrite drop_app_length, find_char_none by assumption. cbn [fmap option_fmap option_map].
  rewrite (proj2 (Nat.leb_gt _ _)) by (rewrite length_app; destruct item; [congruence|cbn [length]; lia]).
  rewrite length_app. replace (length p + length item - length p)%nat with (length item) by lia.
  rewrite firstn_all.
  destruct (parse_item item c); reflexivity.
Qed.

(** The item loop ends: each iteration moves past a comma, so more fuel than
    the remaining text changes nothing. *)
Lemma parse_items_fuel fuel1 fuel2 value offset c :
  (offset <= length value)%nat ->
  (length value - offset < fuel1)%nat -> (length value - offset < fuel2)%nat ->
  parse_items fuel1 value offset c = parse_items fuel2 value offset c.
Proof.
  revert fuel2 offset c. induction fuel1 as [|f1 IH]; intros [|f2] offset c Ho H1 H2; [lia..|].
  cbn [parse_items]. destruct (Nat.leb_spec (length value) offset); [reflexivity|].
  destruct (parse_item _ c) as [c'|]; [|reflexivity]. cbn [mbind option_bind].
  unfold find_from. destruct (find_char 44 (drop offset value)) as [i|] eqn:E; [|reflexivity].
  cbn [fmap option_fmap option_map]. apply find_char_lt in E. rewrite length_drop in E.
  destruct (Nat.eqb_spec (offset + i + 1) (length value)); [reflexivity|]. apply IH; lia.
Qed.

(** * Numbers *)

Definition is_digit (c : Z) : Prop := 48 <= c <= 57.

Lemma parse_digits_app acc l1 l2 :
  parse_digits acc (l1 ++ l2) = n ← parse_digits acc l1; parse_digits n l2.
Proof.
  revert acc. induction l1 as [|c l1 IH]; intros acc; cbn [app parse_digits]; [reflexivity|].
  destruct (_ && _); [apply IH|reflexivity].
Qed.

Lemma decimal_digits fuel n : 0 <= n -> Forall is_digit (decimal fuel n).
Proof.
  revert n. induction fuel as [|f IH]; intros n Hn; cbn [decimal]; [constructor|].
  apply Forall_app. split; [destruct (n <? 10); [constructor|apply IH, Z.div_pos; lia]|].
  apply Forall_singleton. pose proof (Z.mod_pos_bound n 10). unfold is_digit. lia.
Qed.

Lemma parse_decimal fuel n :
  0 <= n < 10 ^ Z.of_nat fuel -> (0 < fuel)%nat -> parse_digits 0 (decimal fuel n) = Some n.
Proof.
  revert n. induction fuel as [|f IH]; intros n Hn Hf; [lia|]. cbn [decimal].
  rewrite parse_digits_app. pose proof (Z.mod_pos_bound n 10 ltac:(lia)) as Hm.
  assert (D : forall acc, parse_digits acc [48 + n mod 10] = Some (acc * 10 + n mod 10)).
  { intros acc. cbn [parse_digits]. rewrite !(proj2 (Z.leb_le _ _)) by lia. cbn [andb]. f_equal. lia. }
  destruct (Z.ltb_spec n 10).
  - change (parse_digits 0 []) with (Some 0). cbn [mbind option_bind]. rewrite D, Z.mod_small by lia. reflexivity.
  - rewrite Nat2Z.inj_succ, Z.pow_succ_r in Hn by lia.
    assert (0 < f)%nat by (destruct f; [cbn in Hn; lia|lia]).
    rewrite IH by (zlia || lia). cbn [mbind option_bind]. rewrite D. f_equal. zlia.
Qed.

Lemma decimal_nonempty fuel n : (0 < fuel)%nat -> decimal fuel n <> [].
Proof. destruct fuel; [lia|]. cbn [decimal]. intros _ H. apply app_eq_nil in H as [_ H]. discriminate. Qed.

Lemma length_decimal fuel n : (length (decimal fuel n) <= fuel)%nat.
Proof.
  revert n. induction fuel as [|f IH]; intros n; cbn [decimal]; [reflexivity|].
  rewrite length_app. cbn [length]. destruct (n <? 10); [cbn [length]; lia|specialize (IH (n / 10)); lia].
Qed.

Lemma parse_unsigned_decimal m n : 0 <= n <= m -> m < 10 ^ 20 ->
  parse_unsigned m (decimal 20 n) = Some n.
Proof.
  intros Hn Hm. unfold parse_unsigned.
  destruct (decimal 20 n) eqn:E; [exfalso; apply (decimal_nonempty 20 n); [lia|assumption]|].
  rewrite <- E, parse_decimal, (proj2 (Z.leb_le _ _)) by (cbn; lia). reflexivity.
Qed.

Lemma parse_to_chars_u32 n : is_u32 n -> parse_u32 (to_chars n) = Some n.
Proof.
  unfold is_u32. intros. unfold to_chars. rewrite (proj2 (Z.ltb_ge _ _)) by lia.
  apply parse_unsigned_decimal; lia.
Qed.

Lemma parse_to_chars_i32 n : - 2 ^ 31 <= n < 2 ^ 31 -> parse_i32 (to_chars n) = Some n.
Proof.
  intros. unfold to_chars, parse_i32. destruct (Z.ltb_spec n 0).
  - rewrite parse_unsigned_decimal by lia. cbn [Z.eqb Pos.eqb]. f_equal. lia.
  - destruct (decimal 20 n) eqn:E; [exfalso; apply (decimal_nonempty 20 n); [lia|assumption]|].
    pose proof (decimal_digits 20 n ltac:(lia)) as Hd. rewrite E in Hd. apply Forall_cons in Hd as [Hz _].
    unfold is_digit in Hz. rewrite (proj2 (Z.eqb_neq _ _)), <- E by lia. apply parse_unsigned_decimal; lia.
Qed.

(** Decimal text has no separator and no NUL. *)
Lemma to_chars_clean n c : c ∈ to_chars n -> is_digit c \/ c = 45.
Proof.
  unfold to_chars. destruct (Z.ltb_spec n 0); intros Hc.
  - apply elem_of_cons in Hc as [->|Hc]; [right; reflexivity|left].
    revert Hc. apply Forall_forall. apply decimal_digits. lia.
  - left. revert Hc. apply Forall_forall. apply decimal_digits. lia.
Qed.

(** * Field ranges *)

Definition configuration_wf (c : PacketFilterConfiguration.t) : Prop :=
  is_u32 (columns c) /\ - 2 ^ 31 <= rows c < 2 ^ 31.

Lemma parse_digits_nonneg acc l n : 0 <= acc -> parse_digits acc l = Some n -> 0 <= n.
Proof.
  revert acc. induction l as [|c l IH]; intros acc Ha; cbn [parse_digits]; [intros [= <-]; assumption|].
  destruct (_ && _) eqn:E; [b2p; apply IH; lia|discriminate].
Qed.

Lemma parse_unsigned_range m v n : parse_unsigned m v = Some n -> 0 <= n <= m.
Proof.
  unfold parse_unsigned. destruct v; [discriminate|].
  destruct (parse_digits 0 _) eqn:E; [|discriminate]. apply parse_digits_nonneg in E; [|lia].
  case_if; [|discriminate]. intros [= <-]. lia.
Qed.

Lemma parse_i32_range v n : parse_i32 v = Some n -> - 2 ^ 31 <= n < 2 ^ 31.
Proof.
  unfold parse_i32. destruct v as [|c v]; [discriminate|]. destruct (c =? 45).
  - destruct (parse_unsigned _ v) eqn:E; [|discriminate]. apply parse_unsigned_range in E. intros [= <-]. lia.
  - intros E. apply parse_unsigned_range in E. lia.
Qed.

(** What every accepted item keeps: the enabled flag, the text, the ranges, and
    that an unspecified field holds its default. *)
Definition defaults_kept (c : PacketFilterConfiguration.t) : Prop :=
  (columns_specified c = false -> columns c = 0) /\ (rows_specified c = false -> rows c = 1) /\
  (layout_specified c = false -> layout c = PacketFilterLayout.staircase) /\
  (arq_specified c = false -> arq c = PacketFilterArqLevel.on_request).

Definition item_step (c c' : PacketFilterConfiguration.t) : Prop :=
  enabled c' = enabled c /\ text c' = text c /\ (configuration_wf c -> configuration_wf c') /\
  (defaults_kept c -> defaults_kept c').

Lemma item_step_trans c1 c2 c3 : item_step c1 c2 -> item_step c2 c3 -> item_step c1 c3.
Proof. unfold item_step. intuition congruence. Qed.

Lemma parse_field_step key value c c' : parse_field key value c = Some c' -> item_step c c'.
Proof.
  unfold parse_field. destruct (bool_decide _).
  { destruct (columns_specified c); [discriminate|]. destruct (parse_u32 value) as [n|] eqn:E; [|discriminate].
    cbn [mbind option_bind]. destruct (_ || _); [discriminate|]. intros [= <-].
    unfold item_step, configuration_wf, defaults_kept, is_u32. cbn.
    apply parse_unsigned_range in E. intuition (discriminate || lia). }
  destruct (bool_decide _).
  { destruct (rows_specified c); [discriminate|]. destruct (parse_i32 value) as [n|] eqn:E; [|discriminate].
    cbn [mbind option_bind]. destruct (_ && _); [discriminate|]. intros [= <-].
    unfold item_step, configuration_wf, defaults_kept. cbn.
    apply parse_i32_range in E. intuition (discriminate || lia). }
  destruct (bool_decide _).
  { destruct (_ || _); [discriminate|]. intros [= <-].
    unfold item_step, configuration_wf, defaults_kept. cbn. intuition discriminate. }
  destruct (bool_decide _); [|discriminate].
  destruct (arq_specified c); [discriminate|].
  destruct (if bool_decide (value = chars "never"%string) then _ else _); [|discriminate].
  cbn [mbind option_bind]. intros [= <-].
  unfold item_step, configuration_wf, defaults_kept. cbn. intuition discriminate.
Qed.

Lemma parse_item_step item c c' : parse_item item c = Some c' -> item_step c c'.
Proof.
  unfold parse_item. destruct item as [|i item]; [discriminate|].
  destruct (find_char 58 (i :: item)) as [[|n]|]; [discriminate| |discriminate].
  case_if; [discriminate|]. apply parse_field_step.
Qed.

Lemma parse_items_step fuel value offset c c' :
  parse_items fuel value offset c = Some c' -> item_step c c'.
Proof.
  revert offset c. induction fuel as [|f IH]; intros offset c; [discriminate|]. cbn [parse_items].
  destruct (length value <=? offset)%nat; [intros [= <-]; unfold item_step; auto|].
  destruct (parse_item _ c) as [c1|] eqn:E; [|discriminate]. cbn [mbind option_bind].
  apply parse_item_step in E. destruct (find_from 44 value offset); [|intros [= <-]; assumption].
  case_if; [discriminate|]. intros H. eapply item_step_trans; [exact E|]. eapply IH. exact H.
Qed.

(** A configuration that a text was parsed to. *)
Record parsed (value : list Z) (c : PacketFilterConfiguration.t) : Prop := {
  parsed_enabled : enabled c = true;
  parsed_text : text c = value;
  parsed_wf : configuration_wf c;
  parsed_defaults : defaults_kept c;
}.

Lemma parse_parsed value c : parse_packet_filter_configuration value = Ok c ->
  (value = [] /\ c = default) \/ (value <> [] /\ parsed value c).
Proof.
  unfold parse_packet_filter_configuration. destruct value as [|v0 value]; [intros [= <-]; auto|].
  set (v := v0 :: value) in *. unfold store_text.
  destruct (_ <? length v)%nat; [discriminate|]. destruct (existsb _ v); [discriminate|].
  destruct (negb _ && negb _); [discriminate|].
  assert (P : forall c', item_step (set_enabled true (set_text v default)) c' -> v <> [] /\ parsed v c').
  { intros c' (He & Ht & Hw & Hd). split; [discriminate|]. constructor; [exact He|exact Ht|apply Hw|apply Hd].
    - unfold configuration_wf, is_u32. cbn. lia.
    - unfold defaults_kept. cbn. auto. }
  destruct (find_char 44 v) as [n|].
  - destruct (parse_items _ v _ _) as [c'|] eqn:E; [|discriminate]. apply parse_items_step in E.
    destruct (_ && negb (valid_fec_geometry _ _)); [discriminate|].
    destruct (_ && _); [discriminate|]. intros [= <-]. right. apply P. exact E.
  - destruct (bool_decide _); [discriminate|]. intros [= <-]. right. apply P.
    unfold item_step. auto.
Qed.

(** * The canonical text *)

Definition item (key value : list Z) : list Z := key ++ 58 :: value.

Definition canonical (c r : Z) (l : PacketFilterLayout.t) (a : PacketFilterArqLevel.t) : list Z :=
  chars "fec,"%string ++ item (chars "arq"%string) (arq_name a) ++ 44 ::
  item (chars "cols"%string) (to_chars c) ++ 44 ::
  item (chars "layout"%string) (layout_name l) ++ 44 ::
  item (chars "rows"%string) (to_chars r).

Definition effective (c r : Z) (l : PacketFilterLayout.t) (a : PacketFilterArqLevel.t)
    (value : list Z) : PacketFilterConfiguration.t :=
  {| enabled := true; columns := c; rows := r; layout := l; arq := a;
     columns_specified := true; rows_specified := true; layout_specified := true;
     arq_specified := true; text := value |}.

Lemma length_to_chars n : (length (to_chars n) <= 21)%nat.
Proof.
  unfold to_chars. pose proof (length_decimal 20 n). pose proof (length_decimal 20 (- n)).
  destruct (n <? 0); cbn [length]; lia.
Qed.

Lemma append_effective value c r l a t :
  (length t + length value <= 512)%nat ->
  append value (effective c r l a t) = Some (effective c r l a (t ++ value)).
Proof.
  intros H. unfold append, maximum_packet_filter_configuration_size. cbn [text effective].
  rewrite (proj2 (Nat.ltb_ge _ _)) by lia. reflexivity.
Qed.

Lemma format_effective_canonical c r l a t :
  format_effective (effective c r l a t) false = Some (effective c r l a (canonical c r l a)).
Proof.
  pose proof (length_to_chars c) as Hc. pose proof (length_to_chars r) as Hr.
  assert (Ha : (length (arq_name a) <= 6)%nat) by (destruct a; cbn; lia).
  assert (Hl : (length (layout_name l) <= 9)%nat) by (destruct l; cbn; lia).
  unfold format_effective, append_integer.
  change (set_text [] (effective c r l a t)) with (effective c r l a []).
  cbn [columns rows layout arq effective].
  repeat (rewrite append_effective;
    [cbn [mbind option_bind]|rewrite ?length_app; cbn [length chars map String.list_ascii_of_string]; lia]).
  unfold canonical, item. rewrite <- !app_assoc. reflexivity.
Qed.

Lemma to_chars_without n x : ~ is_digit x -> x <> 45 -> x ∉ to_chars n.
Proof. intros Hd Hx Hin. destruct (to_chars_clean n x Hin); contradiction. Qed.

Lemma to_chars_nonempty n : to_chars n <> [].
Proof.
  unfold to_chars. destruct (n <? 0); [discriminate|apply decimal_nonempty; lia].
Qed.

Lemma arq_name_without a x : x <= 96 -> x ∉ arq_name a.
Proof. intros Hx. destruct a; cbn; rewrite ?elem_of_cons, elem_of_nil; lia. Qed.
Lemma layout_name_without l x : x <= 96 -> x ∉ layout_name l.
Proof. intros Hx. destruct l; cbn; rewrite ?elem_of_cons, elem_of_nil; lia. Qed.

Lemma canonical_without_nul c r l a : 0 ∉ canonical c r l a.
Proof.
  unfold canonical, item. cbn -[to_chars arq_name layout_name].
  rewrite ?elem_of_cons, ?elem_of_app, ?elem_of_cons, ?elem_of_app, ?elem_of_cons, ?elem_of_app, ?elem_of_cons.
  pose proof (to_chars_without c 0) as Hc. pose proof (to_chars_without r 0) as Hr.
  pose proof (arq_name_without a 0 ltac:(lia)). pose proof (layout_name_without l 0 ltac:(lia)).
  unfold is_digit in *. intuition lia.
Qed.

Lemma length_canonical c r l a : (4 <= length (canonical c r l a) <= 512)%nat.
Proof.
  pose proof (length_to_chars c) as Hc. pose proof (length_to_chars r) as Hr.
  assert (Ha : (length (arq_name a) <= 6)%nat) by (destruct a; cbn; lia).
  assert (Hl : (length (layout_name l) <= 9)%nat) by (destruct l; cbn; lia).
  unfold canonical, item. rewrite ?length_app; cbn [length]; rewrite ?length_app; cbn [length];
    rewrite ?length_app; cbn [length]; rewrite ?length_app; cbn [length chars map String.list_ascii_of_string]. lia.
Qed.

Lemma geometry_rows c r : valid_fec_geometry c r = true -> c <= 128 /\ r <> 0 /\ r <> -1.
Proof. unfold valid_fec_geometry. repeat case_if; try discriminate; lia. Qed.

Lemma parse_arq a c : arq_specified c = false ->
  parse_field (chars "arq"%string) (arq_name a) c = Some (set_arq_specified true (set_arq a c)).
Proof. intros H. unfold parse_field. cbn. rewrite H. destruct a; reflexivity. Qed.

Lemma parse_layout l c : layout_specified c = false ->
  parse_field (chars "layout"%string) (layout_name l) c =
  Some (set_layout_specified true (set_layout l c)).
Proof. intros H. unfold parse_field. cbn. rewrite H. destruct l; reflexivity. Qed.

Lemma parse_cols n c : columns_specified c = false -> 2 <= n < 2 ^ 31 ->
  parse_field (chars "cols"%string) (to_chars n) c =
  Some (set_columns_specified true (set_columns n c)).
Proof.
  intros H Hn. unfold parse_field. rewrite bool_decide_true, H by reflexivity.
  rewrite parse_to_chars_u32 by (unfold is_u32; lia). cbn [mbind option_bind].
  rewrite !(proj2 (Z.ltb_ge _ _)) by lia. reflexivity.
Qed.

Lemma parse_rows n c : rows_specified c = false -> - 2 ^ 31 <= n < 2 ^ 31 -> n <> 0 -> n <> -1 ->
  parse_field (chars "rows"%string) (to_chars n) c =
  Some (set_rows_specified true (set_rows n c)).
Proof.
  intros H Hn H0 H1. unfold parse_field.
  rewrite bool_decide_false, bool_decide_true, H by (reflexivity || discriminate).
  rewrite parse_to_chars_i32 by assumption. cbn [mbind option_bind].
  destruct (Z.ltb_spec n 1), (Z.ltb_spec (-2) n); try reflexivity. lia.
Qed.

Lemma parse_item_of key value c :
  58 ∉ key -> key <> [] -> value <> [] ->
  parse_item (item key value) c = parse_field key value c.
Proof. apply parse_item_field. Qed.

Lemma parse_four_items fuel p i1 i2 i3 i4 c :
  44 ∉ i1 -> 44 ∉ i2 -> 44 ∉ i3 -> 44 ∉ i4 ->
  i1 <> [] -> i2 <> [] -> i3 <> [] -> i4 <> [] ->
  parse_items (S (S (S (S fuel)))) (p ++ i1 ++ 44 :: i2 ++ 44 :: i3 ++ 44 :: i4) (length p) c =
  c1 ← parse_item i1 c; c2 ← parse_item i2 c1; c3 ← parse_item i3 c2; parse_item i4 c3.
Proof.
  intros. rewrite parse_items_next by (auto; destruct i2; discriminate || congruence).
  destruct (parse_item i1 c) as [c1|]; [|reflexivity]. cbn [mbind option_bind].
  rewrite parse_items_next by (auto; destruct i3; discriminate || congruence).
  destruct (parse_item i2 c1) as [c2|]; [|reflexivity]. cbn [mbind option_bind].
  rewrite parse_items_next by auto.
  destruct (parse_item i3 c2) as [c3|]; [|reflexivity]. cbn [mbind option_bind].
  apply parse_items_last; assumption.
Qed.

(** Parsing a text of the plain filter type with at least one item. *)
Lemma parse_fec rest : (length rest <= 508)%nat -> 0 ∉ rest ->
  let v := chars "fec,"%string ++ rest in
  parse_packet_filter_configuration v =
  match parse_items (length v) v 4 (set_enabled true (set_text v default)) with
  | None => Err Error.invalid_state
  | Some c =>
      if columns_specified c && rows_specified c
         && negb (valid_fec_geometry (columns c) (rows c))
      then Err Error.invalid_state else Ok c
  end.
Proof.
  intros Hl H0 v.
  assert (Hstore : store_text default v = Some (set_text v default)).
  { unfold store_text. replace (_ <? length v)%nat with false.
    2:{ symmetry. apply Nat.ltb_ge. unfold v, maximum_packet_filter_configuration_size.
        rewrite length_app. cbn [length chars map String.list_ascii_of_string]. lia. }
    destruct (existsb (fun c => c =? 0) v) eqn:E; [|reflexivity].
    apply existsb_exists in E as (x & Hx & E0). b2p. subst x. apply list_elem_of_In in Hx.
    unfold v in Hx. apply elem_of_app in Hx as [Hx|Hx]; [|contradiction].
    cbn in Hx. rewrite ?elem_of_cons, elem_of_nil in Hx. lia. }
  unfold parse_packet_filter_configuration. rewrite Hstore. unfold v at 1. cbn [app chars map String.list_ascii_of_string].
  replace (find_char 44 v) with (Some 3%nat) by reflexivity.
  replace (take 3 v) with (chars "fec"%string) by reflexivity.
  rewrite bool_decide_true by reflexivity. cbn [negb andb Nat.add].
  rewrite bool_decide_false by discriminate.
  destruct (parse_items _ v _ _) as [c|]; [|reflexivity]. reflexivity.
Qed.

Lemma item_without key value x : x ∉ key -> x <> 58 -> x ∉ value -> x ∉ item key value.
Proof. intros. unfold item. rewrite elem_of_app, elem_of_cons. tauto. Qed.

Lemma arq_name_nonempty a : arq_name a <> [].
Proof. destruct a; discriminate. Qed.
Lemma layout_name_nonempty l : layout_name l <> [].
Proof. destruct l; discriminate. Qed.

(** A character that a literal does not have. *)
Ltac literal_without :=
  let H := fresh in
  intros H; vm_compute in H;
  repeat (apply elem_of_cons in H as [H|H]; [discriminate H|]); inversion H.

(** The canonical text parses to the configuration it was printed from. *)
Lemma parse_canonical c r l a :
  2 <= c -> - 2 ^ 31 <= r < 2 ^ 31 -> valid_fec_geometry c r = true ->
  parse_packet_filter_configuration (canonical c r l a) = Ok (effective c r l a (canonical c r l a)).
Proof.
  intros Hc Hr Hg. destruct (geometry_rows c r Hg) as (Hc' & Hr0 & Hr1).
  pose proof (length_canonical c r l a) as [Hl1 Hl2].
  pose proof (canonical_without_nul c r l a) as H0.
  unfold canonical in *. set (rest := item (chars "arq"%string) (arq_name a) ++ _) in *.
  rewrite length_app in Hl1, Hl2. change (length (chars "fec,"%string)) with 4%nat in *.
  rewrite parse_fec by (lia || (intros H; apply H0, elem_of_app; right; exact H)).
  assert (exists n, length (chars "fec,"%string ++ rest) = S (S (S (S n)))) as [n Hn]
    by (exists (length rest); reflexivity).
  rewrite Hn. set (v := chars "fec,"%string ++ rest).
  change 4%nat with (length (chars "fec,"%string)). unfold v at 1, rest.
  assert (D : forall x, x = 44 -> (x ∉ to_chars c) /\ (x ∉ to_chars r))
    by (intros x ->; split; apply to_chars_without; unfold is_digit; lia).
  destruct (D 44 eq_refl) as [Dc Dr].
  rewrite parse_four_items; [|clear n Hn..].
  - rewrite parse_item_of by first [discriminate | apply arq_name_nonempty | literal_without].
    rewrite parse_arq by reflexivity. cbn [mbind option_bind].
    rewrite parse_item_of by first [discriminate | apply to_chars_nonempty | literal_without].
    rewrite parse_cols by (reflexivity || lia). cbn [mbind option_bind].
    rewrite parse_item_of by first [discriminate | apply layout_name_nonempty | literal_without].
    rewrite parse_layout by reflexivity. cbn [mbind option_bind].
    rewrite parse_item_of by first [discriminate | apply to_chars_nonempty | literal_without].
    rewrite parse_rows by (reflexivity || lia).
    cbn -[valid_fec_geometry v]. rewrite Hg. reflexivity.
  - apply item_without; [literal_without|lia|apply arq_name_without; lia].
  - apply item_without; [literal_without|lia|exact Dc].
  - apply item_without; [literal_without|lia|apply layout_name_without; lia].
  - apply item_without; [literal_without|lia|exact Dr].
  - discriminate.
  - discriminate.
  - discriminate.
  - discriminate.
Qed.

(** * Negotiation *)

(** The only configuration of the sensor profile. *)
Definition sensor_configuration (layout_given : bool) : PacketFilterConfiguration.t :=
  {| enabled := true; columns := 4; rows := 1; layout := PacketFilterLayout.staircase;
     arq := PacketFilterArqLevel.never; columns_specified := true; rows_specified := true;
     layout_specified := layout_given; arq_specified := true;
     text := sensor_profile_filter_v1 |}.

Lemma parse_sensor : parse_packet_filter_configuration sensor_profile_filter_v1 =
  Ok (sensor_configuration false).
Proof. vm_compute. reflexivity. Qed.

Lemma sensor_rejected rest :
  chars "fec-sensor-v1,"%string ++ rest <> sensor_profile_filter_v1 ->
  forall c, parse_packet_filter_configuration (chars "fec-sensor-v1,"%string ++ rest) <> Ok c.
Proof.
  intros Hne c. set (v := chars "fec-sensor-v1,"%string ++ rest) in *.
  unfold parse_packet_filter_configuration. unfold v at 1.
  cbn [app chars map String.list_ascii_of_string].
  destruct (store_text default v); [|discriminate].
  replace (find_char 44 v) with (Some 13%nat) by reflexivity.
  replace (take 13 v) with (chars "fec-sensor-v1"%string) by reflexivity.
  rewrite (bool_decide_false (chars "fec-sensor-v1"%string = chars "fec"%string)) by discriminate.
  rewrite bool_decide_true by reflexivity. cbn [negb andb].
  destruct (parse_items _ v _ _) as [c'|]; [|discriminate].
  destruct (_ && negb (valid_fec_geometry _ _)); [discriminate|].
  rewrite bool_decide_false by assumption. discriminate.
Qed.

Lemma parse_sensor_only v c :
  parse_packet_filter_configuration v = Ok c -> sensor_profile c = true ->
  c = sensor_configuration false.
Proof.
  intros Hp Hs. destruct (parse_parsed v c Hp) as [[-> ->]|[_ H]]; [discriminate|].
  unfold sensor_profile, starts_with in Hs. rewrite (parsed_text _ _ H) in Hs.
  apply bool_decide_eq_true in Hs.
  assert (Hv : v = chars "fec-sensor-v1,"%string ++ drop 14 v).
  { rewrite <- Hs at 1. symmetry. apply take_drop. }
  destruct (decide (v = sensor_profile_filter_v1)) as [E|E].
  - rewrite E, parse_sensor in Hp. congruence.
  - rewrite Hv in Hp, E. exfalso. exact (sensor_rejected _ E _ Hp).
Qed.

Lemma resolve_fields_in local peer b c r l a :
  resolve_fields local peer b = Some (c, r, l, a) ->
  (c = columns local \/ c = columns peer \/ c = 0) /\
  (r = rows local \/ r = rows peer \/ r = 1).
Proof.
  unfold resolve_fields, merge_value, response_value. destruct b.
  - intros [= <- <- _ _]. destruct (columns_specified peer), (columns_specified local),
      (rows_specified peer), (rows_specified local); auto.
  - destruct (columns_specified local), (columns_specified peer), (rows_specified local), (rows_specified peer);
      cbn [andb]; repeat (case_match; cbn [mbind option_bind]; try discriminate); intros; simplify_eq; auto.
Qed.

Lemma sensor_resolve local peer b :
  local = sensor_configuration false -> peer = sensor_configuration false ->
  resolve_effective_configuration local peer b = Ok (sensor_configuration true).
Proof. intros -> ->. destruct b; vm_compute; reflexivity. Qed.

Lemma resolve_plain local peer b c r l a :
  (enabled local = true \/ enabled peer = true) ->
  sensor_profile local = false -> sensor_profile peer = false ->
  resolve_fields local peer b = Some (c, r, l, a) -> 2 <= c -> valid_fec_geometry c r = true ->
  resolve_effective_configuration local peer b = Ok (effective c r l a (canonical c r l a)).
Proof.
  intros He Hl Hp Hf Hc Hg. unfold resolve_effective_configuration.
  replace (negb _ && negb _) with false by (destruct He as [-> | ->]; rewrite ?andb_false_r; reflexivity).
  rewrite Hl, Hp, Hf, (proj2 (Z.ltb_ge _ _)), Hg by assumption. cbn [Bool.eqb negb].
  fold (effective c r l a []). rewrite format_effective_canonical. reflexivity.
Qed.

Lemma resolve_plain_inv local peer b x :
  (enabled local = true \/ enabled peer = true) ->
  resolve_effective_configuration local peer b = Ok x ->
  sensor_profile local = sensor_profile peer /\
  exists c r l a, resolve_fields local peer b = Some (c, r, l, a) /\ 2 <= c /\ valid_fec_geometry c r = true.
Proof.
  intros He. unfold resolve_effective_configuration.
  replace (negb _ && negb _) with false by (destruct He as [-> | ->]; rewrite ?andb_false_r; reflexivity).
  destruct (Bool.eqb (sensor_profile local) (sensor_profile peer)) eqn:E; [|discriminate].
  apply Bool.eqb_prop in E. cbn [negb].
  destruct (resolve_fields local peer b) as [[[[c r] l] a]|]; [|discriminate].
  destruct (Z.ltb_spec c 2); [discriminate|]. destruct (valid_fec_geometry c r) eqn:G; [|discriminate].
  intros _. split; [exact E|]. exists c, r, l, a. auto.
Qed.

(** A configuration as an endpoint holds it: none, or a parsed text. *)
Definition configured (c : PacketFilterConfiguration.t) : Prop :=
  exists v, parse_packet_filter_configuration v = Ok c.

Lemma configured_wf c : configured c -> configuration_wf c.
Proof.
  intros [v H]. destruct (parse_parsed v c H) as [[_ ->]|[_ P]]; [|apply (parsed_wf _ _ P)].
  unfold configuration_wf, is_u32. cbn. lia.
Qed.

Lemma resolve_fields_wf local peer b c r l a :
  configuration_wf local -> configuration_wf peer ->
  resolve_fields local peer b = Some (c, r, l, a) -> - 2 ^ 31 <= r < 2 ^ 31.
Proof.
  intros [_ Hl] [_ Hp] H. apply resolve_fields_in in H as [_ [->|[->| ->]]]; auto; lia.
Qed.

(** What a listener negotiates against a caller's offer is a usable filter, and
    the caller that parses the listener's answer and applies it to its own offer
    obtains the same filter. *)
Lemma negotiated_filter_applies local offer x :
  configured local -> configured offer -> enabled offer = true ->
  negotiate_packet_filter_configuration local offer false = Ok x ->
  enabled x = true /\ 2 <= columns x /\ valid_fec_geometry (columns x) (rows x) = true /\
  exists answer, parse_packet_filter_configuration (text x) = Ok answer /\
    enabled answer = true /\ apply_packet_filter_response offer answer = Ok x.
Proof.
  intros Hl Ho He. unfold negotiate_packet_filter_configuration. rewrite He, andb_false_r. cbn [andb].
  destruct (resolve_effective_configuration local offer false) as [y|] eqn:R; [|discriminate].
  intros [= <-]. destruct (resolve_plain_inv _ _ _ _ (or_intror He) R) as (Hs & c & r & l & a & F & Hc & Hg).
  pose proof (resolve_fields_wf _ _ _ _ _ _ _ (configured_wf _ Hl) (configured_wf _ Ho) F) as Hr.
  destruct Hl as [vl Hl]. destruct Ho as [vo Ho].
  destruct (sensor_profile offer) eqn:Es.
  - pose proof (parse_sensor_only _ _ Ho Es) as ->. pose proof (parse_sensor_only _ _ Hl Hs) as ->.
    rewrite sensor_resolve in R by reflexivity. injection R as <-.
    repeat split; try reflexivity; [cbn; lia|]. exists (sensor_configuration false).
    split; [exact parse_sensor|]. split; [reflexivity|]. vm_compute. reflexivity.
  - rewrite (resolve_plain _ _ _ _ _ _ _ (or_intror He) Hs Es F Hc Hg) in R. injection R as <-.
    cbn [enabled columns rows text effective].
    split; [reflexivity|]. split; [exact Hc|]. split; [exact Hg|].
    exists (effective c r l a (canonical c r l a)).
    split; [apply parse_canonical; assumption|]. split; [reflexivity|].
    unfold apply_packet_filter_response. cbn [enabled effective negb].
    apply resolve_plain; auto.
Qed.

(** * The filter control header *)

Lemma fec_control_decodes h r :
  -1 <= group_index h <= 127 -> 0 <= flags_recovery h <= 3 -> is_u16 (length_recovery h) ->
  forall destination, (4 <= length destination)%nat ->
  exists bytes, encode_fec_control_header h destination = (Error.none, bytes ++ drop 4 destination) /\
    length bytes = 4%nat /\ decode_fec_control_payload (bytes ++ r) = Ok (h, r).
Proof.
  intros Hg Hf Hl destination Hd. unfold encode_fec_control_header, fec_filter_header_size.
  rewrite !(proj2 (Z.ltb_ge _ _)), (proj2 (Nat.ltb_ge _ _)) by lia. cbn [orb].
  set (g := u8 (group_index h)). exists ([g; u8 (flags_recovery h)] ++ half_bytes (length_recovery h)).
  split; [reflexivity|]. split; [reflexivity|].
  unfold decode_fec_control_payload, fec_filter_header_size.
  set (b := [g; u8 (flags_recovery h)] ++ half_bytes (length_recovery h)).
  rewrite length_app, (proj2 (Nat.ltb_ge _ _)) by (change (length b) with 4%nat; lia).
  assert (R : read_u16 (b ++ r) 2 = length_recovery h)
    by (apply (read_u16_at [g; u8 (flags_recovery h)] _ r); [reflexivity|reflexivity|assumption]).
  rewrite R. change ((b ++ r) !!! 0%nat) with g. change ((b ++ r) !!! 1%nat) with (u8 (flags_recovery h)).
  assert (Ef : u8 (flags_recovery h) = flags_recovery h) by (unfold u8; apply Z.mod_small; lia).
  assert (Eg : g = if group_index h =? -1 then 255 else group_index h)
    by (unfold g, u8; destruct (Z.eqb_spec (group_index h) (-1)); zlia).
  rewrite Ef, (proj2 (Z.ltb_ge 3 _)), orb_false_r by lia.
  destruct (Z.eqb_spec (group_index h) (-1)) as [E|E]; rewrite Eg.
  - cbn [Z.ltb Z.compare Pos.compare Pos.compare_cont Z.eqb Pos.eqb negb andb].
    rewrite <- E. destruct h; reflexivity.
  - rewrite (proj2 (Z.ltb_ge _ _)), (proj2 (Z.eqb_neq (group_index h) 255)) by lia. cbn [andb].
    destruct h; reflexivity.
Qed.

(** C39: A listener and a caller, each with no filter or one parsed from a
    configuration text, agree: what the listener negotiates from the caller's
    offer is an enabled filter of valid geometry, and the caller that parses the
    text of the answer and applies it to its own offer ends with the same filter. *)
Theorem filter_negotiation_agrees local offer x :
  configured local -> configured offer -> enabled offer = true ->
  negotiate_packet_filter_configuration local offer false = Ok x ->
  enabled x = true /\ valid_fec_geometry (columns x) (rows x) = true /\
  exists answer, parse_packet_filter_configuration (text x) = Ok answer /\
    apply_packet_filter_response offer answer = Ok x.
Proof.
  intros Hl Ho He Hn. destruct (negotiated_filter_applies _ _ _ Hl Ho He Hn) as (? & _ & ? & a & ? & _ & ?). eauto.
Qed.

Definition filter_offer : PacketFilterConfiguration.t :=
  match parse_packet_filter_configuration (chars "fec,cols:10,rows:5"%string) with
  | Ok c => c | Err _ => default
  end.

Definition filter_local : PacketFilterConfiguration.t :=
  match parse_packet_filter_configuration (chars "fec,arq:never,layout:even"%string) with
  | Ok c => c | Err _ => default
  end.

Definition filter_agreed : PacketFilterConfiguration.t :=
  match negotiate_packet_filter_configuration filter_local filter_offer false with
  | Ok c => c | Err _ => default
  end.

Lemma filter_negotiation_agrees_witness :
  text filter_agreed = chars "fec,arq:never,cols:10,layout:even,rows:5"%string /\
  enabled filter_agreed = true /\
  valid_fec_geometry (columns filter_agreed) (rows filter_agreed) = true /\
  exists answer, parse_packet_filter_configuration (text filter_agreed) = Ok answer /\
    apply_packet_filter_response filter_offer answer = Ok filter_agreed.
Proof.
  split; [vm_compute; reflexivity|].
  apply (filter_negotiation_agrees filter_local filter_offer filter_agreed).
  - exists (chars "fec,arq:never,layout:even"%string). vm_compute. reflexivity.
  - exists (chars "fec,cols:10,rows:5"%string). vm_compute. reflexivity.
  - vm_compute. reflexivity.
  - vm_compute. reflexivity.
Defined.
