(* ===== verification/ConnectionGroup.v ===== *)
(** Group memberships and multicast dispatch announcements in a handshake
    (include/robotweax/srt/connection_group.hpp, src/connection_group.cpp, and
    the endpoint type of include/robotweax/srt/udp.hpp). *)
From S2P Require Import Prelude Packet Codec Words Extensions.

Definition group_membership_content_size : nat := 8.
Definition group_handle_mask : Z := 0x40000000.
Definition group_synchronize_on_message : Z := 0x01.

(** ** Endpoints *)

Module IpAddressFamily.
Inductive t := ipv4 | ipv6.
#[export] Instance eq_dec : EqDecision t.
Proof. solve_decision. Defined.
End IpAddressFamily.
Export (hints) IpAddressFamily.

Module IpEndpoint.
Record t := {
  address : list Z;
  port : Z;
  scope_id : Z;
  family : IpAddressFamily.t;
}.
#[export] Instance eq_dec : EqDecision t.
Proof. solve_decision. Defined.

(** [IpEndpoint {.family = family}]. *)
Definition unspecified (family : IpAddressFamily.t) : t :=
  {| address := replicate 16 0; port := 0; scope_id := 0; family := family |}.

Definition is_ipv4 (e : t) : bool := bool_decide (family e = IpAddressFamily.ipv4).

Definition is_multicast (e : t) : bool :=
  if is_ipv4 e then Z.land (address e !!! 0%nat) 0xf0 =? 0xe0
  else address e !!! 0%nat =? 0xff.
End IpEndpoint.
Export (hints) IpEndpoint.
Import IpEndpoint.

(** ** Memberships *)

Module GroupType.
Inductive t := undefined | broadcast | backup | balancing | multicast | unlisted (c : Z).
Definition code (type : t) : Z :=
  match type with
  | undefined => 0 | broadcast => 1 | backup => 2 | balancing => 3 | multicast => 4
  | unlisted c => c
  end.
Definition of_code (c : Z) : t :=
  if c =? 0 then undefined else if c =? 1 then broadcast else if c =? 2 then backup
  else if c =? 3 then balancing else if c =? 4 then multicast else unlisted c.
#[export] Instance eq_dec : EqDecision t.
Proof. solve_decision. Defined.
End GroupType.
Export (hints) GroupType.

Module GroupMembership.
Record t := {
  group_id : Z;
  type : GroupType.t;
  flags : Z;
  weight : Z;
}.
Definition default : t :=
  {| group_id := 0; type := GroupType.undefined; flags := 0; weight := 0 |}.
#[export] Instance eq_dec : EqDecision t.
Proof. solve_decision. Defined.
End GroupMembership.
Export (hints) GroupMembership.

Module GroupMembershipValidation.
Inductive t := compatible | invalid_group_id | unsupported_type.
#[export] Instance eq_dec : EqDecision t.
Proof. solve_decision. Defined.
End GroupMembershipValidation.
Export (hints) GroupMembershipValidation.

(** The policy is its one field [admit_multicast_dispatch]. *)
Definition validate_group_membership (membership : GroupMembership.t) (admit_multicast_dispatch : bool)
    : GroupMembershipValidation.t :=
  if Z.land (GroupMembership.group_id membership) group_handle_mask =? 0
  then GroupMembershipValidation.invalid_group_id
  else
    match GroupMembership.type membership with
    | GroupType.broadcast | GroupType.backup => GroupMembershipValidation.compatible
    | GroupType.multicast =>
        if admit_multicast_dispatch && (GroupMembership.flags membership =? 0)
           && (GroupMembership.weight membership =? 0)
        then GroupMembershipValidation.compatible
        else GroupMembershipValidation.unsupported_type
    | GroupType.undefined | GroupType.balancing | GroupType.unlisted _ =>
        GroupMembershipValidation.unsupported_type
    end.

Definition decode_group_membership (extension : HandshakeExtensionView)
    : Result GroupMembership.t :=
  let content := ext_content extension in
  if negb (bool_decide (ext_type extension = HandshakeExtensionType.group))
     || (length content <? group_membership_content_size)%nat
     || negb (length content mod 4 =? 0)%nat
  then Err Error.invalid_extension
  else
    let group_data := read_u32 content 4 in
    Ok {| GroupMembership.group_id := read_u32 content 0;
          GroupMembership.type := GroupType.of_code (Z.land (Z.shiftr group_data 24) 0xff);
          GroupMembership.flags := u8 (Z.land (Z.shiftr group_data 16) 0xff);
          GroupMembership.weight := u16 (Z.land group_data 0xffff) |}.

Definition encode_group_membership (membership : GroupMembership.t) (destination : list Z)
    : Result nat * list Z :=
  let content := replicate group_membership_content_size 0 in
  let content := write_u32 content 0 (GroupMembership.group_id membership) in
  let content := <[4%nat := u8 (GroupType.code (GroupMembership.type membership))]> content in
  let content := <[5%nat := u8 (GroupMembership.flags membership)]> content in
  let content := write_u16 content 6 (GroupMembership.weight membership) in
  encode_extension HandshakeExtensionType.group content destination.

(** ** Dispatch announcements *)

Definition multicast_dispatch_content_size : nat := 60.
Definition multicast_dispatch_magic : Z := 0x52574D01.
Definition multicast_dispatch_flag_interface_hint : Z := 0x01.

Module MulticastDispatch.
Record t := {
  group_id : Z;
  multicast_group : IpEndpoint.t;
  has_interface_hint : bool;
  interface_hint : IpEndpoint.t;
  initial_sequence : Z;
  timestamp_origin_delta_microseconds : Z;
  time_to_live : Z;
}.
Definition default : t :=
  {| group_id := 0; multicast_group := IpEndpoint.unspecified IpAddressFamily.ipv4;
     has_interface_hint := false;
     interface_hint := IpEndpoint.unspecified IpAddressFamily.ipv4;
     initial_sequence := 0; timestamp_origin_delta_microseconds := 0; time_to_live := 1 |}.
#[export] Instance eq_dec : EqDecision t.
Proof. solve_decision. Defined.
End MulticastDispatch.
Export (hints) MulticastDispatch.
Import MulticastDispatch.

Definition valid_multicast_dispatch (dispatch : MulticastDispatch.t) : bool :=
  if Z.land (group_id dispatch) group_handle_mask =? 0 then false
  else if negb (is_multicast (multicast_group dispatch))
          || (port (multicast_group dispatch) =? 0)
          || (0x7fffffff <? initial_sequence dispatch)
  then false
  else if has_interface_hint dispatch then
    if negb (bool_decide (family (interface_hint dispatch) = family (multicast_group dispatch)))
       || is_multicast (interface_hint dispatch)
    then false else true
  else true.

(** The interface hint of the record, or [None] when an unused byte is set. *)
Definition decode_interface_hint (content : list Z) (ip_family : IpAddressFamily.t)
    : option IpEndpoint.t :=
  match ip_family with
  | IpAddressFamily.ipv4 =>
      if existsb (fun index => negb (content !!! (12 + index)%nat =? 0)
                               || negb (content !!! (28 + index)%nat =? 0)) (seq 4 12)
      then None
      else Some {| address := overwrite 0 (take 4 (drop 28 content)) (replicate 16 0);
                   port := 0; scope_id := 0; family := ip_family |}
  | IpAddressFamily.ipv6 =>
      if existsb (fun index => negb (content !!! (28 + index)%nat =? 0)) (seq 0 12) then None
      else Some {| address := replicate 16 0; port := 0; scope_id := read_u32 content 40;
                   family := ip_family |}
  end.

Definition decode_multicast_dispatch (extension : HandshakeExtensionView)
    : Result MulticastDispatch.t :=
  let content := ext_content extension in
  if negb (bool_decide (ext_type extension = HandshakeExtensionType.multicast_dispatch))
     || negb (length content =? multicast_dispatch_content_size)%nat
  then Err Error.invalid_extension
  else if negb (read_u32 content 0 =? multicast_dispatch_magic) then Err Error.invalid_extension
  else
    let family_code := content !!! 8%nat in
    let flags := content !!! 9%nat in
    if (negb (family_code =? 4) && negb (family_code =? 6))
       || negb (Z.land flags (Z.lnot multicast_dispatch_flag_interface_hint) =? 0)
       || negb (content !!! 57%nat =? 0) || negb (content !!! 58%nat =? 0)
       || negb (content !!! 59%nat =? 0)
    then Err Error.invalid_extension
    else
      let ip_family := if family_code =? 4 then IpAddressFamily.ipv4 else IpAddressFamily.ipv6 in
      let hinted := negb (Z.land flags multicast_dispatch_flag_interface_hint =? 0) in
      match decode_interface_hint content ip_family with
      | None => Err Error.invalid_extension
      | Some hint =>
          if negb hinted && negb (bool_decide (hint = IpEndpoint.unspecified ip_family))
          then Err Error.invalid_extension
          else
            let dispatch :=
              {| group_id := read_u32 content 4;
                 multicast_group :=
                   {| address := take 16 (drop 12 content); port := read_u16 content 10;
                      scope_id := 0; family := ip_family |};
                 has_interface_hint := hinted;
                 interface_hint := hint;
                 initial_sequence := read_u32 content 44;
                 timestamp_origin_delta_microseconds := i64 (read_u64 content 48);
                 time_to_live := content !!! 56%nat |} in
            if negb (valid_multicast_dispatch dispatch) then Err Error.invalid_extension
            else Ok dispatch
      end.

Definition encode_multicast_dispatch (dispatch : MulticastDispatch.t) (destination : list Z)
    : Result nat * list Z :=
  if negb (valid_multicast_dispatch dispatch) then (Err Error.invalid_extension, destination)
  else
    let content := replicate multicast_dispatch_content_size 0 in
    let content := write_u32 content 0 multicast_dispatch_magic in
    let content := write_u32 content 4 (group_id dispatch) in
    let ipv4 := is_ipv4 (multicast_group dispatch) in
    let content := <[8%nat := if ipv4 then 4 else 6]> content in
    let content := <[9%nat := if has_interface_hint dispatch
                              then multicast_dispatch_flag_interface_hint else 0]> content in
    let content := write_u16 content 10 (port (multicast_group dispatch)) in
    let content :=
      overwrite 12 (take (if ipv4 then 4 else 16) (address (multicast_group dispatch))) content in
    let content :=
      if has_interface_hint dispatch then
        if ipv4 then overwrite 28 (take 4 (address (interface_hint dispatch))) content
        else write_u32 content 40 (scope_id (interface_hint dispatch))
      else content in
    let content := write_u32 content 44 (initial_sequence dispatch) in
    let content :=
      write_u64 content 48 (u64 (timestamp_origin_delta_microseconds dispatch)) in
    let content := <[56%nat := u8 (time_to_live dispatch)]> content in
    encode_extension HandshakeExtensionType.multicast_dispatch content destination.

(** * Round trips *)

Lemma join_u64 v : is_u64 v ->
  Z.lor (u64 (Z.shiftl (u32 (Z.shiftr v 32)) 32)) (u32 (Z.land v 0xffffffff)) = v.
Proof.
  unfold is_u64, u64, u32. intros Hv. change 0xffffffff with (Z.ones 32).
  rewrite Z.land_ones, Z.shiftr_div_pow2, Z.shiftl_mul_pow2 by lia.
  rewrite (lor_add _ _ 32) by zlia. zlia.
Qed.

Lemma i64_u64 v : - 2 ^ 63 <= v < 2 ^ 63 -> i64 (u64 v) = v.
Proof. unfold i64, u64. intros. zlia. Qed.

(** ** Memberships *)

Definition membership_ok (m : GroupMembership.t) : Prop :=
  is_u32 (GroupMembership.group_id m) /\
  GroupType.of_code (GroupType.code (GroupMembership.type m)) = GroupMembership.type m /\
  is_u8 (GroupType.code (GroupMembership.type m)) /\
  is_u8 (GroupMembership.flags m) /\ is_u16 (GroupMembership.weight m).

Definition membership_content (m : GroupMembership.t) : list Z :=
  word_bytes (GroupMembership.group_id m)
  ++ [u8 (GroupType.code (GroupMembership.type m)); u8 (GroupMembership.flags m)]
  ++ half_bytes (GroupMembership.weight m).

Lemma encode_group_membership_ok m destination :
  (12 <= length destination)%nat ->
  encode_group_membership m destination =
  (Ok 12%nat, extension_bytes HandshakeExtensionType.group (membership_content m)
              ++ drop 12 destination).
Proof.
  intros Hl. unfold encode_group_membership.
  change (write_u16 (<[5%nat:=_]> (<[4%nat:=_]> (write_u32 _ 0 _))) 6 _) with (membership_content m).
  apply encode_extension_ok; [reflexivity| |assumption].
  split; [reflexivity|]. change (length (membership_content m)) with 8%nat. lia.
Qed.

Lemma decode_membership_content m : membership_ok m ->
  decode_group_membership {| ext_type := HandshakeExtensionType.group;
                             ext_content := membership_content m |} = Ok m.
Proof.
  intros (Hi & Hc & Ht & Hf & Hw). unfold decode_group_membership. cbn [ext_type ext_content].
  rewrite bool_decide_true by reflexivity. change (length (membership_content m)) with 8%nat.
  cbn [negb orb Nat.ltb Nat.leb group_membership_content_size Nat.modulo Nat.eqb Nat.divmod fst snd Nat.sub].
  set (t := GroupType.code (GroupMembership.type m)) in *. set (f := GroupMembership.flags m) in *.
  set (w := GroupMembership.weight m) in *.
  assert (R0 : read_u32 (membership_content m) 0 = GroupMembership.group_id m)
    by (apply (read_u32_at [] _ (drop 4 (membership_content m))); [reflexivity|reflexivity|assumption]).
  assert (R4 : read_u32 (membership_content m) 4 = t * 2 ^ 24 + f * 2 ^ 16 + w).
  { etransitivity; [apply (read_u32_app (word_bytes _) _ 0)|]. unfold read_u32.
    cbn [app lookup_total list_lookup_total Nat.add]. rewrite half_bytes_div.
    cbn [app lookup_total list_lookup_total Nat.add]. unfold is_u8, is_u16 in *.
    rewrite be_word by (unfold is_u8, u8; zlia). unfold u8. rewrite !(Z.mod_small t), !(Z.mod_small f) by lia.
    zlia. }
  rewrite R0, R4. unfold is_u8, is_u16, u8, u16 in *.
  change 0xffff with (Z.ones 16). change 0xff with (Z.ones 8).
  rewrite !Z.land_ones, !Z.shiftr_div_pow2 by lia.
  replace ((t * 2 ^ 24 + f * 2 ^ 16 + w) / 2 ^ 24 mod 2 ^ 8) with t by zlia.
  replace ((t * 2 ^ 24 + f * 2 ^ 16 + w) / 2 ^ 16 mod 2 ^ 8 mod 2 ^ 8) with f by zlia.
  replace ((t * 2 ^ 24 + f * 2 ^ 16 + w) mod 2 ^ 16 mod 2 ^ 16) with w by zlia.
  rewrite Hc. unfold f, w. destruct m; reflexivity.
Qed.

(** ** Dispatch announcements *)

(** An endpoint as the wire carries it: sixteen address bytes, of which IPv4
    uses the first four. *)
Definition address_ok (e : IpEndpoint.t) : Prop :=
  length (address e) = 16%nat /\ Forall is_u8 (address e) /\
  (family e = IpAddressFamily.ipv4 -> drop 4 (address e) = replicate 12 0).

(** A valid announcement whose unused endpoint fields have their defaults. *)
Definition dispatch_ok (d : MulticastDispatch.t) : Prop :=
  valid_multicast_dispatch d = true /\ is_u32 (group_id d) /\
  address_ok (multicast_group d) /\ is_u16 (port (multicast_group d)) /\
  scope_id (multicast_group d) = 0 /\
  address_ok (interface_hint d) /\ port (interface_hint d) = 0 /\
  family (interface_hint d) = family (multicast_group d) /\
  (has_interface_hint d = false ->
   interface_hint d = IpEndpoint.unspecified (family (multicast_group d))) /\
  match family (multicast_group d) with
  | IpAddressFamily.ipv4 => scope_id (interface_hint d) = 0
  | IpAddressFamily.ipv6 => address (interface_hint d) = replicate 16 0 /\
                            is_u32 (scope_id (interface_hint d))
  end /\
  is_u32 (initial_sequence d) /\
  - 2 ^ 63 <= timestamp_origin_delta_microseconds d < 2 ^ 63 /\ is_u8 (time_to_live d).

Definition hint_bytes (d : MulticastDispatch.t) : list Z :=
  match family (multicast_group d) with
  | IpAddressFamily.ipv4 => address (interface_hint d)
  | IpAddressFamily.ipv6 => replicate 12 0 ++ word_bytes (scope_id (interface_hint d))
  end.

Definition dispatch_content (d : MulticastDispatch.t) : list Z :=
  word_bytes multicast_dispatch_magic ++ word_bytes (group_id d)
  ++ [if is_ipv4 (multicast_group d) then 4 else 6;
      if has_interface_hint d then multicast_dispatch_flag_interface_hint else 0]
  ++ half_bytes (port (multicast_group d)) ++ address (multicast_group d)
  ++ hint_bytes d ++ word_bytes (initial_sequence d)
  ++ word_bytes (u32 (Z.shiftr (u64 (timestamp_origin_delta_microseconds d)) 32))
  ++ word_bytes (u32 (Z.land (u64 (timestamp_origin_delta_microseconds d)) 0xffffffff))
  ++ [u8 (time_to_live d); 0; 0; 0].

(** The sixteen bytes of an array by name. *)
Ltac explode l H :=
  destruct l as [|? [|? [|? [|? [|? [|? [|? [|? [|? [|? [|? [|? [|? [|? [|? [|? []]]]]]]]]]]]]]]]];
  try discriminate H; clear H.

Lemma length_hint_bytes d : dispatch_ok d -> length (hint_bytes d) = 16%nat.
Proof.
  intros (_ & _ & _ & _ & _ & (H & _ & _) & _). unfold hint_bytes.
  destruct (family _); [assumption|reflexivity].
Qed.

Lemma length_dispatch_content d : dispatch_ok d -> length (dispatch_content d) = 60%nat.
Proof.
  intros H. pose proof (length_hint_bytes d H) as Hh. destruct H as (_ & _ & (Ha & _) & _).
  unfold dispatch_content. rewrite !length_app, !length_word_bytes, Ha, Hh. reflexivity.
Qed.

Lemma encode_multicast_dispatch_ok d destination :
  dispatch_ok d -> (64 <= length destination)%nat ->
  encode_multicast_dispatch d destination =
  (Ok 64%nat, extension_bytes HandshakeExtensionType.multicast_dispatch (dispatch_content d)
              ++ drop 64 destination).
Proof.
  intros Hok Hl. pose proof (length_dispatch_content d Hok) as E.
  destruct Hok as (Hv & _ & (Ha & _ & Ha4) & _ & _ & (Hb & _ & Hb4) & _ & Hf & Hn & Hs & _).
  unfold encode_multicast_dispatch. rewrite Hv. cbn [negb].
  match goal with |- encode_extension _ ?c _ = _ => assert (c = dispatch_content d) as -> end.
  2:{ rewrite encode_extension_ok; rewrite ?E; auto. split; rewrite E; [reflexivity|lia]. }
  unfold dispatch_content, hint_bytes, is_ipv4.
  destruct d as [gid [addr prt scp fam] hinted [haddr hprt hscp hfam] sq ts ttl].
  cbn [group_id multicast_group has_interface_hint interface_hint initial_sequence
    timestamp_origin_delta_microseconds time_to_live address port scope_id family] in *.
  subst hfam. explode addr Ha. explode haddr Hb.
  destruct fam.
  - specialize (Ha4 eq_refl). specialize (Hb4 eq_refl). cbn in Ha4, Hb4. simplify_eq.
    destruct hinted; [reflexivity|]. specialize (Hn eq_refl). unfold unspecified in Hn. cbn in Hn. simplify_eq. reflexivity.
  - destruct Hs as [Hs _]. cbn in Hs. simplify_eq. destruct hinted; [reflexivity|].
    specialize (Hn eq_refl). unfold unspecified in Hn. simplify_eq. reflexivity.
Qed.

Lemma decode_dispatch_content d : dispatch_ok d ->
  decode_multicast_dispatch {| ext_type := HandshakeExtensionType.multicast_dispatch;
                               ext_content := dispatch_content d |} = Ok d.
Proof.
  intros Hok. pose proof (length_dispatch_content d Hok) as E.
  destruct Hok as (Hv & Hg & (Ha & _ & Ha4) & Hp & Hsc & (Hb & _ & Hb4) & Hbp & Hf & Hn & Hs & Hq & Ht & Hl).
  unfold decode_multicast_dispatch. cbn [ext_type ext_content].
  rewrite bool_decide_true, E by reflexivity. cbn [negb orb Nat.eqb multicast_dispatch_content_size].
  destruct d as [gid [addr prt scp fam] hinted [haddr hprt hscp hfam] sq ts ttl].
  cbn [group_id multicast_group has_interface_hint interface_hint initial_sequence
    timestamp_origin_delta_microseconds time_to_live address port scope_id family] in *.
  subst hfam hprt scp. explode addr Ha. explode haddr Hb.
  set (c := dispatch_content _).
  assert (Ehint : exists h, length h = 16%nat /\ c = take 28 c ++ h ++ word_bytes sq
    ++ word_bytes (u32 (Z.shiftr (u64 ts) 32)) ++ word_bytes (u32 (Z.land (u64 ts) 0xffffffff))
    ++ [u8 ttl; 0; 0; 0]) by (unfold c; destruct fam; eexists; split; [|reflexivity| |reflexivity]; reflexivity).
  destruct Ehint as (h & Hh & Ec).
  assert (R0 : read_u32 c 0 = multicast_dispatch_magic) by reflexivity.
  assert (R4 : read_u32 c 4 = gid)
    by (eapply (read_u32_at (take 4 c)); [reflexivity|reflexivity|assumption]).
  assert (R10 : read_u16 c 10 = prt)
    by (eapply (read_u16_at (take 10 c)); [reflexivity|reflexivity|assumption]).
  assert (Lh : length (take 28 c ++ h) = 44%nat) by (rewrite length_app, Hh; reflexivity).
  rewrite app_assoc in Ec.
  assert (R44 : read_u32 c 44 = sq) by (eapply read_u32_at; [exact Ec|exact Lh|exact Hq]).
  assert (R48 : read_u64 c 48 = u64 ts).
  { rewrite <- (join_u64 (u64 ts)) by apply u64_range. unfold read_u64. f_equal; [do 2 f_equal|].
    - apply (read_u32_at ((take 28 c ++ h) ++ word_bytes sq) _
        (word_bytes (u32 (Z.land (u64 ts) 0xffffffff)) ++ [u8 ttl; 0; 0; 0]));
        [rewrite Ec at 1; rewrite <- !app_assoc; reflexivity|rewrite length_app, Lh; reflexivity|apply u32_range].
    - apply (read_u32_at (((take 28 c ++ h) ++ word_bytes sq) ++ word_bytes (u32 (Z.shiftr (u64 ts) 32))) _ [u8 ttl; 0; 0; 0]);
        [rewrite Ec at 1; rewrite <- !app_assoc; reflexivity| |apply u32_range].
      rewrite !(length_app _ (word_bytes _)), Lh. reflexivity. }
  assert (B56 : c !!! 56%nat = u8 ttl /\ c !!! 57%nat = 0 /\ c !!! 58%nat = 0 /\ c !!! 59%nat = 0)
    by (unfold c; destruct fam; repeat split).
  assert (B9 : c !!! 9%nat = if hinted then multicast_dispatch_flag_interface_hint else 0) by reflexivity.
  assert (B8 : c !!! 8%nat = if decide (fam = IpAddressFamily.ipv4) then 4 else 6)
    by (unfold c; destruct fam; reflexivity).
  assert (Hint : decode_interface_hint c fam = Some {| address := [z15; z16; z17; z18; z19; z20; z21; z22; z23; z24; z25; z26; z27; z28; z29; z30];
    port := 0; scope_id := hscp; family := fam |}).
  { unfold c. destruct fam.
    - specialize (Ha4 eq_refl). specialize (Hb4 eq_refl). cbn in Ha4, Hb4. simplify_eq. reflexivity.
    - destruct Hs as [Hs Hsc]. cbn in Hs. simplify_eq.
      match goal with |- decode_interface_hint ?c _ = _ =>
        assert (R40 : read_u32 c 40 = hscp) by (apply (read_u32_at (take 40 c) _ (drop 44 c)); [reflexivity|reflexivity|exact Hsc]);
        unfold decode_interface_hint; rewrite R40 end. reflexivity. }
  destruct B56 as (B56 & B57 & B58 & B59). unfold is_u8, u8 in *. rewrite Z.mod_small in B56 by lia.
  rewrite R0, B8, B9, B57, B58, B59. cbn [negb orb].
  replace (negb (multicast_dispatch_magic =? multicast_dispatch_magic)) with false by reflexivity.
  assert (Ef : (if (if decide (fam = IpAddressFamily.ipv4) then 4 else 6) =? 4 then IpAddressFamily.ipv4
                else IpAddressFamily.ipv6) = fam) by (destruct fam; reflexivity).
  rewrite Ef, Hint, R4, R10, R44, R48, B56, i64_u64 by assumption.
  replace (negb _ && negb _ || _ || _ || _ || _) with false by (destruct fam, hinted; reflexivity).
  replace (negb (Z.land _ multicast_dispatch_flag_interface_hint =? 0)) with hinted by (destruct hinted; reflexivity).
  replace (negb hinted && _) with false.
  2:{ destruct hinted; [reflexivity|]. symmetry. cbn [negb andb].
      rewrite bool_decide_true by (apply Hn; reflexivity). reflexivity. }
  match goal with |- context [valid_multicast_dispatch ?d'] =>
    match type of Hv with valid_multicast_dispatch ?d = true => change d' with d end end.
  rewrite Hv. reflexivity.
Qed.
