(* ===== verification/StandbyRtt.v ===== *)
(** Round-trip measurement of an idle backup link: the identity negotiated in
    the handshake, the probe datagrams, the measurement state machine and the
    process-wide send budget (include/robotweax/srt/standby_rtt.hpp,
    src/standby_rtt.cpp). *)
From S2P Require Import Prelude Packet Codec Words Extensions.

Definition standby_rtt_subtype : Z := 0x7f12.
Definition standby_rtt_extension_size : nat := 40.
Definition standby_rtt_datagram_size : nat := 64.

(** ** Words of any size *)

Definition read_word (bytes : list Z) (at_ size : nat) : Z :=
  fold_left (fun value i => Z.lor (u64 (Z.shiftl value 8)) (bytes !!! (at_ + i)%nat))
    (seq 0 size) 0.

Fixpoint write_word (bytes : list Z) (at_ : nat) (value : Z) (size : nat) : list Z :=
  match size with
  | O => bytes
  | S i => write_word (<[(at_ + i)%nat := Z.land value 255]> bytes) at_ (Z.shiftr value 8) i
  end.

(** Saturating addition. *)
Definition after (now delay : Z) : Z :=
  if u64_max - delay <? now then u64_max else now + delay.

(** ** Identities *)

Definition valid_standby_rtt_nonce (nonce : list Z) : bool :=
  existsb (fun b => negb (b =? 0)) nonce.

Module StandbyRttIdentity.
Record t := { caller : list Z; listener : list Z }.
Definition empty : t := {| caller := replicate 16 0; listener := replicate 16 0 |}.
#[export] Instance eq_dec : EqDecision t.
Proof. solve_decision. Defined.
Definition is_offer (i : t) : bool :=
  valid_standby_rtt_nonce (caller i) && negb (valid_standby_rtt_nonce (listener i)).
Definition is_pair (i : t) : bool :=
  valid_standby_rtt_nonce (caller i) && valid_standby_rtt_nonce (listener i)
  && negb (bool_decide (caller i = listener i)).
End StandbyRttIdentity.
Export (hints) StandbyRttIdentity.
Import StandbyRttIdentity.

Definition decode_standby_rtt_identity (extension : HandshakeExtensionView)
    : Result StandbyRttIdentity.t :=
  let content := ext_content extension in
  if negb (bool_decide (ext_type extension = HandshakeExtensionType.standby_rtt))
     || negb (length content =? standby_rtt_extension_size)%nat
     || negb (read_word content 0 4 =? 1) || negb (read_word content 4 4 =? 0)
  then Err Error.invalid_extension
  else
    let identity := {| caller := take 16 (drop 8 content);
                       listener := take 16 (drop 24 content) |} in
    if negb (is_offer identity) && negb (is_pair identity) then Err Error.invalid_extension
    else Ok identity.

Definition encode_standby_rtt_identity (identity : StandbyRttIdentity.t)
    (destination : list Z) : Result nat * list Z :=
  if negb (is_offer identity) && negb (is_pair identity)
  then (Err Error.invalid_extension, destination)
  else
    let content := replicate standby_rtt_extension_size 0 in
    let content := write_word content 0 1 4 in
    let content := overwrite 8 (caller identity) content in
    let content := overwrite 24 (listener identity) content in
    encode_extension HandshakeExtensionType.standby_rtt content destination.

(** ** Probe messages *)

Module StandbyRttKind.
Inductive t := request | echo.
Definition code (k : t) : Z := match k with request => 1 | echo => 2 end.
Definition of_code (c : Z) : t := if c =? 1 then request else echo.
#[export] Instance eq_dec : EqDecision t.
Proof. solve_decision. Defined.
End StandbyRttKind.
Export (hints) StandbyRttKind.

Record StandbyRttMessage := {
  identity : StandbyRttIdentity.t;
  probe_id : Z;
  rtt_kind : StandbyRttKind.t;
  caller_initiated : bool;
}.
#[export] Instance message_eq_dec : EqDecision StandbyRttMessage.
Proof. solve_decision. Defined.

(** Every value of the kind is a request or an echo. *)
Definition valid_message (message : StandbyRttMessage) : bool :=
  is_pair (identity message) && negb (probe_id message =? 0).

(** The message and the destination socket. *)
Definition decode_standby_rtt_packet (p : PacketView) : Result (StandbyRttMessage * Z) :=
  if negb (length (payload p) =? 48)%nat then Err Error.invalid_control_payload
  else if negb (bool_decide (kind p = PacketKind.control))
          || negb (bool_decide (ctype (control p) = ControlType.user_defined))
          || negb (subtype (control p) =? standby_rtt_subtype)
          || negb (type_specific (control p) =? 0)
          || negb (read_word (payload p) 0 4 =? 1)
  then Err Error.invalid_control_payload
  else
    let code := read_word (payload p) 4 4 in
    if (code <? 1) || (4 <? code) then Err Error.invalid_control_payload
    else
      let initiated := code <=? 2 in
      let message :=
        {| identity := {| caller := take 16 (drop 8 (payload p));
                          listener := take 16 (drop 24 (payload p)) |};
           probe_id := read_word (payload p) 40 8;
           rtt_kind := StandbyRttKind.of_code (if initiated then code else code - 2);
           caller_initiated := initiated |} in
      if negb (valid_message message) then Err Error.invalid_control_payload
      else Ok (message, cdestination_socket_id (control p)).

Definition decode_standby_rtt_datagram (datagram : list Z) : Result (StandbyRttMessage * Z) :=
  if negb (length datagram =? standby_rtt_datagram_size)%nat
  then Err Error.invalid_control_payload
  else
    match decode_packet datagram with
    | Err e => Err e
    | Ok packet => decode_standby_rtt_packet packet
    end.

Definition encode_standby_rtt_datagram (message : StandbyRttMessage)
    (timestamp destination_socket_id : Z) (destination : list Z) : Result nat * list Z :=
  if negb (valid_message message) then (Err Error.invalid_control_payload, destination)
  else
    let payload := replicate 48 0 in
    let payload := write_word payload 0 1 4 in
    let payload := write_word payload 4
      (u32 (StandbyRttKind.code (rtt_kind message)
            + (if caller_initiated message then 0 else 2))) 4 in
    let payload := overwrite 8 (caller (identity message)) payload in
    let payload := overwrite 24 (listener (identity message)) payload in
    let payload := write_word payload 40 (probe_id message) 8 in
    encode_packet
      {| kind := PacketKind.control; data := default_data_header;
         control := {| ctype := ControlType.user_defined; subtype := standby_rtt_subtype;
                       type_specific := 0; ctimestamp := timestamp;
                       cdestination_socket_id := destination_socket_id |};
         payload := payload |} destination.

(** ** The measurement *)

Module StandbyRttOutcome.
Inductive t := none | pending | measured | timeout | send_skipped | paused | id_exhausted.
#[export] Instance eq_dec : EqDecision t.
Proof. solve_decision. Defined.
End StandbyRttOutcome.
Export (hints) StandbyRttOutcome.

Record StandbyRttSnapshot := {
  rtt_microseconds : Z;
  age_microseconds : Z;
  samples : Z;
  outcome : StandbyRttOutcome.t;
  fresh : bool;
}.

Module Measurement.
Record t := {
  identity_ : StandbyRttIdentity.t;
  generation_ : Z; next_id_ : Z; next_due_ : Z;
  pending_id_ : Z; prepared_at_ : Z; sent_at_ : Z; deadline_ : Z; idle_deadline_ : Z;
  early_echo_ : Z; last_sample_at_ : Z; next_echo_due_ : Z;
  sample_ : StandbyRttSnapshot;
  live_ : bool; sent_ : bool; has_early_echo_ : bool; local_caller_ : bool;
}.

Definition initial : t :=
  {| identity_ := StandbyRttIdentity.empty; generation_ := 0; next_id_ := 1; next_due_ := 0;
     pending_id_ := 0; prepared_at_ := 0; sent_at_ := 0; deadline_ := 0; idle_deadline_ := 0;
     early_echo_ := 0; last_sample_at_ := 0; next_echo_due_ := 0;
     sample_ := {| rtt_microseconds := 0; age_microseconds := u64_max; samples := 0;
                   outcome := StandbyRttOutcome.none; fresh := false |};
     live_ := false; sent_ := false; has_early_echo_ := false; local_caller_ := true |}.

Definition eta_t (m : t) : t :=
  Build_t (identity_ m) (generation_ m) (next_id_ m) (next_due_ m) (pending_id_ m)
    (prepared_at_ m) (sent_at_ m) (deadline_ m) (idle_deadline_ m) (early_echo_ m)
    (last_sample_at_ m) (next_echo_due_ m) (sample_ m) (live_ m) (sent_ m)
    (has_early_echo_ m) (local_caller_ m).
Definition set_next_id : Z -> t -> t := ltac:(setter eta_t next_id_).
Definition set_next_due : Z -> t -> t := ltac:(setter eta_t next_due_).
Definition set_pending_id : Z -> t -> t := ltac:(setter eta_t pending_id_).
Definition set_prepared_at : Z -> t -> t := ltac:(setter eta_t prepared_at_).
Definition set_sent_at : Z -> t -> t := ltac:(setter eta_t sent_at_).
Definition set_deadline : Z -> t -> t := ltac:(setter eta_t deadline_).
Definition set_idle_deadline : Z -> t -> t := ltac:(setter eta_t idle_deadline_).
Definition set_early_echo : Z -> t -> t := ltac:(setter eta_t early_echo_).
Definition set_last_sample_at : Z -> t -> t := ltac:(setter eta_t last_sample_at_).
Definition set_next_echo_due : Z -> t -> t := ltac:(setter eta_t next_echo_due_).
Definition set_sample : StandbyRttSnapshot -> t -> t := ltac:(setter eta_t sample_).
Definition set_live : bool -> t -> t := ltac:(setter eta_t live_).
Definition set_sent : bool -> t -> t := ltac:(setter eta_t sent_).
Definition set_has_early_echo : bool -> t -> t := ltac:(setter eta_t has_early_echo_).

(** [sample_.outcome = o]. *)
Definition set_outcome (o : StandbyRttOutcome.t) (m : t) : t :=
  set_sample {| rtt_microseconds := rtt_microseconds (sample_ m);
                age_microseconds := age_microseconds (sample_ m);
                samples := samples (sample_ m); outcome := o; fresh := fresh (sample_ m) |} m.

(** The reset happens before the arguments are checked. *)
Definition configure (identity : StandbyRttIdentity.t) (generation first_due first_probe_id : Z)
    (local_caller : bool) : Error.t * t :=
  if negb (is_pair identity) || (generation =? 0) || (first_probe_id =? 0)
  then (Error.invalid_state, initial)
  else
    (Error.none,
     Build_t identity generation first_probe_id first_due 0 0 0 0 0 0 0 0 (sample_ initial)
       true false false local_caller).

Definition expire (now : Z) (m : t) : t :=
  if negb (pending_id_ m =? 0) && (deadline_ m <=? now) then
    set_pending_id 0 (set_outcome (if sent_ m then StandbyRttOutcome.timeout
                                   else StandbyRttOutcome.send_skipped) m)
  else m.

Definition pause (m : t) : t :=
  set_pending_id 0
    (if negb (pending_id_ m =? 0) then set_outcome StandbyRttOutcome.paused m else m).

Definition terminate (m : t) : t := set_live false (pause m).

Definition prepare_request (now idle_deadline generation : Z) (eligible : bool) (m : t)
    : option StandbyRttMessage * t :=
  if negb (generation =? generation_ m) || negb (live_ m) then (None, m)
  else if negb eligible then (None, pause m)
  else
    let m := expire now m in
    if negb (pending_id_ m =? 0) || (now <? next_due_ m) || (idle_deadline <=? now)
    then (None, m)
    else if next_id_ m =? u64_max then (None, set_outcome StandbyRttOutcome.id_exhausted m)
    else
      let m := set_next_id (next_id_ m + 1) (set_pending_id (next_id_ m) m) in
      let m := set_prepared_at now m in
      let m := set_idle_deadline idle_deadline m in
      let m := set_deadline (Z.min idle_deadline (after now 2000000)) m in
      let m := set_next_due (after now 1000000) m in
      let m := set_has_early_echo false (set_sent false m) in
      let m := set_outcome StandbyRttOutcome.pending m in
      (Some {| identity := identity_ m; probe_id := pending_id_ m;
               rtt_kind := StandbyRttKind.request; caller_initiated := local_caller_ m |}, m).

Definition record_echo (arrival : Z) (m : t) : t :=
  if arrival <=? sent_at_ m then
    set_outcome StandbyRttOutcome.send_skipped (set_pending_id 0 m)
  else if (sent_at_ m <? arrival) && (arrival <? deadline_ m) then
    let s := sample_ m in
    let m := set_sample
      {| rtt_microseconds := arrival - sent_at_ m; age_microseconds := age_microseconds s;
         samples := if samples s =? u64_max then samples s else samples s + 1;
         outcome := StandbyRttOutcome.measured; fresh := fresh s |} m in
    set_pending_id 0 (set_last_sample_at arrival m)
  else m.

Definition finish_send (probe generation : Z) (native_acceptance_time : option Z) (m : t) : t :=
  if negb (live_ m) || negb (generation =? generation_ m) || (probe =? 0)
     || negb (probe =? pending_id_ m) || sent_ m
  then m
  else
    let skipped := set_outcome StandbyRttOutcome.send_skipped (set_pending_id 0 m) in
    match native_acceptance_time with
    | None => skipped
    | Some time =>
        if (time <? prepared_at_ m) || (deadline_ m <=? time) then skipped
        else
          let m := set_sent_at time m in
          let m := set_next_due (Z.max (next_due_ m) (after time 1000000)) m in
          let m := set_deadline (Z.min (idle_deadline_ m) (after time 2000000)) m in
          let m := set_sent true m in
          if has_early_echo_ m then record_echo (early_echo_ m) m else m
    end.

Definition receive_echo (message : StandbyRttMessage) (arrival generation : Z) (live : bool)
    (m : t) : t :=
  if negb (live_ m) || negb live || negb (generation =? generation_ m)
     || negb (bool_decide (rtt_kind message = StandbyRttKind.echo))
     || negb (Bool.eqb (caller_initiated message) (local_caller_ m))
     || negb (bool_decide (identity message = identity_ m)) || (pending_id_ m =? 0)
     || negb (probe_id message =? pending_id_ m)
  then m
  else if arrival <? prepared_at_ m then m
  else if deadline_ m <=? arrival then expire arrival m
  else if negb (sent_ m) then
    if negb (has_early_echo_ m) then set_has_early_echo true (set_early_echo arrival m) else m
  else record_echo arrival m.

Definition make_echo (message : StandbyRttMessage) (now generation : Z) (live send_budget : bool)
    (m : t) : option StandbyRttMessage * t :=
  if negb (live_ m) || negb live || (now =? u64_max) || negb (generation =? generation_ m)
     || negb send_budget || negb (valid_message message)
     || negb (bool_decide (rtt_kind message = StandbyRttKind.request))
     || Bool.eqb (caller_initiated message) (local_caller_ m)
     || negb (bool_decide (identity message = identity_ m)) || (now <? next_echo_due_ m)
  then (None, m)
  else
    (Some {| identity := identity message; probe_id := probe_id message;
             rtt_kind := StandbyRttKind.echo; caller_initiated := caller_initiated message |},
     set_next_echo_due (after now 1000000) m).

Definition snapshot (now : Z) (m : t) : StandbyRttSnapshot :=
  let s := sample_ m in
  let age := if negb (samples s =? 0) && (last_sample_at_ m <=? now)
             then now - last_sample_at_ m else u64_max in
  {| rtt_microseconds := rtt_microseconds s; age_microseconds := age; samples := samples s;
     outcome := outcome s; fresh := age <=? 3000000 |}.

Definition next_request_time (m : t) : Z :=
  if next_id_ m =? u64_max then u64_max
  else if negb (pending_id_ m =? 0) then deadline_ m else next_due_ m.
End Measurement.

(** ** The send budget *)

Module Budget.
Record Lease := { lease_generation : Z; slot : nat }.

Record t := {
  generations_ : list Z;
  eligible_ : list bool;
  serial_ : Z; next_request_ : Z; next_echo_ : Z;
  cursor_ : nat;
}.

Definition initial : t :=
  {| generations_ := replicate 256 0; eligible_ := replicate 256 false; serial_ := 0;
     next_request_ := 0; next_echo_ := 0; cursor_ := 0 |}.

Definition owns (b : t) (lease : Lease) : bool :=
  (slot lease <? length (generations_ b))%nat && negb (lease_generation lease =? 0)
  && (generations_ b !!! slot lease =? lease_generation lease).

(** The first free slot. *)
Fixpoint free_slot (generations : list Z) : option nat :=
  match generations with
  | [] => None
  | g :: rest => if g =? 0 then Some 0%nat else S <$> free_slot rest
  end.

Definition admit_lease (b : t) : option Lease * t :=
  if serial_ b =? u64_max then (None, b)
  else
    match free_slot (generations_ b) with
    | None => (None, b)
    | Some i =>
        let serial := serial_ b + 1 in
        (Some {| lease_generation := serial; slot := i |},
         {| generations_ := <[i := serial]> (generations_ b); eligible_ := eligible_ b;
            serial_ := serial; next_request_ := next_request_ b; next_echo_ := next_echo_ b;
            cursor_ := cursor_ b |})
    end.

Definition release (lease : Lease) (b : t) : t :=
  if owns b lease then
    {| generations_ := <[slot lease := 0]> (generations_ b);
       eligible_ := <[slot lease := false]> (eligible_ b); serial_ := serial_ b;
       next_request_ := next_request_ b; next_echo_ := next_echo_ b; cursor_ := cursor_ b |}
  else b.

Definition set_eligible (lease : Lease) (value : bool) (b : t) : t :=
  if owns b lease then
    {| generations_ := generations_ b; eligible_ := <[slot lease := value]> (eligible_ b);
       serial_ := serial_ b; next_request_ := next_request_ b; next_echo_ := next_echo_ b;
       cursor_ := cursor_ b |}
  else b.

Definition set_cursor (cursor : nat) (b : t) : t :=
  {| generations_ := generations_ b; eligible_ := eligible_ b; serial_ := serial_ b;
     next_request_ := next_request_ b; next_echo_ := next_echo_ b; cursor_ := cursor |}.

(** The scan of [grant_request], at most one turn of the slots. *)
Fixpoint scan (count : nat) (now : Z) (b : t) : option Lease * t :=
  match count with
  | O => (None, b)
  | S count =>
      let i := cursor_ b in
      let b := set_cursor ((cursor_ b + 1) mod length (generations_ b)) b in
      if negb (generations_ b !!! i =? 0) && (eligible_ b !!! i) then
        (Some {| lease_generation := generations_ b !!! i; slot := i |},
         {| generations_ := generations_ b; eligible_ := eligible_ b; serial_ := serial_ b;
            next_request_ := after now 31250; next_echo_ := next_echo_ b;
            cursor_ := cursor_ b |})
      else scan count now b
  end.

Definition grant_request (now : Z) (b : t) : option Lease * t :=
  if (now <? next_request_ b) || (now =? u64_max) then (None, b)
  else scan (length (generations_ b)) now b.

Definition grant_echo (lease : Lease) (now : Z) (b : t) : bool * t :=
  if negb (owns b lease) || (now <? next_echo_ b) || (now =? u64_max) then (false, b)
  else (true, {| generations_ := generations_ b; eligible_ := eligible_ b;
                 serial_ := serial_ b; next_request_ := next_request_ b;
                 next_echo_ := after now 31250; cursor_ := cursor_ b |}).

Definition clear (b : t) : t :=
  {| generations_ := replicate (length (generations_ b)) 0;
     eligible_ := replicate (length (eligible_ b)) false; serial_ := serial_ b;
     next_request_ := next_request_ b; next_echo_ := next_echo_ b; cursor_ := 0 |}.
End Budget.
