(* ===== verification/StandbyRttFacts.v ===== *)
(** Standby measurement: round trips of its wire forms, soundness of the
    recorded samples, the spacing of probes and echoes, and the fairness and
    rate of the shared send budget. *)
From Stdlib Require Import Sorted.
From S2P Require Import Prelude Packet Codec Words Extensions StandbyRtt.
Import StandbyRttIdentity.

(** * Big-endian words of any size *)

Fixpoint be_bytes (size : nat) (value : Z) : list Z :=
  match size with
  | O => []
  | S n => be_bytes n (Z.shiftr value 8) ++ [Z.land value 255]
  end.

Lemma length_be_bytes size v : length (be_bytes size v) = size.
Proof. revert v. induction size as [|n IH]; intros v; [reflexivity|]. cbn [be_bytes]. rewrite length_app, IH. cbn [length]. lia. Qed.

Lemma write_word_overwrite bytes at_ v size :
  (at_ + size <= length bytes)%nat ->
  write_word bytes at_ v size = overwrite at_ (be_bytes size v) bytes.
Proof.
  revert bytes v. induction size as [|n IH]; intros bytes v Hl.
  - unfold overwrite. cbn. rewrite Nat.add_0_r, take_drop. reflexivity.
  - cbn [write_word be_bytes]. rewrite IH by (rewrite length_insert; lia).
    unfold overwrite. rewrite length_app, !length_be_bytes, take_insert_ge by lia. cbn [length].
    rewrite <- app_assoc. do 2 f_equal.
    destruct (lookup_lt_is_Some_2 bytes (at_ + n)) as [x Hx]; [lia|].
    rewrite insert_take_drop by lia.
    rewrite drop_app_ge by (rewrite length_take; lia). rewrite length_take, Nat.min_l, Nat.sub_diag by lia.
    cbn [drop app]. do 2 f_equal. lia.
Qed.

Lemma read_be_word p v r size :
  (size <= 8)%nat -> 0 <= v ->
  read_word (p ++ be_bytes size v ++ r) (length p) size = v mod 2 ^ (8 * Z.of_nat size).
Proof.
  intros Hs. revert v r. induction size as [|n IH]; intros v r Hv.
  - cbn. rewrite Z.mod_1_r. reflexivity.
  - unfold read_word in *. rewrite seq_S, fold_left_app. cbn [fold_left be_bytes].
    rewrite <- (app_assoc _ [_]), IH by (lia || apply Z.shiftr_nonneg, Hv). cbn [app Nat.add].
    assert (Hb : (p ++ be_bytes n (Z.shiftr v 8) ++ Z.land v 255 :: r) !!! (length p + n)%nat = Z.land v 255).
    { rewrite lookup_total_app_add. pose proof (lookup_total_middle (be_bytes n (Z.shiftr v 8)) r (Z.land v 255)) as M.
      rewrite length_be_bytes in M. exact M. }
    rewrite Hb. change 255 with (Z.ones 8). rewrite Z.land_ones, Z.shiftr_div_pow2, Z.shiftl_mul_pow2 by lia.
    assert (B : 2 ^ (8 * Z.of_nat (S n)) = 2 ^ 8 * 2 ^ (8 * Z.of_nat n)) by (rewrite <- Z.pow_add_r by lia; f_equal; lia).
    set (m := 2 ^ (8 * Z.of_nat n)) in *.
    assert (Hm : 0 < m <= 2 ^ 56) by (split; [apply Z.pow_pos_nonneg; lia|apply Z.pow_le_mono_r; lia]).
    pose proof (Z.mod_pos_bound (v / 2 ^ 8) m ltac:(lia)) as Hd.
    unfold u64. rewrite (Z.mod_small (_ * _)) by lia. rewrite (lor_add _ _ 8) by zlia.
    rewrite B, Z.rem_mul_r by lia. lia.
Qed.

Lemma read_word_at p v r n size bytes :
  bytes = p ++ be_bytes size v ++ r -> length p = n -> (size <= 8)%nat ->
  0 <= v < 2 ^ (8 * Z.of_nat size) -> read_word bytes n size = v.
Proof. intros -> <- Hs Hv. rewrite read_be_word by lia. apply Z.mod_small. assumption. Qed.

(** * Identities *)

Definition identity_ok (i : StandbyRttIdentity.t) : Prop :=
  length (caller i) = 16%nat /\ length (listener i) = 16%nat /\
  is_offer i || is_pair i = true.

Definition identity_content (i : StandbyRttIdentity.t) : list Z :=
  [0; 0; 0; 1; 0; 0; 0; 0] ++ caller i ++ listener i.

(** The nonces in their places of a zero-filled message. *)
Lemma place_nonces (h a b t : list Z) :
  length h = 8%nat -> length a = 16%nat -> length b = 16%nat ->
  overwrite 24 b (overwrite 8 a (h ++ replicate 32 0 ++ t)) = h ++ a ++ b ++ t.
Proof.
  intros Hh Ha Hb. pose proof (overwrite_app h (replicate 32 0 ++ t) a) as E. rewrite Hh, Ha in E.
  rewrite E. change (drop 16 (replicate 32 0 ++ t)) with (replicate 16 0 ++ t). rewrite (app_assoc h a).
  pose proof (overwrite_app (h ++ a) (replicate 16 0 ++ t) b) as F.
  rewrite length_app, Hh, Ha, Hb in F. change (8 + 16)%nat with 24%nat in F.
  rewrite F, <- app_assoc. reflexivity.
Qed.

Lemma encode_standby_rtt_identity_ok i destination :
  identity_ok i -> (44 <= length destination)%nat ->
  encode_standby_rtt_identity i destination =
  (Ok 44%nat, extension_bytes HandshakeExtensionType.standby_rtt (identity_content i)
              ++ drop 44 destination).
Proof.
  intros (Hc & Hl & Hv) Hd. unfold encode_standby_rtt_identity.
  rewrite <- negb_orb, Hv. cbn [negb].
  change (write_word (replicate standby_rtt_extension_size 0) 0 1 4)
    with ([0; 0; 0; 1; 0; 0; 0; 0] ++ replicate 32 0 ++ []).
  rewrite place_nonces, app_nil_r by (reflexivity || assumption).
  fold (identity_content i).
  assert (E : length (identity_content i) = 40%nat)
    by (unfold identity_content; rewrite !length_app, Hc, Hl; reflexivity).
  rewrite encode_extension_ok; rewrite ?E; auto. split; rewrite E; [reflexivity|lia].
Qed.

Lemma decode_identity_content i : identity_ok i ->
  decode_standby_rtt_identity {| ext_type := HandshakeExtensionType.standby_rtt;
                                 ext_content := identity_content i |} = Ok i.
Proof.
  intros (Hc & Hl & Hv). unfold decode_standby_rtt_identity. cbn [ext_type ext_content].
  rewrite bool_decide_true by reflexivity.
  assert (E : length (identity_content i) = 40%nat)
    by (unfold identity_content; rewrite !length_app, Hc, Hl; reflexivity).
  rewrite E. cbn [negb orb Nat.eqb standby_rtt_extension_size].
  change (read_word (identity_content i) 0 4) with 1. change (read_word (identity_content i) 4 4) with 0.
  cbn [negb orb Z.eqb Pos.eqb].
  assert (Ec : take 16 (drop 8 (identity_content i)) = caller i).
  { unfold identity_content. change (drop 8 (_ ++ ?x)) with x. rewrite <- Hc. apply take_app_length. }
  assert (El : take 16 (drop 24 (identity_content i)) = listener i).
  { unfold identity_content. change (drop 24 (_ ++ ?x)) with (drop 16 x). rewrite <- Hc, drop_app_length, Hc, <- Hl.
    apply firstn_all. }
  rewrite Ec, El. destruct i as [c l]. cbn [caller listener] in *.
  rewrite <- negb_orb, Hv. reflexivity.
Qed.

(** * Probe datagrams *)

Definition message_ok (m : StandbyRttMessage) : Prop :=
  valid_message m = true /\ length (caller (identity m)) = 16%nat /\
  length (listener (identity m)) = 16%nat /\ Forall is_u8 (caller (identity m)) /\
  Forall is_u8 (listener (identity m)) /\ is_u64 (probe_id m).

Definition kind_word (m : StandbyRttMessage) : Z :=
  StandbyRttKind.code (rtt_kind m) + (if caller_initiated m then 0 else 2).

Definition probe_payload (m : StandbyRttMessage) : list Z :=
  [0; 0; 0; 1] ++ be_bytes 4 (kind_word m) ++ caller (identity m) ++ listener (identity m)
  ++ be_bytes 8 (probe_id m).

Definition probe_packet (m : StandbyRttMessage) (timestamp socket : Z) : PacketView :=
  {| kind := PacketKind.control; data := default_data_header;
     control := {| ctype := ControlType.user_defined; subtype := standby_rtt_subtype;
                   type_specific := 0; ctimestamp := timestamp;
                   cdestination_socket_id := socket |};
     payload := probe_payload m |}.

Lemma kind_word_range m : 1 <= kind_word m <= 4.
Proof. unfold kind_word. destruct (rtt_kind m), (caller_initiated m); cbn; lia. Qed.

Lemma length_probe_payload m :
  length (caller (identity m)) = 16%nat -> length (listener (identity m)) = 16%nat ->
  length (probe_payload m) = 48%nat.
Proof. intros Hc Hl. unfold probe_payload. rewrite !length_app, !length_be_bytes, Hc, Hl. reflexivity. Qed.

Lemma encode_standby_rtt_datagram_packet m timestamp socket destination :
  message_ok m ->
  encode_standby_rtt_datagram m timestamp socket destination =
  encode_packet (probe_packet m timestamp socket) destination.
Proof.
  intros (Hv & Hc & Hl & _). unfold encode_standby_rtt_datagram. rewrite Hv. cbn [negb].
  unfold probe_packet. do 2 f_equal.
  assert (Ek : u32 (StandbyRttKind.code (rtt_kind m) + (if caller_initiated m then 0 else 2)) = kind_word m)
    by (pose proof (kind_word_range m); apply u32_id; unfold kind_word in *; unfold is_u32; lia).
  rewrite Ek. rewrite (write_word_overwrite (write_word _ 0 1 4)) by (cbn; lia).
  change (overwrite 4 (be_bytes 4 (kind_word m)) (write_word (replicate 48 0) 0 1 4))
    with (([0; 0; 0; 1] ++ be_bytes 4 (kind_word m)) ++ replicate 32 0 ++ replicate 8 0).
  rewrite place_nonces by (reflexivity || assumption).
  rewrite write_word_overwrite.
  2:{ rewrite !length_app, Hc, Hl, length_be_bytes, length_replicate. cbn [length]. lia. }
  set (p := ([0; 0; 0; 1] ++ be_bytes 4 (kind_word m)) ++ caller (identity m) ++ listener (identity m)).
  pose proof (overwrite_app p (replicate 8 0) (be_bytes 8 (probe_id m))) as E.
  replace (length p) with 40%nat in E by (unfold p; rewrite !length_app, Hc, Hl, length_be_bytes; reflexivity).
  unfold p in E at 1. rewrite <- !app_assoc in E. rewrite <- !app_assoc, E.
  rewrite length_be_bytes.
  unfold p, probe_payload. rewrite <- !app_assoc. reflexivity.
Qed.

Lemma decode_probe_packet m timestamp socket :
  message_ok m -> decode_standby_rtt_packet (probe_packet m timestamp socket) = Ok (m, socket).
Proof.
  intros (Hv & Hc & Hl & _ & _ & Hp). unfold decode_standby_rtt_packet. cbn [payload kind control ctype subtype
    type_specific cdestination_socket_id probe_packet].
  rewrite length_probe_payload by assumption. rewrite !bool_decide_true by reflexivity.
  cbn [Nat.eqb negb orb Z.eqb Pos.eqb standby_rtt_subtype].
  set (b := probe_payload m). pose proof (kind_word_range m) as Hk.
  change (read_word b 0 4) with 1. rewrite (read_word_at [0; 0; 0; 1] (kind_word m)
    (caller (identity m) ++ listener (identity m) ++ be_bytes 8 (probe_id m)) 4 4 b) by (reflexivity || (cbn; lia)).
  assert (R8 : read_word b 40 8 = probe_id m).
  { apply (read_word_at ([0; 0; 0; 1] ++ be_bytes 4 (kind_word m) ++ caller (identity m) ++ listener (identity m)) _ []).
    - unfold b, probe_payload. rewrite <- !app_assoc, app_nil_r. reflexivity.
    - rewrite !length_app, length_be_bytes, Hc, Hl. reflexivity.
    - lia.
    - exact Hp. }
  assert (Ec : take 16 (drop 8 b) = caller (identity m)).
  { unfold b, probe_payload. change (drop 8 (_ ++ _ ++ ?x)) with x. rewrite <- Hc. apply take_app_length. }
  assert (El : take 16 (drop 24 b) = listener (identity m)).
  { unfold b, probe_payload. change (drop 24 (_ ++ _ ++ ?x)) with (drop 16 x).
    rewrite <- Hc, drop_app_length, Hc, <- Hl. apply take_app_length. }
  rewrite R8, Ec, El. cbn [Z.eqb Pos.eqb negb]. rewrite !(proj2 (Z.ltb_ge _ _)) by lia. cbn [orb].
  unfold kind_word in *. destruct m as [[c l] i k ci]. cbn [identity caller listener probe_id rtt_kind caller_initiated] in *.
  replace (StandbyRttKind.of_code _) with k by (destruct k, ci; reflexivity).
  replace (_ <=? 2) with ci by (destruct k, ci; reflexivity).
  rewrite Hv. reflexivity.
Qed.

Lemma probe_packet_wf m timestamp socket :
  message_ok m -> is_u32 timestamp -> is_u32 socket ->
  encoded_payload (probe_packet m timestamp socket) = probe_payload m /\
  packet_wf (probe_packet m timestamp socket).
Proof.
  intros (Hv & Hc & Hl & _) Ht Hs. assert (Elen := length_probe_payload m Hc Hl).
  assert (Ep : encoded_payload (probe_packet m timestamp socket) = probe_payload m).
  { unfold encoded_payload, add_zero_word. cbn [kind payload probe_packet]. rewrite Elen. reflexivity. }
  split; [exact Ep|]. unfold packet_wf. cbn [kind probe_packet]. rewrite Ep.
  unfold has_valid_control_payload_shape. rewrite Elen.
  cbn [control subtype type_specific ctimestamp cdestination_socket_id ctype data probe_packet].
  repeat match goal with |- _ /\ _ => split end; try reflexivity; try assumption;
    unfold is_u16, is_u32, standby_rtt_subtype; lia.
Qed.

(** A probe is decoded as it was encoded, at the socket it was addressed to. *)
Lemma probe_datagram_decodes m timestamp socket destination :
  message_ok m -> is_u32 timestamp -> is_u32 socket ->
  (standby_rtt_datagram_size <= length destination)%nat ->
  let '(result, storage) := encode_standby_rtt_datagram m timestamp socket destination in
  result = Ok standby_rtt_datagram_size /\
  decode_standby_rtt_datagram (take standby_rtt_datagram_size storage) = Ok (m, socket).
Proof.
  intros Hm Ht Hs Hd. rewrite encode_standby_rtt_datagram_packet by assumption.
  destruct (probe_packet_wf m timestamp socket Hm Ht Hs) as [Ep Hwf].
  assert (Elen : length (probe_payload m) = 48%nat) by (apply length_probe_payload; apply Hm).
  pose proof (encoded_decodes (probe_packet m timestamp socket) destination Hwf) as D.
  destruct (header_words_ok _ Hwf) as [w Hw].
  pose proof (encode_packet_ok (probe_packet m timestamp socket) destination w Hw) as E.
  rewrite Ep, Elen in D, E. change (packet_header_size + 48)%nat with standby_rtt_datagram_size in D, E.
  specialize (D Hd). specialize (E Hd). rewrite E in D |- *. destruct D as (_ & D & _).
  split; [reflexivity|]. unfold decode_standby_rtt_datagram.
  replace (length (take _ _) =? _)%nat with true.
  2:{ symmetry. apply Nat.eqb_eq. rewrite length_take, !length_app, length_header_bytes, Elen.
      unfold standby_rtt_datagram_size. lia. }
  cbn [negb]. rewrite D.
  apply decode_probe_packet. assumption.
Qed.

(** * Runs of the measurement *)

(** The calls of the transport, with the times and generations it passes. *)
Inductive event :=
| prepare (now idle_deadline generation : Z) (eligible : bool)
| finished (probe generation : Z) (acceptance : option Z)
| echoed (message : StandbyRttMessage) (arrival generation : Z) (live : bool)
| asked (message : StandbyRttMessage) (now generation : Z) (live send_budget : bool)
| expired (now : Z)
| paused
| terminated.

Definition perform (e : event) (m : Measurement.t) : option StandbyRttMessage * Measurement.t :=
  match e with
  | prepare now idle g eligible => Measurement.prepare_request now idle g eligible m
  | finished probe g time => (None, Measurement.finish_send probe g time m)
  | echoed message arrival g live => (None, Measurement.receive_echo message arrival g live m)
  | asked message now g live budget => Measurement.make_echo message now g live budget m
  | expired now => (None, Measurement.expire now m)
  | paused => (None, Measurement.pause m)
  | terminated => (None, Measurement.terminate m)
  end.

Definition runs (m : Measurement.t) (es : list event) : Measurement.t :=
  fold_left (fun m e => snd (perform e m)) es m.

Import Measurement.

(** What the history [h] of calls explains of a state of generation [g]. *)
Record explained (i : StandbyRttIdentity.t) (g : Z) (h : list event) (m : Measurement.t) : Prop := {
  ex_identity : identity_ m = i;
  ex_generation : generation_ m = g;
  ex_sent : pending_id_ m <> 0 -> sent_ m = true ->
    finished (pending_id_ m) g (Some (sent_at_ m)) ∈ h /\ deadline_ m <= sent_at_ m + 2000000;
  ex_early : pending_id_ m <> 0 -> sent_ m = false -> has_early_echo_ m = true ->
    exists message, echoed message (early_echo_ m) g true ∈ h /\
      probe_id message = pending_id_ m /\ identity message = i;
  ex_sample : samples (sample_ m) <> 0 ->
    exists message sent arrival,
      finished (probe_id message) g (Some sent) ∈ h /\ echoed message arrival g true ∈ h /\
      identity message = i /\ last_sample_at_ m = arrival /\
      rtt_microseconds (sample_ m) = arrival - sent /\ 0 < arrival - sent < 2000000;
}.

Lemma after_le now d : 0 <= d -> after now d <= now + d.
Proof. unfold after, u64_max. intros. destruct (Z.ltb_spec (2 ^ 64 - 1 - d) now); lia. Qed.

Lemma explained_weaken i g h m e : explained i g h m -> explained i g (h ++ [e]) m.
Proof.
  intros [? ? Hs He Hm]. split; auto.
  - intros H1 H2. destruct (Hs H1 H2). split; [apply elem_of_app; left|]; assumption.
  - intros H1 H2 H3. destruct (He H1 H2 H3) as (x & ? & ?). exists x. split; [apply elem_of_app; left|]; assumption.
  - intros H1. destruct (Hm H1) as (x & s & a & ? & ? & ?). exists x, s, a.
    split; [apply elem_of_app; left; assumption|]. split; [apply elem_of_app; left; assumption|]. assumption.
Qed.

(** An idle state explains itself by its sample. *)
Lemma explained_idle i g h m m' : explained i g h m ->
  identity_ m' = identity_ m -> generation_ m' = generation_ m ->
  last_sample_at_ m' = last_sample_at_ m -> samples (sample_ m') = samples (sample_ m) ->
  rtt_microseconds (sample_ m') = rtt_microseconds (sample_ m) ->
  pending_id_ m' = 0 -> explained i g h m'.
Proof.
  intros [? ? _ _ Hm] E1 E2 E3 E4 E5 Hp. split; [congruence..| | |]; try (intros []; assumption).
  rewrite E3, E4, E5. exact Hm.
Qed.

Lemma explained_expire i g h now m : explained i g h m -> explained i g h (expire now m).
Proof.
  intros H. unfold expire. destruct (_ && _); [|assumption]. eapply explained_idle; eauto.
Qed.

Lemma explained_pause i g h m : explained i g h m -> explained i g h (pause m).
Proof.
  intros H. unfold pause. destruct (negb _); eapply explained_idle; eauto.
Qed.

(** Recording an echo of a probe whose sending the history has. *)
Lemma explained_record i g h m message arrival :
  explained i g h m -> pending_id_ m <> 0 ->
  finished (pending_id_ m) g (Some (sent_at_ m)) ∈ h -> deadline_ m <= sent_at_ m + 2000000 ->
  echoed message arrival g true ∈ h -> probe_id message = pending_id_ m -> identity message = i ->
  sent_ m = true -> explained i g h (record_echo arrival m).
Proof.
  intros H Hp Hf Hd He Hid Hi Hs. unfold record_echo.
  destruct (Z.leb_spec arrival (sent_at_ m)); [eapply explained_idle; eauto|].
  destruct (Z.ltb_spec (sent_at_ m) arrival), (Z.ltb_spec arrival (deadline_ m)); cbn [andb]; try assumption.
  destruct H. split; cbn; try congruence; try (intros []; congruence).
  intros _. exists message, (sent_at_ m), arrival. rewrite Hid. repeat split; auto; lia.
Qed.

(** Each call keeps the state explained by the history with that call. *)
Lemma explained_prepare i g h m now idle gen eligible :
  explained i g h m ->
  explained i g h (snd (prepare_request now idle gen eligible m)).
Proof.
  intros H. unfold prepare_request. destruct (_ || _); [assumption|].
  destruct (negb eligible); [apply explained_pause; assumption|].
  apply (explained_expire i g h now) in H. set (m1 := expire now m) in *. clearbody m1.
  destruct (_ || _ || _); [assumption|].
  destruct (next_id_ m1 =? u64_max).
  - destruct H. split; cbn; auto.
  - destruct H. split; cbn; try assumption; intros; discriminate.
Qed.

Lemma explained_finished i g h m probe gen time :
  explained i g h m ->
  explained i g (h ++ [finished probe gen time]) (finish_send probe gen time m).
Proof.
  intros H. pose proof (explained_weaken _ _ _ _ (finished probe gen time) H) as Hw.
  unfold finish_send. destruct (_ || _ || _ || _ || _) eqn:C; [assumption|]. b2p.
  destruct time as [time|]; [|eapply explained_idle; eauto].
  destruct (_ || _); [eapply explained_idle; eauto|].
  assert (Eg : gen = g) by (rewrite <- (ex_generation _ _ _ _ H); assumption).
  set (m1 := set_sent true _). assert (Hp : pending_id_ m1 <> 0) by (cbn; congruence).
  assert (Hf : finished (pending_id_ m1) g (Some (sent_at_ m1)) ∈ h ++ [finished probe gen (Some time)]).
  { apply elem_of_app. right. apply list_elem_of_singleton. cbn. congruence. }
  assert (Hd : deadline_ m1 <= sent_at_ m1 + 2000000).
  { cbn. etransitivity; [apply Z.le_min_r|]. apply after_le. lia. }
  assert (Hm1 : explained i g (h ++ [finished probe gen (Some time)]) m1).
  { destruct Hw. split; cbn; try assumption; [auto|]. intros; discriminate. }
  destruct (has_early_echo_ m1) eqn:Ee; [|assumption].
  destruct (ex_early _ _ _ _ Hw) as (message & He & Hid & Hi); [congruence|assumption|exact Ee|].
  apply (explained_record i g _ m1 message); auto.
Qed.

Lemma explained_echoed i g h m message arrival gen live :
  explained i g h m ->
  explained i g (h ++ [echoed message arrival gen live]) (receive_echo message arrival gen live m).
Proof.
  intros H. pose proof (explained_weaken _ _ _ _ (echoed message arrival gen live) H) as Hw.
  unfold receive_echo. destruct (_ || _ || _ || _ || _ || _ || _ || _) eqn:C; [assumption|]. b2p. subst live.
  assert (Eg : gen = g) by (rewrite <- (ex_generation _ _ _ _ H); assumption).
  match goal with H : bool_decide (identity message = _) = true |- _ => apply bool_decide_eq_true in H; rename H into Hi end.
  rewrite (ex_identity _ _ _ _ H) in Hi.
  assert (He : echoed message arrival g true ∈ h ++ [echoed message arrival gen true]).
  { apply elem_of_app. right. apply list_elem_of_singleton. congruence. }
  destruct (arrival <? prepared_at_ m); [assumption|].
  destruct (deadline_ m <=? arrival); [apply explained_expire; assumption|].
  destruct (sent_ m) eqn:Es; cbn [negb].
  - destruct (ex_sent _ _ _ _ Hw) as [Hf Hd]; [assumption..|]. apply (explained_record i g _ m message); auto.
  - destruct (has_early_echo_ m) eqn:Ee; cbn [negb]; [assumption|].
    destruct Hw. split; cbn; try assumption. intros _ _ _. exists message. auto.
Qed.

Lemma explained_step i g h m e :
  explained i g h m -> explained i g (h ++ [e]) (snd (perform e m)).
Proof.
  intros H. destruct e; cbn [perform snd].
  - apply explained_prepare, explained_weaken, H.
  - apply explained_finished, H.
  - apply explained_echoed, H.
  - apply (explained_weaken _ _ _ _ (asked message now generation live send_budget)) in H.
    unfold make_echo. destruct (_ || _ || _ || _ || _ || _ || _ || _ || _ || _); [assumption|].
    destruct H. split; cbn; assumption.
  - apply explained_expire, explained_weaken, H.
  - apply explained_pause, explained_weaken, H.
  - apply (explained_weaken _ _ _ _ terminated), explained_pause in H. destruct H. split; cbn; assumption.
Qed.

Lemma explained_runs i g h m es : explained i g h m -> explained i g (h ++ es) (runs m es).
Proof.
  revert h m. induction es as [|e es IH]; intros h m H; cbn [runs fold_left].
  - rewrite app_nil_r. assumption.
  - change (e :: es) with ([e] ++ es). rewrite app_assoc. apply IH, explained_step, H.
Qed.

Lemma explained_configured i g due first c m :
  configure i g due first c = (Error.none, m) -> explained i g [] m.
Proof.
  unfold configure. destruct (_ || _ || _); [discriminate|]. intros [= <-].
  split; cbn; try reflexivity; intros; congruence.
Qed.

(** Whatever calls follow a successful configuration, a recorded sample is
    genuine: its round-trip time is the positive difference, below two seconds,
    between the arrival of an echo that carries the negotiated identity and the
    time the network accepted the probe of the same number and generation. *)
Theorem standby_sample_sound i g due first c m es :
  configure i g due first c = (Error.none, m) ->
  let m' := runs m es in
  samples (sample_ m') <> 0 ->
  exists message sent arrival,
    finished (probe_id message) g (Some sent) ∈ es /\ echoed message arrival g true ∈ es /\
    identity message = i /\ last_sample_at_ m' = arrival /\
    rtt_microseconds (sample_ m') = arrival - sent /\ 0 < arrival - sent < 2000000.
Proof.
  intros Hc m' Hs. pose proof (explained_runs i g [] m es (explained_configured _ _ _ _ _ _ Hc)) as H.
  exact (ex_sample _ _ _ _ H Hs).
Qed.

Definition example_identity : StandbyRttIdentity.t :=
  {| caller := replicate 16 1; listener := replicate 16 2 |}.
Definition example_measurement : Measurement.t := snd (configure example_identity 5 0 1 true).
Definition example_probe (kind : StandbyRttKind.t) : StandbyRttMessage :=
  {| identity := example_identity; probe_id := 1; rtt_kind := kind; caller_initiated := true |}.
Definition example_events : list event :=
  [prepare 10 9000000 5 true; echoed (example_probe StandbyRttKind.echo) 1300 5 true;
   finished 1 5 (Some 300); prepare 1000020 9000000 5 true].

Lemma standby_sample_sound_witness :
  samples (sample_ (runs example_measurement example_events)) = 1 /\
  rtt_microseconds (sample_ (runs example_measurement example_events)) = 1000 /\
  exists message sent arrival,
    finished (probe_id message) 5 (Some sent) ∈ example_events /\
    echoed message arrival 5 true ∈ example_events /\ identity message = example_identity /\
    last_sample_at_ (runs example_measurement example_events) = arrival /\
    rtt_microseconds (sample_ (runs example_measurement example_events)) = arrival - sent /\
    0 < arrival - sent < 2000000.
Proof.
  split; [vm_compute; reflexivity|]. split; [vm_compute; reflexivity|].
  apply (standby_sample_sound example_identity 5 0 1 true example_measurement example_events).
  - vm_compute. reflexivity.
  - vm_compute. discriminate.
Defined.

(** * Spacing of probes and echoes *)

(** The probes a run sends, with their times, and the times of its echoes. *)
Fixpoint probes (m : Measurement.t) (es : list event) : list (Z * Z) :=
  match es with
  | [] => []
  | e :: es =>
      match e, fst (perform e m) with
      | prepare now _ _ _, Some message => [(now, probe_id message)]
      | _, _ => []
      end ++ probes (snd (perform e m)) es
  end.

Fixpoint echoes (m : Measurement.t) (es : list event) : list Z :=
  match es with
  | [] => []
  | e :: es =>
      match e, fst (perform e m) with
      | asked _ now _ _ _, Some _ => [now]
      | _, _ => []
      end ++ echoes (snd (perform e m)) es
  end.

(** The times passed to the calls are 64-bit values. *)
Definition timed (e : event) : Prop :=
  match e with
  | prepare now _ _ _ | asked _ now _ _ _ => is_u64 now
  | _ => True
  end.

Lemma after_ge now d : 0 <= d -> is_u64 now -> now <= after now d.
Proof. unfold after, u64_max, is_u64. intros. destruct (Z.ltb_spec (2 ^ 64 - 1 - d) now); lia. Qed.

Lemma record_echo_dues arrival m :
  next_due_ (record_echo arrival m) = next_due_ m /\ next_id_ (record_echo arrival m) = next_id_ m /\
  next_echo_due_ (record_echo arrival m) = next_echo_due_ m.
Proof. unfold record_echo. destruct (_ <=? _); [auto|]. destruct (_ && _); auto. Qed.

Lemma expire_dues now m :
  next_due_ (expire now m) = next_due_ m /\ next_id_ (expire now m) = next_id_ m /\
  next_echo_due_ (expire now m) = next_echo_due_ m.
Proof. unfold expire. destruct (_ && _); auto. Qed.

Lemma pause_dues m :
  next_due_ (pause m) = next_due_ m /\ next_id_ (pause m) = next_id_ m /\
  next_echo_due_ (pause m) = next_echo_due_ m.
Proof. unfold pause. destruct (negb _); auto. Qed.

Lemma finish_send_dues probe g time m :
  next_due_ m <= next_due_ (finish_send probe g time m) /\
  next_id_ (finish_send probe g time m) = next_id_ m /\
  next_echo_due_ (finish_send probe g time m) = next_echo_due_ m.
Proof.
  unfold finish_send. destruct (_ || _ || _ || _ || _); [auto with lia|].
  destruct time as [time|]; [|cbn; auto with lia]. destruct (_ || _); [cbn; auto with lia|].
  set (m1 := set_sent true _).
  assert (next_due_ m <= next_due_ m1 /\ next_id_ m1 = next_id_ m /\ next_echo_due_ m1 = next_echo_due_ m)
    as (? & ? & ?) by (cbn; repeat split; lia).
  destruct (has_early_echo_ m1); [|auto].
  destruct (record_echo_dues (early_echo_ m1) m1) as (-> & -> & ->). auto.
Qed.

Lemma receive_echo_dues message arrival g live m :
  next_due_ (receive_echo message arrival g live m) = next_due_ m /\
  next_id_ (receive_echo message arrival g live m) = next_id_ m /\
  next_echo_due_ (receive_echo message arrival g live m) = next_echo_due_ m.
Proof.
  unfold receive_echo. destruct (_ || _ || _ || _ || _ || _ || _ || _); [auto|].
  destruct (_ <? _); [auto|]. destruct (_ <=? _); [apply expire_dues|].
  destruct (negb (sent_ m)); [destruct (negb _); auto|apply record_echo_dues].
Qed.

(** A probe is sent no sooner than due, with the next number; the following one
    is due a second later. *)
Lemma prepare_request_dues now idle g eligible m : is_u64 now ->
  let '(out, m') := prepare_request now idle g eligible m in
  next_echo_due_ m' = next_echo_due_ m /\
  match out with
  | None => next_due_ m' = next_due_ m /\ next_id_ m' = next_id_ m
  | Some message => next_due_ m <= now /\ probe_id message = next_id_ m /\
      next_due_ m' = after now 1000000 /\ next_id_ m' = next_id_ m + 1
  end.
Proof.
  intros Hn. unfold prepare_request. destruct (_ || _); [auto|].
  destruct (negb eligible); [destruct (pause_dues m) as (? & ? & ?); auto|].
  destruct (expire_dues now m) as (E1 & E2 & E3). set (m1 := expire now m) in *. clearbody m1.
  destruct (_ || _ || _) eqn:C; [auto|]. destruct (next_id_ m1 =? u64_max); [cbn; auto|].
  b2p. cbn. rewrite <- E1, <- E2. repeat split; try assumption; lia.
Qed.

Lemma make_echo_dues message now g live budget m :
  let '(out, m') := make_echo message now g live budget m in
  next_due_ m' = next_due_ m /\ next_id_ m' = next_id_ m /\
  match out with
  | None => next_echo_due_ m' = next_echo_due_ m
  | Some _ => next_echo_due_ m <= now /\ next_echo_due_ m' = after now 1000000
  end.
Proof.
  unfold make_echo. destruct (_ || _ || _ || _ || _ || _ || _ || _ || _ || _) eqn:C; [auto|].
  b2p. cbn. auto.
Qed.

(** The next due times and the next number never go back. *)
Lemma perform_dues e m : timed e ->
  next_due_ m <= next_due_ (snd (perform e m)) /\ next_id_ m <= next_id_ (snd (perform e m)) /\
  next_echo_due_ m <= next_echo_due_ (snd (perform e m)).
Proof.
  destruct e; cbn [perform snd timed]; intros Ht.
  - pose proof (prepare_request_dues now idle_deadline generation eligible m Ht) as H.
    destruct (prepare_request _ _ _ _ m) as [[message|] m']; cbn [snd].
    + destruct H as (-> & Hd & _ & -> & ->). pose proof (after_ge now 1000000 ltac:(lia) Ht). lia.
    + destruct H as (-> & -> & ->). lia.
  - destruct (finish_send_dues probe generation acceptance m) as (? & -> & ->). lia.
  - destruct (receive_echo_dues message arrival generation live m) as (-> & -> & ->). lia.
  - pose proof (make_echo_dues message now generation live send_budget m) as H.
    destruct (make_echo _ _ _ _ _ m) as [[?|] m']; cbn [snd]; destruct H as (-> & -> & H).
    + destruct H as [? ->]. pose proof (after_ge now 1000000 ltac:(lia) Ht). lia.
    + lia.
  - destruct (expire_dues now m) as (-> & -> & ->). lia.
  - destruct (pause_dues m) as (-> & -> & ->). lia.
  - pose proof (pause_dues m). unfold terminate, set_live. cbn [next_due_ next_id_ next_echo_due_]. lia.
Qed.

Definition spaced_probes (p q : Z * Z) : Prop := after (fst p) 1000000 <= fst q /\ snd p < snd q.
Definition spaced_echoes (t u : Z) : Prop := after t 1000000 <= u.

Lemma probes_spaced m es : Forall timed es ->
  Forall (fun p => next_due_ m <= fst p /\ next_id_ m <= snd p) (probes m es) /\
  StronglySorted spaced_probes (probes m es).
Proof.
  intros Ht. revert m. induction Ht as [|e es He Ht IH]; intros m; cbn [probes]; [split; constructor|].
  destruct (perform_dues e m He) as (Hd & Hi & _). destruct (IH (snd (perform e m))) as [Hall Hs].
  assert (Hrest : Forall (fun p => next_due_ m <= fst p /\ next_id_ m <= snd p) (probes (snd (perform e m)) es))
    by (eapply Forall_impl; [exact Hall|]; cbn; intros; lia).
  destruct e; cbn [perform fst snd app] in *; try (split; assumption).
  - pose proof (prepare_request_dues now idle_deadline generation eligible m He) as P.
    destruct (prepare_request _ _ _ _ m) as [[message|] m']; cbn [fst snd app] in *; [|split; assumption].
    destruct P as (_ & Hn & -> & En & Ei). split; [constructor; cbn; [lia|assumption]|].
    constructor; [assumption|]. eapply Forall_impl; [exact Hall|]. unfold spaced_probes. cbn. intros. lia.
Qed.

Lemma echoes_spaced m es : Forall timed es ->
  Forall (fun t => next_echo_due_ m <= t) (echoes m es) /\ StronglySorted spaced_echoes (echoes m es).
Proof.
  intros Ht. revert m. induction Ht as [|e es He Ht IH]; intros m; cbn [echoes]; [split; constructor|].
  destruct (perform_dues e m He) as (_ & _ & Hd). destruct (IH (snd (perform e m))) as [Hall Hs].
  assert (Hrest : Forall (fun t => next_echo_due_ m <= t) (echoes (snd (perform e m)) es))
    by (eapply Forall_impl; [exact Hall|]; cbn; intros; lia).
  destruct e; cbn [perform fst snd app] in *; try (split; assumption).
  - pose proof (make_echo_dues message now generation live send_budget m) as P.
    destruct (make_echo _ _ _ _ _ m) as [[?|] m']; cbn [fst snd app] in *; [|split; assumption].
    destruct P as (_ & _ & Hn & En). split; [constructor; assumption|].
    constructor; [assumption|]. eapply Forall_impl; [exact Hall|]. unfold spaced_echoes. cbn. intros. lia.
Qed.

(** Whatever calls follow, the probes a measurement sends carry strictly
    increasing numbers and lie at least a second apart, and so do its echoes
    (times saturate at the end of the 64-bit clock). *)
Theorem standby_probe_spacing m es : Forall timed es ->
  StronglySorted spaced_probes (probes m es) /\ StronglySorted spaced_echoes (echoes m es).
Proof. intros H. split; [apply probes_spaced|apply echoes_spaced]; assumption. Qed.

Lemma standby_probe_spacing_witness :
  probes example_measurement example_events = [(10, 1)] /\
  probes example_measurement (example_events ++ [prepare 1000400 9000000 5 true]) = [(10, 1); (1000400, 2)] /\
  StronglySorted spaced_probes
    (probes example_measurement (example_events ++ [prepare 1000400 9000000 5 true])).
Proof.
  split; [vm_compute; reflexivity|]. split; [vm_compute; reflexivity|].
  apply (standby_probe_spacing example_measurement (example_events ++ [prepare 1000400 9000000 5 true])).
  repeat constructor; discriminate.
Defined.

(** * The send budget *)

Import Budget.

Definition grantable (b : Budget.t) (i : nat) : bool :=
  negb (generations_ b !!! i =? 0) && (eligible_ b !!! i).

Definition budget_wf (b : Budget.t) : Prop :=
  length (generations_ b) = 256%nat /\ length (eligible_ b) = 256%nat /\ (cursor_ b < 256)%nat.

(** How many slots the scan passes before it reaches slot [i]. *)
Definition turn (b : Budget.t) (i : nat) : nat := ((i + (256 - cursor_ b)) mod 256)%nat.

Lemma scan_spec count now b : budget_wf b ->
  let '(out, b') := scan count now b in
  generations_ b' = generations_ b /\ eligible_ b' = eligible_ b /\
  match out with
  | None => forall k, (k < count)%nat -> grantable b ((cursor_ b + k) mod 256) = false
  | Some lease => exists k, (k < count)%nat /\ slot lease = ((cursor_ b + k) mod 256)%nat /\
      grantable b (slot lease) = true /\ lease_generation lease = generations_ b !!! slot lease /\
      (forall j, (j < k)%nat -> grantable b ((cursor_ b + j) mod 256) = false) /\
      cursor_ b' = ((cursor_ b + k + 1) mod 256)%nat /\ next_request_ b' = after now 31250
  end.
Proof.
  revert b. induction count as [|n IH]; intros b (Hg & He & Hc); cbn [scan]; [repeat split; lia|].
  rewrite Hg. set (b1 := set_cursor ((cursor_ b + 1) mod 256) b).
  assert (E0 : ((cursor_ b + 0) mod 256 = cursor_ b)%nat) by (rewrite Nat.add_0_r; apply Nat.mod_small; lia).
  change (negb (generations_ b1 !!! cursor_ b =? 0) && (eligible_ b1 !!! cursor_ b)) with (grantable b (cursor_ b)).
  destruct (grantable b (cursor_ b)) eqn:G.
  - split; [reflexivity|]. split; [reflexivity|]. exists 0%nat. cbn [slot lease_generation cursor_ next_request_].
    rewrite E0, Nat.add_0_r. repeat split; auto; lia.
  - assert (W1 : budget_wf b1) by (repeat split; try assumption; apply Nat.mod_upper_bound; lia).
    assert (Em : forall k, ((cursor_ b1 + k) mod 256 = (cursor_ b + S k) mod 256)%nat).
    { intros k. unfold b1. cbn [cursor_ set_cursor]. rewrite Nat.Div0.add_mod_idemp_l. f_equal. lia. }
    specialize (IH b1 W1). destruct (scan n now b1) as [[lease|] b']; destruct IH as (-> & -> & IH).
    + destruct IH as (k & Hk & Hs & Hgr & Hl & Hj & Hcur & Hnext).
      split; [reflexivity|]. split; [reflexivity|]. exists (S k). rewrite Em in Hs.
      assert (Ecur : cursor_ b' = ((cursor_ b + S k + 1) mod 256)%nat).
      { rewrite Hcur, <- Nat.add_assoc, Em. f_equal. lia. }
      repeat split; try assumption; [lia|]. intros [|j] Hjk; [rewrite E0; exact G|].
      rewrite <- Em. apply Hj. lia.
    + split; [reflexivity|]. split; [reflexivity|]. intros [|k] Hk; [rewrite E0; exact G|].
      rewrite <- Em. apply IH. lia.
Qed.

(** The calls on a budget, in any order and by any owners. *)
Inductive budget_call :=
| grant (now : Z)
| admission
| releasing (lease : Lease)
| eligibility (lease : Lease) (value : bool)
| echo_grant (lease : Lease) (now : Z)
| clearing.

Definition budget_step (c : budget_call) (b : Budget.t) : option Lease * Budget.t :=
  match c with
  | grant now => grant_request now b
  | admission => (None, snd (admit_lease b))
  | releasing lease => (None, release lease b)
  | eligibility lease value => (None, set_eligible lease value b)
  | echo_grant lease now => (None, snd (grant_echo lease now b))
  | clearing => (None, clear b)
  end.

(** The states and the request grants along a sequence of calls. *)
Fixpoint budget_states (b : Budget.t) (cs : list budget_call) : list Budget.t :=
  b :: match cs with [] => [] | c :: cs => budget_states (snd (budget_step c b)) cs end.
Fixpoint grants (b : Budget.t) (cs : list budget_call) : list Lease :=
  match cs with
  | [] => []
  | c :: cs => option_list (fst (budget_step c b)) ++ grants (snd (budget_step c b)) cs
  end.

Lemma turn_reaches b i : (cursor_ b < 256)%nat -> (i < 256)%nat ->
  ((cursor_ b + turn b i) mod 256 = i)%nat.
Proof.
  intros Hc Hi. unfold turn. rewrite Nat.Div0.add_mod_idemp_r.
  replace (cursor_ b + (i + (256 - cursor_ b)))%nat with (i + 1 * 256)%nat by lia.
  rewrite Nat.Div0.mod_add, Nat.mod_small by assumption. reflexivity.
Qed.

Lemma budget_step_wf c b : budget_wf b -> budget_wf (snd (budget_step c b)).
Proof.
  intros (Hg & He & Hc). destruct c; cbn [budget_step snd].
  - unfold grant_request. destruct (_ || _); [repeat split; assumption|]. rewrite Hg.
    pose proof (scan_spec 256 now b ltac:(repeat split; assumption)) as H.
    assert (W : forall n b0, budget_wf b0 -> budget_wf (snd (scan n now b0))).
    { induction n as [|n IH]; intros b0 (? & ? & ?); cbn [scan]; [repeat split; assumption|].
      assert ((cursor_ b0 + 1) mod length (generations_ b0) < 256)%nat
        by (match goal with E : length (generations_ b0) = _ |- _ => rewrite E end; apply Nat.mod_upper_bound; lia).
      destruct (_ && _); [repeat split; assumption|]. apply IH. repeat split; assumption. }
    apply W. repeat split; assumption.
  - unfold admit_lease. destruct (_ =? _); [repeat split; assumption|].
    destruct (free_slot _); repeat split; cbn; rewrite ?length_insert; assumption.
  - unfold release. destruct (owns b lease); repeat split; cbn; rewrite ?length_insert; assumption.
  - unfold set_eligible. destruct (owns b lease); repeat split; cbn; rewrite ?length_insert; assumption.
  - unfold grant_echo. destruct (_ || _ || _); repeat split; assumption.
  - unfold clear, budget_wf. cbn [generations_ eligible_ cursor_]. rewrite !length_replicate. repeat split; [assumption..|lia].
Qed.

(** Only grants and a clearing move the cursor; a grant to another slot brings
    the turn of a waiting slot nearer. *)
Lemma turn_step c b i lease : budget_wf b -> (i < 256)%nat -> grantable b i = true ->
  fst (budget_step c b) = Some lease -> slot lease <> i ->
  (turn (snd (budget_step c b)) i < turn b i)%nat.
Proof.
  intros W Hi G. destruct c; cbn [budget_step fst snd]; try discriminate.
  unfold grant_request. destruct (_ || _); [discriminate|]. destruct W as (Hg & He & Hc). rewrite Hg.
  pose proof (scan_spec 256 now b ltac:(repeat split; assumption)) as S.
  destruct (scan 256 now b) as [out b']. cbn [fst snd]. intros -> Hne.
  destruct S as (_ & _ & k & Hk & Hs & _ & _ & Hj & Hcur & _).
  pose proof (turn_reaches b i Hc Hi) as Ht.
  assert (Hlt : (turn b i < 256)%nat) by (apply Nat.mod_upper_bound; lia).
  assert (Hkt : (k < turn b i)%nat).
  { destruct (Nat.lt_trichotomy k (turn b i)) as [?|[->|Hgt]]; [assumption|congruence|].
    specialize (Hj _ Hgt). rewrite Ht in Hj. congruence. }
  unfold turn at 1. rewrite Hcur.
  set (t := turn b i) in *. assert (Ei : i = ((cursor_ b + t) mod 256)%nat) by auto.
  rewrite ring_index in Ei by lia. rewrite <- Nat.add_assoc, (ring_index (cursor_ b) (k + 1)) by lia.
  destruct (Nat.ltb_spec (cursor_ b + (k + 1)) 256), (Nat.ltb_spec (cursor_ b + t) 256).
  - replace (i + (256 - (cursor_ b + (k + 1))))%nat with ((t - (k + 1)) + 1 * 256)%nat by lia.
    rewrite Nat.Div0.mod_add, Nat.mod_small by lia. lia.
  - replace (i + (256 - (cursor_ b + (k + 1))))%nat with (t - (k + 1))%nat by lia.
    rewrite Nat.mod_small by lia. lia.
  - lia.
  - replace (i + (256 - (cursor_ b + (k + 1) - 256)))%nat with ((t - (k + 1)) + 1 * 256)%nat by lia.
    rewrite Nat.Div0.mod_add, Nat.mod_small by lia. lia.
Qed.

Lemma turn_kept c b i : budget_wf b -> (i < 256)%nat ->
  grantable (snd (budget_step c b)) i = true -> fst (budget_step c b) = None ->
  (turn (snd (budget_step c b)) i <= turn b i)%nat.
Proof.
  intros W Hi. destruct c; cbn [budget_step fst snd].
  - unfold grant_request. destruct (_ || _); [reflexivity|]. destruct W as (Hg & He & Hc). rewrite Hg.
    pose proof (scan_spec 256 now b ltac:(repeat split; assumption)) as S.
    destruct (scan 256 now b) as [out b']. cbn [fst snd]. intros G ->. destruct S as (Eg & Ee & S).
    specialize (S (turn b i) (Nat.mod_upper_bound _ 256 ltac:(lia))).
    pose proof (turn_reaches b i Hc Hi) as Ht.
    rewrite Ht in S. unfold grantable in *. rewrite Eg, Ee in G. congruence.
  - intros _ _. unfold admit_lease. destruct (_ =? _); [reflexivity|]. destruct (free_slot _); reflexivity.
  - intros _ _. unfold release. destruct (owns b lease); reflexivity.
  - intros _ _. unfold set_eligible. destruct (owns b lease); reflexivity.
  - intros _ _. unfold grant_echo. destruct (_ || _ || _); reflexivity.
  - intros G. exfalso. unfold grantable, clear in G. cbn [generations_ eligible_] in G.
    rewrite lookup_total_replicate_2 in G by (destruct W as (-> & _); assumption). discriminate.
Qed.

(** The shared budget is fair: while a slot stays admitted and eligible, at
    most as many requests are granted to other slots as there are slots before it
    in the current turn, fewer than 256, whatever the other calls are. *)
Theorem budget_no_starvation b cs i : budget_wf b -> (i < 256)%nat ->
  Forall (fun s => grantable s i = true) (budget_states b cs) ->
  Forall (fun lease => slot lease <> i) (grants b cs) ->
  (length (grants b cs) <= turn b i < 256)%nat.
Proof.
  intros W Hi Hg Ho. split; [|apply Nat.mod_upper_bound; lia].
  revert b W Hg Ho. induction cs as [|c cs IH]; intros b W Hg Ho; cbn [grants length]; [lia|].
  cbn [budget_states grants] in Hg, Ho. apply Forall_cons in Hg as [G0 Hg]. apply Forall_app in Ho as [Ho1 Ho2].
  specialize (IH _ (budget_step_wf c b W) Hg Ho2). rewrite length_app.
  destruct (fst (budget_step c b)) as [lease|] eqn:E; unfold option_list, option_rect in *; cbn [length].
  - apply Forall_cons in Ho1 as [Hne _]. pose proof (turn_step c b i lease W Hi G0 E Hne).
    lia.
  - assert (G1 : grantable (snd (budget_step c b)) i = true) by (destruct cs; apply Forall_cons in Hg as [? _]; assumption).
    pose proof (turn_kept c b i W Hi G1 E). lia.
Qed.

Definition example_budget : Budget.t :=
  {| generations_ := [1; 2; 3] ++ replicate 253 0; eligible_ := [true; true; true] ++ replicate 253 false;
     serial_ := 3; next_request_ := 0; next_echo_ := 0; cursor_ := 1 |}.

Lemma budget_no_starvation_witness :
  length (grants example_budget [grant 0; admission; grant 31250]) = 2%nat /\
  (length (grants example_budget [grant 0; admission; grant 31250]) <= turn example_budget 0 < 256)%nat.
Proof.
  split; [vm_compute; reflexivity|].
  apply (budget_no_starvation example_budget [grant 0; admission; grant 31250] 0).
  - repeat split; try reflexivity. vm_compute. lia.
  - lia.
  - repeat constructor; vm_compute; reflexivity.
  - vm_compute. repeat constructor; discriminate.
Defined.
