(* ===== verification/ReceiveWindow.v ===== *)
(** The receive window: in-order/duplicate classification of incoming sequence
    numbers over a ring of received flags ([ReceiveWindow] of
    src/reliability.cpp and include/robotweax/srt/reliability.hpp). *)
From stdpp Require Import gmap.
From S2P Require Import Prelude Sequence Packet Codec Control.

Module ReceiveStatus.
Inductive t :=
| accepted_in_order | accepted_out_of_order | duplicate | older_than_window
| beyond_window.
#[export] Instance eq_dec : EqDecision t.
Proof. solve_decision. Defined.
End ReceiveStatus.
Export (hints) ReceiveStatus.

Record ReceiveDecision := {
  status : ReceiveStatus.t;
  gap_before_packet : option SequenceRange;
  contiguous_advance : Z;
}.

Module ReceiveWindow.

Record t := {
  first_expected : SequenceNumber.t;
  slots : list Z;
  head : nat;
}.

(** The constructor; [None] is [std::invalid_argument]. *)
Definition make (first_expected : SequenceNumber.t) (capacity : nat) : option t :=
  if (capacity =? 0)%nat || (SequenceNumber.half_range <=? Z.of_nat capacity)
  then None
  else Some {| first_expected := first_expected; slots := replicate capacity 0;
               head := 0 |}.

Definition capacity (w : t) : nat := length (slots w).

Definition decide_only (s : ReceiveStatus.t) : ReceiveDecision :=
  {| status := s; gap_before_packet := None; contiguous_advance := 0 |}.

(** [while (slots_[head_] != 0U) ...]: clears the received prefix.  Each
    iteration clears one slot, so [capacity] iterations are always enough. *)
Fixpoint advance (fuel : nat) (w : t) (count : Z) : t * Z :=
  match fuel with
  | O => (w, count)
  | S fuel =>
      if negb (slots w !!! head w =? 0) then
        advance fuel
          {| slots := <[head w := 0]> (slots w);
             head := ((head w + 1) mod capacity w)%nat;
             first_expected := SequenceNumber.next (first_expected w) |}
          (u32 (count + 1))
      else (w, count)
  end.

Definition observe (w : t) (sequence : SequenceNumber.t) : ReceiveDecision * t :=
  let signed_offset := SequenceNumber.distance_from sequence (first_expected w) in
  if signed_offset <? 0 then (decide_only ReceiveStatus.older_than_window, w)
  else
    let offset := Z.to_nat signed_offset in
    if (capacity w <=? offset)%nat
    then (decide_only ReceiveStatus.beyond_window, w)
    else
      let slot := ((head w + offset) mod capacity w)%nat in
      if negb (slots w !!! slot =? 0)
      then (decide_only ReceiveStatus.duplicate, w)
      else
        let w' := {| first_expected := first_expected w;
                     slots := <[slot := 1]> (slots w); head := head w |} in
        if (0 <? offset)%nat then
          ({| status := ReceiveStatus.accepted_out_of_order;
              gap_before_packet :=
                Some {| range_first := first_expected w;
                        range_last :=
                          SequenceNumber.advanced sequence SequenceNumber.mask |};
              contiguous_advance := 0 |}, w')
        else
          let '(w'', count) := advance (capacity w) w' 0 in
          ({| status := ReceiveStatus.accepted_in_order;
              gap_before_packet := None; contiguous_advance := count |}, w'').

(** A run of the window over a list of arrivals. *)
Fixpoint run (w : t) (arrivals : list SequenceNumber.t) : list ReceiveDecision * t :=
  match arrivals with
  | [] => ([], w)
  | s :: rest =>
      let '(d, w') := observe w s in
      let '(ds, w'') := run w' rest in (d :: ds, w'')
  end.

(** ** Specification

    Positions are unbounded: the stream of a connection is numbered from
    [start], and a wire sequence number is a position modulo 2^31.  The
    abstract window remembers every position it ever accepted and the first
    one it still misses. *)
Record spec := { base : Z; accepted : gset Z }.

(** [step cap a p st a']: the packet at position [p] arrives. *)
Inductive step (cap : nat) (a : spec) (p : Z) : ReceiveDecision -> spec -> Prop :=
| step_older :
    p < base a ->
    step cap a p (decide_only ReceiveStatus.older_than_window) a
| step_beyond :
    base a + Z.of_nat cap <= p ->
    step cap a p (decide_only ReceiveStatus.beyond_window) a
| step_duplicate :
    base a <= p < base a + Z.of_nat cap -> p ∈ accepted a ->
    step cap a p (decide_only ReceiveStatus.duplicate) a
| step_out_of_order gap :
    base a < p < base a + Z.of_nat cap -> p ∉ accepted a ->
    range_first gap = base a mod SequenceNumber.modulus ->
    range_last gap = (p - 1) mod SequenceNumber.modulus ->
    step cap a p
      {| status := ReceiveStatus.accepted_out_of_order;
         gap_before_packet := Some gap; contiguous_advance := 0 |}
      {| base := base a; accepted := {[p]} ∪ accepted a |}
| step_in_order b' :
    p = base a -> p ∉ accepted a -> base a < b' <= base a + Z.of_nat cap ->
    (forall q, base a < q < b' -> q ∈ accepted a) -> b' ∉ accepted a ->
    step cap a p
      {| status := ReceiveStatus.accepted_in_order;
         gap_before_packet := None; contiguous_advance := b' - base a |}
      {| base := b'; accepted := {[p]} ∪ accepted a |}.

(** The ring stores the accepted positions of [base, base + capacity). *)
Record refines (start : Z) (w : t) (a : spec) : Prop := {
  ref_cap : 0 < Z.of_nat (capacity w) < SequenceNumber.half_range;
  ref_head : (head w < capacity w)%nat;
  ref_first : first_expected w = base a mod SequenceNumber.modulus;
  ref_slots : forall i, (i < capacity w)%nat ->
    rot (head w) (slots w) !!! i = 0 <-> base a + Z.of_nat i ∉ accepted a;
  ref_base : base a ∉ accepted a;
  ref_below : forall q, start <= q < base a -> q ∈ accepted a;
  ref_range : forall q, q ∈ accepted a -> start <= q < base a + Z.of_nat (capacity w);
  ref_start : start <= base a;
}.

(** ** Refinement proof *)

(** One iteration of the clearing loop, in logical order. *)
Lemma clear_head_rot {A} (l : list A) h z x L :
  (h < length l)%nat -> rot h l = x :: L ->
  rot ((h + 1) mod length l) (<[h := z]> l) = L ++ [z].
Proof.
  intros Hh HL. assert (Hlen : length l = S (length L))
    by (rewrite <- (length_rot h l), HL; reflexivity).
  replace (length l) with (length (<[h := z]> l)) by apply length_insert.
  rewrite rot_advance by (rewrite length_insert; lia).
  replace h with ((h + 0) mod length l)%nat at 2 by (rewrite Nat.add_0_r; apply Nat.mod_small; lia).
  rewrite rot_insert by lia. rewrite HL. simpl. unfold rot. simpl.
  rewrite drop_0, take_0. reflexivity.
Qed.

Lemma advance_spec fuel : forall w count,
  (head w < capacity w)%nat -> SequenceNumber.wf (first_expected w) ->
  0 <= count -> count + Z.of_nat fuel < 2 ^ 32 ->
  exists k w', advance fuel w count = (w', count + Z.of_nat k) /\ (k <= fuel)%nat /\
    (forall i, (i < k)%nat -> (i < capacity w)%nat -> rot (head w) (slots w) !!! i <> 0) /\
    capacity w' = capacity w /\ (head w' < capacity w')%nat /\
    first_expected w' = (first_expected w + Z.of_nat k) mod SequenceNumber.modulus /\
    ((k <= capacity w)%nat ->
     rot (head w') (slots w') = drop k (rot (head w) (slots w)) ++ replicate k 0) /\
    ((k < fuel)%nat -> rot (head w') (slots w') !!! 0%nat = 0).
Proof.
  induction fuel as [|fuel IH]; intros w count Hh Hf Hc Hm.
  { exists 0%nat, w. change (Z.of_nat 0) with 0. rewrite !Z.add_0_r, Z.mod_small, drop_0, app_nil_r by assumption.
    repeat split; auto; lia. }
  assert (E0 : slots w !!! head w = rot (head w) (slots w) !!! 0%nat).
  { rewrite <- (rot_lookup_total (slots w) (head w) 0), Nat.add_0_r, Nat.mod_small
      by (unfold capacity in *; lia). reflexivity. }
  cbn [advance]. rewrite E0. destruct (Z.eqb_spec (rot (head w) (slots w) !!! 0%nat) 0) as [Hz|Hz];
    simpl negb; cbv iota.
  { exists 0%nat, w. change (Z.of_nat 0) with 0. rewrite !Z.add_0_r, Z.mod_small, drop_0, app_nil_r by assumption.
    repeat split; auto; lia. }
  destruct (rot (head w) (slots w)) as [|x L] eqn:HL.
  { apply (f_equal length) in HL. rewrite length_rot in HL. unfold capacity in *. simpl in HL. lia. }
  assert (HcapL : capacity w = S (length L))
    by (unfold capacity; rewrite <- (length_rot (head w)), HL; reflexivity).
  match goal with |- context [advance fuel ?a ?b] => set (w1 := a); set (c1 := b) end.
  assert (Hcap1 : capacity w1 = capacity w) by apply length_insert.
  assert (HL1 : rot (head w1) (slots w1) = L ++ [0])
    by (apply (clear_head_rot _ _ _ x); [exact Hh | exact HL]).
  assert (Hc1 : c1 = count + 1) by (apply u32_id; unfold is_u32; lia).
  destruct (IH w1 c1) as (k & w' & Hadv & Hk & Hones & Hcap' & Hh' & Hf' & Hrot & Hlast).
  { rewrite Hcap1. apply ring_index_lt. lia. }
  { apply SequenceNumber.next_wf. }
  { lia. } { lia. }
  exists (S k), w'. rewrite HL1 in *. repeat split; auto; try lia.
  - rewrite Hadv. f_equal. lia.
  - intros [|i] Hi Hi'; [exact Hz|].
    specialize (Hones i ltac:(lia) ltac:(lia)). simpl.
    rewrite list_lookup_total_alt, lookup_app_l in Hones by lia.
    rewrite <- list_lookup_total_alt in Hones. exact Hones.
  - rewrite Hf'. simpl. rewrite SequenceNumber.next_mod, Zplus_mod_idemp_l. f_equal. lia.
  - intros Hle. rewrite Hrot, drop_app_le by lia. simpl. rewrite <- app_assoc. reflexivity.
Qed.

Lemma total_insert_eq (l : list Z) i x : (i < length l)%nat -> <[i := x]> l !!! i = x.
Proof. intros. rewrite list_lookup_total_alt, list_lookup_insert_eq; auto. Qed.

Lemma total_insert_ne (l : list Z) i j x : i <> j -> <[i := x]> l !!! j = l !!! j.
Proof. intros. rewrite !list_lookup_total_alt, list_lookup_insert_ne; auto. Qed.

Section Observe.
Context (start : Z) (w : t) (a : spec) (s : SequenceNumber.t).
Context (Href : refines start w a) (Hs : SequenceNumber.wf s).

Let d : Z := SequenceNumber.distance_from s (first_expected w).
Let p : Z := base a + d.
Let L : list Z := rot (head w) (slots w).

Lemma sequence_position : s = p mod SequenceNumber.modulus.
Proof.
  unfold p, d. rewrite <- (SequenceNumber.advanced_distance s (first_expected w)) at 1 by assumption.
  rewrite SequenceNumber.advanced_mod, (ref_first _ _ _ Href), Zplus_mod_idemp_l. reflexivity.
Qed.

Lemma length_view : length L = capacity w.
Proof. apply length_rot. Qed.

Lemma slot_view o : (o < capacity w)%nat ->
  slots w !!! ((head w + o) mod capacity w)%nat = L !!! o.
Proof. intros. apply rot_lookup_total; [apply (ref_head _ _ _ Href)|assumption]. Qed.

Lemma slot_set o : (o < capacity w)%nat ->
  rot (head w) (<[((head w + o) mod capacity w)%nat := 1]> (slots w)) = <[o := 1]> L.
Proof. intros. apply rot_insert; [apply (ref_head _ _ _ Href)|assumption]. Qed.

Lemma view_accepted o : (o < capacity w)%nat ->
  L !!! o <> 0 <-> base a + Z.of_nat o ∈ accepted a.
Proof.
  intros. pose proof (ref_slots _ _ _ Href o ltac:(assumption)) as E. fold L in E.
  destruct (decide (base a + Z.of_nat o ∈ accepted a)); tauto.
Qed.

(** A packet ahead of the first gap is stored and reported with that gap. *)
Lemma refines_out_of_order o :
  p = base a + Z.of_nat o -> (0 < o < capacity w)%nat -> p ∉ accepted a ->
  refines start
    {| first_expected := first_expected w;
       slots := <[((head w + o) mod capacity w)%nat := 1]> (slots w);
       head := head w |}
    {| base := base a; accepted := {[p]} ∪ accepted a |}.
Proof.
  intros Hp Ho Hna. destruct Href as [R1 R2 R3 R4 R5 R6 R7 R8].
  match goal with |- refines _ ?v _ => assert (Hc : capacity v = capacity w) by apply length_insert end.
  split; rewrite ?Hc; simpl; auto.
  - intros i Hi. rewrite (slot_set o) by apply Ho.
    destruct (decide (i = o)) as [->|Hne].
    + rewrite total_insert_eq by (rewrite length_view; apply Ho).
      rewrite <- Hp. split; [discriminate|]. intros Hn. destruct Hn. apply elem_of_union_l, elem_of_singleton. reflexivity.
    + rewrite total_insert_ne by congruence. fold L in R4. rewrite R4 by assumption.
      rewrite not_elem_of_union, not_elem_of_singleton. split; [|tauto].
      split; [lia|assumption].
  - rewrite not_elem_of_union, not_elem_of_singleton. split; [lia|assumption].
  - intros q Hq. apply elem_of_union. right. auto.
  - intros q [Hq|Hq]%elem_of_union; [|auto]. apply elem_of_singleton in Hq. lia.
Qed.

(** The first missing packet releases the whole received prefix. *)
Lemma refines_in_order :
  p = base a ->
  exists k w', advance (capacity w)
      {| first_expected := first_expected w;
         slots := <[((head w + 0) mod capacity w)%nat := 1]> (slots w);
         head := head w |} 0 = (w', Z.of_nat k) /\
    capacity w' = capacity w /\ (1 <= k <= capacity w)%nat /\
    (forall q, base a < q < base a + Z.of_nat k -> q ∈ accepted a) /\
    (base a + Z.of_nat k ∉ accepted a) /\
    refines start w' {| base := base a + Z.of_nat k; accepted := {[p]} ∪ accepted a |}.
Proof.
  intros Hp. destruct Href as [R1 R2 R3 R4 R5 R6 R7 R8]. set (w1 := {| head := head w |}).
  assert (Hc1 : capacity w1 = capacity w) by apply length_insert.
  assert (Hl0 : (0 < capacity w)%nat) by lia.
  pose proof (slot_set 0 Hl0) as HL1. pose proof length_view as HlenL.
  destruct (advance_spec (capacity w) w1 0) as (k & w' & E & Hk & Hones & Hcap & Hh & Hf & Hrot & Hz).
  { rewrite Hc1. exact R2. }
  { simpl. rewrite R3. apply Z.mod_pos_bound. reflexivity. }
  { lia. } { unfold SequenceNumber.half_range, SequenceNumber.modulus in R1. zlia. }
  rewrite Hc1 in *. specialize (Hrot Hk). unfold w1 in Hrot, Hones. cbn [head slots] in Hrot, Hones.
  rewrite HL1 in Hrot, Hones. rewrite Z.add_0_l in E.
  assert (Hk1 : (1 <= k)%nat).
  { destruct k; [|lia]. specialize (Hz ltac:(lia)). rewrite Hrot, drop_0, app_nil_r in Hz.
    rewrite total_insert_eq in Hz by lia. discriminate. }
  assert (Hview : forall i, (0 < i)%nat -> <[0%nat := 1]> L !!! i = L !!! i)
    by (intros; apply total_insert_ne; lia).
  assert (Hdrop : forall i, (k + i < capacity w)%nat ->
            rot (head w') (slots w') !!! i = L !!! (k + i)%nat).
  { intros i Hi. rewrite Hrot, <- Hview by lia. rewrite !list_lookup_total_alt.
    rewrite lookup_app_l by (rewrite length_drop, length_insert; lia).
    rewrite lookup_drop. reflexivity. }
  assert (Hnext : base a + Z.of_nat k ∉ accepted a).
  { destruct (decide (k = capacity w)) as [->|Hne].
    - intros Hin. specialize (R7 _ Hin). lia.
    - apply R4; [lia|]. fold L. specialize (Hz ltac:(lia)).
      rewrite Hdrop, Nat.add_0_r in Hz by lia. exact Hz. }
  assert (Hall : forall q, base a < q < base a + Z.of_nat k -> q ∈ accepted a).
  { intros q Hq. replace q with (base a + Z.of_nat (Z.to_nat (q - base a))) by lia.
    apply view_accepted; [lia|]. rewrite <- Hview by lia. apply Hones; lia. }
  exists k, w'. repeat split; auto; try lia; simpl; rewrite ?Hcap.
  - rewrite Hf. simpl. rewrite R3, Zplus_mod_idemp_l. reflexivity.
  - intros Hi0. rewrite not_elem_of_union, not_elem_of_singleton. split; [lia|].
    destruct (decide (k + i < capacity w)%nat) as [Hi|Hi].
    + rewrite Hdrop in Hi0 by assumption. apply R4 in Hi0; [|lia].
      replace (base a + Z.of_nat k + Z.of_nat i) with (base a + Z.of_nat (k + i)) by lia. exact Hi0.
    + intros Hin. specialize (R7 _ Hin). lia.
  - intros [_ Hna]%not_elem_of_union. destruct (decide (k + i < capacity w)%nat) as [Hi|Hi].
    + rewrite Hdrop by assumption. apply R4; [lia|].
      replace (base a + Z.of_nat (k + i)) with (base a + Z.of_nat k + Z.of_nat i) by lia. exact Hna.
    + rewrite Hrot, list_lookup_total_alt, lookup_app_r by (rewrite length_drop, length_insert; lia).
      rewrite lookup_replicate_2; [reflexivity|]. rewrite length_drop, length_insert. lia.
  - rewrite not_elem_of_union, not_elem_of_singleton. split; [lia|assumption].
  - intros q Hq. destruct (decide (q < base a)); [apply elem_of_union; right; apply R6; lia|].
    destruct (decide (q = base a)) as [->|];
      [apply elem_of_union_l, elem_of_singleton; lia|]. apply elem_of_union. right. apply Hall. lia.
  - apply elem_of_union in H as [H|H]; [apply elem_of_singleton in H; lia|]. apply R7 in H. lia.
  - apply elem_of_union in H as [H|H]; [apply elem_of_singleton in H; lia|]. apply R7 in H. lia.
  - lia.
Qed.

Lemma observe_simulates :
  exists a', step (capacity w) a p (fst (observe w s)) a' /\
    refines start (snd (observe w s)) a' /\ capacity (snd (observe w s)) = capacity w.
Proof.
  pose proof (ref_cap _ _ _ Href). unfold observe. fold d.
  pose proof (SequenceNumber.distance_range s (first_expected w)) as Hd. fold d in Hd.
  destruct (Z.ltb_spec d 0) as [Hneg|Hpos].
  { exists a. split; [apply step_older; unfold p; lia|auto]. }
  destruct (Nat.leb_spec (capacity w) (Z.to_nat d)) as [Hb|Hin].
  { exists a. split; [apply step_beyond; unfold p; lia|auto]. }
  rewrite slot_view by assumption.
  assert (Hp : p = base a + Z.of_nat (Z.to_nat d)) by (unfold p; lia).
  destruct (Z.eqb_spec (L !!! Z.to_nat d) 0) as [Hz|Hz]; simpl negb; cbv iota.
  2:{ exists a. split; [|auto]. apply step_duplicate; [unfold p; lia|].
      rewrite Hp. apply view_accepted; assumption. }
  assert (Hna : p ∉ accepted a) by (rewrite Hp; apply (ref_slots _ _ _ Href); assumption).
  destruct (Nat.ltb_spec 0 (Z.to_nat d)) as [Ho|Ho].
  - eexists. split; [|split; [apply refines_out_of_order; auto|apply length_insert]].
    apply step_out_of_order; auto; [unfold p; lia|apply (ref_first _ _ _ Href)|].
    simpl. rewrite SequenceNumber.advanced_prev, SequenceNumber.advanced_mod, sequence_position at 1.
    rewrite Zplus_mod_idemp_l. reflexivity.
  - assert (Hp0 : p = base a) by (unfold p; lia). replace (Z.to_nat d) with 0%nat by lia.
    destruct (refines_in_order Hp0) as (k & w' & E & Hc & Hk & Hall & Hnext & Href').
    rewrite E. eexists. split; [|split; [exact Href'|exact Hc]].
    replace (Z.of_nat k) with (base a + Z.of_nat k - base a) at 1 by lia.
    apply step_in_order; auto. lia.
Qed.
End Observe.

Lemma make_refines first n w :
  SequenceNumber.wf first -> make first n = Some w ->
  refines first w {| base := first; accepted := ∅ |} /\ capacity w = n.
Proof.
  unfold make. intros Hf. case_if; try discriminate. intros [= <-].
  unfold capacity; simpl. rewrite length_replicate. split; [|reflexivity].
  split; unfold capacity; simpl; rewrite ?length_replicate, ?rot_0; try lia; try set_solver.
  - symmetry. apply Z.mod_small. assumption.
  - intros i Hi. rewrite list_lookup_total_alt, lookup_replicate_2 by assumption.
    simpl. set_solver.
Qed.

(** Traces of the specification: each arrival is placed at the position nearest
    to the current base, which is where the wire sequence number points. *)
Inductive spec_run (cap : nat) : spec -> list SequenceNumber.t -> list ReceiveDecision -> spec -> Prop :=
| run_nil a : spec_run cap a [] [] a
| run_cons a s p d a' rest ds a'' :
    p mod SequenceNumber.modulus = s ->
    - SequenceNumber.half_range <= p - base a < SequenceNumber.half_range ->
    step cap a p d a' -> spec_run cap a' rest ds a'' ->
    spec_run cap a (s :: rest) (d :: ds) a''.

Lemma run_simulates arrivals : forall start w a,
  refines start w a -> Forall SequenceNumber.wf arrivals ->
  exists a', spec_run (capacity w) a arrivals (fst (run w arrivals)) a' /\
    refines start (snd (run w arrivals)) a'.
Proof.
  induction arrivals as [|s rest IH]; intros start w a Href Hwf.
  { exists a. split; [constructor|assumption]. }
  apply Forall_cons in Hwf as [Hs Hwf]. simpl.
  destruct (observe_simulates start w a s Href Hs) as (a1 & Hstep & Href1 & Hcap).
  pose proof (sequence_position start w a s Href Hs) as Hp.
  destruct (observe w s) as [dec w1]. simpl in *.
  destruct (IH start w1 a1 Href1 Hwf) as (a2 & Hrun & Href2). rewrite Hcap in Hrun.
  destruct (run w1 rest) as [ds w2]. simpl in *. exists a2. split; [|assumption].
  eapply run_cons; eauto. pose proof (SequenceNumber.distance_range s (first_expected w)). lia.
Qed.

(** C8: The ring of flags implements the abstract window: for every sequence of
    arrivals, across any number of sequence-number wrap-arounds, the decisions
    (status, reported gap, contiguous advance) are those of a window that
    remembers the set of all accepted positions; its base is always the first
    position never accepted, so a packet is accepted exactly when it lies in the
    window and was not accepted before. *)
Theorem receive_window_refinement (first : SequenceNumber.t) (n : nat) (w : t)
    (arrivals : list SequenceNumber.t) :
  SequenceNumber.wf first -> Forall SequenceNumber.wf arrivals ->
  make first n = Some w ->
  exists a, spec_run n {| base := first; accepted := ∅ |} arrivals
              (fst (run w arrivals)) a /\
    refines first (snd (run w arrivals)) a.
Proof.
  intros Hf Hwf Hm. destruct (make_refines first n w Hf Hm) as [Href <-].
  apply run_simulates; assumption.
Qed.

(** C7 at a concrete run: duplicates, a gap, and a wrap-around. *)
Lemma receive_window_refinement_witness :
  exists w, make 0x7ffffffe 4 = Some w /\
  map status (fst (run w [0x7ffffffe; 0; 0; 0x7fffffff; 5; 9])) =
    [ReceiveStatus.accepted_in_order; ReceiveStatus.accepted_out_of_order;
     ReceiveStatus.duplicate; ReceiveStatus.accepted_in_order;
     ReceiveStatus.beyond_window; ReceiveStatus.beyond_window] /\
  exists a, spec_run 4 {| base := 0x7ffffffe; accepted := ∅ |}
    [0x7ffffffe; 0; 0; 0x7fffffff; 5; 9]
    (fst (run w [0x7ffffffe; 0; 0; 0x7fffffff; 5; 9])) a /\
    refines 0x7ffffffe (snd (run w [0x7ffffffe; 0; 0; 0x7fffffff; 5; 9])) a.
Proof.
  eexists. split; [reflexivity|]. split; [vm_compute; reflexivity|].
  apply (receive_window_refinement 0x7ffffffe 4).
  - split; vm_compute; congruence.
  - repeat constructor; vm_compute; congruence.
  - reflexivity.
Defined.

End ReceiveWindow.
