(* ===== verification/LossList.v ===== *)
(** The receive loss list: disjoint missing ranges with reorder TTL and report
    bookkeeping ([ReceiveLossList] of src/reliability.cpp and
    include/robotweax/srt/reliability.hpp). *)
From S2P Require Import Prelude Sequence Packet Codec Control.

Record Entry := {
  range : SequenceRange;
  ttl : Z;
  fresh : bool;
  initial_report_pending : bool;
  periodic_report_pending : bool;
  reported : bool;
  last_report_microseconds : Z;
}.

#[export] Instance SequenceRange_inhabited : Inhabited SequenceRange :=
  populate {| range_first := 0; range_last := 0 |}.
#[export] Instance Entry_inhabited : Inhabited Entry :=
  populate {| range := inhabitant; ttl := 0; fresh := false;
              initial_report_pending := false; periodic_report_pending := false;
              reported := false; last_report_microseconds := 0 |}.

Record ReceiveLossRemoval := {
  removed : bool;
  remaining_ttl : Z;
  capacity_exhausted : bool;
}.

Definition no_removal : ReceiveLossRemoval :=
  {| removed := false; remaining_ttl := 0; capacity_exhausted := false |}.

Module ReceiveLossList.

(** [entries] is the live prefix [entries_[0, size_)]; [allocated] is
    [entries_.size()].  The element-moving loops of the source are insertion into
    and erasure from this list; the slots past [size_] hold default entries. *)
Record t := {
  entries : list Entry;
  allocated : nat;
  admission_capacity : nat;
  fresh_count : nat;
  pending_count : nat;
}.

Definition size (l : t) : nat := length (entries l).

Definition make (capacity : nat) : option t :=
  if (capacity =? 0)%nat || (SequenceNumber.half_range <=? Z.of_nat capacity)
  then None
  else Some {| entries := []; allocated := (capacity * 2)%nat;
               admission_capacity := capacity; fresh_count := 0; pending_count := 0 |}.

Definition pending (e : Entry) : bool :=
  initial_report_pending e || periodic_report_pending e.

Definition with_entries (l : t) (es : list Entry) : t :=
  {| entries := es; allocated := allocated l;
     admission_capacity := admission_capacity l;
     fresh_count := fresh_count l; pending_count := pending_count l |}.

Definition with_counts (l : t) (fresh_count pending_count : nat) : t :=
  {| entries := entries l; allocated := allocated l;
     admission_capacity := admission_capacity l;
     fresh_count := fresh_count; pending_count := pending_count |}.

Definition note_added (l : t) (entry : Entry) : t :=
  with_counts l
    (if fresh entry then fresh_count l + 1 else fresh_count l)%nat
    (if pending entry then pending_count l + 1 else pending_count l)%nat.

Definition note_removed (l : t) (entry : Entry) : t :=
  with_counts l
    (if fresh entry then fresh_count l - 1 else fresh_count l)%nat
    (if pending entry then pending_count l - 1 else pending_count l)%nat.

Definition with_range (e : Entry) (r : SequenceRange) : Entry :=
  {| range := r; ttl := ttl e; fresh := fresh e;
     initial_report_pending := initial_report_pending e;
     periodic_report_pending := periodic_report_pending e;
     reported := reported e;
     last_report_microseconds := last_report_microseconds e |}.

Definition with_first (e : Entry) (s : SequenceNumber.t) : Entry :=
  with_range e {| range_first := s; range_last := range_last (range e) |}.

Definition with_last (e : Entry) (s : SequenceNumber.t) : Entry :=
  with_range e {| range_first := range_first (range e); range_last := s |}.

(** Binary search; the interval halves, so [size] iterations are enough. *)
Fixpoint lower_bound_loop (fuel : nat) (es : list Entry) (sequence : SequenceNumber.t)
    (low high : nat) : nat :=
  match fuel with
  | O => low
  | S fuel =>
      if (low <? high)%nat then
        let middle := (low + (high - low) / 2)%nat in
        if 0 <? SequenceNumber.distance_from sequence
                  (range_last (range (es !!! middle)))
        then lower_bound_loop fuel es sequence (middle + 1) high
        else lower_bound_loop fuel es sequence low middle
      else low
  end.

Definition lower_bound (l : t) (sequence : SequenceNumber.t) : nat :=
  lower_bound_loop (size l) (entries l) sequence 0 (size l).

Definition contains (l : t) (sequence : SequenceNumber.t) : bool :=
  let index := lower_bound l sequence in
  (index <? size l)%nat
  && (0 <=? SequenceNumber.distance_from sequence
              (range_first (range (entries l !!! index)))).

Fixpoint can_append_loop (has_previous : bool) (previous_last : SequenceNumber.t)
    (ranges : list SequenceRange) : bool :=
  match ranges with
  | [] => true
  | r :: rest =>
      if (SequenceNumber.distance_from (range_last r) (range_first r) <? 0)
         || (has_previous
             && (SequenceNumber.distance_from (range_first r) previous_last <=? 0))
      then false
      else can_append_loop true (range_last r) rest
  end.

Definition can_append (l : t) (ranges : list SequenceRange) : bool :=
  if (admission_capacity l <? size l)%nat
     || (admission_capacity l - size l <? length ranges)%nat
  then false
  else
    let has_previous := negb (size l =? 0)%nat in
    let previous_last :=
      if has_previous then range_last (range (entries l !!! (size l - 1)%nat)) else 0 in
    can_append_loop has_previous previous_last ranges.

Definition new_entry (r : SequenceRange) (initial_ttl : Z) : Entry :=
  {| range := r; ttl := initial_ttl; fresh := negb (initial_ttl =? 0);
     initial_report_pending := initial_ttl =? 0; periodic_report_pending := false;
     reported := false; last_report_microseconds := 0 |}.

Definition append (l : t) (e : Entry) : t :=
  note_added (with_entries l (entries l ++ [e])) e.

Definition add_all (l : t) (ranges : list SequenceRange) (initial_ttl : Z) : bool * t :=
  if negb (can_append l ranges) then (false, l)
  else (true, fold_left (fun l r => append l (new_entry r initial_ttl)) ranges l).

Definition add (l : t) (r : SequenceRange) (initial_ttl : Z) : bool * t :=
  add_all l [r] initial_ttl.

(** First entry that does not start before [r]. *)
Fixpoint insert_position (es : list Entry) (r : SequenceRange) : nat :=
  match es with
  | [] => 0
  | e :: rest =>
      if 0 <=? SequenceNumber.distance_from (range_first (range e)) (range_first r)
      then 0 else S (insert_position rest r)
  end.

Definition insert_at (l : t) (position : nat) (e : Entry) : t :=
  note_added
    (with_entries l (take position (entries l) ++ e :: drop position (entries l))) e.

Definition insert_sorted (l : t) (r : SequenceRange) (initial_ttl : Z) : bool * t :=
  if SequenceNumber.distance_from (range_last r) (range_first r) <? 0 then (false, l)
  else
    let position := insert_position (entries l) r in
    let previous := range (entries l !!! (position - 1)%nat) in
    let following := range (entries l !!! position) in
    if (0 <? position)%nat
       && (SequenceNumber.distance_from (range_first r) (range_last previous) <=? 0)
    then (SequenceNumber.distance_from (range_last r) (range_last previous) <=? 0, l)
    else if (position <? size l)%nat
       && (SequenceNumber.distance_from (range_first following) (range_last r) <=? 0)
    then ((range_first r =? range_first following)
          && (SequenceNumber.distance_from (range_last r) (range_last following) <=? 0), l)
    else if (admission_capacity l <=? size l)%nat then (false, l)
    else (true, insert_at l position (new_entry r initial_ttl)).

Definition ranges_overlap (left_ right_ : SequenceRange) : bool :=
  (SequenceNumber.distance_from (range_first left_) (range_last right_) <=? 0)
  && (SequenceNumber.distance_from (range_first right_) (range_last left_) <=? 0).

Fixpoint can_insert_loop (l : t) (earlier ranges : list SequenceRange) : bool :=
  match ranges with
  | [] => true
  | r :: rest =>
      if SequenceNumber.distance_from (range_last r) (range_first r) <? 0 then false
      else if existsb (fun e => ranges_overlap r (range e)) (entries l) then false
      else if existsb (ranges_overlap r) earlier then false
      else can_insert_loop l (earlier ++ [r]) rest
  end.

Definition can_insert_all_sorted (l : t) (ranges : list SequenceRange) : bool :=
  match ranges with
  | [] => true
  | _ =>
      if (admission_capacity l <? size l)%nat
         || (admission_capacity l - size l <? length ranges)%nat
      then false
      else can_insert_loop l [] ranges
  end.

(** The callers' loop over a checked batch; the results are ignored there. *)
Definition insert_all_sorted (l : t) (ranges : list SequenceRange) (initial_ttl : Z) : t :=
  fold_left (fun l r => (insert_sorted l r initial_ttl).2) ranges l.

Definition erase (l : t) (index : nat) : t :=
  let l := note_removed l (entries l !!! index) in
  with_entries l (delete index (entries l)).

(** Splits the entry at [index] around a removed interval. *)
Definition split_entry (l : t) (index : nat) (lower_last upper_first : SequenceNumber.t) : t :=
  let entry := entries l !!! index in
  let upper := with_first entry upper_first in
  note_added
    (with_entries l
       (take index (entries l)
        ++ with_last entry lower_last :: upper :: drop (S index) (entries l))) upper.

Definition remove (l : t) (sequence : SequenceNumber.t) : ReceiveLossRemoval * t :=
  let index := lower_bound l sequence in
  if (index <? size l)%nat then
    let entry := entries l !!! index in
    let from_first := SequenceNumber.distance_from sequence (range_first (range entry)) in
    let from_last := SequenceNumber.distance_from sequence (range_last (range entry)) in
    if (from_first <? 0) || (0 <? from_last) then (no_removal, l)
    else
      let result := {| removed := true;
                       remaining_ttl := if fresh entry then ttl entry else 0;
                       capacity_exhausted := false |} in
      let previous := SequenceNumber.advanced sequence SequenceNumber.mask in
      if (from_first =? 0) && (from_last =? 0) then (result, erase l index)
      else if from_first =? 0 then
        (result, with_entries l
                   (<[index := with_first entry (SequenceNumber.next sequence)]> (entries l)))
      else if from_last =? 0 then
        (result, with_entries l (<[index := with_last entry previous]> (entries l)))
      else if (size l =? allocated l)%nat then
        ({| removed := false; remaining_ttl := 0; capacity_exhausted := true |}, l)
      else (result, split_entry l index previous (SequenceNumber.next sequence))
  else (no_removal, l).

(** Counts the entries wholly at or before [last]; trims the first survivor. *)
Fixpoint covered_prefix (es : list Entry) (last : SequenceNumber.t) : nat * list Entry :=
  match es with
  | [] => (0%nat, [])
  | entry :: rest =>
      if SequenceNumber.distance_from last (range_first (range entry)) <? 0
      then (0%nat, es)
      else if SequenceNumber.distance_from last (range_last (range entry)) <? 0
      then (0%nat, with_first entry (SequenceNumber.next last) :: rest)
      else let '(n, es') := covered_prefix rest last in (S n, entry :: es')
  end.

Definition remove_through (l : t) (last : SequenceNumber.t) : t :=
  let '(removed, es) := covered_prefix (entries l) last in
  let l := with_entries l es in
  if (removed =? 0)%nat then l
  else
    let l := fold_left note_removed (take removed es) l in
    with_entries l (drop removed es).

(** One pass of the removal loop per remaining entry. *)
Fixpoint remove_range_loop (fuel : nat) (l : t) (r : SequenceRange) (index : nat) : bool * t :=
  match fuel with
  | O => (true, l)
  | S fuel =>
      if (index <? size l)%nat then
        let entry := entries l !!! index in
        let e := range entry in
        if SequenceNumber.distance_from (range_last r) (range_first e) <? 0 then (true, l)
        else if 0 <? SequenceNumber.distance_from (range_first r) (range_last e)
        then remove_range_loop fuel l r (index + 1)
        else
          let covers_head :=
            SequenceNumber.distance_from (range_first r) (range_first e) <=? 0 in
          let covers_tail :=
            0 <=? SequenceNumber.distance_from (range_last r) (range_last e) in
          let previous := SequenceNumber.advanced (range_first r) SequenceNumber.mask in
          let following := SequenceNumber.next (range_last r) in
          if covers_head && covers_tail then remove_range_loop fuel (erase l index) r index
          else if covers_head then
            remove_range_loop fuel
              (with_entries l (<[index := with_first entry following]> (entries l)))
              r (index + 1)
          else if covers_tail then
            remove_range_loop fuel
              (with_entries l (<[index := with_last entry previous]> (entries l)))
              r (index + 1)
          else if (size l =? allocated l)%nat then (false, l)
          else (true, split_entry l index previous following)
      else (true, l)
  end.

Definition remove_range (l : t) (r : SequenceRange) : bool * t :=
  if SequenceNumber.distance_from (range_last r) (range_first r) <? 0 then (false, l)
  else remove_range_loop (size l) l r 0.

(** ** Report bookkeeping *)

Definition with_flags (e : Entry) (fresh initial periodic reported : bool)
    (ttl last_report : Z) : Entry :=
  {| range := range e; ttl := ttl; fresh := fresh; initial_report_pending := initial;
     periodic_report_pending := periodic; reported := reported;
     last_report_microseconds := last_report |}.

(** The loop from [lower_bound] on, with the pending count threaded. *)
Fixpoint rearm_loop (es : list Entry) (r : SequenceRange) (pending_count : nat)
    : list Entry * nat :=
  match es with
  | [] => ([], pending_count)
  | entry :: rest =>
      if 0 <? SequenceNumber.distance_from (range_first (range entry)) (range_last r)
      then (es, pending_count)
      else if fresh entry then
        let '(rest', n) := rearm_loop rest r pending_count in (entry :: rest', n)
      else
        let pending_count :=
          if pending entry then pending_count else (pending_count + 1)%nat in
        let entry' := with_flags entry (fresh entry) true
                        (periodic_report_pending entry) false (ttl entry)
                        (last_report_microseconds entry) in
        let '(rest', n) := rearm_loop rest r pending_count in (entry' :: rest', n)
  end.

Definition rearm_report (l : t) (r : SequenceRange) : t :=
  let start := lower_bound l (range_first r) in
  let '(es, n) := rearm_loop (drop start (entries l)) r (pending_count l) in
  with_counts (with_entries l (take start (entries l) ++ es)) (fresh_count l) n.

Fixpoint age_loop (es : list Entry) (fresh_count pending_count : nat)
    : list Entry * nat * nat :=
  match es with
  | [] => ([], fresh_count, pending_count)
  | entry :: rest =>
      if negb (fresh entry) then
        let '(rest', f, n) := age_loop rest fresh_count pending_count in
        (entry :: rest', f, n)
      else if ttl entry =? 0 then
        let fresh_count := (fresh_count - 1)%nat in
        let pending_count :=
          if pending entry then pending_count else (pending_count + 1)%nat in
        let entry' := with_flags entry false true (periodic_report_pending entry)
                        (reported entry) (ttl entry) (last_report_microseconds entry) in
        let '(rest', f, n) := age_loop rest fresh_count pending_count in
        (entry' :: rest', f, n)
      else
        let entry' := with_flags entry (fresh entry) (initial_report_pending entry)
                        (periodic_report_pending entry) (reported entry)
                        (u32 (ttl entry - 1)) (last_report_microseconds entry) in
        let '(rest', f, n) := age_loop rest fresh_count pending_count in
        (entry' :: rest', f, n)
  end.

Definition age_fresh (l : t) : t :=
  if (fresh_count l =? 0)%nat then l
  else
    let '(es, f, n) := age_loop (entries l) (fresh_count l) (pending_count l) in
    with_counts (with_entries l es) f n.

Fixpoint mark_loop (es : list Entry) (now interval : Z) (pending_count : nat)
    : list Entry * nat :=
  match es with
  | [] => ([], pending_count)
  | entry :: rest =>
      if fresh entry
         || (reported entry
             && ((now <? last_report_microseconds entry)
                 || (u64 (now - last_report_microseconds entry) <? interval)))
      then
        let '(rest', n) := mark_loop rest now interval pending_count in (entry :: rest', n)
      else
        let pending_count :=
          if pending entry then pending_count else (pending_count + 1)%nat in
        let entry' := with_flags entry (fresh entry) (initial_report_pending entry) true
                        (reported entry) (ttl entry) (last_report_microseconds entry) in
        let '(rest', n) := mark_loop rest now interval pending_count in (entry' :: rest', n)
  end.

Definition mark_periodic_reports (l : t) (now interval : Z) : t :=
  let '(es, n) := mark_loop (entries l) now interval (pending_count l) in
  with_counts (with_entries l es) (fresh_count l) n.

(** [room] is the number of destination slots not yet written. *)
Fixpoint take_loop (es : list Entry) (room pending_count : nat) (now : Z)
    : list SequenceRange * list Entry * nat :=
  match es with
  | [] => ([], [], pending_count)
  | entry :: rest =>
      if (pending_count =? 0)%nat || (room =? 0)%nat then ([], es, pending_count)
      else if negb (pending entry) then
        let '(out, rest', n) := take_loop rest room pending_count now in
        (out, entry :: rest', n)
      else
        let entry' := with_flags entry (fresh entry) false false true (ttl entry) now in
        let '(out, rest', n) := take_loop rest (room - 1) (pending_count - 1) now in
        (range entry :: out, entry' :: rest', n)
  end.

(** The ranges written to a destination of [room] slots. *)
Definition take_pending_reports (l : t) (room : nat) (now : Z) : list SequenceRange * t :=
  let '(out, es, n) := take_loop (entries l) room (pending_count l) now in
  (out, with_counts (with_entries l es) (fresh_count l) n).

Definition take_pending_report (l : t) (now : Z) : option SequenceRange * t :=
  let '(out, l') := take_pending_reports l 1 now in
  match out with
  | [r] => (Some r, l')
  | _ => (None, l')
  end.

Definition has_pending_report (l : t) : bool := negb (pending_count l =? 0)%nat.
End ReceiveLossList.
