(* ===== verification/LossListFacts.v ===== *)
(** Facts about the receive loss list: its invariant, and the set of missing
    sequence numbers it denotes under every operation. *)
From S2P Require Import Prelude Sequence Packet Codec Control LossList.
Import ReceiveLossList.

(** * Ascending ranges in a window

    [b] is a reference sequence number at or before everything the list holds;
    all sequence numbers are compared through their offset from [b], which is
    meaningful as long as offsets stay below half the sequence space. *)
Section Window.
Context (b : SequenceNumber.t).

Definition in_window (s : SequenceNumber.t) : Prop :=
  SequenceNumber.wf s /\ SequenceNumber.off b s < SequenceNumber.half_range.

Definition lo (r : SequenceRange) : Z := SequenceNumber.off b (range_first r).
Definition hi (r : SequenceRange) : Z := SequenceNumber.off b (range_last r).

(** Both ends lie in the window and the range is not inverted. *)
Definition range_in_window (r : SequenceRange) : Prop :=
  in_window (range_first r) /\ in_window (range_last r) /\ lo r <= hi r.

(** Sorted, disjoint, and all at offset [from] or later. *)
Fixpoint ascending (from : Z) (rs : list SequenceRange) : Prop :=
  match rs with
  | [] => True
  | r :: rest => from <= lo r /\ range_in_window r /\ ascending (hi r + 1) rest
  end.

(** Offset [x] is missing. *)
Definition missing (rs : list SequenceRange) (x : Z) : Prop :=
  Exists (fun r => lo r <= x <= hi r) rs.

Fixpoint end_of (from : Z) (rs : list SequenceRange) : Z :=
  match rs with
  | [] => from
  | r :: rest => end_of (hi r + 1) rest
  end.

Lemma distance_window s o :
  in_window s -> in_window o ->
  SequenceNumber.distance_from s o = SequenceNumber.off b s - SequenceNumber.off b o.
Proof. intros [] []. apply SequenceNumber.distance_off; assumption. Qed.

Lemma ascending_app from r1 r2 :
  ascending from (r1 ++ r2) <-> ascending from r1 /\ ascending (end_of from r1) r2.
Proof. revert from. induction r1 as [|r r1 IH]; intros; simpl; [tauto|]. rewrite IH. tauto. Qed.

Lemma ascending_weaken from from' rs : from' <= from -> ascending from rs -> ascending from' rs.
Proof. destruct rs; simpl; intuition lia. Qed.

Lemma end_of_ge from rs : ascending from rs -> from <= end_of from rs.
Proof.
  revert from. induction rs as [|r rs IH]; simpl; intros from; [lia|].
  intros (Hl & (_ & _ & Hr) & H). specialize (IH _ H). lia.
Qed.

Lemma end_of_mono from from' rs :
  from' <= from -> ascending from rs -> end_of from' rs <= end_of from rs.
Proof. destruct rs; simpl; [auto|lia]. Qed.

Lemma missing_app r1 r2 x : missing (r1 ++ r2) x <-> missing r1 x \/ missing r2 x.
Proof. apply Exists_app. Qed.

Lemma missing_cons r rs x : missing (r :: rs) x <-> lo r <= x <= hi r \/ missing rs x.
Proof. apply Exists_cons. Qed.

Lemma missing_nil x : missing [] x <-> False.
Proof. apply Exists_nil. Qed.

Lemma missing_ge from rs x : ascending from rs -> missing rs x -> from <= x.
Proof.
  revert from. induction rs as [|r rs IH]; intros from; [rewrite missing_nil; tauto|].
  simpl. intros (Hl & (_ & _ & Hr) & H). rewrite missing_cons. intros [?|Hm]; [lia|].
  specialize (IH _ H Hm). lia.
Qed.

Lemma missing_lt from rs x : ascending from rs -> missing rs x -> x < end_of from rs.
Proof.
  revert from. induction rs as [|r rs IH]; intros from; [rewrite missing_nil; tauto|].
  simpl. intros (Hl & (_ & _ & Hr) & H). rewrite missing_cons. intros [?|Hm]; [|eauto].
  pose proof (end_of_ge _ _ H). lia.
Qed.

(** Replacing one range by pieces of it keeps the order, and the effect on the
    missing set is what the pieces say. *)
Lemma replace_range from A r B M (P : Z -> Prop) :
  ascending from (A ++ r :: B) ->
  ascending (lo r) M -> end_of (lo r) M <= hi r + 1 ->
  (forall x, missing M x <-> lo r <= x <= hi r /\ P x) ->
  (forall x, ~ (lo r <= x <= hi r) -> P x) ->
  ascending from (A ++ M ++ B) /\
  (forall x, missing (A ++ M ++ B) x <-> missing (A ++ r :: B) x /\ P x).
Proof.
  intros H HM Hend Hmis HP. rewrite !ascending_app in *. simpl in H.
  destruct H as (HA & Hlo & Hr & HB).
  assert (HM' : ascending (end_of from A) M) by (eapply ascending_weaken; eauto).
  split.
  - repeat split; auto. apply ascending_weaken with (from := hi r + 1); [|assumption].
    etransitivity; [apply end_of_mono|]; eassumption.
  - intros x. rewrite !missing_app, missing_cons, Hmis.
    assert (missing A x -> P x).
    { intros Hx. apply HP. pose proof (missing_lt _ _ _ HA Hx). lia. }
    assert (missing B x -> P x).
    { intros Hx. apply HP. pose proof (missing_ge _ _ _ HB Hx). lia. }
    tauto.
Qed.

(** * Invariant *)

Definition ranges (l : t) : list SequenceRange := map range (entries l).

Record inv (l : t) : Prop := {
  inv_asc : ascending 0 (ranges l);
  inv_size : (size l <= allocated l)%nat;
  inv_fresh : fresh_count l = countb fresh (entries l);
  inv_pending : pending_count l = countb pending (entries l);
}.

Lemma ranges_lookup l i : (i < size l)%nat ->
  ranges l = map range (take i (entries l))
    ++ range (entries l !!! i) :: map range (drop (S i) (entries l)).
Proof.
  intros Hi. destruct (split_index (entries l) i Hi) as [E _].
  unfold ranges. rewrite E at 1. rewrite map_app. reflexivity.
Qed.

Lemma ascending_forall from rs :
  ascending from rs -> Forall (fun r => from <= lo r /\ range_in_window r) rs.
Proof.
  revert from. induction rs as [|r rs IH]; intros from; [constructor|].
  simpl. intros (Hl & Hr & H). constructor; [auto|].
  eapply Forall_impl; [apply (IH _ H)|]. simpl. intros q [Hq Hw].
  destruct Hr as (_ & _ & Hr). split; [lia|assumption].
Qed.

Lemma entry_in_window l i : ascending 0 (ranges l) -> (i < size l)%nat ->
  range_in_window (range (entries l !!! i)).
Proof.
  intros H Hi. rewrite (ranges_lookup l i) in H by assumption.
  rewrite ascending_app in H. apply H.
Qed.

Lemma hi_mono l i j : ascending 0 (ranges l) -> (i < j)%nat -> (j < size l)%nat ->
  hi (range (entries l !!! i)) < lo (range (entries l !!! j)).
Proof.
  intros H Hij Hj. rewrite (ranges_lookup l i) in H by lia.
  rewrite ascending_app in H. destruct H as (_ & _ & _ & HB).
  apply ascending_forall in HB. rewrite Forall_map in HB.
  rewrite Forall_forall in HB. destruct (HB (entries l !!! j)) as [Hlo _]; [|lia].
  apply list_elem_of_lookup. exists (j - S i)%nat. rewrite lookup_drop.
  replace (S i + (j - S i))%nat with j by lia. apply list_lookup_lookup_total_lt. exact Hj.
Qed.

(** * Binary search *)

Lemma lower_bound_loop_spec l s : forall fuel low high,
  ascending 0 (ranges l) -> in_window s ->
  (low <= high <= size l)%nat -> (high - low <= fuel)%nat ->
  (forall j, (j < low)%nat -> hi (range (entries l !!! j)) < SequenceNumber.off b s) ->
  (forall j, (high <= j < size l)%nat -> SequenceNumber.off b s <= hi (range (entries l !!! j))) ->
  let i := lower_bound_loop fuel (entries l) s low high in
  (low <= i <= high)%nat /\
  (forall j, (j < i)%nat -> hi (range (entries l !!! j)) < SequenceNumber.off b s) /\
  (forall j, (i <= j < size l)%nat -> SequenceNumber.off b s <= hi (range (entries l !!! j))).
Proof.
  intros fuel low high Ha Hs. revert low high.
  induction fuel as [|fuel IH]; intros low high Hb Hf Hlow Hhigh; cbn [lower_bound_loop]; cbv zeta.
  { assert (low = high) by lia. subst. repeat split; auto. }
  destruct (Nat.ltb_spec low high) as [Hlt|Hge].
  2:{ assert (low = high) by lia. subst. repeat split; auto. }
  set (m := (low + (high - low) / 2)%nat).
  assert (Hm : (low <= m < high)%nat).
  { unfold m. pose proof (Nat.div_lt (high - low) 2 ltac:(lia) ltac:(lia)). lia. }
  destruct (entry_in_window l m Ha ltac:(lia)) as (Hf1 & Hl1 & Hle).
  rewrite (distance_window s _ Hs Hl1). fold (hi (range (entries l !!! m))).
  destruct (Z.ltb_spec 0 (SequenceNumber.off b s - hi (range (entries l !!! m)))).
  - destruct (IH (m + 1)%nat high) as (I1 & I2 & I3); auto; try lia.
    { intros j Hj. destruct (decide (j = m)) as [->|]; [lia|].
      pose proof (hi_mono l j m Ha ltac:(lia) ltac:(lia)). unfold hi, lo in *. lia. }
    repeat split; auto; lia.
  - destruct (IH low m) as (I1 & I2 & I3); auto; try lia.
    { intros j Hj. destruct (decide (j = m)) as [->|]; [lia|].
      pose proof (hi_mono l m j Ha ltac:(lia) ltac:(lia)).
      destruct (entry_in_window l j Ha ltac:(lia)) as (_ & _ & ?). lia. }
    repeat split; auto; lia.
Qed.

(** The search finds the first range that ends at or after [s]. *)
Lemma lower_bound_spec l s :
  ascending 0 (ranges l) -> in_window s ->
  let i := lower_bound l s in
  (i <= size l)%nat /\
  (forall j, (j < i)%nat -> hi (range (entries l !!! j)) < SequenceNumber.off b s) /\
  (forall j, (i <= j < size l)%nat -> SequenceNumber.off b s <= hi (range (entries l !!! j))).
Proof.
  intros Ha Hs. destruct (lower_bound_loop_spec l s (size l) 0 (size l) Ha Hs) as (I1 & I2 & I3);
    try lia. fold (lower_bound l s) in I1, I2, I3. repeat split; auto. lia.
Qed.

Lemma missing_lookup l x :
  missing (ranges l) x <->
  exists j, (j < size l)%nat /\ lo (range (entries l !!! j)) <= x <= hi (range (entries l !!! j)).
Proof.
  unfold missing, ranges. rewrite Exists_map, Exists_exists. split.
  - intros (e & Hin & Hx). apply list_elem_of_lookup in Hin as [j Hj]. exists j.
    rewrite (list_lookup_total_correct _ _ _ Hj). split; [|exact Hx].
    eapply lookup_lt_Some; eauto.
  - intros (j & Hj & Hx). eexists. split; [|exact Hx].
    apply list_elem_of_lookup. exists j. apply list_lookup_lookup_total_lt. exact Hj.
Qed.

(** Whether the found range covers [s] decides membership. *)
Lemma lower_bound_missing l s :
  ascending 0 (ranges l) -> in_window s ->
  let i := lower_bound l s in
  missing (ranges l) (SequenceNumber.off b s) <->
  (i < size l)%nat /\ lo (range (entries l !!! i)) <= SequenceNumber.off b s.
Proof.
  intros Ha Hs i. destruct (lower_bound_spec l s Ha Hs) as (Hi & Hlow & Hhigh).
  fold i in Hi, Hlow, Hhigh. rewrite missing_lookup. split.
  - intros (j & Hj & Hx). destruct (decide (j < i)%nat) as [Hlt|Hge].
    { specialize (Hlow j Hlt). lia. }
    destruct (decide (j = i)) as [->|Hne]; [split; lia|].
    pose proof (hi_mono l i j Ha ltac:(lia) Hj). specialize (Hhigh i ltac:(lia)). lia.
  - intros (Hlt & Hx). exists i. split; [assumption|]. split; [assumption|]. apply Hhigh. lia.
Qed.

Lemma contains_missing l s :
  ascending 0 (ranges l) -> in_window s ->
  contains l s = true <-> missing (ranges l) (SequenceNumber.off b s).
Proof.
  intros Ha Hs. rewrite lower_bound_missing by assumption. unfold contains.
  rewrite andb_true_iff, Nat.ltb_lt, Z.leb_le.
  split; intros [Hi Hd]; (split; [assumption|]).
  all: destruct (entry_in_window l _ Ha Hi) as (Hf & _); rewrite (distance_window s _ Hs Hf) in *;
    unfold lo in *; lia.
Qed.

(** * Removal *)

Lemma in_window_next s :
  in_window s -> SequenceNumber.off b s + 1 < SequenceNumber.half_range ->
  in_window (SequenceNumber.next s) /\
  SequenceNumber.off b (SequenceNumber.next s) = SequenceNumber.off b s + 1.
Proof.
  intros [Hw Ho] Hn.
  assert (SequenceNumber.off b (SequenceNumber.next s) = SequenceNumber.off b s + 1).
  { apply SequenceNumber.off_next. SequenceNumber.consts. lia. }
  split; [split|]; [apply SequenceNumber.next_wf|lia|assumption].
Qed.

Lemma in_window_prev s :
  in_window s -> 0 < SequenceNumber.off b s ->
  in_window (SequenceNumber.advanced s SequenceNumber.mask) /\
  SequenceNumber.off b (SequenceNumber.advanced s SequenceNumber.mask)
    = SequenceNumber.off b s - 1.
Proof.
  intros [Hw Ho] Hn. assert (E := SequenceNumber.off_prev b s Hn).
  split; [split|]; [apply SequenceNumber.advanced_wf|lia|assumption].
Qed.

Lemma off_eq s o : in_window s -> in_window o ->
  SequenceNumber.off b s = SequenceNumber.off b o -> s = o.
Proof. intros [] [] E. eapply SequenceNumber.off_inj; eauto. Qed.

(** What an operation that replaces one entry has to show. *)
Lemma inv_replace l l' A e B M :
  inv l -> entries l = A ++ e :: B -> entries l' = A ++ M ++ B ->
  ascending 0 (map range A ++ map range M ++ map range B) ->
  (length M <= 1 \/ size l < allocated l /\ length M <= 2)%nat ->
  allocated l' = allocated l ->
  (fresh_count l' + countb fresh [e] = fresh_count l + countb fresh M)%nat ->
  (pending_count l' + countb pending [e] = pending_count l + countb pending M)%nat ->
  inv l'.
Proof.
  intros [I1 I2 I3 I4] E E' Hasc Hlen Hal Hf Hp. unfold size in *. rewrite E in *.
  split; unfold size, ranges; rewrite E', ?map_app; try assumption.
  - rewrite Hal. rewrite !length_app in *. simpl in *. lia.
  - rewrite !countb_app in *. simpl in *. lia.
  - rewrite !countb_app in *. simpl in *. lia.
Qed.

(** Sequence [s] has left the list, everything else stays. *)
Definition removes (l l' : t) (P : Z -> Prop) : Prop :=
  inv l' /\ allocated l' = allocated l /\ admission_capacity l' = admission_capacity l /\
  forall x, missing (ranges l') x <-> missing (ranges l) x /\ P x.

Lemma removes_replace l l' A e B M (P : Z -> Prop) :
  inv l -> entries l = A ++ e :: B -> entries l' = A ++ M ++ B ->
  ascending (lo (range e)) (map range M) ->
  end_of (lo (range e)) (map range M) <= hi (range e) + 1 ->
  (forall x, missing (map range M) x <-> lo (range e) <= x <= hi (range e) /\ P x) ->
  (forall x, ~ (lo (range e) <= x <= hi (range e)) -> P x) ->
  (length M <= 1 \/ size l < allocated l /\ length M <= 2)%nat ->
  allocated l' = allocated l -> admission_capacity l' = admission_capacity l ->
  (fresh_count l' + countb fresh [e] = fresh_count l + countb fresh M)%nat ->
  (pending_count l' + countb pending [e] = pending_count l + countb pending M)%nat ->
  removes l l' P.
Proof.
  intros Hi E E' HM Hend Hmis HP Hlen Hal Had Hf Hp.
  destruct (replace_range 0 (map range A) (range e) (map range B) (map range M) P) as [Hasc Hx];
    auto.
  { pose proof (inv_asc _ Hi) as Ha. unfold ranges in Ha. rewrite E, map_app in Ha. exact Ha. }
  split; [eapply inv_replace; eauto|]. do 2 (split; [assumption|]).
  intros x. unfold ranges. rewrite E', E, !map_app. apply Hx.
Qed.

Lemma lo_with_first e q : lo (range (with_first e q)) = SequenceNumber.off b q.
Proof. reflexivity. Qed.
Lemma hi_with_first e q : hi (range (with_first e q)) = hi (range e).
Proof. reflexivity. Qed.
Lemma lo_with_last e q : lo (range (with_last e q)) = lo (range e).
Proof. reflexivity. Qed.
Lemma hi_with_last e q : hi (range (with_last e q)) = SequenceNumber.off b q.
Proof. reflexivity. Qed.

(** Rewrite the ends of trimmed entries. *)
Ltac ends := rewrite ?lo_with_first, ?hi_with_first, ?lo_with_last, ?hi_with_last.

(** Pieces of a range left by taking out the interval [[p, q]] inside it. *)
Section Pieces.
Context (l : t) (i : nat) (Hinv : inv l) (Hi : (i < size l)%nat).
Let e := entries l !!! i.
Let A := take i (entries l).
Let B := drop (S i) (entries l).

Lemma entries_split : entries l = A ++ e :: B /\ length A = i.
Proof. apply split_index. exact Hi. Qed.

Lemma entry_window : range_in_window (range e).
Proof. apply entry_in_window; [apply Hinv|exact Hi]. Qed.

Lemma note_counts (f : bool) (n : nat) : (f = true -> 0 < n)%nat ->
  ((if f then n - 1 else n) + (if f then 1 else 0) = n)%nat.
Proof. destruct f; intros Hn; [specialize (Hn eq_refl); lia|lia]. Qed.

Lemma erase_removes (P : Z -> Prop) :
  (forall x, lo (range e) <= x <= hi (range e) -> ~ P x) ->
  (forall x, ~ (lo (range e) <= x <= hi (range e)) -> P x) ->
  removes l (erase l i) P.
Proof.
  intros Hno Hyes. destruct entries_split as [E Hl].
  pose proof (inv_fresh _ Hinv) as Hf. pose proof (inv_pending _ Hinv) as Hp.
  rewrite E, countb_app in Hf, Hp. simpl in Hf, Hp.
  apply (removes_replace _ _ A e B []); auto.
  - simpl. rewrite E at 1. rewrite <- Hl at 1. rewrite delete_middle. reflexivity.
  - simpl. auto.
  - simpl. destruct entry_window as (_ & _ & ?). lia.
  - intros x. rewrite missing_nil. split; [tauto|]. intros [Hx HPx]. eapply Hno; eauto.
  - simpl. fold e. destruct (fresh e); simpl in *; lia.
  - simpl. fold e. destruct (pending e); simpl in *; lia.
Qed.

(** The entry keeps its flags and loses its first part, up to [q]. *)
Lemma trim_front_removes (q : SequenceNumber.t) (P : Z -> Prop) :
  in_window q -> lo (range e) < SequenceNumber.off b q <= hi (range e) ->
  (forall x, lo (range e) <= x <= hi (range e) -> (P x <-> SequenceNumber.off b q <= x)) ->
  (forall x, ~ (lo (range e) <= x <= hi (range e)) -> P x) ->
  removes l (with_entries l (<[i := with_first e q]> (entries l))) P.
Proof.
  intros Hq Hin HP Hout. destruct entries_split as [E Hl]. destruct entry_window as (W1 & W2 & W3).
  apply (removes_replace _ _ A e B [with_first e q]); auto.
  - simpl. rewrite E at 1. rewrite <- Hl at 1. rewrite insert_app_r_alt, Nat.sub_diag by lia. reflexivity.
  - cbn [map ascending]. ends. unfold range_in_window. ends. simpl. intuition lia.
  - cbn [map end_of]. ends. lia.
  - intros x. cbn [map]. rewrite missing_cons, missing_nil. ends. specialize (HP x).
    split; [intros [Hx|[]]; split; [lia|apply HP; lia]|intros [Hx HPx]; left; apply HP in HPx; lia].
Qed.

(** The entry keeps its flags and loses its last part, from [p + 1] on. *)
Lemma trim_back_removes (p : SequenceNumber.t) (P : Z -> Prop) :
  in_window p -> lo (range e) <= SequenceNumber.off b p < hi (range e) ->
  (forall x, lo (range e) <= x <= hi (range e) -> (P x <-> x <= SequenceNumber.off b p)) ->
  (forall x, ~ (lo (range e) <= x <= hi (range e)) -> P x) ->
  removes l (with_entries l (<[i := with_last e p]> (entries l))) P.
Proof.
  intros Hq Hin HP Hout. destruct entries_split as [E Hl]. destruct entry_window as (W1 & W2 & W3).
  apply (removes_replace _ _ A e B [with_last e p]); auto.
  - simpl. rewrite E at 1. rewrite <- Hl at 1. rewrite insert_app_r_alt, Nat.sub_diag by lia. reflexivity.
  - cbn [map ascending]. ends. unfold range_in_window. ends. simpl. intuition lia.
  - cbn [map end_of]. ends. lia.
  - intros x. cbn [map]. rewrite missing_cons, missing_nil. ends. specialize (HP x).
    split; [intros [Hx|[]]; split; [lia|apply HP; lia]|intros [Hx HPx]; left; apply HP in HPx; lia].
Qed.

(** A split keeps the flags on both halves. *)
Lemma split_removes (p q : SequenceNumber.t) (P : Z -> Prop) :
  (size l < allocated l)%nat -> in_window p -> in_window q ->
  lo (range e) <= SequenceNumber.off b p -> SequenceNumber.off b p < SequenceNumber.off b q ->
  SequenceNumber.off b q <= hi (range e) ->
  (forall x, lo (range e) <= x <= hi (range e) ->
     (P x <-> x <= SequenceNumber.off b p \/ SequenceNumber.off b q <= x)) ->
  (forall x, ~ (lo (range e) <= x <= hi (range e)) -> P x) ->
  removes l (split_entry l i p q) P.
Proof.
  intros Hsz Hp Hq H1 H2 H3 HP Hout. destruct entries_split as [E Hl].
  destruct entry_window as (W1 & W2 & W3).
  apply (removes_replace _ _ A e B [with_last e p; with_first e q]); auto.
  - cbn [map ascending]. ends. unfold range_in_window. ends. simpl. intuition lia.
  - cbn [map end_of]. ends. lia.
  - intros x. cbn [map]. rewrite !missing_cons, missing_nil. ends. specialize (HP x).
    split; [intros [Hx|[Hx|[]]]; (split; [lia|apply HP; lia])|].
    intros [Hx HPx]. apply HP in HPx; [|assumption]. destruct HPx; [left|right; left]; lia.
  - simpl. fold e. destruct (fresh e); simpl; lia.
  - simpl. fold e. change (pending (with_last e p)) with (pending e).
    change (pending (with_first e q)) with (pending e). destruct (pending e); lia.
Qed.
End Pieces.

Lemma removes_refl l (P : Z -> Prop) :
  inv l -> (forall x, missing (ranges l) x -> P x) -> removes l l P.
Proof. intros Hi HP. do 3 (split; [auto|]). intros x. specialize (HP x). tauto. Qed.

Lemma remove_spec l s :
  inv l -> in_window s ->
  let '(r, l') := remove l s in
  (capacity_exhausted r = true -> l' = l /\ removed r = false /\ size l = allocated l) /\
  (capacity_exhausted r = false ->
     (removed r = true <-> missing (ranges l) (SequenceNumber.off b s)) /\
     removes l l' (fun x => x <> SequenceNumber.off b s)).
Proof.
  intros Hinv Hs. pose proof (inv_asc _ Hinv) as Ha. unfold remove.
  pose proof (lower_bound_missing l s Ha Hs) as Hm. cbv zeta in Hm.
  destruct (lower_bound_spec l s Ha Hs) as (_ & _ & Hhigh).
  set (i := lower_bound l s) in *.
  destruct (Nat.ltb_spec i (size l)) as [Hi|Hi].
  2:{ simpl. split; [discriminate|]. intros _. split; [split; [discriminate|intros H; apply Hm in H; lia]|].
      apply removes_refl; [assumption|]. intros x Hx ->. apply Hm in Hx. lia. }
  set (e := entries l !!! i) in *. cbv zeta.
  destruct (entry_window l i Hinv Hi) as (W1 & W2 & W3). fold e in W1, W2, W3.
  rewrite (distance_window s _ Hs W1), (distance_window s _ Hs W2).
  fold (lo (range e)) (hi (range e)). set (x := SequenceNumber.off b s) in *.
  assert (Hhi : hi (range e) < SequenceNumber.half_range) by apply W2.
  assert (Hlo : 0 <= lo (range e)) by apply SequenceNumber.off_range.
  specialize (Hhigh i ltac:(lia)). fold e in Hhigh.
  destruct (Z.ltb_spec (x - lo (range e)) 0) as [Hlt|Hge]; simpl orb; cbv iota.
  { simpl. split; [discriminate|]. intros _. split; [split; [discriminate|intros H; apply Hm in H; lia]|].
    apply removes_refl; [assumption|]. intros y Hy ->. apply Hm in Hy. lia. }
  rewrite (proj2 (Z.ltb_ge 0 (x - hi (range e)))) by lia.
  assert (Hmx : missing (ranges l) x) by (apply Hm; lia).
  destruct (Z.eqb_spec (x - lo (range e)) 0) as [Ef|Ef];
    destruct (Z.eqb_spec (x - hi (range e)) 0) as [El|El]; simpl andb; cbv iota.
  - simpl. split; [discriminate|]. intros _. split; [tauto|].
    apply erase_removes; auto; intros y Hy; fold e in Hy; lia.
  - simpl. split; [discriminate|]. intros _. split; [tauto|].
    destruct (in_window_next s Hs) as [Hn En]; [fold x; lia|].
    apply trim_front_removes; auto; fold e; rewrite ?En; fold x; try lia.
  - simpl. split; [discriminate|]. intros _. split; [tauto|].
    destruct (in_window_prev s Hs) as [Hn En]; [fold x; lia|].
    apply trim_back_removes; auto; fold e; rewrite ?En; fold x; try lia.
  - destruct (Nat.eqb_spec (size l) (allocated l)) as [Esz|Esz].
    { simpl. split; [auto|discriminate]. }
    split; [discriminate|]. intros _. split; [tauto|].
    destruct (in_window_next s Hs) as [Hn En]; [fold x; lia|].
    destruct (in_window_prev s Hs) as [Hp Ep]; [fold x; lia|].
    pose proof (inv_size _ Hinv).
    apply split_removes; auto; fold e; rewrite ?En, ?Ep; fold x; lia.
Qed.

(** * Removal of a prefix *)

Lemma covered_prefix_spec s : forall es from,
  ascending from (map range es) -> in_window s ->
  let '(n, es') := covered_prefix es s in
  (n <= length es')%nat /\ length es' = length es /\
  (forall f, (forall e q, f (with_first e q) = f e) -> countb f es' = countb f es) /\
  ascending from (map range (drop n es')) /\
  (forall x, missing (map range (drop n es')) x <->
     missing (map range es) x /\ SequenceNumber.off b s < x).
Proof.
  induction es as [|e es IH]; intros from Ha Hs.
  { simpl. do 4 (split; [auto|]). intros x. rewrite missing_nil. tauto. }
  pose proof Ha as (Hlo & (W1 & W2 & W3) & Ha'). cbn [covered_prefix].
  rewrite (distance_window s _ Hs W1), (distance_window s _ Hs W2).
  fold (lo (range e)) (hi (range e)). set (x := SequenceNumber.off b s) in *.
  assert (Hhi : hi (range e) < SequenceNumber.half_range) by apply W2.
  destruct (Z.ltb_spec (x - lo (range e)) 0) as [H1|H1].
  { rewrite drop_0. split; [lia|]. do 2 (split; [auto|]). split; [assumption|].
    intros y. split; [|tauto]. cbn [map]. intros Hy. split; [assumption|].
    apply missing_cons in Hy as [Hy|Hy]; [lia|]. pose proof (missing_ge _ _ _ Ha' Hy). lia. }
  destruct (Z.ltb_spec (x - hi (range e)) 0) as [H2|H2].
  { destruct (in_window_next s Hs) as [Hn En]; [fold x; lia|].
    fold x in En. cbn [drop length countb map]. split; [lia|]. split; [reflexivity|]. split; [|split].
    - intros f Hf. rewrite Hf. reflexivity.
    - cbn [ascending]. unfold range_in_window. ends. simpl. rewrite En. intuition lia.
    - intros y. rewrite !missing_cons. ends. rewrite En.
      assert (missing (map range es) y -> x < y).
      { intros Hy. pose proof (missing_ge _ _ _ Ha' Hy). lia. }
      intuition lia. }
  specialize (IH _ Ha' Hs). destruct (covered_prefix es s) as [n es'].
  destruct IH as (I1 & I2 & I3 & I4 & I5). cbn [drop length countb map].
  split; [lia|]. split; [lia|]. split; [|split].
  - intros f Hf. rewrite I3 by assumption. reflexivity.
  - eapply ascending_weaken; [|exact I4]. lia.
  - intros y. rewrite missing_cons, I5. intuition lia.
Qed.

Lemma fold_note_removed es : forall l,
  entries (fold_left note_removed es l) = entries l /\
  allocated (fold_left note_removed es l) = allocated l /\
  admission_capacity (fold_left note_removed es l) = admission_capacity l /\
  fresh_count (fold_left note_removed es l) = (fresh_count l - countb fresh es)%nat /\
  pending_count (fold_left note_removed es l) = (pending_count l - countb pending es)%nat.
Proof.
  induction es as [|e es IH]; intros l; simpl; [repeat split; lia|].
  destruct (IH (note_removed l e)) as (-> & -> & -> & -> & ->). simpl.
  repeat split; destruct (fresh e), (pending e); lia.
Qed.

Lemma remove_through_spec l s :
  inv l -> in_window s ->
  removes l (remove_through l s) (fun x => SequenceNumber.off b s < x).
Proof.
  intros Hinv Hs. unfold remove_through.
  pose proof (covered_prefix_spec s (entries l) 0 (inv_asc _ Hinv) Hs) as H.
  destruct (covered_prefix (entries l) s) as [n es]. destruct H as (Hn & Hlen & Hc & Ha & Hm).
  destruct Hinv as [I1 I2 I3 I4]. unfold size in *.
  assert (Cf : countb fresh es = fresh_count l) by (rewrite I3; apply Hc; reflexivity).
  assert (Cp : countb pending es = pending_count l) by (rewrite I4; apply Hc; reflexivity).
  destruct (Nat.eqb_spec n 0) as [->|Hn0].
  - rewrite drop_0 in *. split; [|auto]. split; unfold size; simpl; auto; lia.
  - destruct (fold_note_removed (take n es) (with_entries l es)) as (_ & E2 & E3 & E4 & E5).
    rewrite <- (take_drop n es), countb_app in Cf, Cp.
    split; [|auto].
    split; unfold size; simpl; rewrite ?E2, ?E4, ?E5, ?length_drop; simpl; auto; lia.
Qed.

(** * Removal of a range *)

Lemma removes_trans l1 l2 l3 (P Q : Z -> Prop) :
  (forall x, Q x -> P x) -> removes l1 l2 P -> removes l2 l3 Q -> removes l1 l3 Q.
Proof.
  intros HPQ (_ & A1 & B1 & M1) (I2 & A2 & B2 & M2). split; [assumption|].
  do 2 (split; [congruence|]). intros x. rewrite M2, M1. specialize (HPQ x). tauto.
Qed.

Section RemoveRange.
Context (r : SequenceRange) (Hr : range_in_window r).

Definition outside (x : Z) : Prop := ~ (lo r <= x <= hi r).

(** Every entry before [index] has been dealt with. *)
Definition done (l : t) (index : nat) : Prop :=
  forall j x, (j < index)%nat -> (j < size l)%nat ->
    lo (range (entries l !!! j)) <= x <= hi (range (entries l !!! j)) -> outside x.

(** The range lies strictly inside the entry at [j]. *)
Definition interior (l : t) (j : nat) : Prop :=
  (j < size l)%nat /\ lo (range (entries l !!! j)) < lo r /\
  hi r < hi (range (entries l !!! j)).

Definition range_removed (l : t) (index : nat) (res : bool * t) : Prop :=
  if res.1 then removes l res.2 outside
  else res.2 = l /\ size l = allocated l /\ exists j, (index <= j)%nat /\ interior l j.

(** What is left of the entry at [index] after its part in [r] is gone. *)
Definition kept (e : Entry) (x : Z) : Prop :=
  ~ (lo (range e) <= x <= hi (range e) /\ lo r <= x <= hi r).

Lemma range_removed_step l index l1 index1 res :
  removes l l1 (kept (entries l !!! index)) ->
  (forall j, (index1 <= j)%nat -> interior l1 j -> False) ->
  range_removed l1 index1 res -> range_removed l index res.
Proof.
  unfold range_removed. intros Hrem Hno. destruct res as [[] l']; simpl.
  - eapply removes_trans; [|eassumption]. unfold outside, kept. tauto.
  - intros (_ & _ & j & Hj & Hint). destruct (Hno j Hj Hint).
Qed.

Lemma done_all l index : inv l -> done l index ->
  (forall j x, (index <= j < size l)%nat ->
     lo (range (entries l !!! j)) <= x <= hi (range (entries l !!! j)) -> outside x) ->
  removes l l outside.
Proof.
  intros Hinv H2 H1. apply removes_refl; [assumption|].
  intros x Hx. apply missing_lookup in Hx as (j & Hj & Hx).
  destruct (decide (j < index)%nat); [eapply H2|eapply (H1 j)]; eauto; lia.
Qed.

(** Once [r] reaches an entry's head, no later entry can contain it strictly. *)
Lemma later_not_interior l index j : inv l -> (index < j)%nat -> (index < size l)%nat ->
  lo r <= hi (range (entries l !!! index)) -> interior l j -> False.
Proof.
  intros Hinv Hj Hi Hle (Hs & H1 & H2).
  pose proof (hi_mono l index j (inv_asc _ Hinv) Hj Hs). lia.
Qed.

Lemma size_insert l i e : size (with_entries l (<[i := e]> (entries l))) = size l.
Proof. unfold size. simpl. apply length_insert. Qed.

Lemma done_insert l index e : done l index ->
  (forall x, lo (range e) <= x <= hi (range e) -> outside x) ->
  done (with_entries l (<[index := e]> (entries l))) (index + 1).
Proof.
  intros Hd He j x Hj Hs. rewrite size_insert in Hs. simpl.
  destruct (decide (j = index)) as [->|Hne].
  - rewrite list_lookup_total_insert_eq by exact Hs. apply He.
  - rewrite list_lookup_total_insert_ne by auto. apply Hd; [lia|assumption].
Qed.

Lemma interior_insert l index e j : (index < j)%nat ->
  interior (with_entries l (<[index := e]> (entries l))) j -> interior l j.
Proof.
  unfold interior. rewrite size_insert. simpl. intros Hj.
  rewrite list_lookup_total_insert_ne by lia. auto.
Qed.

Lemma size_erase l index : (index < size l)%nat -> size (erase l index) = (size l - 1)%nat.
Proof. intros Hi. unfold size. simpl. apply length_delete, lookup_lt_is_Some_2, Hi. Qed.

Lemma erase_lookup_lt l index j : (j < index)%nat ->
  entries (erase l index) !!! j = entries l !!! j.
Proof. intros Hj. simpl. rewrite !list_lookup_total_alt, list_lookup_delete_lt by lia. reflexivity. Qed.

Lemma erase_lookup_ge l index j : (index <= j)%nat ->
  entries (erase l index) !!! j = entries l !!! (S j).
Proof. intros Hj. simpl. rewrite !list_lookup_total_alt, list_lookup_delete_ge by lia. reflexivity. Qed.

Lemma range_removed_skip l index res :
  range_removed l (index + 1) res -> range_removed l index res.
Proof.
  unfold range_removed. destruct res as [[] l']; simpl; [auto|].
  intros (? & ? & j & ? & ?). repeat split; auto. exists j. split; [lia|assumption].
Qed.

Lemma range_removed_trim l index e' res :
  let l1 := with_entries l (<[index := e']> (entries l)) in
  inv l -> (index < size l)%nat -> lo r <= hi (range (entries l !!! index)) ->
  removes l l1 (kept (entries l !!! index)) -> done l index ->
  (forall x, lo (range e') <= x <= hi (range e') -> outside x) ->
  (inv l1 -> size l1 = size l -> done l1 (index + 1) -> range_removed l1 (index + 1) res) ->
  range_removed l index res.
Proof.
  intros l1 Hinv Hi Hle Hrem Hd He' Hres. eapply range_removed_step; [exact Hrem| |apply Hres].
  - intros j Hj Hint%interior_insert; [|lia]. eapply (later_not_interior l index j); eauto; lia.
  - apply Hrem.
  - apply size_insert.
  - apply done_insert; assumption.
Qed.

Lemma range_removed_erase l index res :
  inv l -> (index < size l)%nat ->
  lo r <= lo (range (entries l !!! index)) -> hi (range (entries l !!! index)) <= hi r ->
  done l index ->
  (inv (erase l index) -> size (erase l index) = (size l - 1)%nat -> done (erase l index) index ->
   range_removed (erase l index) index res) ->
  range_removed l index res.
Proof.
  intros Hinv Hi H1 H2 Hd Hres. set (e := entries l !!! index) in *.
  assert (Hrem : removes l (erase l index) (kept e))
    by (apply erase_removes; auto; unfold kept; fold e; intros; lia).
  destruct (entry_window l index Hinv Hi) as (_ & _ & W3). fold e in W3.
  eapply range_removed_step; [exact Hrem| |apply Hres].
  - intros j Hj (Hs & H3 & _). rewrite size_erase in Hs by assumption.
    rewrite erase_lookup_ge in H3 by assumption.
    pose proof (hi_mono l index (S j) (inv_asc _ Hinv) ltac:(lia) ltac:(lia)). fold e in H. lia.
  - apply Hrem.
  - apply size_erase. assumption.
  - intros j x Hj Hs. rewrite erase_lookup_lt by assumption. apply Hd; auto.
    rewrite size_erase in Hs by assumption. lia.
Qed.

Lemma remove_range_loop_spec : forall fuel l index,
  inv l -> (size l - index <= fuel)%nat -> done l index ->
  range_removed l index (remove_range_loop fuel l r index).
Proof.
  destruct Hr as (R1 & R2 & R3).
  induction fuel as [|fuel IH]; intros l index Hinv Hf Hd; cbn [remove_range_loop].
  { apply (done_all l index); auto. lia. }
  destruct (Nat.ltb_spec index (size l)) as [Hi|Hi].
  2:{ apply (done_all l index); auto. lia. }
  set (e := entries l !!! index). cbv zeta.
  destruct (entry_window l index Hinv Hi) as (W1 & W2 & W3). fold e in W1, W2, W3.
  rewrite !(distance_window _ _ R1), !(distance_window _ _ R2) by assumption.
  fold (lo (range e)) (hi (range e)) (lo r) (hi r).
  assert (Hhi : hi (range e) < SequenceNumber.half_range) by apply W2.
  assert (Hlo : 0 <= lo (range e)) by apply SequenceNumber.off_range.
  destruct (Z.ltb_spec (hi r - lo (range e)) 0) as [Hbefore|Hbefore].
  { apply (done_all l index); auto. intros j x Hj Hx. unfold outside.
    destruct (decide (j = index)) as [->|]; [unfold e in *; lia|].
    pose proof (hi_mono l index j (inv_asc _ Hinv) ltac:(lia) ltac:(lia)). fold e in H. lia. }
  destruct (Z.ltb_spec 0 (lo r - hi (range e))) as [Hafter|Hafter].
  { apply range_removed_skip, IH; auto; [lia|]. intros j x Hj Hs Hx.
    destruct (decide (j = index)) as [->|];
      [unfold outside, e in *; lia|apply (Hd j x); auto; lia]. }
  destruct (Z.leb_spec (lo r - lo (range e)) 0) as [Hhead|Hhead];
    destruct (Z.leb_spec 0 (hi r - hi (range e))) as [Htail|Htail]; simpl andb; cbv iota.
  - eapply range_removed_erase; fold e; eauto; try lia. intros. apply IH; auto. lia.
  - destruct (in_window_next (range_last r) R2) as [Hn En]; [fold (hi r); lia|]. fold (hi r) in En.
    apply (range_removed_trim l index (with_first e (SequenceNumber.next (range_last r))));
      fold e; auto; try lia.
    + apply trim_front_removes; auto; unfold kept; fold e; rewrite ?En; intros; lia.
    + ends. rewrite En. unfold outside. lia.
    + intros. apply IH; auto. lia.
  - destruct (in_window_prev (range_first r) R1) as [Hn En]; [fold (lo r); lia|]. fold (lo r) in En.
    apply (range_removed_trim l index
             (with_last e (SequenceNumber.advanced (range_first r) SequenceNumber.mask)));
      fold e; auto; try lia.
    + apply trim_back_removes; auto; unfold kept; fold e; rewrite ?En; intros; lia.
    + ends. rewrite En. unfold outside. lia.
    + intros. apply IH; auto. lia.
  - destruct (Nat.eqb_spec (size l) (allocated l)) as [Esz|Esz].
    { split; [reflexivity|]. split; [assumption|]. exists index. unfold interior. fold e. lia. }
    pose proof (inv_size _ Hinv).
    destruct (in_window_next (range_last r) R2) as [Hn En]; [fold (hi r); lia|]. fold (hi r) in En.
    destruct (in_window_prev (range_first r) R1) as [Hp Ep]; [fold (lo r); lia|]. fold (lo r) in Ep.
    apply split_removes; auto; unfold outside; fold e; rewrite ?En, ?Ep; intros; lia.
Qed.

Lemma remove_range_spec l : inv l -> range_removed l 0 (remove_range l r).
Proof.
  intros Hinv. unfold remove_range. pose proof Hr as (R1 & R2 & R3).
  rewrite (distance_window _ _ R2 R1). fold (lo r) (hi r).
  rewrite (proj2 (Z.ltb_ge _ _)) by lia.
  apply remove_range_loop_spec; auto; [lia|]. intros j x Hj. lia.
Qed.
End RemoveRange.

(** * Insertion *)

Definition in_range (r : SequenceRange) (x : Z) : Prop := lo r <= x <= hi r.

Definition ends_in_window (r : SequenceRange) : Prop :=
  in_window (range_first r) /\ in_window (range_last r).

(** The offsets of [Q] have joined the list, nothing has left. *)
Definition adds (l l' : t) (Q : Z -> Prop) : Prop :=
  inv l' /\ allocated l' = allocated l /\ admission_capacity l' = admission_capacity l /\
  forall x, missing (ranges l') x <-> missing (ranges l) x \/ Q x.

Lemma adds_refl l (Q : Z -> Prop) :
  inv l -> (forall x, Q x -> missing (ranges l) x) -> adds l l Q.
Proof. intros Hi HQ. do 3 (split; [auto|]). intros x. specialize (HQ x). tauto. Qed.

Lemma adds_trans l1 l2 l3 (P Q R : Z -> Prop) :
  (forall x, R x <-> P x \/ Q x) -> adds l1 l2 P -> adds l2 l3 Q -> adds l1 l3 R.
Proof.
  intros HR (_ & A1 & B1 & M1) (I2 & A2 & B2 & M2). split; [assumption|].
  do 2 (split; [congruence|]). intros x. rewrite M2, M1, HR. tauto.
Qed.

Lemma end_of_app from r1 r2 : end_of from (r1 ++ r2) = end_of (end_of from r1) r2.
Proof. revert from. induction r1; intros; simpl; auto. Qed.

(** A new entry between [A] and [B] that fits the gap. *)
Lemma insert_at_adds l position r ttl :
  inv l -> (size l < allocated l)%nat -> (position <= size l)%nat -> range_in_window r ->
  (forall j, (j < position)%nat -> hi (range (entries l !!! j)) < lo r) ->
  ((position < size l)%nat -> hi r < lo (range (entries l !!! position))) ->
  adds l (insert_at l position (new_entry r ttl)) (in_range r).
Proof.
  intros Hinv Hsz Hpos Hr Hbelow Habove. pose proof (inv_asc _ Hinv) as Ha. unfold ranges in Ha.
  assert (E := take_drop position (entries l)).
  set (A := take position (entries l)) in *. set (B := drop position (entries l)) in *.
  rewrite <- E, map_app, ascending_app in Ha. destruct Ha as [HA HB].
  assert (HAr : end_of 0 (map range A) <= lo r).
  { destruct position as [|q]; [apply SequenceNumber.off_range|].
    unfold size in *. unfold A. rewrite (take_S_r _ _ (entries l !!! q))
      by (apply list_lookup_lookup_total_lt; lia).
    rewrite map_app, end_of_app. simpl. specialize (Hbelow q ltac:(lia)). lia. }
  assert (HrB : ascending (hi r + 1) (map range B)).
  { destruct (decide (position < size l)%nat) as [Hlt|Hge].
    - specialize (Habove Hlt). unfold B, size in *. rewrite (drop_S _ (entries l !!! position)) in HB |- *
        by (apply list_lookup_lookup_total_lt; lia).
      simpl in HB |- *. split; [lia|apply HB].
    - unfold B, size in *. rewrite drop_ge by lia. exact I. }
  unfold adds, ranges. simpl. fold A B. rewrite <- E, !map_app. simpl.
  split; [|do 2 (split; [reflexivity|])].
  - split; unfold size, ranges; simpl; fold A B.
    + rewrite map_app, ascending_app. simpl. auto.
    + unfold size in *. rewrite <- E in Hsz. rewrite length_app in *. simpl. lia.
    + rewrite (inv_fresh _ Hinv), <- E, !countb_app. simpl. destruct (negb (ttl =? 0)); lia.
    + rewrite (inv_pending _ Hinv), <- E, !countb_app. simpl.
      destruct (pending (new_entry r ttl)); lia.
  - intros x. rewrite !missing_app, missing_cons. unfold in_range. tauto.
Qed.

Lemma append_insert l e : append l e = insert_at l (size l) e.
Proof. unfold append, insert_at, size. rewrite firstn_all, skipn_all. reflexivity. Qed.

Lemma last_end l : inv l -> (0 < size l)%nat ->
  end_of 0 (ranges l) = hi (range (entries l !!! (size l - 1)%nat)) + 1.
Proof.
  intros Hinv Hs. rewrite (ranges_lookup l (size l - 1)) by lia. rewrite end_of_app. simpl.
  rewrite (drop_ge (entries l)) by (unfold size in *; lia). reflexivity.
Qed.

Lemma append_adds l r ttl :
  inv l -> (size l < allocated l)%nat -> range_in_window r -> end_of 0 (ranges l) <= lo r ->
  adds l (append l (new_entry r ttl)) (in_range r).
Proof.
  intros Hinv Hsz Hr He. rewrite append_insert. apply insert_at_adds; auto; [|lia].
  intros j Hj. rewrite last_end in He by (auto; lia).
  destruct (decide (j = size l - 1)%nat) as [->|]; [lia|].
  pose proof (hi_mono l j (size l - 1) (inv_asc _ Hinv) ltac:(lia) ltac:(lia)).
  destruct (entry_in_window l (size l - 1) (inv_asc _ Hinv) ltac:(lia)) as (_ & _ & ?). lia.
Qed.

Lemma can_append_loop_spec rs : forall hp prev,
  Forall ends_in_window rs -> (hp = true -> in_window prev) ->
  can_append_loop hp prev rs = true ->
  ascending (if hp then SequenceNumber.off b prev + 1 else 0) rs.
Proof.
  induction rs as [|r rs IH]; intros hp prev Hw Hp; [simpl; auto|].
  apply Forall_cons in Hw as [[W1 W2] Hw]. cbn [can_append_loop ascending].
  rewrite (distance_window _ _ W2 W1). fold (lo r) (hi r).
  destruct (Z.ltb_spec (hi r - lo r) 0) as [H1|H1]; simpl orb; [discriminate|].
  destruct (hp && _) eqn:E; [discriminate|]. intros H.
  apply (IH true (range_last r)) in H; auto. fold (hi r) in H.
  split; [|split; [|exact H]]; [|unfold range_in_window; intuition lia].
  destruct hp; [|apply SequenceNumber.off_range]. simpl in E.
  rewrite (distance_window _ _ W1 (Hp eq_refl)) in E. apply Z.leb_gt in E. fold (lo r) in E. lia.
Qed.

Lemma append_all_adds ttl rs : forall l,
  inv l -> (size l + length rs <= allocated l)%nat -> ascending (end_of 0 (ranges l)) rs ->
  adds l (fold_left (fun l r => append l (new_entry r ttl)) rs l) (missing rs).
Proof.
  induction rs as [|r rs IH]; intros l Hinv Hsz Ha.
  { simpl. apply adds_refl; [assumption|]. intros x. rewrite missing_nil. tauto. }
  simpl in Ha, Hsz |- *. destruct Ha as (H1 & H2 & H3).
  assert (Had : adds l (append l (new_entry r ttl)) (in_range r)) by (apply append_adds; auto; lia).
  eapply adds_trans; [|exact Had|apply IH].
  - intros x. apply missing_cons.
  - apply Had.
  - unfold size in *. simpl. rewrite length_app. simpl. lia.
  - unfold ranges. simpl. rewrite map_app, end_of_app. simpl. exact H3.
Qed.

(** [add_all] is atomic: it adds every range or changes nothing. *)
Lemma add_all_spec l rs ttl :
  inv l -> (admission_capacity l <= allocated l)%nat -> Forall ends_in_window rs ->
  let '(ok, l') := add_all l rs ttl in
  if ok then adds l l' (missing rs) else l' = l.
Proof.
  intros Hinv Hcap Hw. unfold add_all. destruct (can_append l rs) eqn:E; [|reflexivity]. simpl.
  unfold can_append in E. destruct (_ || _) eqn:Eo; [discriminate|]. b2p.
  apply append_all_adds; [assumption|lia|].
  apply can_append_loop_spec in E; [|assumption|].
  - destruct (Nat.eqb_spec (size l) 0) as [Hz|Hz]; simpl in E.
    + unfold ranges. replace (entries l) with (@nil Entry); [exact E|].
      unfold size in Hz. destruct (entries l); [reflexivity|discriminate].
    + rewrite last_end by (auto; lia). exact E.
  - intros Hz. rewrite Hz. apply (entry_in_window l); [apply Hinv|].
    apply negb_true_iff, Nat.eqb_neq in Hz. lia.
Qed.

Lemma insert_position_spec r : in_window (range_first r) -> forall es from,
  ascending from (map range es) ->
  let p := insert_position es r in
  (p <= length es)%nat /\
  (forall j, (j < p)%nat -> lo (range (es !!! j)) < lo r) /\
  ((p < length es)%nat -> lo r <= lo (range (es !!! p))).
Proof.
  intros Hr. induction es as [|e es IH]; intros from Ha; [simpl; intuition lia|].
  simpl in Ha. destruct Ha as (H1 & (W1 & _) & H3). cbn [insert_position].
  rewrite (distance_window _ _ W1 Hr). fold (lo r) (lo (range e)).
  destruct (Z.leb_spec 0 (lo (range e) - lo r)) as [Hle|Hgt].
  - cbv zeta. split; [lia|]. split; [lia|]. simpl. lia.
  - destruct (IH _ H3) as (I1 & I2 & I3). cbv zeta. simpl length. split; [lia|]. split.
    + intros [|j] Hj; [simpl; lia|]. apply (I2 j). lia.
    + intros Hp. apply I3. lia.
Qed.

Lemma hi_le_mono l i j : ascending 0 (ranges l) -> (i <= j < size l)%nat ->
  hi (range (entries l !!! i)) <= hi (range (entries l !!! j)).
Proof.
  intros Ha Hij. destruct (decide (i = j)) as [->|]; [lia|].
  pose proof (hi_mono l i j Ha ltac:(lia) ltac:(lia)).
  destruct (entry_in_window l j Ha ltac:(lia)) as (_ & _ & ?). lia.
Qed.

(** [insert_sorted] reports success exactly when afterwards the whole range is
    in the list; a range that straddles an existing one is refused. *)
Lemma insert_sorted_spec l r ttl :
  inv l -> (admission_capacity l <= allocated l)%nat -> ends_in_window r ->
  let '(ok, l') := insert_sorted l r ttl in
  if ok then lo r <= hi r /\ adds l l' (in_range r) else l' = l.
Proof.
  intros Hinv Hcap [W1 W2]. unfold insert_sorted. rewrite (distance_window _ _ W2 W1).
  fold (lo r) (hi r). destruct (Z.ltb_spec (hi r - lo r) 0) as [H0|H0]; [reflexivity|].
  destruct (insert_position_spec r W1 (entries l) 0 (inv_asc _ Hinv)) as (P1 & P2 & P3).
  set (p := insert_position (entries l) r) in *. fold (size l) in P1, P3. cbv zeta.
  assert (Hin : forall j, (j < size l)%nat -> lo (range (entries l !!! j)) <= lo r ->
    hi r <= hi (range (entries l !!! j)) -> adds l l (in_range r)).
  { intros j Hj Ha Hb. apply adds_refl; [assumption|]. intros x [Hx1 Hx2].
    apply missing_lookup. exists j. lia. }
  destruct ((0 <? p)%nat && _) eqn:E1.
  { b2p. destruct (entry_in_window l (p - 1) (inv_asc _ Hinv) ltac:(lia)) as (V1 & V2 & V3).
    rewrite (distance_window _ _ W2 V2). fold (hi (range (entries l !!! (p - 1)%nat))) (hi r).
    destruct (Z.leb_spec (hi r - hi (range (entries l !!! (p - 1)%nat))) 0); [|reflexivity].
    specialize (P2 (p - 1)%nat ltac:(lia)). split; [lia|]. apply (Hin (p - 1)%nat); lia. }
  assert (Hprev : forall j, (j < p)%nat -> hi (range (entries l !!! j)) < lo r).
  { intros j Hj. apply andb_false_iff in E1 as [E1|E1]; [b2p; lia|]. b2p.
    destruct (entry_in_window l (p - 1) (inv_asc _ Hinv) ltac:(lia)) as (V1 & V2 & V3).
    rewrite (distance_window _ _ W1 V2) in E1. fold (hi (range (entries l !!! (p - 1)%nat))) (lo r) in E1.
    pose proof (hi_le_mono l j (p - 1) (inv_asc _ Hinv) ltac:(lia)). lia. }
  clear E1. destruct ((p <? size l)%nat && _) eqn:E2.
  { b2p. destruct (entry_in_window l p (inv_asc _ Hinv) ltac:(lia)) as (V1 & V2 & V3).
    rewrite (distance_window _ _ W2 V2). fold (hi (range (entries l !!! p))) (hi r).
    destruct (Z.eqb_spec (range_first r) (range_first (range (entries l !!! p)))) as [Ef|];
      [simpl andb|reflexivity].
    assert (lo r = lo (range (entries l !!! p))) by (unfold lo; congruence).
    destruct (Z.leb_spec (hi r - hi (range (entries l !!! p))) 0); [|reflexivity].
    split; [lia|]. apply (Hin p); lia. }
  destruct (Nat.leb_spec (admission_capacity l) (size l)); [reflexivity|].
  split; [lia|]. apply insert_at_adds; auto; [lia|unfold range_in_window; auto with lia|].
  intros Hp. apply andb_false_iff in E2 as [E2|E2]; [b2p; lia|]. b2p.
  destruct (entry_in_window l p (inv_asc _ Hinv) ltac:(lia)) as (V1 & V2 & V3).
  rewrite (distance_window _ _ V1 W2) in E2. fold (lo (range (entries l !!! p))) (hi r) in E2. lia.
Qed.

Definition apart (r q : SequenceRange) : Prop := hi q < lo r \/ hi r < lo q.

Lemma ranges_overlap_spec r q : ends_in_window r -> ends_in_window q ->
  ranges_overlap r q = false -> apart r q.
Proof.
  intros [R1 R2] [Q1 Q2]. unfold ranges_overlap.
  rewrite (distance_window _ _ R1 Q2), (distance_window _ _ Q1 R2).
  fold (lo r) (hi r) (lo q) (hi q). unfold apart. rewrite andb_false_iff, !Z.leb_gt. lia.
Qed.

(** A range apart from every entry is inserted, as long as there is room. *)
Lemma insert_sorted_fresh l r ttl :
  inv l -> ends_in_window r -> lo r <= hi r -> Forall (fun e => apart r (range e)) (entries l) ->
  (size l < admission_capacity l)%nat ->
  insert_sorted l r ttl = (true, insert_at l (insert_position (entries l) r) (new_entry r ttl)).
Proof.
  intros Hinv [W1 W2] Hle Hap Hsz. unfold insert_sorted. rewrite (distance_window _ _ W2 W1).
  fold (lo r) (hi r). rewrite (proj2 (Z.ltb_ge _ _)) by lia. cbv zeta.
  destruct (insert_position_spec r W1 (entries l) 0 (inv_asc _ Hinv)) as (P1 & P2 & P3).
  set (p := insert_position (entries l) r) in *. fold (size l) in P1, P3.
  assert (Hj : forall j, (j < size l)%nat -> apart r (range (entries l !!! j))
                         /\ range_in_window (range (entries l !!! j))).
  { intros j Hj. split; [|apply entry_in_window; [apply Hinv|assumption]].
    rewrite Forall_lookup in Hap. apply (Hap j), list_lookup_lookup_total_lt, Hj. }
  destruct ((0 <? p)%nat && _) eqn:E1; [exfalso|clear E1].
  { b2p. destruct (Hj (p - 1)%nat ltac:(lia)) as [Ha (V1 & V2 & V3)].
    specialize (P2 (p - 1)%nat ltac:(lia)). rewrite (distance_window _ _ W1 V2) in H0.
    unfold apart in Ha. fold (lo r) (hi (range (entries l !!! (p - 1)%nat))) in H0. lia. }
  destruct ((p <? size l)%nat && _) eqn:E2; [exfalso|].
  { b2p. destruct (Hj p ltac:(lia)) as [Ha (V1 & V2 & V3)]. specialize (P3 ltac:(lia)).
    rewrite (distance_window _ _ V1 W2) in H0. unfold apart in Ha.
    fold (hi r) (lo (range (entries l !!! p))) in H0. lia. }
  rewrite (proj2 (Nat.leb_gt _ _)) by lia. reflexivity.
Qed.

Lemma apart_insert_at l p e q :
  Forall (fun e => apart q (range e)) (entries l) -> apart q (range e) ->
  Forall (fun e => apart q (range e)) (entries (insert_at l p e)).
Proof.
  intros H He. simpl. apply Forall_app. split; [apply Forall_take, H|].
  apply Forall_cons. split; [exact He|]. apply Forall_drop, H.
Qed.

Lemma size_insert_at l p e : (p <= size l)%nat -> size (insert_at l p e) = S (size l).
Proof.
  unfold size. simpl. intros Hp. rewrite length_app. simpl. rewrite length_take, length_drop. lia.
Qed.

(** The batch checked by [can_insert_loop]. *)
Inductive batch (es : list Entry) : list SequenceRange -> Prop :=
| batch_nil : batch es []
| batch_cons r rs :
    lo r <= hi r -> Forall (fun e => apart r (range e)) es -> Forall (fun q => apart q r) rs ->
    batch es rs -> batch es (r :: rs).

Lemma can_insert_loop_spec l rs : forall earlier,
  inv l -> Forall ends_in_window rs -> Forall ends_in_window earlier ->
  can_insert_loop l earlier rs = true ->
  batch (entries l) rs /\ Forall (fun r => Forall (apart r) earlier) rs.
Proof.
  induction rs as [|r rs IH]; intros earlier Hinv Hw He; [intros _; split; constructor|].
  apply Forall_cons in Hw as [Hr Hw]. cbn [can_insert_loop]. pose proof Hr as [W1 W2].
  rewrite (distance_window _ _ W2 W1). fold (lo r) (hi r).
  destruct (Z.ltb_spec (hi r - lo r) 0); [discriminate|].
  destruct (existsb _ (entries l)) eqn:E1; [discriminate|].
  destruct (existsb _ earlier) eqn:E2; [discriminate|]. intros H1.
  apply IH in H1 as [Hb Hf]; auto.
  2:{ apply Forall_app. auto. }
  assert (Hre : Forall (apart r) earlier).
  { rewrite Forall_forall in He |- *. intros q Hq. apply ranges_overlap_spec; auto.
    apply (existsb_false _ _ _ E2 Hq). }
  split; [constructor; auto; [lia| |]|constructor; auto].
  - pose proof (ascending_forall _ _ (inv_asc _ Hinv)) as Hall. unfold ranges in Hall.
    rewrite Forall_map, Forall_forall in Hall. apply Forall_forall. intros e Hine.
    destruct (Hall e Hine) as (_ & V1 & V2 & _). apply ranges_overlap_spec; [assumption|split; auto|].
    apply (existsb_false _ _ _ E1 Hine).
  - eapply Forall_impl; [exact Hf|]. simpl. intros q Hq. apply Forall_app in Hq as [_ Hq].
    apply Forall_cons in Hq. apply Hq.
  - eapply Forall_impl; [exact Hf|]. simpl. intros q Hq. apply Forall_app in Hq. apply Hq.
Qed.

Lemma insert_batch_adds ttl rs : forall l,
  inv l -> (admission_capacity l <= allocated l)%nat -> Forall ends_in_window rs ->
  (size l + length rs <= admission_capacity l)%nat -> batch (entries l) rs ->
  adds l (insert_all_sorted l rs ttl) (missing rs) /\
  size (insert_all_sorted l rs ttl) = (size l + length rs)%nat.
Proof.
  induction rs as [|r rs IH]; intros l Hinv Hcap Hw Hsz Hb.
  { simpl. split; [|lia]. apply adds_refl; [assumption|]. intros x. rewrite missing_nil. tauto. }
  apply Forall_cons in Hw as [Hr Hw]. inversion_clear Hb as [|? ? Hle Hap Hrs Hb']. simpl in Hsz.
  pose proof (insert_sorted_fresh l r ttl Hinv Hr Hle Hap ltac:(lia)) as E.
  pose proof (insert_sorted_spec l r ttl Hinv Hcap Hr) as Had. rewrite E in Had.
  destruct Had as [_ Had]. unfold insert_all_sorted. cbn [fold_left]. rewrite E. cbn [snd].
  destruct (insert_position_spec r (proj1 Hr) (entries l) 0 (inv_asc _ Hinv)) as (P1 & _ & _).
  set (l1 := insert_at l _ _) in *. destruct Had as (I1 & A1 & B1 & M1).
  assert (Hs1 : size l1 = S (size l)) by (apply size_insert_at; exact P1).
  destruct (IH l1) as [Had2 Hs2]; auto; try lia.
  { clear IH. induction Hb' as [|q qs Hq1 Hq2 Hq3 _ IHb]; [constructor|].
    apply Forall_cons in Hrs as [Hqr Hrs]. apply Forall_cons in Hw as [_ Hw].
    constructor; auto. apply apart_insert_at; assumption. apply IHb; auto. simpl in Hsz. lia. }
  split; [|unfold insert_all_sorted in Hs2; simpl; lia].
  eapply adds_trans; [intros x; apply missing_cons| |exact Had2].
  do 3 (split; [assumption|]). exact M1.
Qed.
End Window.
