(* ===== verification/LossListReports.v ===== *)
(** Report bookkeeping of the receive loss list, and the theorem that a loss
    list stands for a set of missing sequence numbers under every sequence of
    its operations. *)
From S2P Require Import Prelude Sequence Packet Codec Control LossList.
From S2P Require Import LossListFacts.
Import ReceiveLossList.

(** * What each report operation does to one entry *)

Definition set_initial (e : Entry) : Entry :=
  with_flags e (fresh e) true (periodic_report_pending e) false (ttl e)
    (last_report_microseconds e).

Definition age_entry (e : Entry) : Entry :=
  if fresh e then
    if ttl e =? 0 then
      with_flags e false true (periodic_report_pending e) (reported e) (ttl e)
        (last_report_microseconds e)
    else
      with_flags e (fresh e) (initial_report_pending e) (periodic_report_pending e)
        (reported e) (u32 (ttl e - 1)) (last_report_microseconds e)
  else e.

(** The entry is not due at [now]. *)
Definition not_due (now interval : Z) (e : Entry) : bool :=
  fresh e
  || (reported e
      && ((now <? last_report_microseconds e)
          || (u64 (now - last_report_microseconds e) <? interval))).

Definition mark_entry (now interval : Z) (e : Entry) : Entry :=
  if not_due now interval e then e
  else with_flags e (fresh e) (initial_report_pending e) true (reported e) (ttl e)
         (last_report_microseconds e).

Definition report_entry (now : Z) (e : Entry) : Entry :=
  with_flags e (fresh e) false false true (ttl e) now.

(** The first [room] pending entries are reported, the others stay. *)
Fixpoint report_first (room : nat) (now : Z) (es : list Entry) : list Entry :=
  match es with
  | [] => []
  | e :: rest =>
      match room with
      | O => es
      | S room' =>
          if pending e then report_entry now e :: report_first room' now rest
          else e :: report_first room now rest
      end
  end.

(** * The loops in terms of the entries *)

Lemma pending_initial e f p r t w : pending (with_flags e f true p r t w) = true.
Proof. reflexivity. Qed.

Lemma pending_periodic e f i r t w : pending (with_flags e f i true r t w) = true.
Proof. unfold pending. simpl. apply orb_true_r. Qed.

Lemma age_loop_spec es : forall f n,
  (countb fresh es <= f)%nat ->
  let '(es', f', n') := age_loop es f n in
  es' = map age_entry es /\
  (f' + countb fresh es = f + countb fresh es')%nat /\
  (n' + countb pending es = n + countb pending es')%nat.
Proof.
  induction es as [|e es IH]; intros f n Hf; simpl in *; [auto|]. unfold age_entry at 1.
  destruct (fresh e) eqn:Ef; simpl negb; cbv iota.
  - destruct (ttl e =? 0).
    + specialize (IH (f - 1)%nat (if pending e then n else (n + 1)%nat)).
      destruct (age_loop _ _ _) as [[es' f'] n']. destruct IH as (-> & IH2 & IH3); [lia|].
      cbn [countb]. rewrite pending_initial. simpl fresh. destruct (pending e); repeat split; lia.
    + specialize (IH f n). destruct (age_loop _ _ _) as [[es' f'] n'].
      destruct IH as (-> & IH2 & IH3); [lia|]. cbn [countb]. simpl fresh. rewrite ?Ef.
      change (pending (with_flags e _ _ _ _ _ _)) with (pending e).
      repeat split; try lia.
  - specialize (IH f n). destruct (age_loop _ _ _) as [[es' f'] n'].
    destruct IH as (-> & IH2 & IH3); [lia|]. cbn [countb]. rewrite Ef. repeat split; lia.
Qed.

Lemma mark_loop_spec now interval es : forall n,
  let '(es', n') := mark_loop es now interval n in
  es' = map (mark_entry now interval) es /\
  (n' + countb pending es = n + countb pending es')%nat.
Proof.
  induction es as [|e es IH]; intros n; simpl; [auto|].
  unfold mark_entry at 1. fold (not_due now interval e). destruct (not_due now interval e).
  - specialize (IH n). destruct (mark_loop _ _ _ _). destruct IH as [-> IH]. cbn [countb]. split; [reflexivity|lia].
  - specialize (IH (if pending e then n else (n + 1)%nat)). destruct (mark_loop _ _ _ _) as [es' n'].
    destruct IH as [-> IH]. cbn [countb]. rewrite pending_periodic.
    split; [reflexivity|]. destruct (pending e); lia.
Qed.

Lemma filter_none es : countb pending es = 0%nat -> List.filter pending es = [].
Proof. induction es as [|e es IH]; simpl; [auto|]. destruct (pending e); [lia|auto]. Qed.

Lemma report_none room now es : countb pending es = 0%nat -> report_first room now es = es.
Proof.
  revert room. induction es as [|e es IH]; intros room; simpl; [auto|].
  destruct room; [auto|]. destruct (pending e); [lia|]. intros H. rewrite IH by lia. reflexivity.
Qed.

Lemma take_loop_spec now es : forall room n, n = countb pending es ->
  take_loop es room n now =
  (take room (map range (List.filter pending es)), report_first room now es,
   countb pending (report_first room now es)).
Proof.
  induction es as [|e es IH]; intros room n Hn; [simpl in *; subst; destruct room; reflexivity|].
  cbn [take_loop]. destruct (Nat.eqb_spec n 0) as [Hz|Hz]; simpl orb; cbv iota.
  { rewrite Hz in Hn. rewrite filter_none, report_none by lia. simpl. rewrite take_nil.
    simpl in Hn. rewrite <- Hn, Hz. reflexivity. }
  destruct room as [|room]; [simpl; subst; reflexivity|]. simpl in Hn |- *.
  destruct (pending e) eqn:Ep; simpl.
  - rewrite IH by lia. rewrite Nat.sub_0_r. reflexivity.
  - rewrite IH by lia. cbn [countb]. rewrite Ep. reflexivity.
Qed.

Lemma report_first_facts now es : forall room,
  map range (report_first room now es) = map range es /\
  countb fresh (report_first room now es) = countb fresh es /\
  List.filter pending (report_first room now es) = drop room (List.filter pending es).
Proof.
  induction es as [|e es IH]; intros room; [simpl; destruct room; auto|].
  destruct room as [|room]; [simpl; rewrite drop_0; auto|]. cbn [report_first].
  destruct (pending e) eqn:Ep.
  - destruct (IH room) as (I1 & I2 & I3). simpl. rewrite I1, I2, Ep. auto.
  - destruct (IH (S room)) as (I1 & I2 & I3). cbn [map countb List.filter]. rewrite I1, I2, I3, Ep. auto.
Qed.

Definition rearm_entry (r : SequenceRange) (e : Entry) : Entry :=
  if negb (fresh e) && ranges_overlap r (range e) then set_initial e else e.

Section Window.
Context (b : SequenceNumber.t).

(** The missing set is untouched and the counters are still exact. *)
Definition keeps (l l' : t) : Prop :=
  inv b l' /\ allocated l' = allocated l /\
  admission_capacity l' = admission_capacity l /\ ranges l' = ranges l.

Lemma keeps_flags l es f n :
  inv b l -> map range es = map range (entries l) ->
  f = countb fresh es -> n = countb pending es ->
  keeps l (with_counts (with_entries l es) f n).
Proof.
  intros [I1 I2 I3 I4] Er Hf Hn. unfold keeps, ranges, size in *. simpl.
  split; [|auto]. split; simpl; auto.
  - unfold ranges. simpl. rewrite Er. exact I1.
  - unfold size. simpl. apply (f_equal length) in Er. rewrite !length_map in Er. lia.
Qed.

Lemma map_range_id (g : Entry -> Entry) es :
  (forall e, range (g e) = range e) -> map range (map g es) = map range es.
Proof. intros H. rewrite map_map. apply map_ext. exact H. Qed.

Lemma age_entry_id es : countb fresh es = 0%nat -> map age_entry es = es.
Proof.
  induction es as [|e es IH]; simpl; [auto|]. unfold age_entry at 1.
  destruct (fresh e); [lia|]. intros H. rewrite IH by lia. reflexivity.
Qed.

Lemma age_fresh_spec l : inv b l ->
  entries (age_fresh l) = map age_entry (entries l) /\ keeps l (age_fresh l).
Proof.
  intros Hinv. unfold age_fresh. pose proof (inv_fresh _ _ Hinv) as Hf.
  pose proof (inv_pending _ _ Hinv) as Hp.
  destruct (Nat.eqb_spec (fresh_count l) 0) as [Hz|Hz].
  { rewrite age_entry_id by lia. unfold keeps. auto. }
  pose proof (age_loop_spec (entries l) (fresh_count l) (pending_count l) ltac:(lia)) as H.
  destruct (age_loop _ _ _) as [[es f] n]. destruct H as (-> & H2 & H3).
  split; [reflexivity|]. apply keeps_flags; auto; try lia.
  apply map_range_id. intros e. unfold age_entry. repeat case_match; reflexivity.
Qed.

Lemma mark_periodic_reports_spec l now interval : inv b l ->
  entries (mark_periodic_reports l now interval) = map (mark_entry now interval) (entries l) /\
  keeps l (mark_periodic_reports l now interval).
Proof.
  intros Hinv. unfold mark_periodic_reports. pose proof (inv_pending _ _ Hinv) as Hp.
  pose proof (mark_loop_spec now interval (entries l) (pending_count l)) as H.
  destruct (mark_loop _ _ _ _) as [es n]. destruct H as (-> & H2).
  split; [reflexivity|]. apply keeps_flags; auto; try lia.
  - apply map_range_id. intros e. unfold mark_entry. case_match; reflexivity.
  - rewrite (inv_fresh _ _ Hinv). clear. induction (entries l) as [|e es IH]; simpl; [auto|].
    rewrite IH. unfold mark_entry at 2. destruct (not_due now interval e); reflexivity.
Qed.

Lemma take_pending_reports_spec l room now : inv b l ->
  let '(out, l') := take_pending_reports l room now in
  out = take room (map range (List.filter pending (entries l))) /\
  entries l' = report_first room now (entries l) /\ keeps l l'.
Proof.
  intros Hinv. unfold take_pending_reports.
  rewrite take_loop_spec by apply Hinv. split; [reflexivity|]. split; [reflexivity|].
  destruct (report_first_facts now (entries l) room) as (R1 & R2 & _).
  apply keeps_flags; auto. rewrite R2. apply Hinv.
Qed.

Section Rearm.
Context (r : SequenceRange) (Hr : range_in_window b r).

Lemma overlap_offsets q : range_in_window b q ->
  ranges_overlap r q = true <-> lo b r <= hi b q /\ lo b q <= hi b r.
Proof.
  intros (Q1 & Q2 & _). pose proof Hr as (R1 & R2 & _). unfold ranges_overlap.
  rewrite (distance_window b _ _ R1 Q2), (distance_window b _ _ Q1 R2).
  fold (lo b r) (hi b r) (lo b q) (hi b q). rewrite andb_true_iff, !Z.leb_le. lia.
Qed.

Lemma rearm_none es :
  Forall (fun e => range_in_window b (range e)
                   /\ (hi b (range e) < lo b r \/ hi b r < lo b (range e))) es ->
  map (rearm_entry r) es = es.
Proof.
  induction 1 as [|e es [He Hap] _ IH]; [reflexivity|]. simpl. rewrite IH. f_equal.
  unfold rearm_entry. destruct (ranges_overlap r (range e)) eqn:E; [|rewrite andb_false_r; reflexivity].
  apply overlap_offsets in E; [lia|assumption].
Qed.

Lemma rearm_loop_spec es : forall from n,
  ascending b from (map range es) -> Forall (fun e => lo b r <= hi b (range e)) es ->
  let '(es', n') := rearm_loop es r n in
  es' = map (rearm_entry r) es /\ (n' + countb pending es = n + countb pending es')%nat.
Proof.
  pose proof Hr as (R1 & R2 & R3).
  induction es as [|e es IH]; intros from n Ha Hhi; [simpl; auto|].
  pose proof Ha as (Hfrom & He & Ha'). pose proof He as (W1 & W2 & W3).
  apply Forall_cons in Hhi as [Hhi1 Hhi]. cbn [rearm_loop].
  rewrite (distance_window b _ _ W1 R2). fold (lo b (range e)) (hi b r).
  destruct (Z.ltb_spec 0 (lo b (range e) - hi b r)) as [Hstop|Hgo].
  { rewrite rearm_none; [auto|]. apply ascending_forall in Ha. rewrite Forall_map in Ha.
    apply Forall_cons. split; [split; [assumption|lia]|].
    apply ascending_forall in Ha'. rewrite Forall_map in Ha'.
    eapply Forall_impl; [exact Ha'|]. simpl. intros q [Hq Hw]. split; [assumption|lia]. }
  assert (Ho : ranges_overlap r (range e) = true) by (apply overlap_offsets; auto; lia).
  cbn [map]. unfold rearm_entry at 1. rewrite Ho, andb_true_r.
  destruct (fresh e) eqn:Ef; simpl negb; cbv iota.
  - specialize (IH _ n Ha' Hhi). destruct (rearm_loop _ _ _). destruct IH as [-> IH].
    cbn [countb]. split; [reflexivity|lia].
  - specialize (IH _ (if pending e then n else (n + 1)%nat) Ha' Hhi).
    destruct (rearm_loop _ _ _). destruct IH as [-> IH]. cbn [countb].
    change (pending (set_initial e)) with true. split; [unfold set_initial; rewrite Ef; reflexivity|].
    change (pending (with_flags e _ true _ _ _ _)) with true. destruct (pending e); lia.
Qed.

Lemma fresh_rearm es : countb fresh (map (rearm_entry r) es) = countb fresh es.
Proof.
  induction es as [|e es IH]; simpl; [auto|]. rewrite IH.
  unfold rearm_entry. destruct (_ && _); reflexivity.
Qed.

Lemma rearm_report_spec l : inv b l ->
  entries (rearm_report l r) = map (rearm_entry r) (entries l) /\ keeps l (rearm_report l r).
Proof.
  intros Hinv. pose proof (inv_asc _ _ Hinv) as Ha. unfold rearm_report.
  destruct (lower_bound_spec b l (range_first r) Ha (proj1 Hr)) as (L1 & L2 & L3).
  set (i := lower_bound l (range_first r)) in *. fold (lo b r) in L2, L3.
  assert (Hd : Forall (fun e => lo b r <= hi b (range e)) (drop i (entries l))).
  { apply Forall_lookup. intros j e Hj. rewrite lookup_drop in Hj.
    rewrite <- (list_lookup_total_correct _ _ _ Hj). apply L3.
    apply lookup_lt_Some in Hj. unfold size. lia. }
  pose proof Ha as Hs. unfold ranges in Hs. rewrite <- (take_drop i (entries l)), map_app, ascending_app in Hs.
  pose proof (rearm_loop_spec _ _ (pending_count l) (proj2 Hs) Hd) as H.
  destruct (rearm_loop _ _ _) as [es n]. destruct H as [-> H].
  assert (Ht : map (rearm_entry r) (take i (entries l)) = take i (entries l)).
  { apply rearm_none, Forall_lookup. intros j e Hj. apply lookup_take_Some in Hj as [Hj Hlt].
    rewrite <- (list_lookup_total_correct _ _ _ Hj). apply lookup_lt_Some in Hj.
    split; [apply entry_in_window; auto|left; apply L2; lia]. }
  rewrite <- Ht, <- map_app, take_drop. split; [reflexivity|].
  apply keeps_flags; auto.
  - apply map_range_id. intros e. unfold rearm_entry. case_match; reflexivity.
  - rewrite fresh_rearm. apply Hinv.
  - pose proof (inv_pending _ _ Hinv) as Hp. rewrite <- (take_drop i (entries l)) in Hp |- *.
    rewrite map_app, !countb_app, Ht in *. lia.
Qed.
End Rearm.
End Window.

(** * The loss list as a set *)

Inductive op :=
| AddAll (rs : list SequenceRange) (initial_ttl : Z)
| InsertSorted (r : SequenceRange) (initial_ttl : Z)
| Remove (s : SequenceNumber.t)
| RemoveThrough (s : SequenceNumber.t)
| RemoveRange (r : SequenceRange)
| Rearm (r : SequenceRange)
| AgeFresh
| MarkPeriodic (now interval : Z)
| TakeReports (room : nat) (now : Z).

(** An operation and whether it was refused for lack of room or order. *)
Definition apply_op (l : t) (o : op) : bool * t :=
  match o with
  | AddAll rs initial_ttl => add_all l rs initial_ttl
  | InsertSorted r initial_ttl => insert_sorted l r initial_ttl
  | Remove s => let '(res, l') := remove l s in (negb (capacity_exhausted res), l')
  | RemoveThrough s => (true, remove_through l s)
  | RemoveRange r => remove_range l r
  | Rearm r => (true, rearm_report l r)
  | AgeFresh => (true, age_fresh l)
  | MarkPeriodic now interval => (true, mark_periodic_reports l now interval)
  | TakeReports room now => (true, (take_pending_reports l room now).2)
  end.

Fixpoint run_ops (l : t) (os : list op) : list bool * t :=
  match os with
  | [] => ([], l)
  | o :: rest =>
      let '(ok, l1) := apply_op l o in
      let '(oks, l2) := run_ops l1 rest in (ok :: oks, l2)
  end.

Section Set_.
Context (b : SequenceNumber.t).

Definition op_in_window (o : op) : Prop :=
  match o with
  | AddAll rs _ => Forall (ends_in_window b) rs
  | InsertSorted r _ => ends_in_window b r
  | Remove s | RemoveThrough s => in_window b s
  | RemoveRange r | Rearm r => range_in_window b r
  | _ => True
  end.

(** The set of missing offsets after an accepted operation. *)
Definition set_op (M : Z -> Prop) (o : op) : Z -> Prop :=
  match o with
  | AddAll rs _ => fun x => M x \/ missing b rs x
  | InsertSorted r _ => fun x => M x \/ in_range b r x
  | Remove s => fun x => M x /\ x <> SequenceNumber.off b s
  | RemoveThrough s => fun x => M x /\ SequenceNumber.off b s < x
  | RemoveRange r => fun x => M x /\ ~ in_range b r x
  | _ => M
  end.

Fixpoint set_ops (M : Z -> Prop) (os : list op) (oks : list bool) : Z -> Prop :=
  match os, oks with
  | o :: os, ok :: oks => set_ops (if ok : bool then set_op M o else M) os oks
  | _, _ => M
  end.

Definition denotes (l : t) (M : Z -> Prop) : Prop :=
  inv b l /\ (admission_capacity l <= allocated l)%nat /\
  forall x, missing b (ranges l) x <-> M x.

Lemma adds_denotes l l' M Q : denotes l M -> adds b l l' Q -> denotes l' (fun x => M x \/ Q x).
Proof.
  intros (_ & Hc & HM) (Hi & A & B & HQ). split; [assumption|]. split; [lia|].
  intros x. rewrite HQ, HM. tauto.
Qed.

Lemma removes_denotes l l' M P : denotes l M -> removes b l l' P -> denotes l' (fun x => M x /\ P x).
Proof.
  intros (_ & Hc & HM) (Hi & A & B & HQ). split; [assumption|]. split; [lia|].
  intros x. rewrite HQ, HM. tauto.
Qed.

Lemma keeps_denotes l l' M : denotes l M -> keeps b l l' -> denotes l' M.
Proof.
  intros (_ & Hc & HM) (Hi & A & B & HQ). split; [assumption|]. split; [lia|].
  intros x. rewrite HQ. apply HM.
Qed.

Lemma apply_op_denotes l M o : denotes l M -> op_in_window o ->
  let '(ok, l') := apply_op l o in denotes l' (if ok then set_op M o else M).
Proof.
  intros Hd Ho. pose proof Hd as (Hi & Hc & HM). destruct o; simpl in Ho |- *.
  - pose proof (add_all_spec b l rs initial_ttl Hi Hc Ho). destruct (add_all _ _ _) as [[] l'];
      [eapply adds_denotes; eauto|subst; assumption].
  - pose proof (insert_sorted_spec b l r initial_ttl Hi Hc Ho).
    destruct (insert_sorted _ _ _) as [[] l']; [eapply adds_denotes; intuition eauto|subst; assumption].
  - pose proof (remove_spec b l s Hi Ho) as H. destruct (remove l s) as [res l'].
    destruct H as [H1 H2]. destruct (capacity_exhausted res); simpl.
    + destruct (H1 eq_refl) as (-> & _). assumption.
    + eapply removes_denotes; [eassumption|]. apply (H2 eq_refl).
  - eapply removes_denotes; [eassumption|]. apply remove_through_spec; assumption.
  - pose proof (remove_range_spec b r Ho l Hi) as H. unfold range_removed in H.
    destruct (remove_range l r) as [[] l']; simpl in H.
    + eapply removes_denotes; eassumption.
    + destruct H as (-> & _). assumption.
  - eapply keeps_denotes; [eassumption|]. apply rearm_report_spec; assumption.
  - eapply keeps_denotes; [eassumption|]. apply age_fresh_spec; assumption.
  - eapply keeps_denotes; [eassumption|]. apply mark_periodic_reports_spec; assumption.
  - pose proof (take_pending_reports_spec b l room now Hi) as H.
    destruct (take_pending_reports l room now) as [out l']. simpl.
    eapply keeps_denotes; [eassumption|]. apply H.
Qed.

Lemma run_ops_denotes os : forall l M, denotes l M -> Forall op_in_window os ->
  let '(oks, l') := run_ops l os in denotes l' (set_ops M os oks).
Proof.
  induction os as [|o os IH]; intros l M Hd Ho; [exact Hd|].
  apply Forall_cons in Ho as [Ho Hos]. simpl.
  pose proof (apply_op_denotes l M o Hd Ho) as H1. destruct (apply_op l o) as [ok l1].
  specialize (IH l1 _ H1 Hos). destruct (run_ops l1 os) as [oks l2]. exact IH.
Qed.

Lemma make_denotes capacity l : make capacity = Some l -> denotes l (fun _ => False).
Proof.
  unfold make. destruct (_ || _); [discriminate|]. intros [= <-].
  split; [split; simpl; auto; unfold size; simpl; lia|]. simpl. split; [lia|].
  intros x. apply missing_nil.
Qed.

(** C7: For every sequence of loss-list operations whose operands lie within
    half the sequence space of a base [b], the sorted array of ranges stands
    for exactly the set obtained by adding and removing those intervals; a
    refused operation changes nothing.  In every reached state [contains]
    decides membership in that set, the ranges are disjoint, non-empty and
    ascending, the array bound holds and the two counters are exact. *)
Theorem loss_list_refinement capacity l0 os oks l s :
  make capacity = Some l0 -> Forall op_in_window os -> run_ops l0 os = (oks, l) ->
  in_window b s ->
  inv b l /\
  (contains l s = true <->
   set_ops (fun _ => False) os oks (SequenceNumber.off b s)).
Proof.
  intros Hm Ho Hrun Hs.
  pose proof (run_ops_denotes os l0 _ (make_denotes _ _ Hm) Ho) as H. rewrite Hrun in H.
  destruct H as (Hi & _ & HM). split; [assumption|].
  rewrite (contains_missing b l s (inv_asc _ _ Hi) Hs). apply HM.
Qed.
End Set_.

(** C8 on a list of capacity 4 with a base just below the wrap point: a gap
    over the wrap is split, trimmed and refilled. *)
Lemma loss_list_refinement_witness :
  exists l, make 4 = Some {| entries := []; allocated := 8; admission_capacity := 4;
                             fresh_count := 0; pending_count := 0 |} /\
  (contains l 3 = true <->
   set_ops 2147483640 (fun _ => False)
     [AddAll [{| range_first := 2147483645; range_last := 5 |}] 2; Remove 0; AgeFresh;
      RemoveThrough 2147483646; RemoveRange {| range_first := 1; range_last := 2 |}]
     [true; true; true; true; true] 11).
Proof.
  eexists. split; [reflexivity|].
  eapply (loss_list_refinement 2147483640 4 _
    [AddAll [{| range_first := 2147483645; range_last := 5 |}] 2; Remove 0; AgeFresh;
     RemoveThrough 2147483646; RemoveRange {| range_first := 1; range_last := 2 |}]
    [true; true; true; true; true] _ 3 eq_refl).
  - repeat constructor; unfold lo, hi; vm_compute; (reflexivity || discriminate || auto).
  - vm_compute. reflexivity.
  - split; [split|]; vm_compute; (reflexivity || discriminate).
Defined.

(** C24: Taking pending reports hands out the ranges of the first [room] pending
    entries in sequence order; exactly those stop being pending, the rest keep
    their turn, no missing sequence number is lost by it, and the pending
    counter that [has_pending_report] tests stays exact. *)
Theorem take_pending_reports_fifo b l room now :
  inv b l ->
  let '(out, l') := take_pending_reports l room now in
  out = take room (map range (List.filter pending (entries l))) /\
  List.filter pending (entries l') = drop room (List.filter pending (entries l)) /\
  ranges l' = ranges l /\
  (has_pending_report l' = true <-> (room < countb pending (entries l))%nat).
Proof.
  intros Hinv. pose proof (take_pending_reports_spec b l room now Hinv) as H.
  destruct (take_pending_reports l room now) as [out l'].
  destruct H as (Ho & He & Hi' & _ & _ & Hr). split; [assumption|].
  destruct (report_first_facts now (entries l) room) as (_ & _ & Hf). rewrite He.
  split; [assumption|]. split; [assumption|].
  unfold has_pending_report. rewrite (inv_pending _ _ Hi'), He, negb_true_iff, Nat.eqb_neq.
  rewrite !countb_filter, Hf, length_drop. lia.
Qed.

Lemma take_pending_reports_fifo_witness :
  let l := {| entries := [new_entry {| range_first := 3; range_last := 4 |} 0;
                          new_entry {| range_first := 7; range_last := 7 |} 1;
                          new_entry {| range_first := 9; range_last := 12 |} 0];
              allocated := 8; admission_capacity := 4; fresh_count := 1; pending_count := 2 |} in
  (take_pending_reports l 1 50).1 = [{| range_first := 3; range_last := 4 |}].
Proof.
  pose proof (take_pending_reports_fifo 0
    {| entries := [new_entry {| range_first := 3; range_last := 4 |} 0;
                   new_entry {| range_first := 7; range_last := 7 |} 1;
                   new_entry {| range_first := 9; range_last := 12 |} 0];
       allocated := 8; admission_capacity := 4; fresh_count := 1; pending_count := 2 |} 1 50) as H.
  apply H. split.
  - repeat split; unfold lo, hi; vm_compute; (reflexivity || discriminate).
  - vm_compute. lia.
  - reflexivity.
  - reflexivity.
Defined.

(** Aging [n] times. *)
Definition age_times (n : nat) (l : t) : t := Nat.iter n age_fresh l.

Lemma age_times_spec b l n : inv b l ->
  inv b (age_times n l) /\ entries (age_times n l) = map (Nat.iter n age_entry) (entries l).
Proof.
  intros Hinv. induction n as [|n [Hi IH]]; simpl; [rewrite map_id; auto|].
  fold (age_times n l). destruct (age_fresh_spec b _ Hi) as [He [Hk _]].
  split; [assumption|]. rewrite He, IH, map_map. reflexivity.
Qed.

Lemma age_new_entry r k n : is_u32 k ->
  let e := Nat.iter n age_entry (new_entry r k) in
  range e = r /\ fresh e = negb (k =? 0) && (Z.of_nat n <=? k) /\ pending e = (k =? 0) || (k <? Z.of_nat n) /\
  ttl e = Z.max 0 (k - Z.of_nat n).
Proof.
  unfold is_u32. intros Hk. induction n as [|n IH].
  { simpl. unfold pending. simpl. rewrite orb_false_r.
    rewrite (proj2 (Z.leb_le _ _)), (proj2 (Z.ltb_ge _ _)), andb_true_r, orb_false_r by lia. repeat split; lia. }
  cbn [Nat.iter nat_rect]. fold (Nat.iter n age_entry (new_entry r k)) in *.
  set (e := Nat.iter n age_entry (new_entry r k)) in *. destruct IH as (I1 & I2 & I3 & I4).
  rewrite Nat2Z.inj_succ. unfold age_entry. rewrite I2.
  destruct (Z.eqb_spec k 0) as [->|Hk0]; cbn [negb andb orb] in *.
  { repeat split; auto. lia. }
  destruct (Z.leb_spec (Z.of_nat n) k) as [Hle|Hgt].
  - destruct (Z.eqb_spec (ttl e) 0) as [Hz|Hz]; cbv zeta.
    + rewrite pending_initial. simpl. rewrite (proj2 (Z.leb_gt _ _)), (proj2 (Z.ltb_lt _ _)) by lia.
      repeat split; auto; lia.
    + change (pending (with_flags e _ _ _ _ _ _)) with (pending e). simpl. rewrite I3.
      rewrite u32_id by (unfold is_u32; lia).
      rewrite !(proj2 (Z.leb_le _ _)), !(proj2 (Z.ltb_ge _ _)) by lia. repeat split; auto; lia.
  - cbv zeta. rewrite I2, I3. rewrite (proj2 (Z.leb_gt _ _)), !(proj2 (Z.ltb_lt _ _)) by lia.
    repeat split; auto; lia.
Qed.

Lemma has_pending_spec b l : inv b l -> has_pending_report l = existsb pending (entries l).
Proof.
  intros Hi. unfold has_pending_report. rewrite (inv_pending _ _ Hi).
  induction (entries l) as [|e es IH]; [reflexivity|]. cbn [existsb]. rewrite <- IH. unfold countb. cbn.
  destruct (pending e); reflexivity.
Qed.

(** C25: Reorder tolerance.  In a well-formed list, a gap within half the sequence space
    of the list's base that [add] accepts with tolerance [k] takes a place of its own
    at the end of the list.  After any number [n] of agings the gap is
    still listed as missing with the same range; it is held back while [n <= k] and due
    for a report from the [(k+1)]-st aging on (at once for tolerance 0), so the
    list has something to report exactly when the gap is due or what was listed before
    has, and the other entries age as they would without it. *)
Theorem reorder_tolerance b l r k n :
  inv b l -> (admission_capacity l <= allocated l)%nat -> ends_in_window b r -> is_u32 k ->
  let '(accepted, l') := add l r k in
  accepted = true ->
  exists e, entries (age_times n l') = entries (age_times n l) ++ [e] /\ range e = r /\
    pending e = (k =? 0) || (k <? Z.of_nat n) /\
    has_pending_report (age_times n l') = has_pending_report (age_times n l) || pending e.
Proof.
  intros Hinv Hc Hr Hk. unfold add. pose proof (add_all_spec b l [r] k Hinv Hc (Forall_cons_2 _ _ _ Hr (Forall_nil_2 _))) as A.
  assert (E : (add_all l [r] k).1 = true -> entries (add_all l [r] k).2 = entries l ++ [new_entry r k])
    by (unfold add_all; destruct (can_append l [r]); [reflexivity|discriminate]).
  destruct (add_all l [r] k) as [accepted l']. cbn [fst snd] in E. intros ->. specialize (E eq_refl). destruct A as [Hinv' _].
  destruct (age_times_spec b l n Hinv) as [I1 E1]. destruct (age_times_spec b l' n Hinv') as [I2 E2].
  destruct (age_new_entry r k n Hk) as (N1 & _ & N3 & _). exists (Nat.iter n age_entry (new_entry r k)).
  assert (Ee : entries (age_times n l') = entries (age_times n l) ++ [Nat.iter n age_entry (new_entry r k)])
    by (rewrite E2, E, map_app, E1; reflexivity).
  split_and!; auto. rewrite (has_pending_spec b _ I1), (has_pending_spec b _ I2), Ee, existsb_app. cbn. rewrite orb_false_r. reflexivity.
Qed.

Lemma reorder_tolerance_witness :
  let l := {| entries := [new_entry {| range_first := 3; range_last := 4 |} 5];
              allocated := 8; admission_capacity := 4; fresh_count := 1; pending_count := 0 |} in
  let l' := (add l {| range_first := 8; range_last := 9 |} 2).2 in
  has_pending_report (age_times 2 l') = false /\ has_pending_report (age_times 3 l') = true.
Proof.
  intros l l'. assert (Hinv : inv 0 l).
  { split; [repeat split; unfold lo, hi; vm_compute; (reflexivity || discriminate)|vm_compute; lia|reflexivity|reflexivity]. }
  assert (Hw : ends_in_window 0 {| range_first := 8; range_last := 9 |})
    by (repeat constructor; vm_compute; (reflexivity || discriminate)).
  assert (Ha : (add l {| range_first := 8; range_last := 9 |} 2).1 = true) by (vm_compute; reflexivity).
  assert (Hc : (admission_capacity l <= allocated l)%nat) by (cbn; lia).
  assert (Hk : is_u32 2) by (unfold is_u32; lia). unfold l'.
  pose proof (reorder_tolerance 0 l {| range_first := 8; range_last := 9 |} 2 2 Hinv Hc Hw Hk) as H2.
  pose proof (reorder_tolerance 0 l {| range_first := 8; range_last := 9 |} 2 3 Hinv Hc Hw Hk) as H3.
  destruct (add l {| range_first := 8; range_last := 9 |} 2) as [accepted l2]. cbn [fst snd] in *.
  destruct (H2 Ha) as (e2 & _ & _ & P2 & ->). destruct (H3 Ha) as (e3 & _ & _ & P3 & ->).
  rewrite P2, P3. vm_compute. auto.
Defined.

(** A batch that [can_insert_all_sorted] accepts goes in completely, so the
    callers may ignore the results of the single insertions: every range of
    the batch is missing afterwards, nothing else changes and each range gets
    its own entry. *)
Theorem batch_insertion b l rs ttl :
  inv b l -> (admission_capacity l <= allocated l)%nat -> Forall (ends_in_window b) rs ->
  can_insert_all_sorted l rs = true ->
  adds b l (insert_all_sorted l rs ttl) (missing b rs) /\
  size (insert_all_sorted l rs ttl) = (size l + length rs)%nat.
Proof.
  intros Hinv Hc Hw Hcan. destruct rs as [|r rs'].
  { simpl. split; [|lia]. apply adds_refl; [assumption|]. intros x. rewrite missing_nil. tauto. }
  unfold can_insert_all_sorted in Hcan. destruct (_ || _) eqn:E; [discriminate|]. b2p.
  apply (can_insert_loop_spec b) in Hcan as [Hb _]; auto.
  apply insert_batch_adds; auto. simpl in *. lia.
Qed.

Lemma batch_insertion_witness :
  let l := {| entries := [new_entry {| range_first := 3; range_last := 4 |} 2];
              allocated := 8; admission_capacity := 4; fresh_count := 1; pending_count := 0 |} in
  size (insert_all_sorted l [{| range_first := 9; range_last := 9 |};
                             {| range_first := 1; range_last := 2 |}] 0) = 3%nat.
Proof.
  intros l. apply (batch_insertion 0 l [{| range_first := 9; range_last := 9 |};
                                        {| range_first := 1; range_last := 2 |}] 0).
  - split; [repeat split; unfold lo, hi; vm_compute; (reflexivity || discriminate)|vm_compute; lia
           |reflexivity|reflexivity].
  - vm_compute. lia.
  - repeat constructor; vm_compute; (reflexivity || discriminate).
  - vm_compute. reflexivity.
Defined.
