(* ===== verification/Rtt.v ===== *)
(** Acknowledgement numbers, the ACK/ACKACK tracker and the round-trip-time
    estimator (include/robotweax/srt/rtt.hpp and src/rtt.cpp). *)
From S2P Require Import Prelude.

Definition minimum_nak_interval_microseconds : Z := 20000.

(** * Acknowledgement numbers *)

Module AcknowledgementNumberGenerator.
(** The state is [next_]. *)
Definition make (first : Z) : Z := if first =? 0 then 1 else first.

Definition take (next : Z) : Z * Z :=
  let current := next in
  (current, if current =? u32_max then 1 else u32 (current + 1)).

(** The [n]-th number taken. *)
Fixpoint nth_taken (n : nat) (next : Z) : Z :=
  match n with
  | O => (take next).1
  | S n => nth_taken n (take next).2
  end.

Definition wf (next : Z) : Prop := 0 < next < 2 ^ 32.

Lemma ack_make_wf first : is_u32 first -> wf (make first).
Proof. unfold is_u32, wf, make. intros. case_if; lia. Qed.

Lemma take_step next : wf next ->
  wf (take next).2 /\ (take next).2 = 1 + next mod u32_max.
Proof.
  unfold wf, take, u32_max. intros H. simpl. case_if.
  - subst. split; [lia|reflexivity].
  - rewrite u32_id by (unfold is_u32; lia). rewrite Z.mod_small by lia. lia.
Qed.

Lemma nth_taken_closed n : forall next, wf next ->
  nth_taken n next = 1 + (next - 1 + Z.of_nat n) mod u32_max.
Proof.
  induction n as [|n IH]; intros next H.
  - unfold wf in H. simpl. rewrite Z.mod_small; unfold u32_max; lia.
  - destruct (take_step next H) as [Hw E]. cbn [nth_taken]. rewrite IH, E by assumption.
    rewrite Nat2Z.inj_succ. f_equal.
    replace (1 + next mod u32_max - 1 + Z.of_nat n) with (next mod u32_max + Z.of_nat n) by lia.
    rewrite Zplus_mod_idemp_l. f_equal. lia.
Qed.
End AcknowledgementNumberGenerator.

(** Acknowledgement numbers are never zero, and two of them coincide only
    after a full cycle of [2^32 - 1]: the wrap from the largest 32-bit value
    skips zero and nothing else. *)
Theorem acknowledgement_numbers_cycle first i j :
  is_u32 first ->
  let number k :=
    AcknowledgementNumberGenerator.nth_taken k (AcknowledgementNumberGenerator.make first) in
  0 < number i < 2 ^ 32 /\
  (number i = number j <-> Z.of_nat i mod u32_max = Z.of_nat j mod u32_max).
Proof.
  intros Hf number. unfold number.
  pose proof (AcknowledgementNumberGenerator.ack_make_wf _ Hf) as Hw.
  rewrite !AcknowledgementNumberGenerator.nth_taken_closed by assumption.
  set (a := AcknowledgementNumberGenerator.make first - 1).
  pose proof (Z.mod_pos_bound (a + Z.of_nat i) u32_max ltac:(unfold u32_max; lia)).
  split; [unfold u32_max in *; lia|]. split; intros E.
  - assert (E' : (a + Z.of_nat i) mod u32_max = (a + Z.of_nat j) mod u32_max) by lia.
    rewrite <- (Z.add_simpl_l a (Z.of_nat i)), <- (Z.add_simpl_l a (Z.of_nat j)).
    rewrite Zminus_mod, E', <- Zminus_mod. reflexivity.
  - f_equal. rewrite Zplus_mod, E, <- Zplus_mod. reflexivity.
Qed.

Lemma acknowledgement_numbers_cycle_witness :
  AcknowledgementNumberGenerator.nth_taken 1 (AcknowledgementNumberGenerator.make 4294967295)
  <> AcknowledgementNumberGenerator.nth_taken 3 (AcknowledgementNumberGenerator.make 4294967295).
Proof.
  intros E. destruct (acknowledgement_numbers_cycle 4294967295 1 3) as [_ H].
  - split; vm_compute; (reflexivity || discriminate).
  - apply H in E. vm_compute in E. discriminate.
Defined.

(** * The acknowledgement tracker *)

Module AcknowledgementTracker.
Record Entry := {
  acknowledgement_number : Z;
  sent_at_microseconds : Z;
  active : bool;
}.
#[export] Instance Entry_inhabited : Inhabited Entry :=
  populate {| acknowledgement_number := 0; sent_at_microseconds := 0; active := false |}.

(** [entries_]; its size never changes. *)
Abbreviation t := (list Entry).

Definition make (capacity : nat) : option t :=
  if (capacity =? 0)%nat then None else Some (replicate capacity inhabitant).

Definition slot (tr : t) (number : Z) : nat := Z.to_nat (number mod Z.of_nat (length tr)).

Definition record (tr : t) (number sent_at : Z) : t :=
  if number =? 0 then tr
  else <[slot tr number := {| acknowledgement_number := number;
                              sent_at_microseconds := sent_at; active := true |}]> tr.

Definition acknowledge (tr : t) (number received_at : Z) : option Z * t :=
  if number =? 0 then (None, tr)
  else
    let entry := tr !!! slot tr number in
    if negb (active entry) || negb (acknowledgement_number entry =? number)
       || (received_at <=? sent_at_microseconds entry)
    then (None, tr)
    else
      let elapsed := u64 (received_at - sent_at_microseconds entry) in
      (Some (Z.min elapsed u32_max),
       <[slot tr number := {| acknowledgement_number := acknowledgement_number entry;
                              sent_at_microseconds := sent_at_microseconds entry;
                              active := false |}]> tr).

(** ** Abstract tracker: the numbers still awaiting their ACKACK *)

Definition spec := Z -> option Z.

Definition spec_record (capacity : Z) (m : spec) (number sent_at : Z) : spec :=
  fun k => if number =? 0 then m k
           else if k =? number then Some sent_at
           else if k mod capacity =? number mod capacity then None else m k.

Definition spec_acknowledge (m : spec) (number received_at : Z) : option Z * spec :=
  match m number with
  | Some sent_at =>
      if sent_at <? received_at
      then (Some (Z.min (received_at - sent_at) u32_max),
            fun k => if k =? number then None else m k)
      else (None, m)
  | None => (None, m)
  end.

Inductive op := Record_ (number sent_at : Z) | Acknowledge (number received_at : Z).

Definition step (tr : t) (o : op) : option Z * t :=
  match o with
  | Record_ number sent_at => (None, record tr number sent_at)
  | Acknowledge number received_at => acknowledge tr number received_at
  end.

Definition spec_step (capacity : Z) (m : spec) (o : op) : option Z * spec :=
  match o with
  | Record_ number sent_at => (None, spec_record capacity m number sent_at)
  | Acknowledge number received_at => spec_acknowledge m number received_at
  end.

Fixpoint run (tr : t) (os : list op) : list (option Z) :=
  match os with
  | [] => []
  | o :: rest => let '(r, tr) := step tr o in r :: run tr rest
  end.

Fixpoint spec_run (capacity : Z) (m : spec) (os : list op) : list (option Z) :=
  match os with
  | [] => []
  | o :: rest => let '(r, m) := spec_step capacity m o in r :: spec_run capacity m rest
  end.

Definition op_wf (o : op) : Prop :=
  match o with
  | Record_ number time | Acknowledge number time => is_u32 number /\ is_u64 time
  end.

(** What the slot array stores for number [k]. *)
Definition stored (tr : t) (k : Z) : option Z :=
  let e := tr !!! slot tr k in
  if active e && (acknowledgement_number e =? k) then Some (sent_at_microseconds e) else None.

Record refines (tr : t) (m : spec) : Prop := {
  ref_stored : forall k, is_u32 k -> k <> 0 -> stored tr k = m k;
  ref_zero : m 0 = None;
  ref_time : forall k s, m k = Some s -> is_u64 s;
}.

Lemma slot_lt tr k : tr <> [] -> (slot tr k < length tr)%nat.
Proof.
  intros H. unfold slot. destruct tr; [congruence|].
  pose proof (Z.mod_pos_bound k (Z.of_nat (length (e :: tr))) ltac:(simpl; lia)). lia.
Qed.

Lemma slot_eq tr k n : tr <> [] ->
  slot tr k = slot tr n <-> k mod Z.of_nat (length tr) = n mod Z.of_nat (length tr).
Proof.
  intros H. unfold slot. destruct tr as [|e tr]; [congruence|].
  pose proof (Z.mod_pos_bound k (Z.of_nat (length (e :: tr))) ltac:(simpl; lia)).
  pose proof (Z.mod_pos_bound n (Z.of_nat (length (e :: tr))) ltac:(simpl; lia)). lia.
Qed.

Lemma slot_insert tr i e k : slot (<[i := e]> tr) k = slot tr k.
Proof. unfold slot. rewrite length_insert. reflexivity. Qed.

(** Overwriting the slot of [n] only concerns the numbers that share it. *)
Lemma stored_insert tr n e k : tr <> [] ->
  stored (<[slot tr n := e]> tr) k =
  if k mod Z.of_nat (length tr) =? n mod Z.of_nat (length tr)
  then (if active e && (acknowledgement_number e =? k)
        then Some (sent_at_microseconds e) else None)
  else stored tr k.
Proof.
  intros H. unfold stored. rewrite slot_insert. destruct (Z.eqb_spec (k mod Z.of_nat (length tr)) (n mod Z.of_nat (length tr))) as [E|E].
  - apply (slot_eq tr k n H) in E. rewrite E, list_lookup_total_insert_eq by (apply slot_lt, H).
    reflexivity.
  - rewrite list_lookup_total_insert_ne; [reflexivity|]. intros E'. apply E. symmetry.
    apply (slot_eq tr n k H). exact E'.
Qed.

Lemma record_refines tr m n time : tr <> [] -> is_u32 n -> is_u64 time ->
  refines tr m -> refines (record tr n time) (spec_record (Z.of_nat (length tr)) m n time).
Proof.
  intros Ht Hn Htime [R1 R2 R3]. unfold record, spec_record.
  destruct (Z.eqb_spec n 0) as [->|Hz]; [split; assumption|]. split.
  - intros k Hk Hk0. rewrite stored_insert by assumption. simpl.
    destruct (Z.eqb_spec k n) as [->|Hne]; [rewrite !Z.eqb_refl; reflexivity|].
    destruct (_ =? _); [|apply R1; assumption].
    rewrite (proj2 (Z.eqb_neq n k)) by congruence. reflexivity.
  - rewrite (proj2 (Z.eqb_neq 0 n)) by congruence. destruct (_ =? _); auto.
  - intros k s. destruct (k =? n); [congruence|]. destruct (_ =? _); [discriminate|]. apply R3.
Qed.

Lemma acknowledge_refines tr m n time : tr <> [] -> is_u32 n -> is_u64 time ->
  refines tr m ->
  let '(r, tr') := acknowledge tr n time in
  let '(r', m') := spec_acknowledge m n time in
  r = r' /\ refines tr' m' /\ length tr' = length tr.
Proof.
  intros Ht Hn Htime Hr. pose proof Hr as [R1 R2 R3]. unfold acknowledge, spec_acknowledge.
  destruct (Z.eqb_spec n 0) as [Hz|Hz]; [rewrite Hz, R2; auto|].
  rewrite <- (R1 n Hn Hz). unfold stored. set (e := tr !!! slot tr n).
  destruct (active e) eqn:Ea; simpl; [|auto].
  destruct (Z.eqb_spec (acknowledgement_number e) n) as [En|En]; simpl; [|auto].
  assert (He : is_u64 (sent_at_microseconds e)).
  { apply (R3 n). rewrite <- (R1 n Hn Hz). unfold stored. fold e. rewrite Ea, En, Z.eqb_refl. reflexivity. }
  rewrite Z.leb_antisym. destruct (Z.ltb_spec (sent_at_microseconds e) time) as [Hlt|Hge];
    simpl; [|auto].
  rewrite u64_id by (unfold is_u64 in *; lia). split; [reflexivity|].
  split; [|apply length_insert]. split.
  - intros k Hk Hk0. rewrite stored_insert by assumption. simpl.
    destruct (Z.eqb_spec k n) as [Hkn|Hne]; [rewrite Hkn, Z.eqb_refl; reflexivity|].
    destruct (Z.eqb_spec (k mod Z.of_nat (length tr)) (n mod Z.of_nat (length tr))) as [E|E];
      [|apply R1; assumption].
    rewrite <- R1 by assumption. unfold stored. apply (slot_eq tr k n Ht) in E.
    rewrite E. fold e. rewrite En, (proj2 (Z.eqb_neq n k)), andb_false_r by congruence. reflexivity.
  - rewrite (proj2 (Z.eqb_neq 0 n)) by congruence. assumption.
  - intros k s. destruct (k =? n); [discriminate|]. apply R3.
Qed.

Lemma run_refines os : forall tr m, tr <> [] -> Forall op_wf os -> refines tr m ->
  run tr os = spec_run (Z.of_nat (length tr)) m os.
Proof.
  induction os as [|o os IH]; intros tr m Ht Hw Hr; [reflexivity|].
  apply Forall_cons in Hw as [Ho Hw]. destruct o as [n time|n time]; destruct Ho as [Hn Htime]; simpl.
  - f_equal. replace (length tr) with (length (record tr n time))
      by (unfold record; case_if; [reflexivity|apply length_insert]).
    apply IH; auto.
    + intros E. apply (f_equal length) in E. unfold record in E.
      case_if; rewrite ?length_insert in E; destruct tr; simpl in E; congruence.
    + replace (length (record tr n time)) with (length tr)
        by (unfold record; case_if; [reflexivity|symmetry; apply length_insert]).
      apply record_refines; assumption.
  - pose proof (acknowledge_refines tr m n time Ht Hn Htime Hr) as H.
    destruct (acknowledge tr n time) as [r tr']. destruct (spec_acknowledge m n time) as [r' m'].
    destruct H as (-> & H2 & H3). f_equal. rewrite <- H3. apply IH; auto.
    intros ->. destruct tr; simpl in H3; congruence.
Qed.
End AcknowledgementTracker.
Export (hints) AcknowledgementTracker.

(** C31: The tracker answers every sequence of ACK transmissions and ACKACK
    arrivals as an abstract table of outstanding ACK numbers does: an ACKACK
    yields the elapsed time (capped at 32 bits) exactly once, only for a number
    that was recorded, strictly later than it was sent, and not displaced since
    by a number congruent to it modulo the capacity. *)
Theorem acknowledgement_tracker_refinement capacity tr os :
  AcknowledgementTracker.make capacity = Some tr ->
  Forall AcknowledgementTracker.op_wf os ->
  AcknowledgementTracker.run tr os =
  AcknowledgementTracker.spec_run (Z.of_nat capacity) (fun _ => None) os.
Proof.
  unfold AcknowledgementTracker.make. destruct (Nat.eqb_spec capacity 0) as [|Hc]; [discriminate|].
  intros [= <-] Hw. rewrite (AcknowledgementTracker.run_refines os _ (fun _ => None)); auto.
  - rewrite length_replicate. reflexivity.
  - destruct capacity; [congruence|discriminate].
  - split; [|reflexivity|discriminate]. intros k _ _. unfold AcknowledgementTracker.stored.
    rewrite lookup_total_replicate_2; [reflexivity|]. eapply Nat.lt_le_trans.
    + apply AcknowledgementTracker.slot_lt. destruct capacity; [congruence|discriminate].
    + rewrite length_replicate. lia.
Qed.

Lemma acknowledgement_tracker_refinement_witness :
  AcknowledgementTracker.run (replicate 2 inhabitant)
    [AcknowledgementTracker.Record_ 1 100; AcknowledgementTracker.Record_ 2 200;
     AcknowledgementTracker.Record_ 3 300; AcknowledgementTracker.Acknowledge 1 400;
     AcknowledgementTracker.Acknowledge 2 450; AcknowledgementTracker.Acknowledge 2 500]
  = [None; None; None; None; Some 250; None].
Proof.
  rewrite (acknowledgement_tracker_refinement 2).
  - vm_compute. reflexivity.
  - reflexivity.
  - repeat constructor; vm_compute; (reflexivity || discriminate).
Defined.

(** * The estimator *)

Module RttEstimator.
Record t := {
  smoothed_microseconds : Z;
  variation_microseconds : Z;
  has_sample : bool;
  local_observation_time : option Z;
  peer_observation_time : option Z;
  last_observation_source : Z;
}.

Definition initial : t :=
  {| smoothed_microseconds := 100000; variation_microseconds := 50000; has_sample := false;
     local_observation_time := None; peer_observation_time := None;
     last_observation_source := 0 |}.

(** [smoothed > sample ? smoothed - sample : sample - smoothed]. *)
Definition difference (smoothed sample : Z) : Z :=
  if sample <? smoothed then u32 (smoothed - sample) else u32 (sample - smoothed).

Definition next_variation (variation difference : Z) : Z :=
  u32 (u64 (u64 (3 * variation) + difference) / 4).

Definition next_smoothed (smoothed sample : Z) : Z :=
  u32 (u64 (u64 (7 * smoothed) + sample) / 8).

Definition observe (e : t) (sample_microseconds : Z) (now : option Z) : t :=
  if sample_microseconds =? 0 then e
  else if negb (has_sample e) then
    {| smoothed_microseconds := sample_microseconds;
       variation_microseconds := sample_microseconds / 2;
       has_sample := true; local_observation_time := now;
       peer_observation_time := peer_observation_time e; last_observation_source := 1 |}
  else
    {| smoothed_microseconds := next_smoothed (smoothed_microseconds e) sample_microseconds;
       variation_microseconds :=
         next_variation (variation_microseconds e)
           (difference (smoothed_microseconds e) sample_microseconds);
       has_sample := has_sample e; local_observation_time := now;
       peer_observation_time := peer_observation_time e; last_observation_source := 1 |}.

Definition adopt (e : t) (smoothed variation : Z) (now : option Z) : t :=
  {| smoothed_microseconds := smoothed; variation_microseconds := variation;
     has_sample := true; local_observation_time := local_observation_time e;
     peer_observation_time := now; last_observation_source := 2 |}.

Definition observe_peer_estimate (e : t) (smoothed variation : Z) (bidirectional_traffic : bool)
    (now : option Z) : t :=
  if smoothed =? 0 then e
  else
    let is_initial_default := (smoothed =? 100000) && (variation =? 50000) in
    if negb (has_sample e) then
      if is_initial_default then e else adopt e smoothed variation now
    else if negb bidirectional_traffic then adopt e smoothed variation now
    else if is_initial_default then e
    else
      {| smoothed_microseconds := next_smoothed (smoothed_microseconds e) smoothed;
         variation_microseconds :=
           next_variation (variation_microseconds e)
             (difference (smoothed_microseconds e) smoothed);
         has_sample := has_sample e; local_observation_time := local_observation_time e;
         peer_observation_time := now; last_observation_source := 2 |}.

Definition nak_interval_microseconds (e : t) : Z :=
  let calculated :=
    u64 (smoothed_microseconds e + u64 (4 * variation_microseconds e)) / 2 in
  u32 (Z.min (Z.max calculated minimum_nak_interval_microseconds) u32_max).

(** Observations as they arrive. *)
Inductive observation :=
| Local (sample : Z) (now : option Z)
| Peer (smoothed variation : Z) (bidirectional : bool) (now : option Z).

Definition feed (e : t) (o : observation) : t :=
  match o with
  | Local sample now => observe e sample now
  | Peer smoothed variation bidirectional now =>
      observe_peer_estimate e smoothed variation bidirectional now
  end.

(** The filter in unbounded integers: smoothed value and variation, once known. *)
Definition ideal (e : option (Z * Z)) (o : observation) : option (Z * Z) :=
  let filtered s v x := Some ((7 * s + x) / 8, (3 * v + Z.abs (s - x)) / 4) in
  match o with
  | Local x _ =>
      if x =? 0 then e
      else match e with None => Some (x, x / 2) | Some (s, v) => filtered s v x end
  | Peer x w bidirectional _ =>
      let is_initial_default := (x =? 100000) && (w =? 50000) in
      if x =? 0 then e
      else match e with
           | None => if is_initial_default then None else Some (x, w)
           | Some (s, v) => if negb bidirectional then Some (x, w)
                            else if is_initial_default then e else filtered s v x
           end
  end.

(** What the estimator knows. *)
Definition estimate (e : t) : option (Z * Z) :=
  if has_sample e then Some (smoothed_microseconds e, variation_microseconds e) else None.

Definition value (o : observation) : Z :=
  match o with Local sample _ => sample | Peer smoothed _ _ _ => smoothed end.

(** The observation is non-zero and within the given limits. *)
Definition observed_between (low high : Z) (o : observation) : Prop :=
  low <= value o <= high /\
  match o with Local _ _ => True | Peer _ variation _ _ => 0 <= variation <= high end.

(** ** The arithmetic never wraps *)

Lemma next_smoothed_exact s x : is_u32 s -> is_u32 x -> next_smoothed s x = (7 * s + x) / 8.
Proof.
  unfold is_u32, next_smoothed. intros. rewrite (u64_id (7 * s)) by (unfold is_u64; lia).
  rewrite u64_id by (unfold is_u64; lia). apply u32_id. unfold is_u32. zlia.
Qed.

Lemma next_variation_exact v d : is_u32 v -> is_u32 d -> next_variation v d = (3 * v + d) / 4.
Proof.
  unfold is_u32, next_variation. intros. rewrite (u64_id (3 * v)) by (unfold is_u64; lia).
  rewrite u64_id by (unfold is_u64; lia). apply u32_id. unfold is_u32. zlia.
Qed.

Lemma difference_exact s x : is_u32 s -> is_u32 x -> difference s x = Z.abs (s - x).
Proof. unfold is_u32, difference. intros. case_if; rewrite u32_id; unfold is_u32; lia. Qed.

Lemma nak_interval_exact e :
  is_u32 (smoothed_microseconds e) -> is_u32 (variation_microseconds e) ->
  nak_interval_microseconds e =
  Z.min (Z.max ((smoothed_microseconds e + 4 * variation_microseconds e) / 2) 20000) u32_max.
Proof.
  unfold is_u32, nak_interval_microseconds, minimum_nak_interval_microseconds, u32_max.
  intros. rewrite (u64_id (4 * _)) by (unfold is_u64; lia).
  rewrite u64_id by (unfold is_u64; lia). apply u32_id. unfold is_u32. zlia.
Qed.

(** Bounds kept by every observation once there is a sample. *)
Definition bounded (low high : Z) (e : t) : Prop :=
  low <= smoothed_microseconds e <= high /\ 0 <= variation_microseconds e <= high.

Lemma weighted low high (w s x : Z) : 0 < w ->
  low <= s <= high -> low <= x <= high -> low <= ((w - 1) * s + x) / w <= high.
Proof.
  intros Hw Hs Hx. split.
  - apply Z.div_le_lower_bound; nia.
  - apply Z.div_le_upper_bound; nia.
Qed.

Lemma feed_bounded low high e o : 0 < low -> high < 2 ^ 32 ->
  observed_between low high o -> (has_sample e = true -> bounded low high e) ->
  has_sample (feed e o) = true -> bounded low high (feed e o).
Proof.
  intros Hl Hh Ho He. unfold bounded in *.
  assert (Hw : has_sample e = true -> forall x, low <= x <= high ->
    low <= next_smoothed (smoothed_microseconds e) x <= high /\
    0 <= next_variation (variation_microseconds e) (difference (smoothed_microseconds e) x) <= high).
  { intros Hs x Hx. destruct (He Hs) as [H1 H2].
    rewrite next_smoothed_exact, difference_exact, next_variation_exact by (unfold is_u32; lia).
    split; [apply (weighted low high 8); lia|apply (weighted 0 high 4); lia]. }
  destruct o as [x now|x v bi now]; destruct Ho as [Hx Hv]; simpl in *.
  - unfold observe. destruct (x =? 0) eqn:E0; [auto|]. destruct (has_sample e); simpl; auto.
    intros _. split; [lia|zlia].
  - unfold observe_peer_estimate. destruct (x =? 0) eqn:E0; [auto|].
    destruct (has_sample e) eqn:Es, bi, ((x =? 100000) && (v =? 50000)); simpl; rewrite ?Es; auto.
Qed.

(** One observation computes what the unbounded filter does. *)
Lemma feed_ideal low high e o : 0 < low -> high < 2 ^ 32 ->
  observed_between low high o -> (has_sample e = true -> bounded low high e) ->
  estimate (feed e o) = ideal (estimate e) o.
Proof.
  intros Hl Hh Ho He. unfold bounded, estimate in *.
  assert (Hw : has_sample e = true -> forall x, low <= x <= high ->
    next_smoothed (smoothed_microseconds e) x = (7 * smoothed_microseconds e + x) / 8 /\
    next_variation (variation_microseconds e) (difference (smoothed_microseconds e) x)
      = (3 * variation_microseconds e + Z.abs (smoothed_microseconds e - x)) / 4).
  { intros Hs x Hx. destruct (He Hs) as [H1 H2].
    rewrite next_smoothed_exact, difference_exact, next_variation_exact by (unfold is_u32; lia). auto. }
  destruct o as [x now|x v bi now]; destruct Ho as [Hx Hv]; cbn [feed ideal value] in *.
  - unfold observe. destruct (x =? 0) eqn:E0; [reflexivity|]. destruct (has_sample e) eqn:Es; [|reflexivity].
    destruct (Hw eq_refl x Hx) as [-> ->]. reflexivity.
  - unfold observe_peer_estimate. destruct (x =? 0) eqn:E0; [reflexivity|].
    destruct (has_sample e) eqn:Es, bi, ((x =? 100000) && (v =? 50000)); cbn; rewrite ?Es; try reflexivity.
    destruct (Hw eq_refl x Hx) as [-> ->]. reflexivity.
Qed.
End RttEstimator.

(** C32: The RTT estimator is a bounded filter that computes without wrapping.  Whatever
    mixture of local ACKACK samples and peer estimates arrives, as long as all
    round-trip times lie between [low > 0] and [high < 2^32] and the variations the peer
    reports do not exceed [high], its 32- and 64-bit arithmetic gives exactly the
    estimate of the same filter in unbounded integers.  The smoothed value
    never leaves the interval, the variation never exceeds [high], and the NAK
    interval is [(smoothed + 4 variation) / 2] held between 20 ms and 2^32 - 1, and
    never above the larger of 20 ms and [5/2 high]. *)
Theorem rtt_estimate_bounded low high os :
  0 < low -> high < 2 ^ 32 -> Forall (RttEstimator.observed_between low high) os ->
  let e := fold_left RttEstimator.feed os RttEstimator.initial in
  RttEstimator.estimate e = fold_left RttEstimator.ideal os None /\
  (RttEstimator.has_sample e = true ->
   low <= RttEstimator.smoothed_microseconds e <= high /\
   0 <= RttEstimator.variation_microseconds e <= high /\
   RttEstimator.nak_interval_microseconds e
     = Z.min (Z.max ((RttEstimator.smoothed_microseconds e + 4 * RttEstimator.variation_microseconds e) / 2) 20000) u32_max /\
   20000 <= RttEstimator.nak_interval_microseconds e <= Z.max 20000 (5 * high / 2)).
Proof.
  intros Hl Hh Hos.
  assert (G : forall e, (RttEstimator.has_sample e = true -> RttEstimator.bounded low high e) ->
    RttEstimator.estimate (fold_left RttEstimator.feed os e) = fold_left RttEstimator.ideal os (RttEstimator.estimate e) /\
    (RttEstimator.has_sample (fold_left RttEstimator.feed os e) = true ->
     RttEstimator.bounded low high (fold_left RttEstimator.feed os e))).
  { induction Hos as [|o os Ho _ IH]; intros e He; [split; [reflexivity|exact He]|]. simpl.
    rewrite <- (RttEstimator.feed_ideal low high e o) by assumption. apply IH.
    intros. eapply RttEstimator.feed_bounded; eauto. }
  intros e. destruct (G RttEstimator.initial) as [Hi Hb]; [discriminate|]. fold e in Hi, Hb. split; [exact Hi|].
  intros He. destruct (Hb He) as [H1 H2]. do 2 (split; [assumption|]).
  rewrite RttEstimator.nak_interval_exact by (unfold is_u32; lia). split; [reflexivity|]. unfold u32_max. zlia.
Qed.

Lemma rtt_estimate_bounded_witness :
  let os := [RttEstimator.Peer 100000 50000 true None; RttEstimator.Local 30000 (Some 5);
             RttEstimator.Peer 40000 1000 true None] in
  let e := fold_left RttEstimator.feed os RttEstimator.initial in
  RttEstimator.estimate e = Some (31250, 13750) /\ 20000 <= RttEstimator.nak_interval_microseconds e <= 250000.
Proof.
  intros os e. destruct (rtt_estimate_bounded 30000 100000 os) as [H1 H2].
  - lia.
  - lia.
  - repeat constructor; simpl; lia.
  - split; [unfold e; rewrite H1; vm_compute; reflexivity|]. apply H2. vm_compute. reflexivity.
Defined.

(** Feeding the same sample [n] times. *)
Definition observe_times (n : nat) (x : Z) (e : RttEstimator.t) : RttEstimator.t :=
  Nat.iter n (fun e => RttEstimator.observe e x None) e.

Lemma observe_gap e x : 0 < x < 2 ^ 32 -> RttEstimator.has_sample e = true ->
  is_u32 (RttEstimator.smoothed_microseconds e) ->
  let e' := RttEstimator.observe e x None in
  let s := RttEstimator.smoothed_microseconds e in
  let s' := RttEstimator.smoothed_microseconds e' in
  RttEstimator.has_sample e' = true /\ is_u32 s' /\
  (x - 7 <= s <= x -> s' = s) /\ (x < s -> x <= s' < s) /\ (s < x - 7 -> s < s' <= x).
Proof.
  intros Hx Hs Hu. unfold RttEstimator.observe. rewrite (proj2 (Z.eqb_neq x 0)), Hs by lia. simpl.
  rewrite RttEstimator.next_smoothed_exact by (auto; unfold is_u32; lia).
  unfold is_u32 in *. repeat split; intros; zlia.
Qed.

(** C33: Under a constant round-trip time [x] the smoothed value settles within
    seven microseconds below [x] (the resolution of the integer 7/8 filter) and
    stays there: [|s - x|] samples are always enough. *)
Theorem rtt_converges e x n :
  0 < x < 2 ^ 32 -> RttEstimator.has_sample e = true ->
  is_u32 (RttEstimator.smoothed_microseconds e) ->
  Z.abs (RttEstimator.smoothed_microseconds e - x) <= Z.of_nat n ->
  x - 7 <= RttEstimator.smoothed_microseconds (observe_times n x e) <= x.
Proof.
  intros Hx Hs Hu Hn.
  assert (G : let e' := observe_times n x e in
    RttEstimator.has_sample e' = true /\ is_u32 (RttEstimator.smoothed_microseconds e') /\
    (x - 7 <= RttEstimator.smoothed_microseconds e' <= x \/
     Z.abs (RttEstimator.smoothed_microseconds e' - x)
       <= Z.abs (RttEstimator.smoothed_microseconds e - x) - Z.of_nat n)).
  { clear Hn. induction n as [|n (H1 & H2 & H3)]; [simpl; do 2 (split; [assumption|]); lia|].
    destruct (observe_gap (observe_times n x e) x Hx H1 H2) as (G1 & G2 & G3 & G4 & G5).
    change (observe_times (S n) x e) with (RttEstimator.observe (observe_times n x e) x None).
    do 2 (split; [assumption|]). lia. }
  destruct G as (_ & _ & G). lia.
Qed.

Lemma rtt_converges_witness :
  let e := RttEstimator.observe RttEstimator.initial 1000 None in
  990 <= RttEstimator.smoothed_microseconds (observe_times 10 997 e) <= 997.
Proof.
  apply (rtt_converges (RttEstimator.observe RttEstimator.initial 1000 None) 997 10);
    vm_compute; intuition discriminate.
Defined.
