(* ===== verification/RangeDropQueue.v ===== *)
(** The bounded union of dropped sequence ranges a sender still has to announce
    ([RangeDropQueue] of include/robotweax/srt/detail/range_drop_queue.hpp). *)
From S2P Require Import Prelude Sequence Packet Codec Control LossList.
From Stdlib Require Import Permutation Sorting.Sorted.

Definition maximum_range_drop_terms : nat := 364.

Lemma maximum_range_drop_terms_eq : maximum_range_drop_terms = (maximum_data_payload_size / 4)%nat.
Proof. vm_compute. reflexivity. Qed.

Module RangeDropQueue.
Definition capacity : nat := maximum_range_drop_terms + 1.

(** [ranges_], [head_] and [size_]. *)
Record t := {
  ranges : list SequenceRange;
  head : nat;
  size : nat;
}.

Definition make : t := {| ranges := replicate capacity inhabitant; head := 0; size := 0 |}.

Definition empty (q : t) : bool := (size q =? 0)%nat.

Definition at_ (q : t) (index : nat) : SequenceRange :=
  ranges q !!! ((head q + index) mod capacity)%nat.

(** The loop that checks the incoming ranges and cuts wrapping ones in two. *)
Fixpoint split_incoming (incoming : list SequenceRange) : option (list SequenceRange) :=
  match incoming with
  | [] => Some []
  | r :: rest =>
      if SequenceNumber.distance_from (range_last r) (range_first r) <? 0 then None
      else
        match split_incoming rest with
        | None => None
        | Some tail =>
            if range_first r <=? range_last r then Some (r :: tail)
            else Some ({| range_first := SequenceNumber.make 0; range_last := range_last r |}
                       :: {| range_first := range_first r;
                             range_last := SequenceNumber.make SequenceNumber.mask |} :: tail)
        end
  end.

(** [std::sort] by first sequence value. *)
Fixpoint insert_by_first (r : SequenceRange) (l : list SequenceRange) : list SequenceRange :=
  match l with
  | [] => [r]
  | x :: rest => if range_first x <? range_first r then x :: insert_by_first r rest else r :: l
  end.

Definition sort_by_first (l : list SequenceRange) : list SequenceRange :=
  fold_right insert_by_first [] l.

(** Appends to [merged]; [acc] holds [merged[kept - 1], ..., merged[0]]. *)
Definition push (acc : list SequenceRange) (r : SequenceRange) : list SequenceRange :=
  match acc with
  | last :: rest =>
      if range_first r <=? u32 (range_last last + 1) then
        (if range_last last <? range_last r
         then {| range_first := range_first last; range_last := range_last r |} else last) :: rest
      else r :: acc
  | [] => [r]
  end.

Fixpoint merge_loop (old : list SequenceRange) : list SequenceRange -> list SequenceRange ->
    list SequenceRange :=
  fix go (incoming acc : list SequenceRange) :=
    match old, incoming with
    | [], [] => acc
    | o :: old', [] => merge_loop old' [] (push acc o)
    | [], n :: incoming' => go incoming' (push acc n)
    | o :: old', n :: incoming' =>
        if range_first o <=? range_first n then merge_loop old' incoming (push acc o)
        else go incoming' (push acc n)
    end.

Definition contents (q : t) : list SequenceRange := map (at_ q) (seq 0 (size q)).

Definition queue (q : t) (incoming : list SequenceRange) : bool * t :=
  if (maximum_range_drop_terms <? length incoming)%nat
     || negb (length (ranges q) =? capacity)%nat
  then (false, q)
  else if (length incoming =? 0)%nat then (true, q)
  else
    match split_incoming incoming with
    | None => (false, q)
    | Some split =>
        let merged := rev (merge_loop (contents q) (sort_by_first split) []) in
        if (capacity <? length merged)%nat then (false, q)
        else (true, {| ranges := overwrite 0 merged (ranges q); head := 0;
                       size := length merged |})
    end.

Definition next (q : t) : option SequenceRange * t :=
  if empty q then (None, q)
  else
    let wrap := {| range_first := range_first (at_ q (size q - 1));
                   range_last := range_last (at_ q 0) |} in
    if (1 <? size q)%nat && (range_first (at_ q 0) =? SequenceNumber.make 0)
       && (range_last (at_ q (size q - 1)) =? SequenceNumber.make SequenceNumber.mask)
       && (0 <=? SequenceNumber.distance_from (range_last wrap) (range_first wrap))
    then (Some wrap, {| ranges := ranges q; head := (head q + 1) mod capacity;
                        size := size q - 2 |})
    else
      let first := ranges q !!! head q in
      if SequenceNumber.half_range <=? u32 (range_last first - range_first first) then
        let result :=
          {| range_first := range_first first;
             range_last :=
               SequenceNumber.advanced (range_first first) (SequenceNumber.half_range - 1) |} in
        (Some result,
         {| ranges := <[head q := {| range_first := SequenceNumber.next (range_last result);
                                     range_last := range_last first |}]> (ranges q);
            head := head q; size := size q |})
      else
        (Some first, {| ranges := ranges q; head := (head q + 1) mod capacity;
                        size := size q - 1 |}).

(** ** Coverage *)

(** The sequence numbers a valid wire range stands for. *)
Definition wire_in (r : SequenceRange) (v : Z) : Prop :=
  SequenceNumber.off (range_first r) v <= SequenceNumber.off (range_first r) (range_last r).

Definition valid (r : SequenceRange) : Prop :=
  SequenceNumber.wf (range_first r) /\ SequenceNumber.wf (range_last r).

Definition covers (rs : list SequenceRange) (v : Z) : Prop :=
  Exists (fun r => range_first r <= v <= range_last r) rs.

(** Ascending by value, separated by at least one sequence number. *)
Fixpoint canonical (from : Z) (rs : list SequenceRange) : Prop :=
  match rs with
  | [] => True
  | r :: rest =>
      from <= range_first r <= range_last r /\ range_last r < SequenceNumber.modulus /\
      canonical (range_last r + 2) rest
  end.

Record inv (q : t) : Prop := {
  inv_length : length (ranges q) = capacity;
  inv_head : (head q < capacity)%nat;
  inv_size : (size q <= capacity)%nat;
  inv_canonical : canonical 0 (contents q);
}.

Lemma covers_cons r rs v : covers (r :: rs) v <-> range_first r <= v <= range_last r \/ covers rs v.
Proof. apply Exists_cons. Qed.
Lemma covers_app a c v : covers (a ++ c) v <-> covers a v \/ covers c v.
Proof. apply Exists_app. Qed.
Lemma covers_nil v : covers [] v <-> False.
Proof. apply Exists_nil. Qed.

Lemma canonical_weaken a c rs : c <= a -> canonical a rs -> canonical c rs.
Proof. destruct rs; simpl; [auto|]. intuition lia. Qed.

Lemma canonical_ge from rs v : canonical from rs -> covers rs v -> from <= v.
Proof.
  revert from. induction rs as [|r rs IH]; intros from; [rewrite covers_nil; tauto|].
  simpl. intros (H1 & H2 & H3). rewrite covers_cons. intros [?|Hc]; [lia|].
  specialize (IH _ H3 Hc). lia.
Qed.

(** *** Splitting and sorting *)

Definition flat (r : SequenceRange) : Prop :=
  0 <= range_first r <= range_last r /\ range_last r < SequenceNumber.modulus.

Lemma split_incoming_spec incoming : Forall valid incoming ->
  match split_incoming incoming with
  | None => Exists (fun r => SequenceNumber.distance_from (range_last r) (range_first r) < 0) incoming
  | Some l =>
      Forall flat l /\
      (forall v, SequenceNumber.wf v -> covers l v <-> Exists (fun r => wire_in r v) incoming)
  end.
Proof.
  induction 1 as [|r rest [W1 W2] _ IH]; simpl.
  { split; [constructor|]. intros v _. rewrite covers_nil, Exists_nil. tauto. }
  destruct (Z.ltb_spec (SequenceNumber.distance_from (range_last r) (range_first r)) 0) as [Hd|Hd];
    [left; exact Hd|].
  destruct (split_incoming rest) as [l|]; [|right; exact IH]. destruct IH as [Hf Hc].
  rewrite (SequenceNumber.make_id 0), (SequenceNumber.make_id SequenceNumber.mask)
    by (unfold SequenceNumber.wf; SequenceNumber.consts; lia).
  unfold SequenceNumber.wf in *.
  destruct (Z.leb_spec (range_first r) (range_last r)) as [Hle|Hgt].
  - split; [constructor; [unfold flat; lia|assumption]|]. intros v Hv.
    rewrite covers_cons, Exists_cons, Hc by assumption.
    unfold wire_in, SequenceNumber.off. SequenceNumber.consts.
    assert (range_first r <= v <= range_last r <->
      (v - range_first r) mod 2147483648 <= (range_last r - range_first r) mod 2147483648) by zlia.
    tauto.
  - split.
    { repeat constructor; simpl; auto; unfold SequenceNumber.mask, SequenceNumber.modulus in *; lia. }
    intros v Hv. rewrite !covers_cons, Exists_cons, Hc by assumption. simpl.
    unfold wire_in, SequenceNumber.off. SequenceNumber.consts.
    assert ((0 <= v <= range_last r \/ range_first r <= v <= 2147483647) <->
      (v - range_first r) mod 2147483648 <= (range_last r - range_first r) mod 2147483648) by zlia.
    tauto.
Qed.

Definition by_first (a c : SequenceRange) : Prop := range_first a <= range_first c.

Lemma insert_by_first_perm r l : Permutation (insert_by_first r l) (r :: l).
Proof.
  induction l as [|x l IH]; simpl; [reflexivity|]. destruct (_ <? _); [|reflexivity].
  rewrite IH. apply perm_swap.
Qed.

Lemma sort_by_first_perm l : Permutation (sort_by_first l) l.
Proof. induction l as [|x l IH]; simpl; [reflexivity|]. rewrite insert_by_first_perm, IH. reflexivity. Qed.

Lemma insert_by_first_sorted r l :
  StronglySorted by_first l -> StronglySorted by_first (insert_by_first r l).
Proof.
  induction 1 as [|x l Hs IH Hx]; simpl; [repeat constructor|].
  destruct (Z.ltb_spec (range_first x) (range_first r)).
  - constructor; [assumption|]. rewrite insert_by_first_perm. constructor; [|assumption].
    unfold by_first. lia.
  - constructor; [constructor; assumption|]. constructor; [unfold by_first; lia|].
    eapply Forall_impl; [exact Hx|]. unfold by_first. intros; lia.
Qed.

Lemma sort_by_first_sorted l : StronglySorted by_first (sort_by_first l).
Proof. induction l; simpl; [constructor|]. apply insert_by_first_sorted. assumption. Qed.

Lemma covers_perm l l' v : Permutation l l' -> covers l v <-> covers l' v.
Proof. intros H. unfold covers. rewrite H. reflexivity. Qed.

(** *** Merging *)

Fixpoint descending (acc : list SequenceRange) : Prop :=
  match acc with
  | [] => True
  | a :: rest =>
      flat a /\ match rest with [] => True | c :: _ => range_last c + 1 < range_first a end /\
      descending rest
  end.

(** [r] does not start before the newest merged range. *)
Definition follows (acc : list SequenceRange) (r : SequenceRange) : Prop :=
  match acc with [] => True | a :: _ => range_first a <= range_first r end.

Lemma push_spec acc r : descending acc -> flat r -> follows acc r ->
  descending (push acc r) /\
  (forall v, covers (push acc r) v <-> covers acc v \/ range_first r <= v <= range_last r) /\
  (forall x, by_first r x -> follows (push acc r) x).
Proof.
  intros Hd Hr Hf. destruct acc as [|a rest]; simpl in *.
  { repeat split; auto; try apply Hr; rewrite ?covers_cons, ?covers_nil; tauto. }
  destruct Hd as ((A1 & A2) & A3 & A4). destruct Hr as (R1 & R2).
  rewrite u32_id by (unfold is_u32, SequenceNumber.modulus in *; lia).
  destruct (Z.leb_spec (range_first r) (range_last a + 1)) as [Hle|Hgt].
  - destruct (Z.ltb_spec (range_last a) (range_last r)).
    + simpl. unfold flat. simpl. split; [repeat split; auto; try lia|]. split.
      * intros v. rewrite !covers_cons. simpl. intuition lia.
      * unfold by_first. intros; lia.
    + simpl. unfold flat. split; [repeat split; auto; lia|]. split.
      * intros v. rewrite !covers_cons. intuition lia.
      * unfold by_first. intros; lia.
  - simpl. unfold flat. split; [repeat split; auto; lia|]. split.
    + intros v. rewrite !covers_cons. tauto.
    + unfold by_first. auto.
Qed.

Lemma merge_loop_spec old : forall incoming acc,
  descending acc -> Forall flat old -> Forall flat incoming ->
  StronglySorted by_first old -> StronglySorted by_first incoming ->
  Forall (follows acc) old -> Forall (follows acc) incoming ->
  descending (merge_loop old incoming acc) /\
  (forall v, covers (merge_loop old incoming acc) v <->
     covers acc v \/ covers old v \/ covers incoming v).
Proof.
  induction old as [|o old IHo]; induction incoming as [|n incoming IHn];
    intros acc Hd Fo Fi So Si Ao Ai.
  - simpl. split; [assumption|]. intros v. rewrite covers_nil. tauto.
  - apply Forall_cons in Fi as [Fn Fi]. apply Forall_cons in Ai as [An Ai].
    apply StronglySorted_inv in Si as [Si Sn].
    destruct (push_spec acc n Hd Fn An) as (P1 & P2 & P3).
    destruct (IHn (push acc n)) as (I1 & I2); auto.
    { eapply Forall_impl; [exact Sn|exact P3]. }
    split; [exact I1|]. intros v. etransitivity; [apply I2|]. rewrite P2, covers_cons, covers_nil. tauto.
  - apply Forall_cons in Fo as [Fn Fo]. apply Forall_cons in Ao as [An Ao].
    apply StronglySorted_inv in So as [So Sn].
    destruct (push_spec acc o Hd Fn An) as (P1 & P2 & P3).
    destruct (IHo [] (push acc o)) as (I1 & I2); auto.
    { eapply Forall_impl; [exact Sn|exact P3]. }
    split; [exact I1|]. intros v. etransitivity; [apply I2|]. rewrite P2, covers_cons, covers_nil. tauto.
  - pose proof Fo as Fo'. pose proof Fi as Fi'. pose proof So as So'. pose proof Si as Si'.
    apply Forall_cons in Fo as [Fo1 Fo]. apply Forall_cons in Fi as [Fi1 Fi].
    apply Forall_cons in Ao as [Ao1 Ao]. apply Forall_cons in Ai as [Ai1 Ai].
    apply StronglySorted_inv in So as [So Sno]. apply StronglySorted_inv in Si as [Si Sni].
    cbn [merge_loop]. destruct (Z.leb_spec (range_first o) (range_first n)) as [Hle|Hgt].
    + destruct (push_spec acc o Hd Fo1 Ao1) as (P1 & P2 & P3).
      destruct (IHo (n :: incoming) (push acc o)) as (I1 & I2); auto.
      * eapply Forall_impl; [exact Sno|exact P3].
      * constructor; [apply P3; exact Hle|]. eapply Forall_impl; [exact Sni|].
        unfold by_first. intros x Hx. apply P3. unfold by_first. lia.
      * split; [exact I1|]. intros v. rewrite I2, P2, !covers_cons. tauto.
    + destruct (push_spec acc n Hd Fi1 Ai1) as (P1 & P2 & P3).
      destruct (IHn (push acc n)) as (I1 & I2); auto.
      * constructor; [apply P3; unfold by_first; lia|]. eapply Forall_impl; [exact Sno|].
        unfold by_first. intros x Hx. apply P3. unfold by_first. lia.
      * eapply Forall_impl; [exact Sni|exact P3].
      * split; [exact I1|]. intros v. etransitivity; [apply I2|]. rewrite P2, !covers_cons. tauto.
Qed.

Lemma descending_canonical acc : descending acc -> forall tail,
  match acc with [] => canonical 0 tail | a :: _ => canonical (range_last a + 2) tail end ->
  canonical 0 (rev acc ++ tail).
Proof.
  induction acc as [|a acc IH]; intros Hd tail Ht; [exact Ht|]. simpl. rewrite <- app_assoc.
  destruct Hd as ((A1 & A2) & A3 & A4). apply IH; [assumption|]. simpl.
  destruct acc; simpl; repeat split; auto; lia.
Qed.

Lemma canonical_from rs : forall from, canonical from rs -> Forall (fun q => from <= range_first q) rs.
Proof.
  induction rs as [|r rs IH]; intros from; [constructor|]. simpl. intros (H1 & H2 & H3).
  constructor; [lia|]. eapply Forall_impl; [exact (IH _ H3)|]. simpl. intros; lia.
Qed.

Lemma canonical_flat rs : forall from, 0 <= from -> canonical from rs ->
  Forall flat rs /\ StronglySorted by_first rs.
Proof.
  induction rs as [|r rs IH]; intros from Hf; simpl; [repeat constructor|].
  intros (H1 & H2 & H3). destruct (IH (range_last r + 2) ltac:(lia) H3) as [I1 I2].
  split; [constructor; [split; lia|assumption]|]. constructor; [assumption|].
  eapply Forall_impl; [exact (canonical_from _ _ H3)|]. unfold by_first. intros; lia.
Qed.

(** *** The ring *)

Lemma contents_cons q : (0 < size q)%nat ->
  contents q = at_ q 0 :: map (at_ q) (seq 1 (size q - 1)).
Proof.
  intros H. unfold contents. destruct (size q) as [|n]; [lia|]. simpl. rewrite Nat.sub_0_r. reflexivity.
Qed.

Lemma contents_ends q : (1 < size q)%nat ->
  contents q = at_ q 0 :: map (at_ q) (seq 1 (size q - 2)) ++ [at_ q (size q - 1)].
Proof.
  intros H. rewrite contents_cons by lia. f_equal.
  replace (size q - 1)%nat with (S (size q - 2)) by lia. rewrite seq_S, map_app. reflexivity.
Qed.

(** Moving the head drops the first interval from the view. *)
Lemma contents_pop q n :
  contents {| ranges := ranges q; head := (head q + 1) mod capacity; size := n |}
  = map (at_ q) (seq 1 n).
Proof.
  unfold contents. cbn [size]. rewrite <- seq_shift, map_map. apply map_ext. intros i.
  unfold at_. cbn [ranges head]. rewrite Nat.Div0.add_mod_idemp_l. do 2 f_equal. lia.
Qed.

Lemma at_head q : inv q -> ranges q !!! head q = at_ q 0.
Proof.
  intros [H1 H2 H3 H4]. unfold at_. rewrite Nat.add_0_r, Nat.mod_small by assumption. reflexivity.
Qed.

Lemma contents_set_first q r : inv q -> (0 < size q)%nat ->
  contents {| ranges := <[head q := r]> (ranges q); head := head q; size := size q |}
  = r :: map (at_ q) (seq 1 (size q - 1)).
Proof.
  intros [H1 H2 H3 H4] Hs. rewrite contents_cons by assumption. simpl size. f_equal.
  - unfold at_. cbn [ranges head]. rewrite Nat.add_0_r, Nat.mod_small by assumption.
    apply list_lookup_total_insert_eq. lia.
  - apply map_ext_in. intros i Hi. apply in_seq in Hi. unfold at_. cbn [ranges head].
    apply list_lookup_total_insert_ne.
    rewrite ring_index by lia. destruct (Nat.ltb_spec (head q + i) capacity); lia.
Qed.

Lemma contents_stored q merged : length (ranges q) = capacity -> (length merged <= capacity)%nat ->
  contents {| ranges := overwrite 0 merged (ranges q); head := 0; size := length merged |} = merged.
Proof.
  intros Hl Hm. unfold contents. simpl size. apply list_eq. intros i. rewrite list_lookup_fmap.
  destruct (decide (i < length merged)%nat) as [Hi|Hi].
  - rewrite lookup_seq_lt by lia. cbn [fmap option_fmap option_map]. unfold at_.
    cbn [ranges head]. rewrite !Nat.add_0_l, Nat.mod_small by lia.
    unfold overwrite. simpl. rewrite list_lookup_total_alt, lookup_app_l by lia.
    destruct (lookup_lt_is_Some_2 merged i Hi) as [x Hx]. rewrite Hx. reflexivity.
  - rewrite lookup_seq_ge, lookup_ge_None_2 by lia. reflexivity.
Qed.

(** *** Operations *)

Definition union (q : t) (incoming : list SequenceRange) (v : Z) : Prop :=
  covers (contents q) v \/ Exists (fun r => wire_in r v) incoming.

Lemma merged_spec q incoming l : inv q -> Forall valid incoming -> split_incoming incoming = Some l ->
  let merged := rev (merge_loop (contents q) (sort_by_first l) []) in
  canonical 0 merged /\ (forall v, SequenceNumber.wf v -> covers merged v <-> union q incoming v).
Proof.
  intros Hinv Hv Hsp. pose proof (split_incoming_spec incoming Hv) as H. rewrite Hsp in H.
  destruct H as [Hf Hc]. destruct (canonical_flat _ 0 ltac:(lia) (inv_canonical _ Hinv)) as [Cf Cs].
  destruct (merge_loop_spec (contents q) (sort_by_first l) []) as [M1 M2]; auto.
  - exact I.
  - rewrite sort_by_first_perm. exact Hf.
  - apply sort_by_first_sorted.
  - apply Forall_true. simpl. auto.
  - apply Forall_true. simpl. auto.
  - split.
    + rewrite <- (app_nil_r (rev _)). apply descending_canonical; [assumption|].
      destruct (merge_loop _ _ _); exact I.
    + intros v Hwf. rewrite (covers_perm _ _ _ (Permutation_sym (Permutation_rev _))), M2.
      rewrite (covers_perm _ _ _ (sort_by_first_perm l)), covers_nil, Hc by assumption.
      unfold union. tauto.
Qed.

Lemma queue_spec q incoming : inv q -> Forall valid incoming ->
  let '(ok, q') := queue q incoming in
  if ok then
    inv q' /\ (forall v, SequenceNumber.wf v -> covers (contents q') v <-> union q incoming v)
  else
    q' = q /\
    ((maximum_range_drop_terms < length incoming)%nat \/
     Exists (fun r => SequenceNumber.distance_from (range_last r) (range_first r) < 0) incoming \/
     exists l, canonical 0 l /\ (capacity < length l)%nat /\
       forall v, SequenceNumber.wf v -> covers l v <-> union q incoming v).
Proof.
  intros Hinv Hv. unfold queue. rewrite (inv_length _ Hinv), Nat.eqb_refl. simpl orb.
  destruct (Nat.ltb_spec maximum_range_drop_terms (length incoming)) as [Hn|Hn]; simpl; [auto|].
  destruct (Nat.eqb_spec (length incoming) 0) as [Hz|Hz].
  { destruct incoming; [|discriminate]. split; [assumption|]. intros v _. unfold union.
    rewrite Exists_nil. tauto. }
  pose proof (split_incoming_spec incoming Hv) as Hsp.
  destruct (split_incoming incoming) as [l|] eqn:El; [|auto].
  destruct (merged_spec q incoming l Hinv Hv El) as [M1 M2].
  set (merged := rev _) in *. destruct (Nat.ltb_spec capacity (length merged)) as [Hc|Hc].
  { split; [reflexivity|]. right. right. exists merged. auto. }
  pose proof (contents_stored q merged (inv_length _ Hinv) Hc) as Hcs.
  split; [|intros v Hwf; rewrite Hcs; auto].
  split; simpl; try lia.
  - rewrite overwrite_length; rewrite (inv_length _ Hinv); lia.
  - unfold capacity. lia.
  - rewrite Hcs. exact M1.
Qed.

(** An interval that needs more than one wire range. *)
Definition long (r : SequenceRange) : bool :=
  SequenceNumber.half_range <=? range_last r - range_first r.

Definition measure (q : t) : nat := size q + countb long (contents q).

(** [r] is sent: it is a forward range and leaves the union exactly once. *)
Definition emitted (q : t) (r : SequenceRange) (q' : t) : Prop :=
  inv q' /\ valid r /\ 0 <= SequenceNumber.distance_from (range_last r) (range_first r) /\
  (forall v, SequenceNumber.wf v ->
     (covers (contents q) v <-> wire_in r v \/ covers (contents q') v) /\
     ~ (wire_in r v /\ covers (contents q') v)) /\
  (measure q' < measure q)%nat.

Lemma wire_in_flat r v : flat r -> SequenceNumber.wf v ->
  wire_in r v <-> range_first r <= v <= range_last r.
Proof.
  unfold flat, SequenceNumber.wf, wire_in, SequenceNumber.off. SequenceNumber.consts. intros. zlia.
Qed.

(** What the last interval of a canonical list is. *)
Lemma canonical_last a x : forall from, canonical from (a ++ [x]) ->
  canonical from a /\ from <= range_first x <= range_last x /\
  range_last x < SequenceNumber.modulus /\ forall v, covers a v -> v < range_first x.
Proof.
  induction a as [|r a IH]; intros from; simpl.
  - intros (H1 & H2 & _). repeat split; auto; try lia. intros v Hv. apply covers_nil in Hv. tauto.
  - intros (H1 & H2 & H3). destruct (IH _ H3) as (I1 & I2 & I3 & I4).
    repeat split; auto; try lia. intros v. rewrite covers_cons. intros [Hv|Hv]; [lia|auto].
Qed.

Lemma flat_distance r : flat r -> range_last r - range_first r < SequenceNumber.half_range ->
  SequenceNumber.distance_from (range_last r) (range_first r) = range_last r - range_first r.
Proof.
  unfold flat. intros H1 H2. apply SequenceNumber.distance_unique; [|reflexivity].
  SequenceNumber.consts. lia.
Qed.

(** The whole first interval. *)
Lemma next_whole q : inv q -> (0 < size q)%nat -> long (at_ q 0) = false ->
  emitted q (at_ q 0) {| ranges := ranges q; head := (head q + 1) mod capacity; size := size q - 1 |}.
Proof.
  intros Hinv Hs Hl. pose proof (inv_canonical _ Hinv) as Hc.
  rewrite contents_cons in Hc by assumption. destruct Hc as (C1 & C2 & C3).
  assert (Hf : flat (at_ q 0)) by (split; lia). unfold emitted, measure.
  rewrite contents_pop, (contents_cons q) by assumption. unfold long in Hl. b2p.
  split; [|split; [|split; [|split]]].
  - destruct Hinv. split; cbn [ranges head size]; auto; try lia; [apply ring_index_lt; unfold capacity; lia|].
    rewrite contents_pop. eapply canonical_weaken; [|exact C3]. lia.
  - unfold valid, SequenceNumber.wf. lia.
  - rewrite flat_distance by (auto; lia). lia.
  - intros v Hv. rewrite covers_cons, wire_in_flat by assumption. split; [tauto|].
    intros [Hv1 Hv2]. pose proof (canonical_ge _ _ _ C3 Hv2). lia.
  - simpl. destruct (long (at_ q 0)); lia.
Qed.

(** The first half-space of a long first interval. *)
Lemma next_part q : inv q -> (0 < size q)%nat -> long (at_ q 0) = true ->
  let first := at_ q 0 in
  let r := {| range_first := range_first first;
              range_last := SequenceNumber.advanced (range_first first)
                              (SequenceNumber.half_range - 1) |} in
  emitted q r {| ranges := <[head q := {| range_first := SequenceNumber.next (range_last r);
                                          range_last := range_last first |}]> (ranges q);
                 head := head q; size := size q |}.
Proof.
  intros Hinv Hs Hl first r. pose proof (inv_canonical _ Hinv) as Hc.
  rewrite contents_cons in Hc by assumption. destruct Hc as (C1 & C2 & C3). fold first in C1, C2, C3.
  unfold long in Hl. fold first in Hl. b2p.
  assert (El : range_last r = range_first first + SequenceNumber.half_range - 1).
  { unfold r. simpl. rewrite SequenceNumber.advanced_mod, Z.mod_small; SequenceNumber.consts; lia. }
  assert (En : SequenceNumber.next (range_last r) = range_first first + SequenceNumber.half_range).
  { rewrite El, SequenceNumber.next_mod, Z.mod_small; SequenceNumber.consts; lia. }
  assert (Hf : flat r). { unfold flat. rewrite El. simpl. SequenceNumber.consts. lia. }
  rewrite En. unfold emitted, measure. rewrite contents_set_first, (contents_cons q) by assumption.
  fold first. split; [|split; [|split; [|split]]].
  - pose proof Hinv as [H1 H2 H3 H4].
    split; cbn [ranges head size]; rewrite ?length_insert; auto.
    rewrite contents_set_first by assumption. simpl. SequenceNumber.consts.
    repeat split; auto; lia.
  - unfold valid, SequenceNumber.wf. unfold flat in Hf. simpl in *. SequenceNumber.consts. lia.
  - rewrite flat_distance by (auto; rewrite El; simpl; lia). rewrite El. simpl. SequenceNumber.consts. lia.
  - intros v Hv. rewrite !covers_cons, wire_in_flat by assumption. rewrite El. simpl.
    SequenceNumber.consts. split; [intuition lia|]. intros [Hv1 [Hv2|Hv2]]; [lia|].
    pose proof (canonical_ge _ _ _ C3 Hv2). lia.
  - cbn [size countb]. unfold long at 1 3. cbn [range_first range_last].
    rewrite (proj2 (Z.leb_le _ _) Hl), (proj2 (Z.leb_gt _ _)); SequenceNumber.consts; lia.
Qed.

(** The two end intervals joined over the wrap point. *)
Lemma next_wrap q : inv q -> (1 < size q)%nat -> range_first (at_ q 0) = 0 ->
  range_last (at_ q (size q - 1)) = SequenceNumber.mask ->
  let wrap := {| range_first := range_first (at_ q (size q - 1)); range_last := range_last (at_ q 0) |} in
  0 <= SequenceNumber.distance_from (range_last wrap) (range_first wrap) ->
  emitted q wrap {| ranges := ranges q; head := (head q + 1) mod capacity; size := size q - 2 |}.
Proof.
  intros Hinv Hs H0 Hm wrap Hd. pose proof (inv_canonical _ Hinv) as Hc.
  rewrite contents_ends in Hc by assumption. destruct Hc as (C1 & C2 & C3).
  destruct (canonical_last _ _ _ C3) as (L1 & L2 & L3 & L4).
  unfold emitted, measure. rewrite contents_pop, (contents_ends q) by assumption.
  split; [|split; [|split; [exact Hd|split]]].
  - destruct Hinv. split; cbn [ranges head size]; auto; try lia; [apply ring_index_lt; unfold capacity; lia|].
    rewrite contents_pop. eapply canonical_weaken; [|exact L1]. lia.
  - unfold valid, wrap, SequenceNumber.wf. simpl. lia.
  - intros v Hv. rewrite covers_cons, covers_app, covers_cons, covers_nil, H0, Hm.
    assert (Hw : wire_in wrap v <-> 0 <= v <= range_last (at_ q 0) \/
              range_first (at_ q (size q - 1)) <= v <= SequenceNumber.mask).
    { unfold wire_in, wrap, SequenceNumber.off, SequenceNumber.wf in *. simpl.
      SequenceNumber.consts. zlia. }
    rewrite Hw. split; [tauto|]. intros [Hv1 Hv2].
    pose proof (canonical_ge _ _ _ L1 Hv2). specialize (L4 v Hv2). lia.
  - cbn [size countb]. rewrite countb_app. lia.
Qed.

Lemma next_spec q : inv q ->
  match next q with
  | (None, q') => q' = q /\ contents q = []
  | (Some r, q') => emitted q r q'
  end.
Proof.
  intros Hinv. unfold next, empty. destruct (Nat.eqb_spec (size q) 0) as [Hz|Hz].
  { split; [reflexivity|]. unfold contents. rewrite Hz. reflexivity. }
  rewrite at_head by assumption.
  change (SequenceNumber.make 0) with 0.
  change (SequenceNumber.make SequenceNumber.mask) with SequenceNumber.mask.
  destruct (_ && _ && _ && _) eqn:E.
  { b2p. apply next_wrap; auto. }
  clear E. pose proof (inv_canonical _ Hinv) as Hc. rewrite contents_cons in Hc by lia.
  destruct Hc as (C1 & C2 & _).
  rewrite u32_id by (unfold is_u32, SequenceNumber.modulus in *; lia). fold (long (at_ q 0)).
  destruct (long (at_ q 0)) eqn:El; [apply next_part|apply next_whole]; auto; lia.
Qed.

Lemma drop_make_inv : inv make /\ contents make = [].
Proof. split; [split; try reflexivity; vm_compute; lia|reflexivity]. Qed.

(** Calling [next] until it returns nothing. *)
Fixpoint drain (fuel : nat) (q : t) : list SequenceRange * t :=
  match fuel with
  | O => ([], q)
  | S fuel =>
      match next q with
      | (None, q') => ([], q')
      | (Some r, q') => let '(rs, q'') := drain fuel q' in (r :: rs, q'')
      end
  end.

Lemma drain_spec fuel : forall q, inv q -> (measure q <= fuel)%nat ->
  let '(rs, q') := drain fuel q in
  contents q' = [] /\ (length rs <= measure q)%nat /\
  Forall (fun r => valid r /\ 0 <= SequenceNumber.distance_from (range_last r) (range_first r)) rs /\
  forall v, SequenceNumber.wf v ->
    (covers (contents q) v <-> Exists (fun r => wire_in r v) rs) /\
    (forall i j r r', rs !! i = Some r -> rs !! j = Some r' -> wire_in r v -> wire_in r' v -> i = j).
Proof.
  induction fuel as [|fuel IH]; intros q Hinv Hm; simpl.
  { assert (Hz : contents q = []) by (unfold contents; unfold measure in Hm; replace (size q) with 0%nat by lia; reflexivity).
    rewrite Hz. split; [reflexivity|]. split; [simpl; lia|]. split; [constructor|]. intros v Hv.
    rewrite covers_nil, Exists_nil. split; [tauto|]. intros i j r r' H. rewrite lookup_nil in H. discriminate. }
  pose proof (next_spec q Hinv) as H. destruct (next q) as [[r|] q'].
  2:{ destruct H as [-> Hz]. rewrite Hz. split; [reflexivity|]. split; [simpl; lia|]. split; [constructor|]. intros v Hv.
      rewrite covers_nil, Exists_nil. split; [tauto|]. intros i j r r' H. rewrite lookup_nil in H. discriminate. }
  destruct H as (E1 & E2 & E3 & E4 & E5). specialize (IH q' E1 ltac:(lia)).
  destruct (drain fuel q') as [rs q'']. destruct IH as (I1 & I2 & I3 & I4).
  split; [assumption|]. split; [simpl; lia|]. split; [constructor; auto|]. intros v Hv.
  destruct (E4 v Hv) as [X1 X2]. destruct (I4 v Hv) as [Y1 Y2].
  rewrite Exists_cons, X1, Y1. split; [tauto|].
  assert (Hno : forall k x, rs !! k = Some x -> wire_in r v -> wire_in x v -> False).
  { intros k x Hk W1 W2. apply X2. split; [assumption|]. apply Y1, Exists_exists. exists x.
    split; [eapply list_elem_of_lookup_2; eauto|assumption]. }
  intros [|i] [|j] x x' Hi Hj W1 W2; simpl in Hi, Hj; [reflexivity| | |].
  - injection Hi as <-. exfalso. eauto.
  - injection Hj as <-. exfalso. eauto.
  - f_equal. eauto.
Qed.

(** ** Canonical lists are determined by what they cover *)

Lemma head_least r rs from v : canonical from (r :: rs) -> covers (r :: rs) v -> range_first r <= v.
Proof. intros (H1 & H2 & H3). apply (canonical_ge (range_first r)). simpl. auto with lia. Qed.

Lemma canonical_last_le r1 t1 r2 t2 from :
  canonical from (r1 :: t1) -> canonical from (r2 :: t2) -> 0 <= from ->
  (forall v, SequenceNumber.wf v -> covers (r2 :: t2) v -> covers (r1 :: t1) v) ->
  range_first r1 = range_first r2 -> range_last r2 <= range_last r1.
Proof.
  intros (A1 & A2 & A3) (B1 & B2 & B3) H0 H Hf.
  destruct (Z.le_gt_cases (range_last r2) (range_last r1)) as [|Hgt]; [assumption|exfalso].
  assert (Hc : covers (r1 :: t1) (range_last r1 + 1)).
  { apply H; [unfold SequenceNumber.wf; lia|]. apply covers_cons. left. lia. }
  apply covers_cons in Hc as [Hc|Hc]; [lia|]. pose proof (canonical_ge _ _ _ A3 Hc). lia.
Qed.

Lemma canonical_unique l1 : forall l2 from, 0 <= from -> canonical from l1 -> canonical from l2 ->
  (forall v, SequenceNumber.wf v -> covers l1 v <-> covers l2 v) -> l1 = l2.
Proof.
  assert (Hfirst : forall r rs from, 0 <= from -> canonical from (r :: rs) ->
    SequenceNumber.wf (range_first r) /\ covers (r :: rs) (range_first r)).
  { intros r rs from H0 (H1 & H2 & H3). split; [unfold SequenceNumber.wf; lia|].
    apply covers_cons. left. lia. }
  induction l1 as [|r1 t1 IH]; intros [|r2 t2] from H0 C1 C2 H; [reflexivity| | |].
  - destruct (Hfirst _ _ _ H0 C2) as [W Hc]. apply H in Hc; [|assumption]. destruct (covers_nil (range_first r2)). tauto.
  - destruct (Hfirst _ _ _ H0 C1) as [W Hc]. apply H in Hc; [|assumption]. destruct (covers_nil (range_first r1)). tauto.
  - assert (Ef : range_first r1 = range_first r2).
    { destruct (Hfirst _ _ _ H0 C1) as [W1 K1]. destruct (Hfirst _ _ _ H0 C2) as [W2 K2].
      apply (H _ W1) in K1. apply (H _ W2) in K2.
      pose proof (head_least _ _ _ _ C2 K1). pose proof (head_least _ _ _ _ C1 K2). lia. }
    assert (El : range_last r1 = range_last r2).
    { pose proof (canonical_last_le r1 t1 r2 t2 from C1 C2 H0 (fun v W => proj2 (H v W)) Ef).
      pose proof (canonical_last_le r2 t2 r1 t1 from C2 C1 H0 (fun v W => proj1 (H v W)) (eq_sym Ef)). lia. }
    assert (Er : r1 = r2) by (destruct r1, r2; simpl in *; congruence). subst r2.
    destruct C1 as (A1 & A2 & A3). destruct C2 as (B1 & B2 & B3). f_equal.
    apply (IH t2 (range_last r1 + 2)); auto; [lia|]. intros v W. specialize (H v W).
    rewrite !covers_cons in H. split; intros Hc.
    + pose proof (canonical_ge _ _ _ A3 Hc). destruct H as [H _]. destruct H; [auto|lia|assumption].
    + pose proof (canonical_ge _ _ _ B3 Hc). destruct H as [_ H]. destruct H; [auto|lia|assumption].
Qed.

(** Queueing batch after batch. *)
Fixpoint queue_all (q : t) (batches : list (list SequenceRange)) : list bool * t :=
  match batches with
  | [] => ([], q)
  | incoming :: rest =>
      let '(ok, q1) := queue q incoming in
      let '(oks, q2) := queue_all q1 rest in (ok :: oks, q2)
  end.

(** The ranges of the batches that were accepted. *)
Fixpoint accepted (batches : list (list SequenceRange)) (oks : list bool) : list SequenceRange :=
  match batches, oks with
  | b :: batches, ok :: oks => (if ok : bool then b else []) ++ accepted batches oks
  | _, _ => []
  end.

Lemma queue_all_spec batches : forall q, inv q -> Forall (Forall valid) batches ->
  let '(oks, q') := queue_all q batches in
  inv q' /\ forall v, SequenceNumber.wf v ->
    covers (contents q') v <-> covers (contents q) v \/ Exists (fun r => wire_in r v) (accepted batches oks).
Proof.
  induction batches as [|b batches IH]; intros q Hinv Hv; simpl.
  { split; [assumption|]. intros v _. rewrite Exists_nil. tauto. }
  apply Forall_cons in Hv as [Hb Hv]. pose proof (queue_spec q b Hinv Hb) as H.
  destruct (queue q b) as [ok q1].
  assert (H' : inv q1 /\ forall v, SequenceNumber.wf v -> covers (contents q1) v <->
     covers (contents q) v \/ Exists (fun r => wire_in r v) (if ok then b else [])).
  { destruct ok; [exact H|]. destruct H as [-> _]. split; [assumption|]. intros v _.
    rewrite Exists_nil. tauto. }
  destruct H' as [H1 H2]. specialize (IH q1 H1 Hv). destruct (queue_all q1 batches) as [oks q2].
  destruct IH as [I1 I2]. split; [assumption|]. intros v W. rewrite I2, H2, Exists_app by assumption. tauto.
Qed.

Lemma measure_bound q : inv q -> (measure q <= 2 * capacity)%nat.
Proof.
  intros [H1 H2 H3 H4]. unfold measure. pose proof (countb_le long (contents q)) as H.
  unfold contents in H at 2. rewrite length_map, length_seq in H. lia.
Qed.
End RangeDropQueue.

(** C34: The queue announces exactly the accepted drops.  Whatever batches of
    ranges are queued, wrapping ones included, draining the queue terminates
    (730 calls are always enough), every emitted range is a forward range that
    the wire format can carry, and a sequence number is announced if and only
    if it lies in an accepted range, and then exactly once. *)
Theorem range_drops_announced_exactly batches oks q rs q' :
  Forall (Forall RangeDropQueue.valid) batches ->
  RangeDropQueue.queue_all RangeDropQueue.make batches = (oks, q) ->
  RangeDropQueue.drain 730 q = (rs, q') ->
  RangeDropQueue.next q' = (None, q') /\
  Forall (fun r => 0 <= SequenceNumber.distance_from (range_last r) (range_first r)) rs /\
  forall v, SequenceNumber.wf v ->
    (Exists (fun r => RangeDropQueue.wire_in r v) rs <->
     Exists (fun r => RangeDropQueue.wire_in r v) (RangeDropQueue.accepted batches oks)) /\
    (forall i j r r', rs !! i = Some r -> rs !! j = Some r' ->
       RangeDropQueue.wire_in r v -> RangeDropQueue.wire_in r' v -> i = j).
Proof.
  intros Hv Hq Hd. destruct RangeDropQueue.drop_make_inv as [Hi Hc].
  pose proof (RangeDropQueue.queue_all_spec batches _ Hi Hv) as H1. rewrite Hq in H1.
  destruct H1 as [H1 H2]. pose proof (RangeDropQueue.measure_bound q H1) as Hm.
  change (2 * RangeDropQueue.capacity)%nat with 730%nat in Hm.
  pose proof (RangeDropQueue.drain_spec 730 q H1 Hm) as H3. rewrite Hd in H3.
  destruct H3 as (D1 & D2 & D3 & D4).
  assert (Hz : RangeDropQueue.size q' = 0%nat).
  { apply (f_equal length) in D1. unfold RangeDropQueue.contents in D1.
    rewrite length_map, length_seq in D1. exact D1. }
  split; [unfold RangeDropQueue.next, RangeDropQueue.empty; rewrite Hz; reflexivity|].
  split; [eapply Forall_impl; [exact D3|]; simpl; tauto|].
  intros v W. destruct (D4 v W) as [D5 D6]. split; [|exact D6].
  rewrite <- D5, H2, Hc, RangeDropQueue.covers_nil by assumption. tauto.
Qed.

Lemma range_drops_announced_exactly_witness :
  let batches := [[{| range_first := 2147483640; range_last := 3 |}];
                  [{| range_first := 4; range_last := 4 |}; {| range_first := 9; range_last := 11 |}]] in
  RangeDropQueue.drain 730 (RangeDropQueue.queue_all RangeDropQueue.make batches).2
    = RangeDropQueue.drain 3 (RangeDropQueue.queue_all RangeDropQueue.make batches).2 /\
  Forall (fun r => 0 <= SequenceNumber.distance_from (range_last r) (range_first r))
    [{| range_first := 2147483640; range_last := 4 |}; {| range_first := 9; range_last := 11 |}].
Proof.
  intros batches. split; [vm_compute; reflexivity|].
  refine (proj1 (proj2 (range_drops_announced_exactly batches [true; true] _ _ _ _ _ _))).
  - repeat constructor; vm_compute; (reflexivity || discriminate).
  - vm_compute. reflexivity.
  - vm_compute. reflexivity.
Defined.

(** Admission is exact and atomic.  A batch that fits a NAK packet and
    holds only forward ranges is accepted if and only if its union with the
    pending drops can be written with at most 365 separated intervals; a
    refused batch leaves the queue as it was. *)
Theorem range_drop_admission q incoming :
  RangeDropQueue.inv q -> Forall RangeDropQueue.valid incoming ->
  (length incoming <= maximum_range_drop_terms)%nat ->
  Forall (fun r => 0 <= SequenceNumber.distance_from (range_last r) (range_first r)) incoming ->
  let '(ok, q') := RangeDropQueue.queue q incoming in
  (ok = false -> q' = q) /\
  (ok = true <->
   exists l, RangeDropQueue.canonical 0 l /\ (length l <= RangeDropQueue.capacity)%nat /\
     forall v, SequenceNumber.wf v ->
       RangeDropQueue.covers l v <-> RangeDropQueue.union q incoming v).
Proof.
  intros Hi Hv Hl Hf. pose proof (RangeDropQueue.queue_spec q incoming Hi Hv) as H.
  destruct (RangeDropQueue.queue q incoming) as [[] q'].
  - destruct H as [H1 H2]. split; [discriminate|]. split; [intros _|reflexivity].
    exists (RangeDropQueue.contents q'). destruct H1 as [H3 H4 H5 H6].
    split; [assumption|]. split; [|assumption].
    unfold RangeDropQueue.contents. rewrite length_map, length_seq. assumption.
  - destruct H as [-> H]. split; [reflexivity|]. split; [discriminate|]. intros (l & L1 & L2 & L3).
    destruct H as [H|[H|(m & M1 & M2 & M3)]]; [lia| |].
    + apply Exists_exists in H as (r & Hin & Hr). rewrite Forall_forall in Hf.
      specialize (Hf r Hin). simpl in Hf. lia.
    + assert (l = m); [|subst; lia]. apply (RangeDropQueue.canonical_unique l m 0); auto; [lia|].
      intros v W. rewrite L3, M3 by assumption. tauto.
Qed.

Lemma range_drop_admission_witness :
  let '(ok, q') := RangeDropQueue.queue RangeDropQueue.make [{| range_first := 5; range_last := 6 |}] in
  ok = false -> q' = RangeDropQueue.make.
Proof.
  pose proof (range_drop_admission RangeDropQueue.make [{| range_first := 5; range_last := 6 |}]) as H.
  destruct (RangeDropQueue.queue _ _) as [ok q']. apply H.
  - apply RangeDropQueue.drop_make_inv.
  - repeat constructor; vm_compute; (reflexivity || discriminate).
  - vm_compute. lia.
  - repeat constructor; vm_compute; discriminate.
Defined.
