(* ===== verification/PayloadPool.v ===== *)
(** Fixed-capacity payload storage with index reuse ([PayloadPool] of
    include/robotweax/srt/payload_pool.hpp). *)
From stdpp Require Import gmap.
From S2P Require Import Prelude Sequence Packet.

Module PayloadPool.
(** [payload] is the arena of [capacity * 1456] bytes; the allocator that
    provides it (src/payload_pool.cpp) only decides where it lives. *)
Record t := {
  payload : list Z;
  sizes : list Z;
  free_indices : list nat;
  next_unused : nat;
  free_count : nat;
}.

Definition width : nat := maximum_data_payload_size.

Definition checked_bytes (capacity : nat) : option nat :=
  if (capacity =? 0)%nat || (SequenceNumber.half_range <=? Z.of_nat capacity)
     || (u64_max / Z.of_nat width <? Z.of_nat capacity)
  then None else Some (capacity * width)%nat.

(** [arena] is the uninitialised memory the allocator returned. *)
Definition make (capacity : nat) (arena : list Z) : option t :=
  match checked_bytes capacity with
  | None => None
  | Some _ => Some {| payload := arena; sizes := replicate capacity 0;
                      free_indices := replicate capacity 0%nat;
                      next_unused := 0; free_count := 0 |}
  end.

Definition data_offset (index : nat) : nat := (index * width)%nat.

Definition store (p : t) (index : nat) (bytes : list Z) : t :=
  {| payload := overwrite (data_offset index) bytes (payload p);
     sizes := <[index := u16 (Z.of_nat (length bytes))]> (sizes p);
     free_indices := free_indices p; next_unused := next_unused p;
     free_count := free_count p |}.

Definition acquire (p : t) (bytes : list Z) : nat * t :=
  let '(index, p) :=
    if negb (free_count p =? 0)%nat then
      (free_indices p !!! (free_count p - 1)%nat,
       {| payload := payload p; sizes := sizes p; free_indices := free_indices p;
          next_unused := next_unused p; free_count := free_count p - 1 |})
    else
      (next_unused p,
       {| payload := payload p; sizes := sizes p; free_indices := free_indices p;
          next_unused := next_unused p + 1; free_count := free_count p |}) in
  (index, store p index bytes).

Definition release (p : t) (index : nat) : t :=
  {| payload := payload p; sizes := <[index := 0]> (sizes p);
     free_indices := <[free_count p := index]> (free_indices p);
     next_unused := next_unused p; free_count := free_count p + 1 |}.

Definition get (p : t) (index : nat) : list Z :=
  take (Z.to_nat (sizes p !!! index)) (drop (data_offset index) (payload p)).

(** The copy constructor: into a fresh [arena], slot by slot up to
    [next_unused_], and only the bytes in use. *)
Fixpoint copy_slots (p : t) (count : nat) (arena : list Z) : list Z :=
  match count with
  | O => arena
  | S index => overwrite (data_offset index) (get p index) (copy_slots p index arena)
  end.

Definition copy (p : t) (arena : list Z) : t :=
  {| payload := copy_slots p (next_unused p) arena; sizes := sizes p;
     free_indices := free_indices p; next_unused := next_unused p;
     free_count := free_count p |}.

(** ** Invariant *)

Definition free_list (p : t) : list nat := take (free_count p) (free_indices p).

(** [m] maps the indices handed out to the bytes stored there. *)
Record inv (capacity : nat) (p : t) (m : gmap nat (list Z)) : Prop := {
  inv_payload : length (payload p) = (capacity * width)%nat;
  inv_sizes : length (sizes p) = capacity;
  inv_free_length : length (free_indices p) = capacity;
  inv_next : (next_unused p <= capacity)%nat;
  inv_count : (free_count p + base.size m = next_unused p)%nat;
  inv_nodup : NoDup (free_list p);
  inv_live : forall i, (i < next_unused p)%nat <-> i ∈ free_list p \/ is_Some (m !! i);
  inv_apart : forall i, i ∈ free_list p -> m !! i = None;
  inv_width : forall i bs, m !! i = Some bs -> (length bs <= width)%nat;
  inv_stored : forall i bs, m !! i = Some bs -> sizes p !!! i = Z.of_nat (length bs);
  inv_get : forall i bs, m !! i = Some bs -> get p i = bs;
  inv_small : Forall (fun n => 0 <= n <= Z.of_nat width) (sizes p);
}.

(** A payload length fits [std::uint16_t]. *)
Lemma u16_length (bs : list Z) : (length bs <= width)%nat ->
  u16 (Z.of_nat (length bs)) = Z.of_nat (length bs).
Proof. unfold u16, width, maximum_data_payload_size. intros. apply Z.mod_small. lia. Qed.

Lemma get_store_same p i bs :
  (length bs <= width)%nat -> (i < length (sizes p))%nat ->
  length (payload p) = (length (sizes p) * width)%nat -> get (store p i bs) i = bs.
Proof.
  intros Hb Hi Hl. unfold get, store. simpl. rewrite list_lookup_total_insert_eq by assumption.
  rewrite u16_length by assumption. rewrite Nat2Z.id. apply overwrite_read. unfold data_offset. nia.
Qed.

Lemma get_store_other p i j bs :
  i <> j -> (length bs <= width)%nat -> (Z.to_nat (sizes p !!! j) <= width)%nat ->
  (i * width + length bs <= length (payload p))%nat ->
  get (store p i bs) j = get p j.
Proof.
  intros Hne Hb Hj Hl. unfold get, store. simpl. rewrite list_lookup_total_insert_ne by assumption.
  apply overwrite_elsewhere; unfold data_offset; [lia|].
  destruct (decide (i < j)%nat); [left|right]; nia.
Qed.

(** Storing at an index in use keeps every other payload. *)
Lemma store_inv capacity p m i bs :
  inv capacity p m -> is_Some (m !! i) -> (length bs <= width)%nat ->
  inv capacity (store p i bs) (<[i := bs]> m).
Proof.
  intros [A1 A2 A3 A4 A5 A6 A7 A8 A9 A10 A11 A12] [old Hi] Hb.
  assert (Hlt : (i < capacity)%nat).
  { assert (i < next_unused p)%nat by (apply A7; right; eauto). lia. }
  assert (Hfit : (i * width + length bs <= length (payload p))%nat) by nia.
  split; simpl; auto.
  - rewrite overwrite_length; assumption.
  - rewrite length_insert. assumption.
  - rewrite map_size_insert_Some; eauto.
  - intros j. unfold free_list. simpl. fold (free_list p). rewrite A7, lookup_insert_is_Some'.
    split; [tauto|]. intros [?|[<-|?]]; eauto.
  - intros j Hj. rewrite lookup_insert_ne; [auto|]. intros <-. rewrite (A8 i Hj) in Hi. discriminate.
  - intros j b. rewrite lookup_insert_Some. intros [[<- <-]|[_ Hj]]; eauto.
  - intros j b. rewrite lookup_insert_Some. intros [[<- <-]|[Hne Hj]].
    + rewrite list_lookup_total_insert_eq by lia. apply u16_length. assumption.
    + rewrite list_lookup_total_insert_ne by assumption. auto.
  - intros j b. rewrite lookup_insert_Some. intros [[<- <-]|[Hne Hj]].
    + apply get_store_same; try assumption; lia.
    + rewrite get_store_other; auto. rewrite (A10 j b Hj), Nat2Z.id. eauto.
  - apply Forall_insert; [assumption|]. rewrite u16_length by assumption. lia.
Qed.

Lemma free_list_last capacity p m : inv capacity p m -> free_count p <> 0%nat ->
  free_list p = take (free_count p - 1) (free_indices p) ++ [free_indices p !!! (free_count p - 1)%nat].
Proof.
  intros [A1 A2 A3 A4 A5 A6 A7 A8 A9 A10 A11 A12] Hz. unfold free_list.
  replace (free_count p) with (S (free_count p - 1)) at 1 by lia. apply take_S_r.
  apply list_lookup_lookup_total_lt. lia.
Qed.

(** The state after an index has been chosen and before its bytes are stored. *)
Definition chosen (p : t) : nat * t :=
  if negb (free_count p =? 0)%nat then
    (free_indices p !!! (free_count p - 1)%nat,
     {| payload := payload p; sizes := sizes p; free_indices := free_indices p;
        next_unused := next_unused p; free_count := free_count p - 1 |})
  else
    (next_unused p,
     {| payload := payload p; sizes := sizes p; free_indices := free_indices p;
        next_unused := next_unused p + 1; free_count := free_count p |}).

(** The chosen index is not in use, and the other indices keep their role. *)
Lemma chosen_fresh capacity p m : inv capacity p m -> (base.size m < capacity)%nat ->
  let '(i, p') := chosen p in
  m !! i = None /\ (i < capacity)%nat /\ payload p' = payload p /\ sizes p' = sizes p /\
  free_indices p' = free_indices p /\ (next_unused p' <= capacity)%nat /\
  (free_count p' + S (base.size m) = next_unused p')%nat /\ NoDup (free_list p') /\
  (forall j, (j < next_unused p')%nat <-> j ∈ free_list p' \/ j = i \/ is_Some (m !! j)) /\
  (forall j, j ∈ free_list p' -> j <> i /\ m !! j = None).
Proof.
  intros Hinv Hs. pose proof Hinv as [A1 A2 A3 A4 A5 A6 A7 A8 A9 A10 A11 A12]. unfold chosen.
  destruct (Nat.eqb_spec (free_count p) 0) as [Hz|Hz]; cbn [negb].
  - assert (Hf : free_list p = []) by (unfold free_list; rewrite Hz; reflexivity).
    change (free_list {| payload := payload p; sizes := sizes p; free_indices := free_indices p;
      next_unused := next_unused p + 1; free_count := free_count p |}) with (free_list p).
    rewrite Hf in *. cbn [payload sizes free_indices next_unused free_count].
    assert (Hlive : forall j, is_Some (m !! j) <-> (j < next_unused p)%nat).
    { intros j. rewrite A7, elem_of_nil. tauto. }
    split. { apply eq_None_not_Some. rewrite Hlive. lia. }
    do 6 (split; [auto; lia|]). split; [constructor|]. split.
    + intros j. rewrite elem_of_nil, Hlive. lia.
    + intros j Hj. apply elem_of_nil in Hj. tauto.
  - set (i := free_indices p !!! (free_count p - 1)%nat).
    pose proof (free_list_last _ _ _ Hinv Hz) as Hf. fold i in Hf.
    set (p' := Build_t _ _ _ _ _). change (take (free_count p - 1) (free_indices p)) with (free_list p') in Hf.
    assert (Hmem : forall j, j ∈ free_list p <-> j ∈ free_list p' \/ j = i).
    { intros j. rewrite Hf, elem_of_app, list_elem_of_singleton. tauto. }
    assert (i < next_unused p)%nat by (apply A7; left; apply Hmem; auto).
    rewrite Hf in A6. apply NoDup_app in A6 as (N1 & N2 & N3).
    cbn [payload sizes free_indices next_unused free_count p'].
    split. { apply A8, Hmem. auto. }
    do 6 (split; [auto; lia|]). split; [assumption|]. split.
    + intros j. rewrite A7, Hmem. tauto.
    + intros j Hj. split; [|apply A8, Hmem; auto]. intros ->. apply (N2 i Hj).
      apply list_elem_of_singleton. reflexivity.
Qed.

Lemma acquire_chosen p bs :
  acquire p bs = ((chosen p).1, store (chosen p).2 (chosen p).1 bs).
Proof. unfold acquire, chosen. destruct (negb _); reflexivity. Qed.

Lemma acquire_inv capacity p m bs :
  inv capacity p m -> (base.size m < capacity)%nat -> (length bs <= width)%nat ->
  let '(i, p') := acquire p bs in
  m !! i = None /\ (i < capacity)%nat /\ inv capacity p' (<[i := bs]> m).
Proof.
  intros Hinv Hs Hb. rewrite acquire_chosen.
  pose proof (chosen_fresh capacity p m Hinv Hs) as H. destruct (chosen p) as [i q]. simpl.
  destruct H as (F1 & F2 & F3 & F4 & F5 & F6 & F7 & F8 & F9 & F10).
  split; [assumption|]. split; [assumption|]. destruct Hinv as [A1 A2 A3 A4 A5 A6 A7 A8 A9 A10 A11 A12].
  assert (Hfit : (i * width + length bs <= length (payload p))%nat) by nia.
  split; cbn [payload sizes free_indices next_unused free_count store];
    rewrite ?F3, ?F4, ?F5; auto.
  - rewrite overwrite_length; assumption.
  - rewrite length_insert. assumption.
  - rewrite map_size_insert_None by assumption. assumption.
  - intros j. change (free_list (store q i bs)) with (free_list q).
    rewrite F9, lookup_insert_is_Some'. intuition congruence.
  - intros j Hj. destruct (F10 j Hj). rewrite lookup_insert_ne by congruence. assumption.
  - intros j b. rewrite lookup_insert_Some. intros [[<- <-]|[_ Hj]]; eauto.
  - intros j b. rewrite lookup_insert_Some. intros [[<- <-]|[Hne Hj]].
    + rewrite list_lookup_total_insert_eq by lia. apply u16_length. assumption.
    + rewrite list_lookup_total_insert_ne by assumption. auto.
  - intros j b. rewrite lookup_insert_Some. intros [[<- <-]|[Hne Hj]].
    + apply get_store_same; rewrite ?F3, ?F4; try assumption; lia.
    + rewrite get_store_other; auto; rewrite ?F3, ?F4; auto.
      * rewrite <- (A11 j b Hj). unfold get. rewrite F3, F4. reflexivity.
      * rewrite (A10 j b Hj), Nat2Z.id. eauto.
  - apply Forall_insert; [assumption|]. rewrite u16_length by assumption. lia.
Qed.

Lemma release_inv capacity p m i :
  inv capacity p m -> is_Some (m !! i) -> inv capacity (release p i) (delete i m).
Proof.
  intros [A1 A2 A3 A4 A5 A6 A7 A8 A9 A10 A11 A12] [bs Hi].
  assert (Hpos : (0 < base.size m)%nat).
  { apply Nat.neq_0_lt_0. intros E. apply map_size_empty_inv in E. subst. rewrite lookup_empty in Hi. discriminate. }
  assert (Hf : free_list (release p i) = free_list p ++ [i]).
  { unfold free_list, release. simpl. rewrite Nat.add_1_r.
    rewrite (take_S_r _ _ i) by (apply list_lookup_insert_eq; lia).
    rewrite take_insert_ge by lia. reflexivity. }
  assert (Hni : i ∉ free_list p) by (intros Hin; rewrite (A8 i Hin) in Hi; discriminate).
  split; auto; cbn [payload sizes free_indices next_unused free_count release]; rewrite ?length_insert; auto.
  - rewrite map_size_delete_Some by eauto. lia.
  - rewrite Hf. apply NoDup_app. split; [assumption|]. split; [|apply NoDup_singleton].
    intros j Hj. rewrite list_elem_of_singleton. intros ->. tauto.
  - intros j. rewrite Hf, elem_of_app, list_elem_of_singleton, lookup_delete_is_Some, A7.
    destruct (decide (j = i)) as [->|]; intuition eauto.
  - intros j. rewrite Hf, elem_of_app, list_elem_of_singleton. intros [Hj| ->]; [|apply lookup_delete_eq].
    apply lookup_delete_None. auto.
  - intros j b. rewrite lookup_delete_Some. intros [_ Hj]. eauto.
  - intros j b. rewrite lookup_delete_Some. intros [Hne Hj].
    rewrite list_lookup_total_insert_ne by assumption. auto.
  - intros j b. rewrite lookup_delete_Some. intros [Hne Hj]. unfold get. simpl.
    rewrite list_lookup_total_insert_ne by assumption. apply A11. assumption.
  - apply Forall_insert; [assumption|]. lia.
Qed.

Lemma length_get capacity p m i : inv capacity p m -> (i < capacity)%nat ->
  length (get p i) = Z.to_nat (sizes p !!! i) /\ (Z.to_nat (sizes p !!! i) <= width)%nat.
Proof.
  intros [A1 A2 A3 A4 A5 A6 A7 A8 A9 A10 A11 A12] Hi.
  assert (Hs : 0 <= sizes p !!! i <= Z.of_nat width).
  { rewrite Forall_lookup in A12. apply (A12 i), list_lookup_lookup_total_lt. lia. }
  unfold get. rewrite length_take, length_drop, A1. unfold data_offset. split; [|lia].
  apply Nat.min_l. nia.
Qed.

Lemma copy_slots_spec capacity p m arena : inv capacity p m -> length arena = (capacity * width)%nat ->
  forall count, (count <= capacity)%nat ->
  length (copy_slots p count arena) = (capacity * width)%nat /\
  forall i, (i < count)%nat ->
    take (Z.to_nat (sizes p !!! i)) (drop (data_offset i) (copy_slots p count arena)) = get p i.
Proof.
  intros Hinv Ha. induction count as [|n IH]; intros Hc; [split; [assumption|lia]|].
  destruct IH as [I1 I2]; [lia|]. destruct (length_get capacity p m n Hinv ltac:(lia)) as [G1 G2].
  assert (Hfit : (data_offset n + length (get p n) <= length (copy_slots p n arena))%nat)
    by (unfold data_offset; rewrite I1, G1; nia).
  cbn [copy_slots]. split; [rewrite overwrite_length; assumption|].
  intros i Hi. destruct (decide (i = n)) as [->|Hne].
  - rewrite <- G1. apply overwrite_read. assumption.
  - rewrite overwrite_elsewhere; [apply I2; lia|assumption|].
    destruct (length_get capacity p m i Hinv ltac:(lia)) as [_ G3].
    right. unfold data_offset. nia.
Qed.

Lemma copy_inv capacity p m arena :
  inv capacity p m -> length arena = (capacity * width)%nat -> inv capacity (copy p arena) m.
Proof.
  intros Hinv Ha. pose proof Hinv as [A1 A2 A3 A4 A5 A6 A7 A8 A9 A10 A11 A12].
  destruct (copy_slots_spec capacity p m arena Hinv Ha (next_unused p) A4) as [C1 C2].
  split; auto. intros i bs Hi. rewrite <- (A11 i bs Hi). apply C2. apply A7. eauto.
Qed.

Lemma pool_make_inv capacity arena p : length arena = (capacity * width)%nat ->
  make capacity arena = Some p -> inv capacity p ∅.
Proof.
  unfold make, checked_bytes. intros Ha. destruct (_ || _); [discriminate|]. intros [= <-].
  split; cbn [payload sizes free_indices next_unused free_count]; rewrite ?length_replicate;
    auto; try lia.
  - apply NoDup_nil_2.
  - intros i. unfold free_list. simpl. rewrite elem_of_nil, lookup_empty, is_Some_alt. lia.
  - intros i bs. rewrite lookup_empty. discriminate.
  - intros i bs. rewrite lookup_empty. discriminate.
  - intros i bs. rewrite lookup_empty. discriminate.
  - apply Forall_replicate. lia.
Qed.

(** ** Every use that respects the pool's assertions *)

(** [reach capacity p m]: [p] results from operations under which the caller
    holds exactly the indices of [m], with the bytes it last stored there. *)
Inductive reach (capacity : nat) : t -> gmap nat (list Z) -> Prop :=
| reach_make arena p :
    length arena = (capacity * width)%nat -> make capacity arena = Some p -> reach capacity p ∅
| reach_acquire p m bs i p' :
    reach capacity p m -> (base.size m < capacity)%nat -> (length bs <= width)%nat ->
    acquire p bs = (i, p') -> reach capacity p' (<[i := bs]> m)
| reach_store p m i bs :
    reach capacity p m -> is_Some (m !! i) -> (length bs <= width)%nat ->
    reach capacity (store p i bs) (<[i := bs]> m)
| reach_release p m i :
    reach capacity p m -> is_Some (m !! i) -> reach capacity (release p i) (delete i m)
| reach_copy p m arena :
    reach capacity p m -> length arena = (capacity * width)%nat ->
    reach capacity (copy p arena) m.

Lemma reach_inv capacity p m : reach capacity p m -> inv capacity p m.
Proof.
  induction 1 as [arena p Ha Hm|p m bs i p' _ IH Hs Hb Ha|p m i bs _ IH Hi Hb|p m i _ IH Hi|p m arena _ IH Ha].
  - eapply pool_make_inv; eassumption.
  - pose proof (acquire_inv capacity p m bs IH Hs Hb) as H. rewrite Ha in H. apply H.
  - apply store_inv; assumption.
  - apply release_inv; assumption.
  - apply copy_inv; assumption.
Qed.
End PayloadPool.

(** C23: The payload pool is a faithful finite store.  After any sequence of
    acquisitions, overwrites, releases and copies within its assertions, every
    index still held reads back exactly the bytes last stored through it, and as
    long as fewer than [capacity] payloads are held an acquisition succeeds with
    an index in range that nobody holds. *)
Theorem payload_pool_store capacity p m bs :
  PayloadPool.reach capacity p m -> (length bs <= PayloadPool.width)%nat ->
  (forall i stored, m !! i = Some stored -> PayloadPool.get p i = stored) /\
  ((base.size m < capacity)%nat ->
   let '(i, p') := PayloadPool.acquire p bs in
   (i < capacity)%nat /\ m !! i = None /\ PayloadPool.get p' i = bs).
Proof.
  intros Hr Hb. pose proof (PayloadPool.reach_inv _ _ _ Hr) as Hi.
  split; [apply (PayloadPool.inv_get _ _ _ Hi)|]. intros Hs.
  pose proof (PayloadPool.acquire_inv capacity p m bs Hi Hs Hb) as H.
  destruct (PayloadPool.acquire p bs) as [i p']. destruct H as (H1 & H2 & H3).
  split; [assumption|]. split; [assumption|].
  apply (PayloadPool.inv_get _ _ _ H3). apply lookup_insert_eq.
Qed.

Lemma payload_pool_store_witness :
  let p := {| PayloadPool.payload := replicate (1 * PayloadPool.width) 7;
              PayloadPool.sizes := replicate 1 0; PayloadPool.free_indices := replicate 1 0%nat;
              PayloadPool.next_unused := 0; PayloadPool.free_count := 0 |} in
  let '(i, p') := PayloadPool.acquire p [1; 2; 3] in
  (i < 1)%nat /\ PayloadPool.get p' i = [1; 2; 3].
Proof.
  intros p. destruct (payload_pool_store 1 p ∅ [1; 2; 3]) as [_ H].
  - apply (PayloadPool.reach_make 1 (replicate (1 * PayloadPool.width) 7));
      [apply length_replicate|vm_compute; reflexivity].
  - vm_compute. lia.
  - destruct (PayloadPool.acquire p [1; 2; 3]) as [i p']. destruct H as (H1 & _ & H3).
    + vm_compute. lia.
    + split; assumption.
Defined.
