(* ===== verification/Fenwick.v ===== *)
(** The Fenwick tree of retained drops in the send buffer: the update loop of
    [SendBuffer::discard_slot] and the query loop of [SendBuffer::dropped_prefix]
    (src/send_buffer.cpp). *)
From S2P Require Import Prelude.

(** [index & (~index + 1U)] on [std::size_t]. *)
Definition lowbit (index : nat) : nat :=
  Z.to_nat (Z.land (Z.of_nat index) (u64 (u64 (Z.lnot (Z.of_nat index)) + 1))).

(** Query: [for (; end != 0U; end -= lowbit(end)) result += counts[end]]. *)
Fixpoint prefix_loop (fuel : nat) (counts : list Z) (end_ : nat) (result : Z) : Z :=
  match fuel with
  | O => result
  | S fuel =>
      if (end_ =? 0)%nat then result
      else prefix_loop fuel counts (end_ - lowbit end_) (result + counts !!! end_)
  end.

(** The argument decreases, so [end_] rounds are enough. *)
Definition dropped_prefix (counts : list Z) (end_ : nat) : Z :=
  prefix_loop end_ counts end_ 0.

(** Update: [++counts[index]] or [--counts[index]] along the chain. *)
Fixpoint count_loop (fuel : nat) (counts : list Z) (index : nat) (added : bool) : list Z :=
  match fuel with
  | O => counts
  | S fuel =>
      if (index <? length counts)%nat then
        let value := counts !!! index in
        count_loop fuel (<[index := u32 (if added then value + 1 else value - 1)]> counts)
          (index + lowbit index) added
      else counts
  end.

(** The index grows, so the array length bounds the rounds. *)
Definition count_change (counts : list Z) (position : nat) (added : bool) : list Z :=
  count_loop (length counts) counts (position + 1) added.

(** * The lowest set bit *)

Lemma land_neg_double a : Z.land (2 * a) (- (2 * a)) = 2 * Z.land a (- a).
Proof.
  replace (- (2 * a)) with (2 * - a) by lia.
  rewrite !(Z.mul_comm 2), <- !(Z.shiftl_mul_pow2 _ 1), <- Z.shiftl_land by lia. reflexivity.
Qed.

Lemma land_neg_odd m : Z.land (2 * m + 1) (- (2 * m + 1)) = 1.
Proof.
  apply Z.bits_inj'. intros i Hi. rewrite Z.land_spec.
  destruct (decide (i = 0)) as [->|Hne].
  - replace (- (2 * m + 1)) with (2 * (- m - 1) + 1) by lia.
    rewrite !Z.testbit_odd_0. reflexivity.
  - replace i with (Z.succ (i - 1)) by lia.
    replace (- (2 * m + 1)) with (2 * (- m - 1) + 1) by lia.
    rewrite !Z.testbit_odd_succ by lia. replace (- m - 1) with (Z.lnot m) by (unfold Z.lnot; lia).
    rewrite Z.lnot_spec, andb_negb_r by lia. change 1 with (2 * 0 + 1).
    rewrite Z.testbit_odd_succ, Z.bits_0 by lia. reflexivity.
Qed.

Lemma lowbit_land k : Z.of_nat k < 2 ^ 64 ->
  Z.of_nat (lowbit k) = Z.land (Z.of_nat k) (- Z.of_nat k).
Proof.
  intros Hk. unfold lowbit.
  assert (E : u64 (u64 (Z.lnot (Z.of_nat k)) + 1) = Z.land (- Z.of_nat k) (Z.ones 64)).
  { rewrite Z.land_ones by lia. unfold u64. rewrite Zplus_mod_idemp_l. f_equal.
    unfold Z.lnot. lia. }
  assert (E' : Z.land (Z.of_nat k) (Z.ones 64) = Z.of_nat k)
    by (rewrite Z.land_ones by lia; apply Z.mod_small; lia).
  rewrite E, (Z.land_comm (- _)), Z.land_assoc, E'. apply Z2Nat.id.
  apply Z.land_nonneg. left. lia.
Qed.

(** Every positive number is an odd multiple of a power of two, and that power is
    its lowest set bit. *)
Lemma lowbit_pow2 v m : Z.of_nat ((2 * m + 1) * 2 ^ v) < 2 ^ 64 ->
  lowbit ((2 * m + 1) * 2 ^ v) = (2 ^ v)%nat.
Proof.
  intros Hk. apply Nat2Z.inj. rewrite lowbit_land by assumption. clear Hk.
  rewrite Nat2Z.inj_mul, Nat2Z.inj_pow. replace (Z.of_nat (2 * m + 1)) with (2 * Z.of_nat m + 1) by lia.
  change (Z.of_nat 2) with 2. induction v as [|v IH].
  - rewrite Z.pow_0_r, Z.mul_1_r. apply land_neg_odd.
  - rewrite Nat2Z.inj_succ, Z.pow_succ_r by lia.
    replace ((2 * Z.of_nat m + 1) * (2 * 2 ^ Z.of_nat v))
      with (2 * ((2 * Z.of_nat m + 1) * 2 ^ Z.of_nat v)) by lia.
    rewrite land_neg_double, IH. lia.
Qed.

Lemma odd_part k : (0 < k)%nat -> exists v m, k = ((2 * m + 1) * 2 ^ v)%nat.
Proof.
  induction k as [k IH] using lt_wf_ind. intros Hk.
  destruct (Nat.Even_or_Odd k) as [[h Hh]|[h Hh]].
  - destruct (IH h ltac:(lia) ltac:(lia)) as (v & m & ->). exists (S v), m.
    rewrite Hh, Nat.pow_succ_r'. lia.
  - exists 0%nat, h. simpl. lia.
Qed.

(** Counter [k] stands for the positions [(k - lowbit k, k]]. *)
Definition in_span (k q : nat) : Prop := (k - lowbit k < q <= k)%nat.

Section Bound.
Context (n : nat) (Hn : Z.of_nat (2 * n) < 2 ^ 64).

Lemma lowbit_le k : (0 < k <= 2 * n)%nat -> (0 < lowbit k <= k)%nat.
Proof.
  intros Hk. destruct (odd_part k ltac:(lia)) as (v & m & E). subst k.
  rewrite lowbit_pow2 by lia. pose proof (Nat.pow_nonzero 2 v). nia.
Qed.

Lemma cancel_lt P a b : (a * P < b * P)%nat -> (a < b)%nat.
Proof. nia. Qed.
Lemma cancel_le P a b : (0 < P)%nat -> (a * P <= b * P)%nat -> (a <= b)%nat.
Proof. nia. Qed.

(** [k = (2c+1) 2^v] and [q = (2d+1) 2^w] with [q] strictly inside the span of [k]:
    then [w < v], so adding [2^w] to [q] stays inside. *)
Lemma in_span_next k q : (0 < q)%nat -> (k <= n)%nat ->
  in_span k q -> k <> q -> in_span k (q + lowbit q).
Proof.
  intros Hq Hk [H1 H2] Hne. unfold in_span.
  destruct (odd_part k ltac:(lia)) as (v & c & Ek). destruct (odd_part q Hq) as (w & d & Eq).
  assert (Hp : (0 < 2 ^ v)%nat) by (pose proof (Nat.pow_nonzero 2 v); lia).
  assert (Hpw : (0 < 2 ^ w)%nat) by (pose proof (Nat.pow_nonzero 2 w); lia).
  rewrite Ek in *. rewrite lowbit_pow2 in * by lia. rewrite Eq in *. rewrite lowbit_pow2 by nia.
  replace ((2 * c + 1) * 2 ^ v - 2 ^ v)%nat with (2 * c * 2 ^ v)%nat in * by lia.
  destruct (le_lt_dec v w) as [Hw|Hw].
  - exfalso. replace w with ((w - v) + v)%nat in * by lia.
    rewrite Nat.pow_add_r, Nat.mul_assoc in *. apply cancel_lt in H1. apply cancel_le in H2; [|assumption].
    apply Hne. f_equal. lia.
  - replace v with ((v - w - 1) + 1 + w)%nat in * by lia. rewrite !Nat.pow_add_r in *.
    change (2 ^ 1)%nat with 2%nat in *. set (R := (2 ^ (v - w - 1))%nat) in *.
    set (P := (2 ^ w)%nat) in *. rewrite !Nat.mul_assoc in *.
    apply cancel_lt in H1. apply cancel_le in H2; [|assumption].
    assert (H3 : ((2 * d + 1) + 1 <= (2 * c + 1) * R * 2)%nat) by lia. nia.
Qed.

(** If [q] were not above the span's start [2c 2^v], adding [2^w] could not land
    inside: it would land on an even multiple of [2^(v+1)] or not leave [q]'s. *)
Lemma in_span_prev k q : (0 < q)%nat -> (k <= n)%nat -> (q <= n)%nat ->
  in_span k (q + lowbit q) -> in_span k q.
Proof.
  intros Hq Hk Hqn [H1 H2]. unfold in_span.
  pose proof (lowbit_le q ltac:(lia)) as Hl. split; [|lia].
  destruct (odd_part k ltac:(lia)) as (v & c & Ek). destruct (odd_part q Hq) as (w & d & Eq).
  assert (Hp : (0 < 2 ^ v)%nat) by (pose proof (Nat.pow_nonzero 2 v); lia).
  assert (Hpw : (0 < 2 ^ w)%nat) by (pose proof (Nat.pow_nonzero 2 w); lia).
  rewrite Ek in *. rewrite lowbit_pow2 in * by lia. rewrite Eq in *. rewrite lowbit_pow2 in * by lia.
  replace ((2 * c + 1) * 2 ^ v - 2 ^ v)%nat with (2 * c * 2 ^ v)%nat in * by lia.
  replace ((2 * d + 1) * 2 ^ w + 2 ^ w)%nat with ((2 * d + 2) * 2 ^ w)%nat in * by lia.
  apply Nat.nle_gt. intros Hle.
  destruct (le_lt_dec w v) as [Hw|Hw].
  - replace v with ((v - w) + w)%nat in * by lia. rewrite !Nat.pow_add_r, !Nat.mul_assoc in *.
    apply cancel_lt in H1. apply cancel_le in Hle; [|assumption].
    assert (E : (2 * d + 1 = 2 * c * 2 ^ (v - w))%nat) by lia.
    replace (2 * c * 2 ^ (v - w))%nat with (2 * (c * 2 ^ (v - w)))%nat in E by lia. lia.
  - replace w with ((w - v - 1) + 1 + v)%nat in * by lia. rewrite !Nat.pow_add_r, !Nat.mul_assoc in *.
    change (2 ^ 1)%nat with 2%nat in *. apply cancel_lt in H1. apply cancel_le in H2; [|assumption].
    replace ((2 * d + 2) * 2 ^ (w - v - 1) * 2)%nat
      with (2 * ((2 * d + 2) * 2 ^ (w - v - 1)))%nat in * by lia. lia.
Qed.
End Bound.

(** * The tree represents the flags *)

(** Number of set flags among the first [j]. *)
Definition flags_before (bs : list bool) (j : nat) : Z := Z.of_nat (countb id (take j bs)).

Record represents (counts : list Z) (bs : list bool) : Prop := {
  rep_length : length counts = S (length bs);
  rep_bound : Z.of_nat (length bs) < 2 ^ 30;
  rep_count : forall k, (0 < k <= length bs)%nat ->
    counts !!! k = flags_before bs k - flags_before bs (k - lowbit k);
}.

Lemma prefix_loop_spec counts bs : represents counts bs -> forall fuel e r,
  (e <= fuel)%nat -> (e <= length bs)%nat ->
  prefix_loop fuel counts e r = r + flags_before bs e.
Proof.
  intros [H1 H2 H3]. induction fuel as [|fuel IH]; intros e r He Hn; simpl.
  { replace e with 0%nat by lia. unfold flags_before. simpl. lia. }
  destruct (Nat.eqb_spec e 0) as [->|Hz]; [unfold flags_before; simpl; lia|].
  pose proof (lowbit_le (length bs) ltac:(lia) e ltac:(lia)).
  rewrite IH, H3 by lia. lia.
Qed.

(** The query returns the number of flags before [end_]. *)
Lemma dropped_prefix_spec counts bs e : represents counts bs -> (e <= length bs)%nat ->
  dropped_prefix counts e = flags_before bs e.
Proof. intros H He. unfold dropped_prefix. rewrite (prefix_loop_spec counts bs) by (auto; lia). lia. Qed.

Definition adjust (added : bool) (value : Z) : Z := u32 (if added then value + 1 else value - 1).

Lemma count_loop_spec n added : Z.of_nat n < 2 ^ 30 -> forall fuel counts q,
  length counts = S n -> (0 < q)%nat -> (S n - q <= fuel)%nat ->
  length (count_loop fuel counts q added) = S n /\
  forall k, (0 < k <= n)%nat ->
    (in_span k q -> count_loop fuel counts q added !!! k = adjust added (counts !!! k)) /\
    (~ in_span k q -> count_loop fuel counts q added !!! k = counts !!! k).
Proof.
  intros Hn. induction fuel as [|fuel IH]; intros counts q Hl Hq Hf; cbn [count_loop].
  { split; [assumption|]. intros k Hk. split; [intros [_ ?]; lia|reflexivity]. }
  destruct (Nat.ltb_spec q (length counts)) as [Hlt|Hge].
  2:{ split; [assumption|]. intros k Hk. split; [intros [_ ?]; lia|reflexivity]. }
  pose proof (lowbit_le n ltac:(lia) q ltac:(lia)) as Hlow. cbv zeta.
  fold (adjust added (counts !!! q)). set (counts1 := <[q := _]> counts).
  destruct (IH counts1 (q + lowbit q)%nat) as [I1 I2]; [unfold counts1; rewrite length_insert; lia|lia|lia|].
  split; [assumption|]. intros k Hk. destruct (I2 k Hk) as [J1 J2].
  destruct (decide (k = q)) as [->|Hne].
  - split; [intros _|intros H; exfalso; apply H; unfold in_span; lia].
    rewrite J2 by (unfold in_span; lia). unfold counts1. apply list_lookup_total_insert_eq. lia.
  - assert (E : counts1 !!! k = counts !!! k) by (apply list_lookup_total_insert_ne; congruence).
    rewrite <- E. split.
    + intros H. apply J1. apply (in_span_next n); auto; lia.
    + intros H. apply J2. intros H'. apply H. apply (in_span_prev n); auto; lia.
Qed.

Lemma flags_before_insert bs p x j : bs !! p = Some (negb x) ->
  flags_before (<[p := x]> bs) j =
  flags_before bs j + (if (p <? j)%nat then (if x then 1 else -1) else 0).
Proof.
  intros Hp. unfold flags_before. destruct (Nat.ltb_spec p j) as [Hlt|Hge].
  - rewrite take_insert_lt by assumption.
    assert (Hp' : take j bs !! p = Some (negb x)) by (rewrite lookup_take_lt; assumption).
    rewrite insert_take_drop by (eapply lookup_lt_Some; eassumption).
    rewrite <- (take_drop_middle _ _ _ Hp') at 3.
    rewrite !countb_app. simpl. unfold id. destruct x; simpl; lia.
  - rewrite take_insert_ge by assumption. lia.
Qed.

Lemma flags_before_mono bs i j : (i <= j)%nat ->
  0 <= flags_before bs j - flags_before bs i <= Z.of_nat (j - i).
Proof.
  intros Hij. unfold flags_before. replace j with (i + (j - i))%nat at 1 2 by lia.
  rewrite <- (take_take_drop bs i (j - i)), countb_app.
  pose proof (countb_le id (take (j - i) (drop i bs))). rewrite length_take in H. lia.
Qed.

(** Changing one flag and walking the update chain keeps the tree exact. *)
Lemma count_change_represents counts bs p added :
  represents counts bs -> bs !! p = Some (negb added) ->
  represents (count_change counts p added) (<[p := added]> bs).
Proof.
  intros [H1 H2 H3] Hp. pose proof (lookup_lt_Some _ _ _ Hp) as Hlt.
  unfold count_change. rewrite Nat.add_1_r.
  destruct (count_loop_spec (length bs) added H2 (length counts) counts (S p)) as [C1 C2]; [lia|lia|lia|].
  split; rewrite ?length_insert; auto. intros k Hk.
  pose proof (lowbit_le (length bs) ltac:(lia) k ltac:(lia)) as Hlow.
  pose proof (flags_before_mono (<[p := added]> bs) (k - lowbit k) k ltac:(lia)) as Hmono.
  destruct (C2 k Hk) as [J1 J2]. specialize (H3 k Hk).
  rewrite !flags_before_insert in * by assumption.
  destruct (Nat.ltb_spec p k), (Nat.ltb_spec p (k - lowbit k)); try lia.
  - rewrite J2 by (unfold in_span; lia). lia.
  - rewrite J1 by (unfold in_span; lia). unfold adjust. rewrite H3, u32_id; destruct added; unfold is_u32; lia.
  - rewrite J2 by (unfold in_span; lia). lia.
Qed.

Lemma represents_make n : Z.of_nat n < 2 ^ 30 ->
  represents (replicate (S n) 0) (replicate n false).
Proof.
  intros Hn. split; rewrite ?length_replicate; auto. intros k Hk.
  rewrite lookup_total_replicate_2 by lia. unfold flags_before.
  assert (E : forall j, countb id (take j (replicate n false)) = 0%nat).
  { intros j. rewrite take_replicate. generalize (j `min` n)%nat. clear. induction n; simpl; auto. }
  rewrite !E. lia.
Qed.
