(* ===== verification/SendBuffer.v ===== *)
(** The sender's packet store: fragmentation, original transmission order,
    retransmission and drop-request queues, cumulative acknowledgement, too-late
    and TTL drops ([SendBuffer] of include/robotweax/srt/send_buffer.hpp and
    src/send_buffer.cpp). *)
From stdpp Require Import gmap.
From S2P Require Import Prelude Sequence Packet Codec Control LossList.
From S2P Require Import RangeDropQueue PayloadPool Fenwick.

(** * Slots *)

Record LiveMetadata := {
  last_retransmission_send_microseconds : Z;
  expiration_microseconds : Z;
}.

Record DropMetadata := {
  message_first : SequenceNumber.t;
  message_last : SequenceNumber.t;
  remaining_bytes : Z;
}.

(** The union of the source; [occupied] and [dropped] say which member is live. *)
Inductive SlotMetadata :=
| live_metadata (m : LiveMetadata)
| dropped_metadata (m : DropMetadata).

Definition default_live : LiveMetadata :=
  {| last_retransmission_send_microseconds := 0; expiration_microseconds := 0 |}.
Definition default_drop : DropMetadata :=
  {| message_first := 0; message_last := 0; remaining_bytes := 0 |}.

(** Member access; reading the member that is not active yields the default. *)
Definition live (m : SlotMetadata) : LiveMetadata :=
  match m with live_metadata l => l | dropped_metadata _ => default_live end.
Definition drop_info (m : SlotMetadata) : DropMetadata :=
  match m with dropped_metadata d => d | live_metadata _ => default_drop end.

Record Slot := {
  header : DataHeader;
  payload_index : nat;
  sequence_position : Z;
  enqueue_microseconds : Z;
  first_send_microseconds : Z;
  metadata : SlotMetadata;
  payload_size : Z;
  plaintext_size : Z;
  protection_mode : CryptoMode.t;
  occupied : bool;
  dropped : bool;
  drop_request_queued : bool;
  sent : bool;
  submitted : bool;
  retransmission_queued : bool;
  has_retransmission_send_time : bool;
}.

Definition eta_Slot (s : Slot) : Slot :=
  {| header := header s; payload_index := payload_index s;
     sequence_position := sequence_position s;
     enqueue_microseconds := enqueue_microseconds s;
     first_send_microseconds := first_send_microseconds s; metadata := metadata s;
     payload_size := payload_size s; plaintext_size := plaintext_size s;
     protection_mode := protection_mode s; occupied := occupied s; dropped := dropped s;
     drop_request_queued := drop_request_queued s; sent := sent s;
     submitted := submitted s; retransmission_queued := retransmission_queued s;
     has_retransmission_send_time := has_retransmission_send_time s |}.
Definition set_header : DataHeader -> Slot -> Slot := ltac:(setter eta_Slot header).
Definition set_payload_index : nat -> Slot -> Slot := ltac:(setter eta_Slot payload_index).
Definition set_sequence_position : Z -> Slot -> Slot := ltac:(setter eta_Slot sequence_position).
Definition set_enqueue_microseconds : Z -> Slot -> Slot := ltac:(setter eta_Slot enqueue_microseconds).
Definition set_first_send_microseconds : Z -> Slot -> Slot := ltac:(setter eta_Slot first_send_microseconds).
Definition set_metadata : SlotMetadata -> Slot -> Slot := ltac:(setter eta_Slot metadata).
Definition set_payload_size : Z -> Slot -> Slot := ltac:(setter eta_Slot payload_size).
Definition set_plaintext_size : Z -> Slot -> Slot := ltac:(setter eta_Slot plaintext_size).
Definition set_protection_mode : CryptoMode.t -> Slot -> Slot := ltac:(setter eta_Slot protection_mode).
Definition set_occupied : bool -> Slot -> Slot := ltac:(setter eta_Slot occupied).
Definition set_dropped : bool -> Slot -> Slot := ltac:(setter eta_Slot dropped).
Definition set_drop_request_queued : bool -> Slot -> Slot := ltac:(setter eta_Slot drop_request_queued).
Definition set_sent : bool -> Slot -> Slot := ltac:(setter eta_Slot sent).
Definition set_submitted : bool -> Slot -> Slot := ltac:(setter eta_Slot submitted).
Definition set_retransmission_queued : bool -> Slot -> Slot := ltac:(setter eta_Slot retransmission_queued).
Definition set_has_retransmission_send_time : bool -> Slot -> Slot := ltac:(setter eta_Slot has_retransmission_send_time).

#[export] Instance Slot_inhabited : Inhabited Slot :=
  populate {| header := default_data_header; payload_index := 0; sequence_position := 0;
              enqueue_microseconds := 0; first_send_microseconds := 0;
              metadata := live_metadata default_live; payload_size := 0; plaintext_size := 0;
              protection_mode := CryptoMode.automatic; occupied := false; dropped := false;
              drop_request_queued := false; sent := false; submitted := false;
              retransmission_queued := false; has_retransmission_send_time := false |}.

Record OutboundPacket := {
  out_header : DataHeader;
  out_payload : list Z;
  out_sequence_position : Z;
}.

Record SendDropResult := {
  drop_packets : nat;
  drop_bytes : Z;
  first_message_number : Z;
  drop_sequences : SequenceRange;
}.

Definition no_drop : SendDropResult :=
  {| drop_packets := 0; drop_bytes := 0; first_message_number := 0; drop_sequences := inhabitant |}.

Module SendBuffer.
Record t := {
  dropped_counts : list Z;
  payloads : PayloadPool.t;
  slots : list Slot;
  retransmission_queue : list SequenceNumber.t;
  drop_request_queue : list SequenceNumber.t;
  range_drop_request_queue : RangeDropQueue.t;
  first_sequence : SequenceNumber.t;
  next_sequence_position : Z;
  maximum_payload_size : nat;
  head : nat;
  sequence_span : nat;
  next_unsent_offset : nat;
  occupied_count : nat;
  retained_drop_count : nat;
  buffered_plaintext_bytes : nat;
  expiring_packet_count : nat;
  earliest_expiration_microseconds : Z;
  first_buffered_enqueue_microseconds : Z;
  last_buffered_enqueue_microseconds : Z;
  retransmission_head : nat;
  retransmission_size : nat;
  drop_request_head : nat;
  drop_request_size : nat;
  packets_in_flight : nat;
}.

Definition eta_t (b : t) : t :=
  {| dropped_counts := dropped_counts b; payloads := payloads b; slots := slots b;
     retransmission_queue := retransmission_queue b;
     drop_request_queue := drop_request_queue b;
     range_drop_request_queue := range_drop_request_queue b;
     first_sequence := first_sequence b;
     next_sequence_position := next_sequence_position b;
     maximum_payload_size := maximum_payload_size b; head := head b;
     sequence_span := sequence_span b; next_unsent_offset := next_unsent_offset b;
     occupied_count := occupied_count b; retained_drop_count := retained_drop_count b;
     buffered_plaintext_bytes := buffered_plaintext_bytes b;
     expiring_packet_count := expiring_packet_count b;
     earliest_expiration_microseconds := earliest_expiration_microseconds b;
     first_buffered_enqueue_microseconds := first_buffered_enqueue_microseconds b;
     last_buffered_enqueue_microseconds := last_buffered_enqueue_microseconds b;
     retransmission_head := retransmission_head b;
     retransmission_size := retransmission_size b;
     drop_request_head := drop_request_head b; drop_request_size := drop_request_size b;
     packets_in_flight := packets_in_flight b |}.
Definition set_dropped_counts : list Z -> t -> t := ltac:(setter eta_t dropped_counts).
Definition set_payloads : PayloadPool.t -> t -> t := ltac:(setter eta_t payloads).
Definition set_slots : list Slot -> t -> t := ltac:(setter eta_t slots).
Definition set_retransmission_queue : list SequenceNumber.t -> t -> t := ltac:(setter eta_t retransmission_queue).
Definition set_drop_request_queue : list SequenceNumber.t -> t -> t := ltac:(setter eta_t drop_request_queue).
Definition set_range_drop_request_queue : RangeDropQueue.t -> t -> t := ltac:(setter eta_t range_drop_request_queue).
Definition set_first_sequence : SequenceNumber.t -> t -> t := ltac:(setter eta_t first_sequence).
Definition set_next_sequence_position : Z -> t -> t := ltac:(setter eta_t next_sequence_position).
Definition set_maximum_payload_size : nat -> t -> t := ltac:(setter eta_t maximum_payload_size).
Definition set_head : nat -> t -> t := ltac:(setter eta_t head).
Definition set_sequence_span : nat -> t -> t := ltac:(setter eta_t sequence_span).
Definition set_next_unsent_offset : nat -> t -> t := ltac:(setter eta_t next_unsent_offset).
Definition set_occupied_count : nat -> t -> t := ltac:(setter eta_t occupied_count).
Definition set_retained_drop_count : nat -> t -> t := ltac:(setter eta_t retained_drop_count).
Definition set_buffered_plaintext_bytes : nat -> t -> t := ltac:(setter eta_t buffered_plaintext_bytes).
Definition set_expiring_packet_count : nat -> t -> t := ltac:(setter eta_t expiring_packet_count).
Definition set_earliest_expiration_microseconds : Z -> t -> t := ltac:(setter eta_t earliest_expiration_microseconds).
Definition set_first_buffered_enqueue_microseconds : Z -> t -> t := ltac:(setter eta_t first_buffered_enqueue_microseconds).
Definition set_last_buffered_enqueue_microseconds : Z -> t -> t := ltac:(setter eta_t last_buffered_enqueue_microseconds).
Definition set_retransmission_head : nat -> t -> t := ltac:(setter eta_t retransmission_head).
Definition set_retransmission_size : nat -> t -> t := ltac:(setter eta_t retransmission_size).
Definition set_drop_request_head : nat -> t -> t := ltac:(setter eta_t drop_request_head).
Definition set_drop_request_size : nat -> t -> t := ltac:(setter eta_t drop_request_size).
Definition set_packets_in_flight : nat -> t -> t := ltac:(setter eta_t packets_in_flight).

Definition capacity (b : t) : nat := length (slots b).
Definition available (b : t) : nat := (capacity b - sequence_span b)%nat.
Definition next_sequence (b : t) : SequenceNumber.t :=
  SequenceNumber.advanced (first_sequence b) (u32 (Z.of_nat (sequence_span b))).

(** [(head_ + offset) % capacity()] and the slot there. *)
Definition physical (b : t) (offset : nat) : nat := ((head b + offset) mod capacity b)%nat.
Definition slot_at (b : t) (offset : nat) : Slot := slots b !!! physical b offset.

Definition update_slot (i : nat) (f : Slot -> Slot) (b : t) : t :=
  set_slots (<[i := f (slots b !!! i)]> (slots b)) b.

Definition checked_send_capacity (capacity_packets maximum_payload_size : nat) : option nat :=
  if (capacity_packets =? 0)%nat || (SequenceNumber.half_range <=? Z.of_nat capacity_packets)
     || (maximum_payload_size =? 0)%nat
     || (maximum_data_payload_size <? maximum_payload_size)%nat
  then None else Some capacity_packets.

(** The members' initial values. *)
Definition initial (initial_sequence : SequenceNumber.t) (n maximum_payload_size : nat)
    (pool : PayloadPool.t) : t :=
  {| dropped_counts := replicate (S n) 0; payloads := pool;
     slots := replicate n inhabitant;
     retransmission_queue := replicate n 0;
     drop_request_queue := replicate n 0;
     range_drop_request_queue := RangeDropQueue.make;
     first_sequence := initial_sequence; next_sequence_position := 0;
     maximum_payload_size := maximum_payload_size; head := 0; sequence_span := 0;
     next_unsent_offset := 0; occupied_count := 0; retained_drop_count := 0;
     buffered_plaintext_bytes := 0; expiring_packet_count := 0;
     earliest_expiration_microseconds := 0;
     first_buffered_enqueue_microseconds := 0;
     last_buffered_enqueue_microseconds := 0;
     retransmission_head := 0; retransmission_size := 0;
     drop_request_head := 0; drop_request_size := 0; packets_in_flight := 0 |}.

(** [arena] is the payload memory the allocator returns. *)
Definition make (initial_sequence : SequenceNumber.t)
    (capacity_packets maximum_payload_size : nat) (arena : list Z) : option t :=
  match checked_send_capacity capacity_packets maximum_payload_size,
        PayloadPool.make capacity_packets arena with
  | Some n, Some pool => Some (initial initial_sequence n maximum_payload_size pool)
  | _, _ => None
  end.

Definition synchronize_empty (b : t) (next : SequenceNumber.t) : bool * t :=
  if negb (sequence_span b =? 0)%nat || negb (occupied_count b =? 0)%nat
  then (next_sequence b =? next, b)
  else
    let skipped := Z.land (u32 (next - first_sequence b)) SequenceNumber.mask in
    if u64_max - next_sequence_position b <? skipped then (false, b)
    else
      (true,
       set_last_buffered_enqueue_microseconds 0
         (set_first_buffered_enqueue_microseconds 0
            (set_retained_drop_count 0
               (set_expiring_packet_count 0
                  (set_buffered_plaintext_bytes 0
                     (set_next_unsent_offset 0
                        (set_head 0
                           (set_first_sequence next
                              (set_next_sequence_position
                                 (next_sequence_position b + skipped) b))))))))).

(** ** Enqueueing *)

Definition boundary_of (first last : bool) : MessageBoundary.t :=
  if first && last then MessageBoundary.solo
  else if first then MessageBoundary.first
  else if last then MessageBoundary.last else MessageBoundary.subsequent.

(** What the caller passes besides the bytes. *)
Record EnqueueParameters := {
  enqueue_message_number : Z;
  enqueue_timestamp : PacketTimestamp.t;
  enqueue_destination : Z;
  enqueue_in_order : bool;
  enqueue_time : Z;
  enqueue_expiration : Z;
}.

(** The slot written for one packet; [old] is what the slot held before. *)
Definition new_slot (p : EnqueueParameters) (first last : bool) (bytes : list Z) (index : nat)
    (old : Slot) (b : t) : Slot :=
  {| header :=
       {| sequence := next_sequence b;
          message_number := Z.land (enqueue_message_number p) 0x03ffffff;
          boundary := boundary_of first last;
          in_order := enqueue_in_order p;
          encryption_key := EncryptionKey.none;
          retransmitted := false;
          timestamp := enqueue_timestamp p;
          destination_socket_id := enqueue_destination p |};
     payload_index := index;
     sequence_position := next_sequence_position b;
     enqueue_microseconds := enqueue_time p;
     first_send_microseconds := first_send_microseconds old;
     metadata := live_metadata {| last_retransmission_send_microseconds := 0;
                                  expiration_microseconds := enqueue_expiration p |};
     payload_size := u16 (Z.of_nat (length bytes));
     plaintext_size := u16 (Z.of_nat (length bytes));
     protection_mode := CryptoMode.automatic;
     occupied := true; dropped := false;
     drop_request_queued := drop_request_queued old;
     sent := false; submitted := false; retransmission_queued := false;
     has_retransmission_send_time := false |}.

(** One round of the enqueue loop, for the bytes of one packet. *)
Definition enqueue_packet (p : EnqueueParameters) (first last : bool) (bytes : list Z) (b : t) : t :=
  let slot_index := physical b (sequence_span b) in
  let '(index, pool) := PayloadPool.acquire (payloads b) bytes in
  let slot := new_slot p first last bytes index (slots b !!! slot_index) b in
  let b := set_slots (<[slot_index := slot]> (slots b)) (set_payloads pool b) in
  let b := set_next_sequence_position (u64 (next_sequence_position b + 1)) b in
  let b := if (occupied_count b =? 0)%nat
           then set_first_buffered_enqueue_microseconds (enqueue_time p) b else b in
  let b := set_last_buffered_enqueue_microseconds (enqueue_time p) b in
  let b := set_sequence_span (sequence_span b + 1) b in
  let b := set_occupied_count (occupied_count b + 1) b in
  let b := set_buffered_plaintext_bytes (buffered_plaintext_bytes b + length bytes) b in
  if negb (enqueue_expiration p =? 0) then
    let b := if (expiring_packet_count b =? 0)%nat
                || (enqueue_expiration p <? earliest_expiration_microseconds b)
             then set_earliest_expiration_microseconds (enqueue_expiration p) b else b in
    set_expiring_packet_count (expiring_packet_count b + 1) b
  else b.

(** Rounds [packet_index ... packet_count - 1], [consumed] bytes taken so far. *)
Fixpoint enqueue_loop (rounds packet_index packet_count : nat) (p : EnqueueParameters)
    (message : list Z) (consumed : nat) (b : t) : t :=
  match rounds with
  | O => b
  | S rounds =>
      let payload_size := Nat.min (maximum_payload_size b) (length message - consumed) in
      let bytes := take payload_size (drop consumed message) in
      let b := enqueue_packet p (packet_index =? 0)%nat (packet_index + 1 =? packet_count)%nat
                 bytes b in
      enqueue_loop rounds (packet_index + 1) packet_count p message (consumed + payload_size) b
  end.

Definition packet_count (b : t) (message : list Z) : nat :=
  ((length message + maximum_payload_size b - 1) / maximum_payload_size b)%nat.

Definition enqueue_message (b : t) (message : list Z) (p : EnqueueParameters) : Error.t * t :=
  if (length message =? 0)%nat then (Error.invalid_state, b)
  else
    let count := packet_count b message in
    if (available b <? count)%nat then (Error.buffer_too_small, b)
    else if u64_max - next_sequence_position b <? Z.of_nat count
    then (Error.invalid_state, b)
    else (Error.none, enqueue_loop count 0 count p message 0 b).

Definition enqueue_stream (b : t) (bytes : list Z) (p : EnqueueParameters) : Error.t * nat * t :=
  if (length bytes =? 0)%nat then (Error.invalid_state, 0%nat, b)
  else if (available b =? 0)%nat then (Error.buffer_too_small, 0%nat, b)
  else
    let accepted := Nat.min (length bytes) (available b * maximum_payload_size b) in
    let '(error, b) :=
      enqueue_message b (take accepted bytes)
        {| enqueue_message_number := enqueue_message_number p;
           enqueue_timestamp := enqueue_timestamp p;
           enqueue_destination := enqueue_destination p;
           enqueue_in_order := true; enqueue_time := enqueue_time p;
           enqueue_expiration := 0 |} in
    (error, if bool_decide (error = Error.none) then accepted else 0%nat, b).

(** ** Slots by sequence number *)

(** The offset of a sequence number inside the span. *)
Definition offset_of (b : t) (sequence : SequenceNumber.t) : option nat :=
  let signed_offset := SequenceNumber.distance_from sequence (first_sequence b) in
  if signed_offset <? 0 then None
  else if (sequence_span b <=? Z.to_nat signed_offset)%nat then None
  else Some (Z.to_nat signed_offset).

(** [find] returns the physical index of an occupied slot. *)
Definition find (b : t) (sequence : SequenceNumber.t) : option nat :=
  match offset_of b sequence with
  | None => None
  | Some offset => if occupied (slot_at b offset) then Some (physical b offset) else None
  end.

Definition retains_packet (b : t) (sequence : SequenceNumber.t) : bool :=
  match offset_of b sequence with
  | None => false
  | Some offset => occupied (slot_at b offset)
  end.

(** [discard_slot], first part: the packet leaves the counters and the pool. *)
Definition forget_packet (slot : Slot) (b : t) : t :=
  if occupied slot then
    let b := set_payloads (PayloadPool.release (payloads b) (payload_index slot)) b in
    let b := if sent slot then set_packets_in_flight (packets_in_flight b - 1) b else b in
    let b := set_buffered_plaintext_bytes
               (buffered_plaintext_bytes b - Z.to_nat (plaintext_size slot)) b in
    let b := if negb (expiration_microseconds (live (metadata slot)) =? 0)
             then set_expiring_packet_count (expiring_packet_count b - 1) b else b in
    let b := set_occupied_count (occupied_count b - 1) b in
    if (occupied_count b =? 0)%nat
    then set_last_buffered_enqueue_microseconds 0
           (set_first_buffered_enqueue_microseconds 0 b)
    else b
  else b.

(** Second part: the Fenwick tree and the tombstone count. *)
Definition count_tombstone (i : nat) (was_dropped retain_drop_marker : bool) (b : t) : t :=
  if negb (Bool.eqb was_dropped retain_drop_marker) then
    let b := set_dropped_counts (count_change (dropped_counts b) i retain_drop_marker) b in
    if retain_drop_marker then set_retained_drop_count (retained_drop_count b + 1) b
    else set_retained_drop_count (retained_drop_count b - 1) b
  else b.

(** Third part: what is left in the slot. *)
Definition discarded (retain_drop_marker : bool) (slot : Slot) : Slot :=
  let was_dropped := dropped slot in
  let slot := set_dropped retain_drop_marker (set_occupied false slot) in
  let slot := set_has_retransmission_send_time false
                (set_retransmission_queued false
                   (set_submitted false (set_sent false (set_drop_request_queued false slot)))) in
  if retain_drop_marker then
    if negb was_dropped then set_metadata (dropped_metadata default_drop) slot else slot
  else
    set_enqueue_microseconds 0
      (set_protection_mode CryptoMode.automatic
         (set_plaintext_size 0
            (set_payload_size 0 (set_metadata (live_metadata default_live) slot)))).

Definition discard_slot (i : nat) (retain_drop_marker : bool) (b : t) : t :=
  let slot := slots b !!! i in
  let b := forget_packet slot b in
  let b := count_tombstone i (dropped slot) retain_drop_marker b in
  set_slots (<[i := discarded retain_drop_marker slot]> (slots b)) b.

(** ** Buffered time bounds *)

Fixpoint first_occupied (b : t) (offsets : list nat) : option Slot :=
  match offsets with
  | [] => None
  | offset :: rest =>
      if occupied (slot_at b offset) then Some (slot_at b offset) else first_occupied b rest
  end.

Definition refresh_first_buffered_enqueue_time (b : t) : t :=
  if (occupied_count b =? 0)%nat
  then set_last_buffered_enqueue_microseconds 0 (set_first_buffered_enqueue_microseconds 0 b)
  else
    match first_occupied b (seq 0 (sequence_span b)) with
    | Some slot => set_first_buffered_enqueue_microseconds (enqueue_microseconds slot) b
    | None => b
    end.

Definition refresh_buffered_enqueue_time_bounds (b : t) : t :=
  let b := refresh_first_buffered_enqueue_time b in
  if (occupied_count b =? 0)%nat then b
  else
    match first_occupied b (rev (seq 0 (sequence_span b))) with
    | Some slot => set_last_buffered_enqueue_microseconds (enqueue_microseconds slot) b
    | None => b
    end.

(** ** Rings of sequence numbers *)

(** The compaction loops: read at [head + index], write back at [head + kept]. *)
Fixpoint compact_loop (rounds : nat) (keep : SequenceNumber.t -> bool) (ring_head cap index kept : nat)
    (queue : list SequenceNumber.t) : nat * list SequenceNumber.t :=
  match rounds with
  | O => (kept, queue)
  | S rounds =>
      let sequence := queue !!! ((ring_head + index) mod cap)%nat in
      if keep sequence then
        compact_loop rounds keep ring_head cap (index + 1) (kept + 1)
          (<[((ring_head + kept) mod cap)%nat := sequence]> queue)
      else compact_loop rounds keep ring_head cap (index + 1) kept queue
  end.

Definition drop_request_live (b : t) (sequence : SequenceNumber.t) : bool :=
  match offset_of b sequence with
  | None => false
  | Some offset => dropped (slot_at b offset) && drop_request_queued (slot_at b offset)
  end.

Definition compact_drop_request_queue (b : t) : t :=
  let '(kept, queue) :=
    compact_loop (drop_request_size b) (drop_request_live b) (drop_request_head b) (capacity b)
      0 0 (drop_request_queue b) in
  let b := set_drop_request_queue queue b in
  let b := if (kept =? 0)%nat then set_drop_request_head 0 b else b in
  set_drop_request_size kept b.

Definition queue_drop_request (b : t) (sequence : SequenceNumber.t) : bool * t :=
  match offset_of b sequence with
  | None => (false, b)
  | Some offset =>
      let candidate := slot_at b offset in
      if negb (dropped candidate) then (false, b)
      else
        let message_offset :=
          SequenceNumber.distance_from (message_first (drop_info (metadata candidate)))
            (first_sequence b) in
        let first_offset := Z.to_nat (Z.max message_offset 0) in
        let i := physical b first_offset in
        if drop_request_queued (slots b !!! i) then (true, b)
        else
          let b := if (drop_request_size b =? capacity b)%nat
                   then compact_drop_request_queue b else b in
          if (drop_request_size b =? capacity b)%nat then (false, b)
          else
            let tail := ((drop_request_head b + drop_request_size b) mod capacity b)%nat in
            let b := set_drop_request_queue
                       (<[tail := SequenceNumber.advanced (first_sequence b)
                                    (u32 (Z.of_nat first_offset))]> (drop_request_queue b)) b in
            let b := set_drop_request_size (drop_request_size b + 1) b in
            (true, update_slot i (set_drop_request_queued true) b)
  end.

Definition retransmission_live (b : t) (sequence : SequenceNumber.t) : bool :=
  match find b sequence with
  | None => false
  | Some i => retransmission_queued (slots b !!! i)
  end.

Definition compact_retransmission_queue (b : t) : t :=
  let '(kept, queue) :=
    compact_loop (retransmission_size b) (retransmission_live b) (retransmission_head b)
      (capacity b) 0 0 (retransmission_queue b) in
  set_retransmission_size kept (set_retransmission_queue queue b).

Definition queue_retransmission (b : t) (sequence : SequenceNumber.t) : bool * t :=
  match offset_of b sequence with
  | None => (false, b)
  | Some offset =>
      let i := physical b offset in
      let stored := slots b !!! i in
      if dropped stored then queue_drop_request b sequence
      else if negb (occupied stored) then (false, b)
      else if negb (sent stored) || retransmission_queued stored then (true, b)
      else
        let b := if (retransmission_size b =? capacity b)%nat
                 then compact_retransmission_queue b else b in
        if (retransmission_size b =? capacity b)%nat then (false, b)
        else
          let tail := ((retransmission_head b + retransmission_size b) mod capacity b)%nat in
          let b := set_retransmission_queue (<[tail := sequence]> (retransmission_queue b)) b in
          let b := set_retransmission_size (retransmission_size b + 1) b in
          (true, update_slot i (set_retransmission_queued true) b)
  end.

(** ** Selecting packets *)

Definition outbound (b : t) (slot : Slot) : OutboundPacket :=
  {| out_header := header slot; out_payload := PayloadPool.get (payloads b) (payload_index slot);
     out_sequence_position := sequence_position slot |}.

Definition mark_retransmitted (h : DataHeader) : DataHeader :=
  {| sequence := sequence h; message_number := message_number h; boundary := boundary h;
     in_order := in_order h; encryption_key := encryption_key h; retransmitted := true;
     timestamp := timestamp h; destination_socket_id := destination_socket_id h |}.

Definition outbound_retransmission (b : t) (slot : Slot) : OutboundPacket :=
  {| out_header := mark_retransmitted (header slot);
     out_payload := PayloadPool.get (payloads b) (payload_index slot);
     out_sequence_position := sequence_position slot |}.

Definition unsent (slot : Slot) : bool := occupied slot && negb (sent slot).

Fixpoint first_unsent (b : t) (offsets : list nat) : option OutboundPacket :=
  match offsets with
  | [] => None
  | offset :: rest =>
      if unsent (slot_at b offset) then Some (outbound b (slot_at b offset))
      else first_unsent b rest
  end.

Definition peek_new_packet (b : t) : option OutboundPacket :=
  first_unsent b (seq (next_unsent_offset b) (sequence_span b - next_unsent_offset b)).

Definition pop_retransmission (b : t) : t :=
  set_retransmission_size (retransmission_size b - 1)
    (set_retransmission_head ((retransmission_head b + 1) mod capacity b)%nat b).

(** The queue loop of [next_packet]; each round removes one entry. *)
Fixpoint next_retransmission (rounds : nat) (defer : bool) (b : t) : option OutboundPacket * t :=
  match rounds with
  | O => (None, b)
  | S rounds =>
      if (retransmission_size b =? 0)%nat then (None, b)
      else
        let sequence := retransmission_queue b !!! retransmission_head b in
        let b := pop_retransmission b in
        match find b sequence with
        | None => next_retransmission rounds defer b
        | Some i =>
            let slot := slots b !!! i in
            if negb (retransmission_queued slot) then next_retransmission rounds defer b
            else
              let b := update_slot i (set_retransmission_queued defer) b in
              (Some (outbound_retransmission b slot), b)
        end
  end.

(** The cursor loop of [next_packet]; each round advances the cursor. *)
Fixpoint next_original (rounds : nat) (defer : bool) (now : Z) (b : t) : option OutboundPacket * t :=
  match rounds with
  | O => (None, b)
  | S rounds =>
      if (next_unsent_offset b <? sequence_span b)%nat then
        let i := physical b (next_unsent_offset b) in
        let slot := slots b !!! i in
        let b := set_next_unsent_offset (next_unsent_offset b + 1) b in
        if unsent slot then
          let b := update_slot i (fun s => set_first_send_microseconds now
                                             (set_submitted (negb defer) (set_sent true s))) b in
          let b := set_packets_in_flight (packets_in_flight b + 1) b in
          (Some (outbound b slot), b)
        else next_original rounds defer now b
      else (None, b)
  end.

Definition next_packet (b : t) (defer allow_retransmission : bool) (now : Z)
    : option OutboundPacket * t :=
  let '(r, b) :=
    if allow_retransmission then next_retransmission (retransmission_size b) defer b
    else (None, b) in
  match r with
  | Some packet => (Some packet, b)
  | None => next_original (sequence_span b - next_unsent_offset b) defer now b
  end.

Fixpoint peek_retransmission_loop (rounds : nat) (b : t) : option OutboundPacket * t :=
  match rounds with
  | O => (None, b)
  | S rounds =>
      if (retransmission_size b =? 0)%nat then (None, b)
      else
        match find b (retransmission_queue b !!! retransmission_head b) with
        | Some i =>
            if retransmission_queued (slots b !!! i)
            then (Some (outbound_retransmission b (slots b !!! i)), b)
            else peek_retransmission_loop rounds (pop_retransmission b)
        | None => peek_retransmission_loop rounds (pop_retransmission b)
        end
  end.

Definition peek_retransmission_packet (b : t) : option OutboundPacket * t :=
  peek_retransmission_loop (retransmission_size b) b.

Definition requeue_prepared_retransmission (b : t) (sequence : SequenceNumber.t) : t :=
  match find b sequence with
  | None => b
  | Some i => (queue_retransmission (update_slot i (set_retransmission_queued false) b) sequence).2
  end.

Definition has_pending_retransmission (b : t) : bool :=
  existsb (fun index =>
             retransmission_live b
               (retransmission_queue b !!! ((retransmission_head b + index) mod capacity b)%nat))
    (seq 0 (retransmission_size b)).

(** ** Encryption in place *)

(** The slot once its payload is the protected wire form of [size] bytes. *)
Definition protected_slot (key : EncryptionKey.t) (mode : CryptoMode.t) (size : Z) (s : Slot) : Slot :=
  let h := header s in
  set_header
    {| sequence := sequence h; message_number := message_number h;
       boundary := boundary h; in_order := in_order h; encryption_key := key;
       retransmitted := retransmitted h; timestamp := timestamp h;
       destination_socket_id := destination_socket_id h |}
    (set_protection_mode mode (set_payload_size (u16 size) s)).

Definition preserve_protected_payload (b : t) (sequence : SequenceNumber.t) (key : EncryptionKey.t)
    (mode : CryptoMode.t) (protected_payload : list Z) : Error.t * t :=
  match find b sequence, crypto_suite_for_mode mode with
  | Some i, Some suite =>
      let slot := slots b !!! i in
      if negb (sent slot)
         || (negb (bool_decide (key = EncryptionKey.even))
             && negb (bool_decide (key = EncryptionKey.odd)))
      then (Error.invalid_state, b)
      else if Z.of_nat (maximum_data_payload_size - suite_tag_size suite) <? plaintext_size slot
      then (Error.buffer_too_small, b)
      else
        let expected_size := plaintext_size slot + Z.of_nat (suite_tag_size suite) in
        if negb (Z.of_nat (length protected_payload) =? expected_size)
        then (Error.invalid_payload_size, b)
        else if negb (bool_decide (encryption_key (header slot) = EncryptionKey.none)) then
          (if bool_decide (encryption_key (header slot) = key)
              && bool_decide (protection_mode slot = mode)
              && (payload_size slot =? Z.of_nat (length protected_payload))
              && bool_decide (protected_payload =
                   take (length protected_payload)
                     (PayloadPool.get (payloads b) (payload_index slot)))
           then Error.none else Error.invalid_state, b)
        else
          let b := set_payloads
                     (PayloadPool.store (payloads b) (payload_index slot) protected_payload) b in
          (Error.none,
           update_slot i (protected_slot key mode (Z.of_nat (length protected_payload))) b)
  | _, _ => (Error.invalid_state, b)
  end.

Definition preserve_encrypted_payload (b : t) (sequence : SequenceNumber.t) (key : EncryptionKey.t)
    (ciphertext : list Z) : Error.t * t :=
  preserve_protected_payload b sequence key CryptoMode.aes_ctr ciphertext.

Definition note_packet_submitted (b : t) (sequence : SequenceNumber.t) : t :=
  match find b sequence with
  | Some i => if sent (slots b !!! i) then update_slot i (set_submitted true) b else b
  | None => b
  end.

(** ** Acknowledgement *)

Fixpoint discard_offsets (offsets : list nat) (b : t) : t :=
  match offsets with
  | [] => b
  | offset :: rest => discard_offsets rest (discard_slot (physical b offset) false b)
  end.

(** The bookkeeping that follows the removal of the first [count] slots. *)
Definition advance_head (count : nat) (first : SequenceNumber.t) (b : t) : t :=
  let b := set_head ((head b + count) mod capacity b)%nat b in
  let b := set_sequence_span (sequence_span b - count) b in
  let b := set_next_unsent_offset
             (next_unsent_offset b - Nat.min (next_unsent_offset b) count) b in
  set_first_sequence first b.

Definition acknowledge_before (b : t) (sequence : SequenceNumber.t) : Error.t * t :=
  let signed_count := SequenceNumber.distance_from sequence (first_sequence b) in
  if signed_count <? 0 then (Error.none, b)
  else if (sequence_span b <? Z.to_nat signed_count)%nat
  then (Error.invalid_control_payload, b)
  else
    let count := Z.to_nat signed_count in
    let b := advance_head count sequence (discard_offsets (seq 0 count) b) in
    (Error.none, if negb (count =? 0)%nat then refresh_first_buffered_enqueue_time b else b).

Definition acknowledge_submitted_before (b : t) (sequence : SequenceNumber.t) : Error.t * t :=
  let signed_count := SequenceNumber.distance_from sequence (first_sequence b) in
  if signed_count <? 0 then (Error.none, b)
  else if (sequence_span b <? Z.to_nat signed_count)%nat
  then (Error.invalid_control_payload, b)
  else
    let count := Z.to_nat signed_count in
    if existsb (fun index => occupied (slot_at b index) && negb (submitted (slot_at b index)))
         (seq 0 count)
    then (Error.invalid_control_payload, b)
    else acknowledge_before b sequence.

(** ** Retransmission requests *)

Definition validate_retransmission_range (b : t) (r : SequenceRange) : Error.t :=
  let signed_count := SequenceNumber.distance_from (range_last r) (range_first r) in
  let first_offset := SequenceNumber.distance_from (range_first r) (first_sequence b) in
  let last_offset := SequenceNumber.distance_from (range_last r) (first_sequence b) in
  if (signed_count <? 0) || (first_offset <? 0) || (last_offset <? first_offset)
     || (sequence_span b <=? Z.to_nat last_offset)%nat
  then Error.invalid_control_payload
  else
    let begin := Nat.max (Z.to_nat first_offset) (next_unsent_offset b) in
    let end_ := (Z.to_nat last_offset + 1)%nat in
    if (begin <? end_)%nat then
      let start := physical b begin in
      let count := (end_ - begin)%nat in
      let first_count := Nat.min count (capacity b - start) in
      let dropped :=
        dropped_prefix (dropped_counts b) (start + first_count)
        - dropped_prefix (dropped_counts b) start
        + dropped_prefix (dropped_counts b) (count - first_count) in
      if negb (dropped =? Z.of_nat count) then Error.invalid_control_payload else Error.none
    else Error.none.

(** The packet was retransmitted less than [minimum_repeat] ago. *)
Definition repeats_too_soon (slot : Slot) (now minimum_repeat : Z) : bool :=
  negb (dropped slot) && negb (minimum_repeat =? 0) && has_retransmission_send_time slot
  && ((now <? last_retransmission_send_microseconds (live (metadata slot)))
      || (u64 (now - last_retransmission_send_microseconds (live (metadata slot)))
          <? minimum_repeat)).

(** The loop over the requested sequence numbers, with the two counters. *)
Fixpoint request_loop (rounds : nat) (first : SequenceNumber.t) (index now minimum_repeat : Z)
    (packets : nat) (bytes : Z) (b : t) : Error.t * nat * Z * t :=
  match rounds with
  | O => (Error.none, packets, bytes, b)
  | S rounds =>
      let sequence := SequenceNumber.advanced first index in
      let slot := match find b sequence with Some i => Some (slots b !!! i) | None => None end in
      let continue_ :=
        match slot with Some s => repeats_too_soon s now minimum_repeat | None => false end in
      if continue_
      then request_loop rounds first (index + 1) now minimum_repeat packets bytes b
      else
        let newly_queued :=
          match slot with Some s => sent s && negb (retransmission_queued s) | None => false end in
        let size := match slot with
                    | Some s => if newly_queued then plaintext_size s else 0
                    | None => 0 end in
        let '(ok, b) := queue_retransmission b sequence in
        if negb ok then (Error.invalid_control_payload, packets, bytes, b)
        else if newly_queued
        then request_loop rounds first (index + 1) now minimum_repeat (packets + 1) (bytes + size) b
        else request_loop rounds first (index + 1) now minimum_repeat packets bytes b
  end.

(** Result, newly queued packets and bytes, buffer. *)
Definition request_retransmission (b : t) (r : SequenceRange) (now minimum_repeat : Z)
    : Error.t * nat * Z * t :=
  match validate_retransmission_range b r with
  | Error.none =>
      let count := SequenceNumber.distance_from (range_last r) (range_first r) + 1 in
      request_loop (Z.to_nat count) (range_first r) 0 now minimum_repeat 0 0 b
  | e => (e, 0%nat, 0, b)
  end.

Definition note_retransmission_sent (b : t) (sequence : SequenceNumber.t) (now : Z) : t :=
  match find b sequence with
  | Some i =>
      if occupied (slots b !!! i) && sent (slots b !!! i) then
        update_slot i
          (fun s => set_metadata
             (live_metadata
                {| last_retransmission_send_microseconds := now;
                   expiration_microseconds := expiration_microseconds (live (metadata s)) |})
             (set_has_retransmission_send_time true (set_retransmission_queued false s))) b
      else b
  | None => b
  end.

Fixpoint last_sent_loop (offsets : list nat) (b : t) : bool * t :=
  match offsets with
  | [] => (false, b)
  | offset :: rest =>
      let slot := slot_at b offset in
      if occupied slot && sent slot && negb (dropped slot)
      then queue_retransmission b (sequence (header slot))
      else last_sent_loop rest b
  end.

Definition request_retransmission_of_last_sent (b : t) : bool * t :=
  last_sent_loop (rev (seq 0 (sequence_span b))) b.

Fixpoint all_sent_loop (offsets : list nat) (queued : nat) (b : t) : nat * t :=
  match offsets with
  | [] => (queued, b)
  | offset :: rest =>
      let slot := slot_at b offset in
      if negb (occupied slot) || negb (sent slot) || retransmission_queued slot
      then all_sent_loop rest queued b
      else
        let '(ok, b) := queue_retransmission b (sequence (header slot)) in
        if negb ok then (queued, b) else all_sent_loop rest (queued + 1) b
  end.

Definition request_retransmission_of_all_sent (b : t) : nat * t :=
  all_sent_loop (seq 0 (sequence_span b)) 0 b.

(** ** Drop requests *)

Definition pop_drop_request (b : t) : t :=
  set_drop_request_size (drop_request_size b - 1)
    (set_drop_request_head ((drop_request_head b + 1) mod capacity b)%nat b).

Fixpoint next_drop_loop (rounds : nat) (b : t) : option SendDropResult * t :=
  match rounds with
  | O => (None, b)
  | S rounds =>
      if (drop_request_size b =? 0)%nat then (None, b)
      else
        let sequence := drop_request_queue b !!! drop_request_head b in
        let b := pop_drop_request b in
        match offset_of b sequence with
        | None => next_drop_loop rounds b
        | Some first_offset =>
            let i := physical b first_offset in
            let first := slots b !!! i in
            if negb (dropped first) || negb (drop_request_queued first)
            then next_drop_loop rounds b
            else
              let b := update_slot i (set_drop_request_queued false) b in
              let info := drop_info (metadata first) in
              let final_offset :=
                Z.to_nat (SequenceNumber.distance_from (message_last info) (first_sequence b)) in
              (Some {| drop_packets := (final_offset - first_offset + 1)%nat;
                       drop_bytes := remaining_bytes info;
                       first_message_number := message_number (header first);
                       drop_sequences :=
                         {| range_first := sequence;
                            range_last := SequenceNumber.advanced (first_sequence b)
                                            (u32 (Z.of_nat final_offset)) |} |}, b)
        end
  end.

Definition next_pending_drop_request (b : t) : option SendDropResult * t :=
  let '(r, b) := next_drop_loop (drop_request_size b) b in
  match r with
  | Some result => (Some result, b)
  | None =>
      let '(range, q) := RangeDropQueue.next (range_drop_request_queue b) in
      let b := set_range_drop_request_queue q b in
      match range with
      | Some r =>
          (Some {| drop_packets :=
                     (Z.to_nat (SequenceNumber.distance_from (range_last r) (range_first r)) + 1)%nat;
                   drop_bytes := 0; first_message_number := 0; drop_sequences := r |}, b)
      | None => (None, b)
      end
  end.

Definition has_pending_drop_request (b : t) : bool * t :=
  let b := if negb (drop_request_size b =? 0)%nat then compact_drop_request_queue b else b in
  (negb (drop_request_size b =? 0)%nat || negb (RangeDropQueue.empty (range_drop_request_queue b)), b).

Definition queue_range_drop_requests (b : t) (ranges : list SequenceRange) : bool * t :=
  let '(ok, q) := RangeDropQueue.queue (range_drop_request_queue b) ranges in
  (ok, set_range_drop_request_queue q b).

(** The [do ... while] skip over the other tombstones of the same message. *)
Fixpoint skip_message (rounds : nat) (b : t) (message : Z) (offset : nat) : nat :=
  match rounds with
  | O => offset
  | S rounds =>
      if (offset <? sequence_span b)%nat && dropped (slot_at b offset)
         && (message_number (header (slot_at b offset)) =? message)
      then skip_message rounds b message (offset + 1)
      else offset
  end.

Fixpoint retained_loop (rounds : nat) (offset queued : nat) (b : t) : nat * t :=
  match rounds with
  | O => (queued, b)
  | S rounds =>
      if (offset <? sequence_span b)%nat then
        let slot := slot_at b offset in
        if negb (dropped slot) then retained_loop rounds (offset + 1) queued b
        else
          let message := message_number (header slot) in
          let '(ok, b) :=
            queue_drop_request b
              (SequenceNumber.advanced (first_sequence b) (u32 (Z.of_nat offset))) in
          let queued := if ok : bool then (queued + 1)%nat else queued in
          retained_loop rounds (skip_message (sequence_span b) b message (offset + 1)) queued b
      else (queued, b)
  end.

Definition queue_retained_drop_requests (b : t) : nat * t :=
  retained_loop (sequence_span b) 0 0 b.

Fixpoint dropped_run (rounds : nat) (b : t) (count : nat) : nat :=
  match rounds with
  | O => count
  | S rounds =>
      if (count <? sequence_span b)%nat && dropped (slot_at b count)
      then dropped_run rounds b (count + 1) else count
  end.

Definition retired_prefix (b : t) : option SequenceRange :=
  let count := dropped_run (sequence_span b) b 0 in
  if (count =? 0)%nat then None
  else Some {| range_first := first_sequence b;
               range_last := SequenceNumber.advanced (first_sequence b)
                               (u32 (Z.of_nat (count - 1))) |}.

Definition release_retired_prefix (b : t) : t :=
  match retired_prefix b with
  | Some prefix => (acknowledge_before b (SequenceNumber.next (range_last prefix))).2
  | None => b
  end.

Definition has_retained_drop (b : t) : bool := negb (retained_drop_count b =? 0)%nat.

Definition next_expiration_microseconds (b : t) : option Z :=
  if (expiring_packet_count b =? 0)%nat then None else Some (earliest_expiration_microseconds b).

(** ** Drops *)

(** Rounds of the too-late scan; [packets] slots have been removed so far. *)
Fixpoint older_loop (rounds : nat) (cutoff last_message : Z) (packets : nat) (bytes : Z) (b : t)
    : nat * Z * t :=
  match rounds with
  | O => (packets, bytes, b)
  | S rounds =>
      if (packets <? sequence_span b)%nat then
        let i := physical b packets in
        let slot := slots b !!! i in
        if negb (occupied slot) then (packets, bytes, b)
        else
          let continues :=
            negb (packets =? 0)%nat && (message_number (header slot) =? last_message)
            && (bool_decide (boundary (header slot) = MessageBoundary.subsequent)
                || bool_decide (boundary (header slot) = MessageBoundary.last)) in
          if negb continues && (negb (sent slot) || (cutoff <? first_send_microseconds slot))
          then (packets, bytes, b)
          else older_loop rounds cutoff (message_number (header slot)) (packets + 1)
                 (bytes + plaintext_size slot) (discard_slot i false b)
      else (packets, bytes, b)
  end.

Definition drop_messages_older_than (b : t) (cutoff : Z) : SendDropResult * t :=
  if (sequence_span b =? 0)%nat then (no_drop, b)
  else
    let first := slots b !!! head b in
    if negb (sent first) || (cutoff <? first_send_microseconds first) then (no_drop, b)
    else
      let '(packets, bytes, b) :=
        older_loop (sequence_span b) cutoff (message_number (header first)) 0 0 b in
      if (packets =? 0)%nat
      then ({| drop_packets := 0; drop_bytes := bytes;
               first_message_number := message_number (header first);
               drop_sequences := {| range_first := first_sequence b; range_last := 0 |} |}, b)
      else
        let last := SequenceNumber.advanced (first_sequence b) (u32 (Z.of_nat (packets - 1))) in
        ({| drop_packets := packets; drop_bytes := bytes;
            first_message_number := message_number (header first);
            drop_sequences := {| range_first := first_sequence b; range_last := last |} |},
         refresh_first_buffered_enqueue_time (advance_head packets (SequenceNumber.next last) b)).

Definition set_drop_info (f : DropMetadata -> DropMetadata) (s : Slot) : Slot :=
  set_metadata (dropped_metadata (f (drop_info (metadata s)))) s.

(** Turns the expired message's slots into tombstones. *)
Fixpoint tombstone_loop (rounds : nat) (message : Z) (first : SequenceNumber.t)
    (message_offset packets : nat) (bytes : Z) (b : t) : nat * nat * Z * t :=
  match rounds with
  | O => (message_offset, packets, bytes, b)
  | S rounds =>
      if (message_offset <? sequence_span b)%nat then
        let i := physical b message_offset in
        let slot := slots b !!! i in
        if negb (occupied slot) || negb (message_number (header slot) =? message)
        then (message_offset, packets, bytes, b)
        else
          let b := discard_slot i true b in
          let b := update_slot i
                     (set_drop_info (fun d => {| message_first := first;
                                                 message_last := message_last d;
                                                 remaining_bytes := remaining_bytes d |})) b in
          tombstone_loop rounds message first (message_offset + 1) (packets + 1)
            (bytes + plaintext_size slot) b
      else (message_offset, packets, bytes, b)
  end.

(** Walks back over the tombstones and records last sequence and bytes. *)
Fixpoint label_loop (offsets : list nat) (last : SequenceNumber.t) (bytes : Z) (b : t) : t :=
  match offsets with
  | [] => b
  | offset :: rest =>
      let i := physical b offset in
      let bytes := bytes + plaintext_size (slots b !!! i) in
      label_loop rest last bytes
        (update_slot i (set_drop_info (fun d => {| message_first := message_first d;
                                                   message_last := last;
                                                   remaining_bytes := bytes |})) b)
  end.

Fixpoint expired_loop (rounds : nat) (now : Z) (offset : nat) (next_earliest : Z) (b : t)
    : SendDropResult * t :=
  match rounds with
  | O => (no_drop, set_earliest_expiration_microseconds next_earliest b)
  | S rounds =>
      if (offset <? sequence_span b)%nat then
        let first := slot_at b offset in
        let expiration := expiration_microseconds (live (metadata first)) in
        if negb (occupied first) || (expiration =? 0)
        then expired_loop rounds now (offset + 1) next_earliest b
        else if now <=? expiration
        then expired_loop rounds now (offset + 1) (Z.min next_earliest expiration) b
        else
          let message := message_number (header first) in
          let first_seq := SequenceNumber.advanced (first_sequence b) (u32 (Z.of_nat offset)) in
          let '(message_offset, packets, bytes, b) :=
            tombstone_loop (sequence_span b - offset) message first_seq offset 0 0 b in
          let last := SequenceNumber.advanced first_seq (u32 (Z.of_nat packets - 1)) in
          let b := label_loop (rev (seq offset (message_offset - offset))) last 0 b in
          ({| drop_packets := packets; drop_bytes := bytes; first_message_number := message;
              drop_sequences := {| range_first := first_seq; range_last := last |} |},
           refresh_buffered_enqueue_time_bounds b)
      else (no_drop, set_earliest_expiration_microseconds next_earliest b)
  end.

Definition drop_expired_message (b : t) (now : Z) : SendDropResult * t :=
  if (expiring_packet_count b =? 0)%nat || (now <=? earliest_expiration_microseconds b)
  then (no_drop, b)
  else expired_loop (sequence_span b) now 0 u64_max b.

Definition buffered_payload_bytes (b : t) : nat := buffered_plaintext_bytes b.

Definition buffered_span_milliseconds (b : t) : Z :=
  if (occupied_count b =? 0)%nat then 0
  else if first_buffered_enqueue_microseconds b <=? last_buffered_enqueue_microseconds b
  then u64 (last_buffered_enqueue_microseconds b - first_buffered_enqueue_microseconds b) / 1000 + 1
  else 1.
End SendBuffer.
