(* ===== verification/SendBufferFacts.v ===== *)
(** The send buffer's invariant: exact counters, an exact Fenwick tree, payload
    ownership, and the order of the packets in the ring. *)
From stdpp Require Import gmap.
From S2P Require Import Prelude Sequence Packet Codec Control LossList.
From S2P Require Import RangeDropQueue PayloadPool Fenwick SendBuffer.
Import SendBuffer.

(** * Sums over slots *)

Fixpoint sumf {A} (f : A -> nat) (l : list A) : nat :=
  match l with
  | [] => 0
  | x :: l => f x + sumf f l
  end.

Lemma sumf_app {A} (f : A -> nat) l1 l2 : sumf f (l1 ++ l2) = (sumf f l1 + sumf f l2)%nat.
Proof. induction l1; simpl; [reflexivity|]. rewrite IHl1. lia. Qed.

Lemma sumf_insert {A} (f : A -> nat) l i x y : l !! i = Some y ->
  (sumf f (<[i := x]> l) + f y = sumf f l + f x)%nat.
Proof.
  intros Hi. rewrite insert_take_drop by (eapply lookup_lt_Some; eassumption).
  rewrite <- (take_drop_middle _ _ _ Hi) at 3. rewrite !sumf_app. simpl. lia.
Qed.

Lemma sumf_rot {A} (f : A -> nat) h l : sumf f (rot h l) = sumf f l.
Proof. unfold rot. rewrite sumf_app, Nat.add_comm, <- sumf_app, take_drop. reflexivity. Qed.

Lemma sumf_zero {A} (f : A -> nat) l : Forall (fun x => f x = 0%nat) l -> sumf f l = 0%nat.
Proof. induction 1; simpl; lia. Qed.

(** Indicator of a flag. *)
Definition ind (f : Slot -> bool) (s : Slot) : nat := if f s then 1 else 0.

Definition plain (s : Slot) : nat := if occupied s then Z.to_nat (plaintext_size s) else 0.
Definition expiring (s : Slot) : bool :=
  occupied s && negb (expiration_microseconds (live (metadata s)) =? 0).

(** * Invariant *)

(** Consistency of one slot's flags with its metadata. *)
Record slot_ok (s : Slot) : Prop := {
  ok_occupied : occupied s = true -> dropped s = false;
  ok_sent : sent s = true -> occupied s = true;
  ok_submitted : submitted s = true -> sent s = true;
  ok_queued : retransmission_queued s = true -> sent s = true;
  ok_plain : 0 <= plaintext_size s <= Z.of_nat maximum_data_payload_size;
  ok_payload : occupied s = true -> 0 <= payload_size s <= Z.of_nat maximum_data_payload_size;
}.

(** Neither packet nor tombstone. *)
Definition blank (s : Slot) : Prop := occupied s = false /\ dropped s = false.
Definition present (s : Slot) : Prop := occupied s = true \/ dropped s = true.

(** Each occupied slot owns one payload of the pool, and nobody else does. *)
Record owns (sl : list Slot) (m : gmap nat (list Z)) : Prop := {
  own_stored : forall i s, sl !! i = Some s -> occupied s = true ->
    exists bs, m !! payload_index s = Some bs /\ Z.of_nat (length bs) = payload_size s;
  own_once : forall i j s s', sl !! i = Some s -> sl !! j = Some s' ->
    occupied s = true -> occupied s' = true -> payload_index s = payload_index s' -> i = j;
  own_size : base.size m = sumf (ind occupied) sl;
}.

(** Facts about the slot array, the pool and the counters that do not depend on
    where the ring starts. *)
Record core (b : t) (m : gmap nat (list Z)) : Prop := {
  core_bound : Z.of_nat (capacity b) < 2 ^ 30;
  core_slots : Forall slot_ok (slots b);
  core_tree : represents (dropped_counts b) (map dropped (slots b));
  core_pool : PayloadPool.inv (capacity b) (payloads b) m;
  core_owns : owns (slots b) m;
  core_occupied : occupied_count b = sumf (ind occupied) (slots b);
  core_dropped : retained_drop_count b = sumf (ind dropped) (slots b);
  core_flight : packets_in_flight b = sumf (ind sent) (slots b);
  core_bytes : buffered_plaintext_bytes b = sumf plain (slots b);
  core_expiring : expiring_packet_count b = sumf (ind expiring) (slots b);
  core_payload : (0 < maximum_payload_size b <= maximum_data_payload_size)%nat;
}.

(** The ring in logical order, and the packets it holds. *)
Definition ring (b : t) : list Slot := rot (head b) (slots b).
Definition packets (b : t) : list Slot := take (sequence_span b) (ring b).

Record inv (b : t) (m : gmap nat (list Z)) : Prop := {
  inv_core : core b m;
  inv_head : (head b < capacity b)%nat;
  inv_span : (sequence_span b <= capacity b)%nat;
  inv_first : SequenceNumber.wf (first_sequence b);
  inv_present : Forall present (packets b);
  inv_blank : Forall blank (drop (sequence_span b) (ring b));
  inv_sequence : forall o s, packets b !! o = Some s ->
    sequence (header s) = SequenceNumber.advanced (first_sequence b) (Z.of_nat o);
  inv_cursor : (next_unsent_offset b <= sequence_span b)%nat;
  inv_before : Forall (fun s => unsent s = false) (take (next_unsent_offset b) (packets b));
  inv_after : Forall (fun s => sent s = false) (drop (next_unsent_offset b) (packets b));
  inv_rq : length (retransmission_queue b) = capacity b;
  inv_rq_head : (retransmission_head b < capacity b)%nat;
  inv_rq_size : (retransmission_size b <= capacity b)%nat;
  inv_dq : length (drop_request_queue b) = capacity b;
  inv_dq_head : (drop_request_head b < capacity b)%nat;
  inv_dq_size : (drop_request_size b <= capacity b)%nat;
  inv_position : is_u64 (next_sequence_position b);
}.

(** * The ring *)

Lemma length_ring b : length (ring b) = capacity b.
Proof. apply length_rot. Qed.

Lemma length_packets b m : inv b m -> length (packets b) = sequence_span b.
Proof. intros H. unfold packets. rewrite length_take, length_ring. pose proof (inv_span _ _ H). lia. Qed.

Lemma physical_lt b o : (head b < capacity b)%nat -> (physical b o < capacity b)%nat.
Proof. intros. apply ring_index_lt. lia. Qed.

Lemma slot_at_ring b o : (head b < capacity b)%nat -> (o < capacity b)%nat ->
  slot_at b o = ring b !!! o.
Proof. intros. apply rot_lookup_total; assumption. Qed.

Lemma slot_at_packets b m o : inv b m -> (o < sequence_span b)%nat ->
  packets b !! o = Some (slot_at b o).
Proof.
  intros H Ho. pose proof (inv_span _ _ H). pose proof (inv_head _ _ H).
  unfold packets. rewrite lookup_take_lt, slot_at_ring by lia.
  apply list_lookup_lookup_total_lt. rewrite length_ring. lia.
Qed.

(** Writing a slot of the ring. *)
Lemma ring_insert b o s : (head b < capacity b)%nat -> (o < capacity b)%nat ->
  ring (set_slots (<[physical b o := s]> (slots b)) b) = <[o := s]> (ring b).
Proof. intros. unfold ring, physical, capacity. simpl. apply rot_insert; assumption. Qed.

(** * Discarding a slot *)

(** [forget_packet] and [count_tombstone] only touch the counters, the pool and
    the tree. *)
Definition same_ring (b b' : t) : Prop :=
  slots b' = slots b /\ retransmission_queue b' = retransmission_queue b /\
  drop_request_queue b' = drop_request_queue b /\
  range_drop_request_queue b' = range_drop_request_queue b /\
  first_sequence b' = first_sequence b /\ next_sequence_position b' = next_sequence_position b /\
  maximum_payload_size b' = maximum_payload_size b /\ head b' = head b /\
  sequence_span b' = sequence_span b /\ next_unsent_offset b' = next_unsent_offset b /\
  retransmission_head b' = retransmission_head b /\ retransmission_size b' = retransmission_size b /\
  drop_request_head b' = drop_request_head b /\ drop_request_size b' = drop_request_size b.

Lemma forget_ring s b : same_ring b (forget_packet s b).
Proof.
  unfold forget_packet. destruct (occupied s); [|repeat split].
  destruct (sent s); destruct (negb _); cbv zeta; destruct (_ =? 0)%nat; repeat split.
Qed.

Lemma count_ring i w r b : same_ring b (count_tombstone i w r b).
Proof. unfold count_tombstone. destruct (negb _), r; repeat split. Qed.

Lemma same_ring_trans a b c : same_ring a b -> same_ring b c -> same_ring a c.
Proof. unfold same_ring. intuition congruence. Qed.

Lemma discard_same i r b :
  exists b', same_ring b b' /\
    discard_slot i r b = set_slots (<[i := discarded r (slots b !!! i)]> (slots b)) b' /\
    b' = count_tombstone i (dropped (slots b !!! i)) r (forget_packet (slots b !!! i) b).
Proof.
  eexists. split; [eapply same_ring_trans; [apply forget_ring|apply count_ring]|].
  split; [|reflexivity]. unfold discard_slot. cbv zeta. f_equal. f_equal.
  destruct (count_ring i (dropped (slots b !!! i)) r (forget_packet (slots b !!! i) b)) as [-> _].
  apply (forget_ring (slots b !!! i) b).
Qed.

Lemma forget_fields s b :
  let b' := forget_packet s b in
  occupied_count b' = (occupied_count b - ind occupied s)%nat /\
  packets_in_flight b' = (packets_in_flight b - ind (fun s => occupied s && sent s) s)%nat /\
  buffered_plaintext_bytes b' = (buffered_plaintext_bytes b - plain s)%nat /\
  expiring_packet_count b' = (expiring_packet_count b - ind expiring s)%nat /\
  payloads b' = (if occupied s then PayloadPool.release (payloads b) (payload_index s)
                 else payloads b) /\
  dropped_counts b' = dropped_counts b /\ retained_drop_count b' = retained_drop_count b.
Proof.
  unfold forget_packet, ind, plain, expiring. destruct (occupied s); [|simpl; repeat split; lia].
  destruct (sent s); destruct (_ =? 0); simpl; destruct (_ - 1 =? 0)%nat; simpl; repeat split; lia.
Qed.

Lemma count_fields i w r b :
  let b' := count_tombstone i w r b in
  occupied_count b' = occupied_count b /\ packets_in_flight b' = packets_in_flight b /\
  buffered_plaintext_bytes b' = buffered_plaintext_bytes b /\
  expiring_packet_count b' = expiring_packet_count b /\ payloads b' = payloads b /\
  dropped_counts b' = (if Bool.eqb w r then dropped_counts b
                       else count_change (dropped_counts b) i r) /\
  retained_drop_count b' = (if Bool.eqb w r then retained_drop_count b
                            else if r then retained_drop_count b + 1
                            else retained_drop_count b - 1)%nat.
Proof. unfold count_tombstone. destruct w, r; simpl; repeat split. Qed.

(** Discarding a packet or tombstone for good, or turning a packet into a
    tombstone, keeps tree, pool and counters exact. *)
Definition without (b : t) (i : nat) (m : gmap nat (list Z)) : gmap nat (list Z) :=
  if occupied (slots b !!! i) then delete (payload_index (slots b !!! i)) m else m.

Lemma slot_ok_discarded r s : slot_ok s -> slot_ok (discarded r s).
Proof.
  intros [H1 H2 H3 H4 H5 H6]. unfold discarded. destruct r, (dropped s); simpl;
    split; simpl; auto; try discriminate; unfold maximum_data_payload_size in *; lia.
Qed.

Lemma owns_discard sl i r s m :
  Forall slot_ok sl -> sl !! i = Some s -> owns sl m ->
  owns (<[i := discarded r s]> sl) (if occupied s then delete (payload_index s) m else m).
Proof.
  intros Hok Hi [O1 O2 O3]. assert (Ho : occupied (discarded r s) = false)
    by (unfold discarded; destruct r, (dropped s); reflexivity).
  split.
  - intros j x Hj Hx. apply list_lookup_insert_Some in Hj as [(<- & <- & _)|[Hne Hj]]; [congruence|].
    destruct (O1 j x Hj Hx) as (bs & Hb & Hl). exists bs. split; [|assumption].
    destruct (occupied s) eqn:Es; [|assumption]. rewrite lookup_delete_ne; [assumption|].
    intros E. apply Hne. eapply O2; eauto.
  - intros j k x y Hj Hk Hx Hy E.
    apply list_lookup_insert_Some in Hj as [(<- & <- & _)|[_ Hj]]; [congruence|].
    apply list_lookup_insert_Some in Hk as [(<- & <- & _)|[_ Hk]]; [congruence|].
    eapply O2; eauto.
  - pose proof (sumf_insert (ind occupied) sl i (discarded r s) s Hi) as Hs.
    assert (E : ind occupied (discarded r s) = 0%nat) by (unfold ind; rewrite Ho; reflexivity).
    rewrite E in Hs. unfold ind in Hs at 2. destruct (occupied s) eqn:Es; [|lia].
    destruct (O1 i s Hi Es) as (bs & Hb & _). rewrite map_size_delete_Some by eauto. lia.
Qed.

(** The tree after the flag of slot [i] went from [w] to [r]. *)
Lemma tree_change counts sl i s r (x : Slot) : represents counts (map dropped sl) ->
  sl !! i = Some s -> dropped x = r ->
  represents (if Bool.eqb (dropped s) r then counts else count_change counts i r)
    (map dropped (<[i := x]> sl)).
Proof.
  intros Hrep Hs Hx. rewrite list_fmap_insert, Hx.
  assert (Hl : map dropped sl !! i = Some (dropped s)) by (rewrite list_lookup_fmap, Hs; reflexivity).
  destruct (Bool.eqb (dropped s) r) eqn:E.
  - apply eqb_prop in E. rewrite list_insert_id by (rewrite <- E; exact Hl). assumption.
  - apply count_change_represents; [assumption|]. etransitivity; [exact Hl|].
    destruct (dropped s), r; try discriminate; reflexivity.
Qed.

Lemma discard_core b m i r :
  core b m -> (i < capacity b)%nat -> (r = true -> occupied (slots b !!! i) = true) ->
  core (discard_slot i r b) (without b i m).
Proof.
  intros Hc Hi Hr. pose proof Hc as [C0 C1 C2 C3 C4 C5 C6 C7 C8 C9 C10].
  set (s := slots b !!! i) in *.
  assert (Hs : slots b !! i = Some s) by (apply list_lookup_lookup_total_lt; exact Hi).
  assert (Hok : slot_ok s) by (rewrite Forall_lookup in C1; eauto). pose proof Hok as [K1 K2 K3 K4 K5 K6].
  destruct (discard_same i r b) as (b' & Hring & Hd & Hb'). fold s in Hd, Hb'.
  destruct Hring as (R1 & _ & _ & _ & _ & _ & R2 & _).
  destruct (forget_fields s b) as (F1 & F2 & F3 & F4 & F5 & F6 & F7).
  destruct (count_fields i (dropped s) r (forget_packet s b)) as (G1 & G2 & G3 & G4 & G5 & G6 & G7).
  rewrite <- Hb' in G1, G2, G3, G4, G5, G6, G7. clear Hb'.
  assert (D : occupied (discarded r s) = false /\ dropped (discarded r s) = r /\
              sent (discarded r s) = false)
    by (unfold discarded; destruct r, (dropped s); auto).
  destruct D as (D1 & D2 & D3). unfold without. fold s. rewrite Hd.
  assert (Hcap : capacity (set_slots (<[i:=discarded r s]> (slots b)) b') = capacity b)
    by (unfold capacity; simpl; apply length_insert).
  pose proof (fun f => sumf_insert f (slots b) i (discarded r s) s Hs) as Hsum.
  split; simpl; rewrite ?Hcap, ?G1, ?G2, ?G3, ?G4, ?G5, ?G6, ?G7, ?F1, ?F2, ?F3, ?F4, ?F5, ?F6, ?F7, ?R2; auto.
  - apply Forall_insert; [assumption|]. apply slot_ok_discarded. assumption.
  - apply tree_change; assumption.
  - destruct (occupied s) eqn:Es; [|assumption]. apply PayloadPool.release_inv; [assumption|].
    destruct (own_stored _ _ C4 i s Hs Es) as (bs & Hb & _). eauto.
  - apply owns_discard; assumption.
  - specialize (Hsum (ind occupied)). unfold ind in *. rewrite D1 in Hsum. lia.
  - specialize (Hsum (ind dropped)). unfold ind in *. rewrite D2 in Hsum.
    destruct (dropped s), r; simpl in *; lia.
  - specialize (Hsum (ind sent)). unfold ind in *. rewrite D3 in Hsum.
    destruct (sent s); [rewrite K2 by reflexivity|]; rewrite ?andb_false_r; simpl in *; lia.
  - specialize (Hsum plain). unfold plain in *. rewrite D1 in Hsum. lia.
  - specialize (Hsum (ind expiring)). unfold ind, expiring in *. rewrite D1 in Hsum. simpl in *. lia.
Qed.

(** * Changes that keep every packet in place *)

(** [x] holds the same packet or tombstone as [s]; only bookkeeping differs. *)
Record similar (s x : Slot) : Prop := {
  sim_occupied : occupied x = occupied s;
  sim_dropped : dropped x = dropped s;
  sim_sent : sent x = sent s;
  sim_index : payload_index x = payload_index s;
  sim_plain : plaintext_size x = plaintext_size s;
  sim_payload : payload_size x = payload_size s;
  sim_expiring : expiring x = expiring s;
  sim_header : header x = header s;
  sim_position : sequence_position x = sequence_position s;
}.

#[export] Instance similar_refl : Reflexive similar.
Proof. split; reflexivity. Qed.
#[export] Instance similar_trans : Transitive similar.
Proof. intros a c d [] []. split; congruence. Qed.

Record queues_ok (b : t) : Prop := {
  q_rq : length (retransmission_queue b) = capacity b;
  q_rq_head : (retransmission_head b < capacity b)%nat;
  q_rq_size : (retransmission_size b <= capacity b)%nat;
  q_dq : length (drop_request_queue b) = capacity b;
  q_dq_head : (drop_request_head b < capacity b)%nat;
  q_dq_size : (drop_request_size b <= capacity b)%nat;
}.

(** The fields the invariant reads, apart from slots and queues. *)
Record frame (b b' : t) : Prop := {
  fr_counts : dropped_counts b' = dropped_counts b;
  fr_payloads : payloads b' = payloads b;
  fr_first : first_sequence b' = first_sequence b;
  fr_max : maximum_payload_size b' = maximum_payload_size b;
  fr_head : head b' = head b;
  fr_span : sequence_span b' = sequence_span b;
  fr_cursor : next_unsent_offset b' = next_unsent_offset b;
  fr_occupied : occupied_count b' = occupied_count b;
  fr_retained : retained_drop_count b' = retained_drop_count b;
  fr_bytes : buffered_plaintext_bytes b' = buffered_plaintext_bytes b;
  fr_expiring : expiring_packet_count b' = expiring_packet_count b;
  fr_flight : packets_in_flight b' = packets_in_flight b;
  fr_position : next_sequence_position b' = next_sequence_position b;
}.

Record evolves (b b' : t) : Prop := {
  ev_frame : frame b b';
  ev_slots : Forall2 similar (slots b) (slots b');
  ev_ok : Forall slot_ok (slots b) -> Forall slot_ok (slots b');
  ev_queues : queues_ok b -> queues_ok b';
}.

#[export] Instance evolves_refl : Reflexive evolves.
Proof. intros b. split; [split; reflexivity|reflexivity|auto|auto]. Qed.

#[export] Instance evolves_trans : Transitive evolves.
Proof.
  intros a c d [[] A2 A3 A4] [[] B2 B3 B4].
  split; [split; congruence|etransitivity; eassumption|auto|auto].
Qed.

Lemma similar_rot l l' h : Forall2 similar l l' -> Forall2 similar (rot h l) (rot h l').
Proof. intros H. unfold rot. apply Forall2_app; [apply Forall2_drop|apply Forall2_take]; assumption. Qed.

Lemma similar_sumf (f : Slot -> nat) l l' :
  (forall s x, similar s x -> f x = f s) -> Forall2 similar l l' -> sumf f l' = sumf f l.
Proof. intros Hf. induction 1; simpl; [reflexivity|]. erewrite Hf by eassumption. lia. Qed.

Lemma similar_ind (f : Slot -> bool) : (forall s x, similar s x -> f x = f s) ->
  forall s x, similar s x -> ind f x = ind f s.
Proof. intros Hf s x Hx. unfold ind. rewrite (Hf _ _ Hx). reflexivity. Qed.

Lemma similar_Forall (P : Slot -> Prop) l l' :
  (forall s x, similar s x -> P s -> P x) -> Forall2 similar l l' -> Forall P l -> Forall P l'.
Proof. intros HP. induction 1; [auto|]. rewrite !Forall_cons. intros []. split; eauto. Qed.

Lemma similar_dropped l l' : Forall2 similar l l' -> map dropped l' = map dropped l.
Proof. induction 1; simpl; [reflexivity|]. erewrite sim_dropped by eassumption. congruence. Qed.

Lemma similar_lookup l l' i x : Forall2 similar l l' -> l' !! i = Some x ->
  exists s, l !! i = Some s /\ similar s x.
Proof. intros H Hi. destruct (Forall2_lookup_r _ _ _ _ _ H Hi) as (s & ? & ?). eauto. Qed.

Lemma similar_owns l l' m : Forall2 similar l l' -> owns l m -> owns l' m.
Proof.
  intros H [O1 O2 O3]. split.
  - intros i x Hi Hx. destruct (similar_lookup _ _ _ _ H Hi) as (s & Hs & [E1 E2 E3 E4 E5 E6 E7 E8 E9]).
    rewrite E4, E6. apply (O1 i s Hs). congruence.
  - intros i j x y Hi Hj Hx Hy E.
    destruct (similar_lookup _ _ _ _ H Hi) as (s & Hs & []).
    destruct (similar_lookup _ _ _ _ H Hj) as (s' & Hs' & []). eapply O2; eauto; congruence.
  - rewrite O3. symmetry. apply similar_sumf; [|assumption]. apply similar_ind, sim_occupied.
Qed.

Lemma evolves_core b b' m : core b m -> evolves b b' -> core b' m.
Proof.
  intros [C0 C1 C2 C3 C4 C5 C6 C7 C8 C9 C10] [[F1 F2 F3 F4 F5 F6 F7 F8 F9 F10 F11 F12 F13] Hs Hok _].
  assert (Hcap : capacity b' = capacity b) by (unfold capacity; symmetry; eapply Forall2_length; eauto).
  split; rewrite ?Hcap, ?F1, ?F2, ?F4, ?F8, ?F9, ?F10, ?F11, ?F12; auto.
  - rewrite (similar_dropped _ _ Hs). assumption.
  - eapply similar_owns; eassumption.
  - rewrite C5. symmetry. apply similar_sumf; [|assumption]. apply similar_ind, sim_occupied.
  - rewrite C6. symmetry. apply similar_sumf; [|assumption]. apply similar_ind, sim_dropped.
  - rewrite C7. symmetry. apply similar_sumf; [|assumption]. apply similar_ind, sim_sent.
  - rewrite C8. symmetry. apply similar_sumf; [|assumption]. intros s x Hx. unfold plain.
    rewrite (sim_occupied _ _ Hx), (sim_plain _ _ Hx). reflexivity.
  - rewrite C9. symmetry. apply similar_sumf; [|assumption]. apply similar_ind, sim_expiring.
Qed.

Lemma evolves_packets b b' : evolves b b' -> Forall2 similar (packets b) (packets b').
Proof.
  intros [[] Hs _ _]. unfold packets, ring. rewrite fr_span0, fr_head0.
  apply Forall2_take, similar_rot. assumption.
Qed.

Lemma inv_queues b m : inv b m -> queues_ok b.
Proof. intros []. split; assumption. Qed.

Lemma evolves_inv b b' m : inv b m -> evolves b b' -> inv b' m.
Proof.
  intros Hi He. pose proof (evolves_packets _ _ He) as Hp.
  pose proof (ev_queues _ _ He (inv_queues _ _ Hi)) as [].
  pose proof Hi as [I1 I2 I3 I4 I5 I6 I7 I8 I9 I10 _ _ _ _ _ _ J7].
  pose proof (evolves_core _ _ _ I1 He) as Hc.
  destruct He as [[F1 F2 F3 F4 F5 F6 F7 F8 F9 F10 F11 F12 F13] Hs _ _].
  assert (Hcap : capacity b' = capacity b) by (unfold capacity; symmetry; eapply Forall2_length; eauto).
  split; rewrite ?Hcap in *; auto; rewrite ?F3, ?F5, ?F6, ?F7, ?F13; auto.
  - eapply similar_Forall; [|exact Hp|exact I5]. intros s x []. unfold present. intuition congruence.
  - eapply similar_Forall; [|apply Forall2_drop, similar_rot, Hs|].
    2:{ rewrite F5. exact I6. }
    intros s x []. unfold blank. intuition congruence.
  - intros o x Ho. destruct (similar_lookup _ _ _ _ Hp Ho) as (s & Hso & []).
    rewrite sim_header0. apply I7. assumption.
  - eapply similar_Forall; [|apply Forall2_take, Hp|exact I9]. intros s x []. unfold unsent. congruence.
  - eapply similar_Forall; [|apply Forall2_drop, Hp|exact I10]. intros s x []. congruence.
Qed.

(** A single bookkeeping change. *)
Lemma update_evolves i (f : Slot -> Slot) b :
  (i < capacity b)%nat -> similar (slots b !!! i) (f (slots b !!! i)) ->
  (slot_ok (slots b !!! i) -> slot_ok (f (slots b !!! i))) ->
  evolves b (update_slot i f b).
Proof.
  intros Hi Hs Hok. unfold update_slot.
  assert (Hl : slots b !! i = Some (slots b !!! i)) by (apply list_lookup_lookup_total_lt; exact Hi).
  split; [split; reflexivity| | |].
  - simpl. rewrite <- (list_insert_id _ _ _ Hl) at 1. apply Forall2_insert; [reflexivity|assumption].
  - simpl. intros H. apply Forall_insert; [assumption|]. apply Hok. rewrite Forall_lookup in H. eauto.
  - intros []. split; unfold capacity; simpl; rewrite ?length_insert; assumption.
Qed.

(** * Queue operations *)

Lemma offset_of_spec b q o : offset_of b q = Some o ->
  (o < sequence_span b)%nat /\ SequenceNumber.distance_from q (first_sequence b) = Z.of_nat o.
Proof.
  unfold offset_of. destruct (Z.ltb_spec (SequenceNumber.distance_from q (first_sequence b)) 0); [discriminate|].
  destruct (Nat.leb_spec (sequence_span b) (Z.to_nat (SequenceNumber.distance_from q (first_sequence b))));
    [discriminate|]. intros [= <-]. lia.
Qed.

Lemma find_spec b q i : find b q = Some i ->
  exists o, offset_of b q = Some o /\ i = physical b o /\ occupied (slots b !!! i) = true.
Proof.
  unfold find. destruct (offset_of b q) as [o|]; [|discriminate].
  destruct (occupied (slot_at b o)) eqn:E; [|discriminate]. intros [= <-]. eauto.
Qed.

Lemma find_lt b q i : (0 < capacity b)%nat -> find b q = Some i -> (i < capacity b)%nat.
Proof. intros Hc H. apply find_spec in H as (o & _ & -> & _). apply ring_index_lt. assumption. Qed.

(** The in-place compaction of a ring is [filter] on its contents. *)
Lemma compact_loop_spec keep h cap : (h < cap)%nat -> forall rounds index kept q,
  length q = cap -> (kept <= index)%nat -> (index + rounds <= cap)%nat ->
  let '(k, q') := compact_loop rounds keep h cap index kept q in
  length q' = cap /\ (kept <= k <= kept + rounds)%nat /\
  take k (rot h q') = take kept (rot h q) ++ List.filter keep (take rounds (drop index (rot h q))).
Proof.
  intros Hh. induction rounds as [|n IH]; intros index kept q Hl Hk Hn; cbn [compact_loop].
  { simpl. rewrite app_nil_r. repeat split; auto; lia. }
  assert (Hx : rot h q !! index = Some (q !!! ((h + index) mod cap)%nat)).
  { rewrite <- Hl, rot_lookup_total by lia. apply list_lookup_lookup_total_lt. rewrite length_rot. lia. }
  set (x := q !!! ((h + index) mod cap)%nat) in *.
  rewrite (drop_S _ _ _ Hx). cbn [take List.filter]. destruct (keep x) eqn:Ek.
  - specialize (IH (index + 1)%nat (kept + 1)%nat (<[((h + kept) mod cap)%nat := x]> q)).
    destruct (compact_loop _ _ _ _ _ _ _) as [k q'].
    destruct IH as (I1 & I2 & I3); [rewrite length_insert; assumption|lia|lia|].
    split; [assumption|]. split; [lia|]. rewrite I3. rewrite <- Hl at 1 2. rewrite rot_insert by lia.
    rewrite Nat.add_1_r, (take_S_r _ _ x) by (apply list_lookup_insert_eq; rewrite length_rot; lia).
    rewrite take_insert_ge, drop_insert_lt by lia. rewrite Nat.add_1_r, <- app_assoc. reflexivity.
  - specialize (IH (index + 1)%nat kept q Hl ltac:(lia) ltac:(lia)).
    destruct (compact_loop _ _ _ _ _ _ _) as [k q']. destruct IH as (I1 & I2 & I3).
    split; [assumption|]. split; [lia|]. rewrite I3, Nat.add_1_r. reflexivity.
Qed.

(** The sequence numbers waiting for retransmission, oldest first. *)
Definition retransmissions (b : t) : list SequenceNumber.t :=
  take (retransmission_size b) (rot (retransmission_head b) (retransmission_queue b)).
Definition drop_requests (b : t) : list SequenceNumber.t :=
  take (drop_request_size b) (rot (drop_request_head b) (drop_request_queue b)).

Lemma compact_retransmissions b : queues_ok b ->
  retransmissions (compact_retransmission_queue b) = List.filter (retransmission_live b) (retransmissions b)
  /\ evolves b (compact_retransmission_queue b).
Proof.
  intros [Q1 Q2 Q3 Q4 Q5 Q6]. unfold compact_retransmission_queue, retransmissions.
  pose proof (compact_loop_spec (retransmission_live b) (retransmission_head b) (capacity b) Q2
    (retransmission_size b) 0 0 (retransmission_queue b) Q1 ltac:(lia) ltac:(lia)) as H.
  destruct (compact_loop _ _ _ _ _ _ _) as [k q]. destruct H as (H1 & H2 & H3). simpl.
  split; [rewrite H3, drop_0; reflexivity|].
  split; [split; reflexivity|reflexivity|auto|]. intros _. split; unfold capacity in *; simpl; auto; lia.
Qed.

Lemma compact_drop_requests b : queues_ok b ->
  drop_requests (compact_drop_request_queue b) = List.filter (drop_request_live b) (drop_requests b)
  /\ evolves b (compact_drop_request_queue b).
Proof.
  intros [Q1 Q2 Q3 Q4 Q5 Q6]. unfold compact_drop_request_queue, drop_requests.
  pose proof (compact_loop_spec (drop_request_live b) (drop_request_head b) (capacity b) Q5
    (drop_request_size b) 0 0 (drop_request_queue b) Q4 ltac:(lia) ltac:(lia)) as H.
  destruct (compact_loop _ _ _ _ _ _ _) as [k q]. destruct H as (H1 & H2 & H3). simpl in H3. rewrite drop_0 in H3.
  split.
  - destruct (Nat.eqb_spec k 0) as [->|]; exact H3.
  - split; [destruct (k =? 0)%nat; split; reflexivity|destruct (k =? 0)%nat; reflexivity
           |destruct (k =? 0)%nat; auto|].
    intros _. destruct (k =? 0)%nat; split; unfold capacity in *; simpl; auto; lia.
Qed.

Ltac flag_change := apply update_evolves; [|split; reflexivity|intros []; split; simpl; auto].

Lemma queue_drop_request_evolves b q : queues_ok b -> evolves b (queue_drop_request b q).2.
Proof.
  intros Hq. assert (Hcap : (0 < capacity b)%nat) by (destruct Hq; lia).
  unfold queue_drop_request. destruct (offset_of b q) as [o|]; [|reflexivity].
  destruct (negb _); [reflexivity|]. cbv zeta. set (i := physical b _).
  destruct (drop_request_queued _); [reflexivity|].
  set (b1 := if (drop_request_size b =? capacity b)%nat then _ else b).
  assert (H1 : evolves b b1)
    by (unfold b1; destruct (_ =? _)%nat; [apply compact_drop_requests; assumption|reflexivity]).
  assert (Hc1 : capacity b1 = capacity b)
    by (unfold capacity; symmetry; eapply Forall2_length; apply H1).
  destruct (Nat.eqb_spec (drop_request_size b1) (capacity b1)) as [|Hne]; [exact H1|].
  simpl. etransitivity; [exact H1|]. pose proof (ev_queues _ _ H1 Hq) as [Q1 Q2 Q3 Q4 Q5 Q6].
  etransitivity; [|flag_change; unfold capacity in *; simpl; rewrite Hc1; apply ring_index_lt; assumption].
  split; [split; reflexivity|reflexivity|auto|].
  intros _. split; unfold capacity in *; simpl; rewrite ?length_insert; auto; lia.
Qed.

Lemma queue_retransmission_evolves b m q : inv b m -> evolves b (queue_retransmission b q).2.
Proof.
  intros Hinv. pose proof (inv_queues _ _ Hinv) as Hq.
  assert (Hcap : (0 < capacity b)%nat) by (destruct Hq; lia).
  unfold queue_retransmission. destruct (offset_of b q) as [o|]; [|reflexivity].
  cbv zeta. set (i := physical b o).
  destruct (dropped _); [apply queue_drop_request_evolves; assumption|].
  destruct (negb (occupied _)); [reflexivity|].
  destruct (negb (sent (slots b !!! i)) || _) eqn:Es; [reflexivity|]. b2p.
  set (b1 := if (retransmission_size b =? capacity b)%nat then _ else b).
  assert (H1 : evolves b b1)
    by (unfold b1; destruct (_ =? _)%nat; [apply compact_retransmissions; assumption|reflexivity]).
  assert (Hsl : slots b1 = slots b).
  { unfold b1. destruct (_ =? _)%nat; [|reflexivity]. unfold compact_retransmission_queue.
    destruct (compact_loop _ _ _ _ _ _ _). reflexivity. }
  assert (Hc1 : capacity b1 = capacity b) by (unfold capacity; congruence).
  destruct (Nat.eqb_spec (retransmission_size b1) (capacity b1)) as [|Hne]; [exact H1|].
  simpl. etransitivity; [exact H1|]. pose proof (ev_queues _ _ H1 Hq) as [Q1 Q2 Q3 Q4 Q5 Q6].
  etransitivity; [|flag_change; unfold capacity in *; simpl; rewrite ?Hsl; auto].
  2:{ apply ring_index_lt. assumption. }
  split; [split; reflexivity|reflexivity|auto|].
  intros _. split; unfold capacity in *; simpl; rewrite ?length_insert; auto; lia.
Qed.

(** * Removing packets from the front *)

(** The fields [discard_slot] does not touch, besides the slots. *)
Record kept (b b' : t) : Prop := {
  kp_rq : retransmission_queue b' = retransmission_queue b;
  kp_dq : drop_request_queue b' = drop_request_queue b;
  kp_range : range_drop_request_queue b' = range_drop_request_queue b;
  kp_first : first_sequence b' = first_sequence b;
  kp_position : next_sequence_position b' = next_sequence_position b;
  kp_max : maximum_payload_size b' = maximum_payload_size b;
  kp_head : head b' = head b;
  kp_span : sequence_span b' = sequence_span b;
  kp_cursor : next_unsent_offset b' = next_unsent_offset b;
  kp_rq_head : retransmission_head b' = retransmission_head b;
  kp_rq_size : retransmission_size b' = retransmission_size b;
  kp_dq_head : drop_request_head b' = drop_request_head b;
  kp_dq_size : drop_request_size b' = drop_request_size b;
}.

#[export] Instance kept_refl : Reflexive kept.
Proof. split; reflexivity. Qed.
#[export] Instance kept_trans : Transitive kept.
Proof. intros a c d [] []. split; congruence. Qed.

Lemma discard_kept i r b : kept b (discard_slot i r b) /\
  slots (discard_slot i r b) = <[i := discarded r (slots b !!! i)]> (slots b).
Proof.
  destruct (discard_same i r b) as (b' & (R1 & R2 & R3 & R4 & R5 & R6 & R7 & R8 & R9 & R10 & R11 & R12 & R13 & R14) & -> & _).
  split; [split; simpl; assumption|reflexivity].
Qed.

Lemma kept_capacity b b' : length (slots b') = length (slots b) -> kept b b' ->
  capacity b' = capacity b /\ forall o, physical b' o = physical b o.
Proof.
  intros Hl []. unfold physical, capacity. rewrite Hl, kp_head0. auto.
Qed.

(** One slot of the ring discarded. *)
Lemma discard_ring b o r : (head b < capacity b)%nat -> (o < capacity b)%nat ->
  ring (discard_slot (physical b o) r b) = <[o := discarded r (ring b !!! o)]> (ring b).
Proof.
  intros Hh Ho. destruct (discard_kept (physical b o) r b) as [[] Hs].
  unfold ring at 1. rewrite kp_head0, Hs. change (slots b !!! physical b o) with (slot_at b o).
  rewrite slot_at_ring by assumption. apply rot_insert; assumption.
Qed.

Lemma without_subseteq b i m : without b i m ⊆ m.
Proof. unfold without. destruct (occupied _); [apply delete_subseteq|reflexivity]. Qed.

(** Consecutive slots discarded for good. *)
Lemma discard_offsets_spec n : forall k b m,
  core b m -> (head b < capacity b)%nat -> (k + n <= capacity b)%nat ->
  let b' := discard_offsets (seq k n) b in
  kept b b' /\ capacity b' = capacity b /\
  ring b' = take k (ring b) ++ map (discarded false) (take n (drop k (ring b))) ++ drop (k + n) (ring b) /\
  exists m', m' ⊆ m /\ core b' m'.
Proof.
  induction n as [|n IH]; intros k b m Hc Hh Hk.
  { simpl. rewrite Nat.add_0_r, take_drop. split; [reflexivity|]. repeat split; auto. exists m. auto. }
  cbn [seq discard_offsets]. set (b1 := discard_slot (physical b k) false b).
  destruct (discard_kept (physical b k) false b) as [Hk1 Hs1]. fold b1 in Hk1, Hs1.
  assert (Hcap : capacity b1 = capacity b) by (unfold capacity; rewrite Hs1; apply length_insert).
  assert (Hc1 : core b1 (without b (physical b k) m))
    by (apply discard_core; auto; [apply ring_index_lt; lia|discriminate]).
  assert (Hr1 : ring b1 = <[k := discarded false (ring b !!! k)]> (ring b))
    by (apply discard_ring; lia).
  destruct (IH (S k) b1 _ Hc1) as (I1 & I2 & I3 & m' & I4 & I5);
    [rewrite Hcap, (kp_head _ _ Hk1); assumption|lia|].
  split; [etransitivity; eassumption|]. split; [congruence|]. split.
  - rewrite I3, Hr1. replace (k + S n)%nat with (S k + n)%nat by lia.
    assert (Hx : ring b !! k = Some (ring b !!! k))
      by (apply list_lookup_lookup_total_lt; rewrite length_ring; lia).
    rewrite (take_S_r _ _ (discarded false (ring b !!! k)))
      by (apply list_lookup_insert_eq; rewrite length_ring; lia).
    rewrite take_insert_ge, !drop_insert_lt by lia.
    rewrite (drop_S _ _ _ Hx). cbn [take map]. rewrite <- app_assoc. reflexivity.
  - exists m'. split; [|assumption]. etransitivity; [exact I4|apply without_subseteq].
Qed.

Lemma blank_discarded s : blank (discarded false s).
Proof. split; reflexivity. Qed.

Lemma advance_seq b c o : SequenceNumber.wf (first_sequence b) ->
  SequenceNumber.advanced (first_sequence b) (Z.of_nat (c + o)) =
  SequenceNumber.advanced (SequenceNumber.advanced (first_sequence b) (Z.of_nat c)) (Z.of_nat o).
Proof.
  intros _. rewrite !SequenceNumber.advanced_mod, Zplus_mod_idemp_l. f_equal. lia.
Qed.

Lemma core_advance b m count q : core b m -> core (advance_head count q b) m.
Proof. intros []. split; assumption. Qed.

(** The ring after a prefix was discarded and the head moved past it. *)
Lemma retire_ring b d count q : kept b d -> capacity d = capacity b -> (head b < capacity b)%nat ->
  (count <= capacity b)%nat ->
  ring d = map (discarded false) (take count (ring b)) ++ drop count (ring b) ->
  ring (advance_head count q d) = drop count (ring b) ++ map (discarded false) (take count (ring b)).
Proof.
  intros K Kcap Hh Hc Kring. change (ring (advance_head count q d))
    with (rot ((head d + count) mod length (slots d)) (slots d)).
  rewrite rot_advance; change (length (slots d)) with (capacity d); rewrite ?Kcap, ?(kp_head _ _ K); auto.
  replace (rot (head b) (slots d)) with (ring d) by (unfold ring; rewrite (kp_head _ _ K); reflexivity).
  rewrite Kring. unfold rot.
  assert (El : length (map (discarded false) (take count (ring b))) = count)
    by (rewrite length_map, length_take, length_ring; lia).
  rewrite drop_app_ge, take_app_le, El, Nat.sub_diag, drop_0 by lia.
  rewrite take_ge by lia. reflexivity.
Qed.

(** The invariant after the first [count] packets are gone. *)
Lemma retire_inv b m d m' count q :
  inv b m -> (count <= sequence_span b)%nat ->
  q = SequenceNumber.advanced (first_sequence b) (Z.of_nat count) ->
  kept b d -> capacity d = capacity b -> core d m' ->
  ring d = map (discarded false) (take count (ring b)) ++ drop count (ring b) ->
  packets (advance_head count q d) = drop count (packets b) /\ inv (advance_head count q d) m'.
Proof.
  intros Hinv Hcount Hq K Kcap Hc Kring. pose proof Hinv as [I1 I2 I3 I4 I5 I6 I7 I8 I9 I10 J1 J2 J3 J4 J5 J6 J7].
  pose proof (retire_ring b d count q K Kcap I2 ltac:(lia) Kring) as Hring.
  assert (Hpk : packets (advance_head count q d) = drop count (packets b)).
  { unfold packets at 1. rewrite Hring. unfold advance_head. simpl. rewrite (kp_span _ _ K).
    rewrite take_app_le by (rewrite length_drop, length_ring; lia).
    unfold packets. rewrite skipn_firstn_comm. reflexivity. }
  split; [exact Hpk|]. destruct K as [K1 K2 K3 K4 K5 K6 K7 K8 K9 K10 K11 K12 K13].
  assert (Hcap : capacity (advance_head count q d) = capacity b) by exact Kcap.
  split; [exact (core_advance _ _ count q Hc)|..];
    rewrite ?Hpk, ?Hring, ?Hcap; unfold advance_head; simpl;
    rewrite ?K1, ?K2, ?K5, ?K7, ?K8, ?K9, ?K10, ?K11, ?K12, ?K13; auto; try lia.
  - rewrite Kcap. apply ring_index_lt. lia.
  - subst q. apply SequenceNumber.advanced_wf.
  - apply Forall_drop. assumption.
  - rewrite drop_app_le, drop_drop by (rewrite length_drop, length_ring; lia).
    replace (count + (sequence_span b - count))%nat with (sequence_span b) by lia.
    apply Forall_app. split; [assumption|]. apply Forall_map, Forall_true. intros s. apply blank_discarded.
  - intros o s Ho. rewrite lookup_drop in Ho. rewrite (I7 _ _ Ho), advance_seq by assumption. subst q. reflexivity.
  - replace (next_unsent_offset b - Nat.min (next_unsent_offset b) count)%nat
      with (next_unsent_offset b - count)%nat by lia.
    rewrite <- skipn_firstn_comm. apply Forall_drop. assumption.
  - rewrite drop_drop. destruct (decide (count <= next_unsent_offset b)%nat).
    + replace (count + _)%nat with (next_unsent_offset b) by lia. assumption.
    + replace (count + _)%nat with (next_unsent_offset b + (count - next_unsent_offset b))%nat by lia.
      rewrite <- drop_drop. apply Forall_drop. assumption.
Qed.

Lemma retire_prefix b m count q :
  inv b m -> (count <= sequence_span b)%nat ->
  q = SequenceNumber.advanced (first_sequence b) (Z.of_nat count) ->
  let b' := advance_head count q (discard_offsets (seq 0 count) b) in
  packets b' = drop count (packets b) /\ exists m', m' ⊆ m /\ inv b' m'.
Proof.
  intros Hinv Hcount Hq. pose proof (inv_span _ _ Hinv).
  destruct (discard_offsets_spec count 0 b m (inv_core _ _ Hinv) (inv_head _ _ Hinv) ltac:(lia))
    as (K & Kcap & Kring & m' & Hm & Hc). simpl in Kring. rewrite drop_0 in Kring.
  destruct (retire_inv b m _ m' count q Hinv Hcount Hq K Kcap Hc Kring) as [H1 H2]. eauto.
Qed.

(** Changing the buffered time bounds does not matter to the invariant. *)
Lemma inv_times b m first last : inv b m ->
  inv (set_last_buffered_enqueue_microseconds last (set_first_buffered_enqueue_microseconds first b)) m.
Proof. intros [[] ? ? ? ? ? ? ? ? ? ? ? ? ? ? ? ?]. split; auto. split; auto. Qed.

Lemma refresh_first_times b : exists first last,
  refresh_first_buffered_enqueue_time b =
  set_last_buffered_enqueue_microseconds last (set_first_buffered_enqueue_microseconds first b).
Proof.
  unfold refresh_first_buffered_enqueue_time. destruct (_ =? 0)%nat; [eauto|].
  destruct (first_occupied _ _) as [s|].
  - exists (enqueue_microseconds s), (last_buffered_enqueue_microseconds b). reflexivity.
  - exists (first_buffered_enqueue_microseconds b), (last_buffered_enqueue_microseconds b). destruct b; reflexivity.
Qed.

Lemma refresh_first_inv b m : inv b m ->
  inv (refresh_first_buffered_enqueue_time b) m /\
  packets (refresh_first_buffered_enqueue_time b) = packets b /\
  payloads (refresh_first_buffered_enqueue_time b) = payloads b.
Proof.
  intros Hinv. destruct (refresh_first_times b) as (f & l & ->).
  split; [apply inv_times; assumption|]. split; reflexivity.
Qed.

(** * Enqueueing *)

Lemma enqueue_fields p f l bytes b index pool :
  PayloadPool.acquire (payloads b) bytes = (index, pool) ->
  let i := physical b (sequence_span b) in
  let s := new_slot p f l bytes index (slots b !!! i) b in
  let b' := enqueue_packet p f l bytes b in
  slots b' = <[i := s]> (slots b) /\ payloads b' = pool /\ dropped_counts b' = dropped_counts b /\
  retained_drop_count b' = retained_drop_count b /\ packets_in_flight b' = packets_in_flight b /\
  occupied_count b' = (occupied_count b + 1)%nat /\
  buffered_plaintext_bytes b' = (buffered_plaintext_bytes b + length bytes)%nat /\
  expiring_packet_count b' = (expiring_packet_count b + ind expiring s)%nat /\
  sequence_span b' = (sequence_span b + 1)%nat /\
  next_sequence_position b' = u64 (next_sequence_position b + 1) /\
  maximum_payload_size b' = maximum_payload_size b /\ head b' = head b /\
  first_sequence b' = first_sequence b /\ next_unsent_offset b' = next_unsent_offset b /\
  retransmission_queue b' = retransmission_queue b /\ retransmission_head b' = retransmission_head b /\
  retransmission_size b' = retransmission_size b /\ drop_request_queue b' = drop_request_queue b /\
  drop_request_head b' = drop_request_head b /\ drop_request_size b' = drop_request_size b.
Proof.
  intros Ha. unfold enqueue_packet, ind, expiring. rewrite Ha. cbv zeta. cbn [new_slot occupied metadata live].
  cbn [expiration_microseconds]. destruct (enqueue_expiration p =? 0); simpl;
    destruct (occupied_count b =? 0)%nat; simpl; try (repeat split; lia);
    destruct (_ || _); simpl; repeat split; lia.
Qed.

Lemma blank_sumf (g : Slot -> nat) b m : inv b m ->
  (forall s, blank s -> g s = 0%nat) -> sumf g (slots b) = sumf g (packets b).
Proof.
  intros Hinv Hg. rewrite <- (sumf_rot g (head b)). fold (ring b).
  rewrite <- (take_drop (sequence_span b) (ring b)), sumf_app. fold (packets b).
  rewrite (sumf_zero g (drop _ _)); [lia|].
  eapply Forall_impl; [exact (inv_blank _ _ Hinv)|]. exact Hg.
Qed.

Lemma ind_le (f : Slot -> bool) l : (sumf (ind f) l <= length l)%nat.
Proof. induction l as [|s l IH]; simpl; [lia|]. unfold ind at 1. destruct (f s); lia. Qed.

Lemma occupied_le b m : inv b m -> (sumf (ind occupied) (slots b) <= sequence_span b)%nat.
Proof.
  intros Hinv. rewrite (blank_sumf _ b m) by (auto; intros s [Hs _]; unfold ind; rewrite Hs; reflexivity).
  pose proof (ind_le occupied (packets b)). rewrite (length_packets b m Hinv) in H. assumption.
Qed.

Lemma owns_new sl i old m s bs : owns sl m -> sl !! i = Some old -> occupied old = false ->
  m !! payload_index s = None -> Z.of_nat (length bs) = payload_size s -> occupied s = true ->
  owns (<[i := s]> sl) (<[payload_index s := bs]> m).
Proof.
  intros [O1 O2 O3] Hi Ho Hm Hl Hs.
  assert (Hold : forall j x, sl !! j = Some x -> occupied x = true -> payload_index x <> payload_index s).
  { intros j x Hj Hx E. destruct (O1 j x Hj Hx) as (bs' & Hb & _). rewrite E, Hm in Hb. discriminate. }
  split.
  - intros j x Hj Hx. apply list_lookup_insert_Some in Hj as [(<- & <- & _)|[Hne Hj]].
    + exists bs. rewrite lookup_insert_eq. auto.
    + rewrite lookup_insert_ne by (intros E; symmetry in E; revert E; eapply Hold; eauto). eauto.
  - intros j k x y Hj Hk Hx Hy E.
    apply list_lookup_insert_Some in Hj as [(<- & <- & _)|[_ Hj]];
      apply list_lookup_insert_Some in Hk as [(<- & <- & _)|[_ Hk]]; [reflexivity| | |eauto].
    + exfalso. eapply (Hold k y); eauto.
    + exfalso. eapply (Hold j x); eauto.
  - rewrite map_size_insert_None by assumption.
    pose proof (sumf_insert (ind occupied) sl i s old Hi) as H. unfold ind in H at 2 4. rewrite Ho, Hs in H. lia.
Qed.

Lemma ring_tail b m : inv b m -> (sequence_span b < capacity b)%nat ->
  ring b !! sequence_span b = Some (slot_at b (sequence_span b)) /\
  blank (slot_at b (sequence_span b)).
Proof.
  intros Hinv Hs. pose proof (inv_head _ _ Hinv).
  assert (Hl : ring b !! sequence_span b = Some (slot_at b (sequence_span b)))
    by (rewrite slot_at_ring by lia; apply list_lookup_lookup_total_lt; rewrite length_ring; lia).
  split; [assumption|]. pose proof (inv_blank _ _ Hinv) as Hb.
  rewrite (drop_S _ _ _ Hl) in Hb. apply Forall_cons in Hb. apply Hb.
Qed.

Lemma slot_ok_new p f l bytes index old b : (length bytes <= maximum_data_payload_size)%nat ->
  slot_ok (new_slot p f l bytes index old b).
Proof.
  intros Hb. split; simpl; auto; try discriminate;
    rewrite PayloadPool.u16_length by exact Hb; lia.
Qed.

Lemma enqueue_core p f l bytes b m :
  inv b m -> (sequence_span b < capacity b)%nat -> (length bytes <= maximum_payload_size b)%nat ->
  let b' := enqueue_packet p f l bytes b in
  exists index, m !! index = None /\ core b' (<[index := bytes]> m) /\
    slots b' = <[physical b (sequence_span b) :=
                   new_slot p f l bytes index (slot_at b (sequence_span b)) b]> (slots b).
Proof.
  intros Hinv Hs Hb. pose proof (inv_core _ _ Hinv) as [C0 C1 C2 C3 C4 C5 C6 C7 C8 C9 C10].
  pose proof (inv_head _ _ Hinv) as Hh. destruct (ring_tail b m Hinv Hs) as [_ [Hbl1 Hbl2]].
  pose proof (occupied_le b m Hinv) as Hocc.
  assert (Hw : (length bytes <= PayloadPool.width)%nat) by (unfold PayloadPool.width; lia).
  pose proof (PayloadPool.acquire_inv (capacity b) (payloads b) m bytes C3) as Hacq.
  destruct (PayloadPool.acquire (payloads b) bytes) as [index pool] eqn:Ea.
  destruct Hacq as (A1 & A2 & A3); [rewrite (own_size _ _ C4); lia|assumption|].
  destruct (enqueue_fields p f l bytes b index pool Ea)
    as (E1 & E2 & E3 & E4 & E5 & E6 & E7 & E8 & E9 & E10 & E11 & _).
  set (i := physical b (sequence_span b)) in *. set (old := slots b !!! i) in *.
  set (s := new_slot p f l bytes index old b) in *. set (b' := enqueue_packet p f l bytes b) in *.
  assert (Hi : slots b !! i = Some old)
    by (apply list_lookup_lookup_total_lt, physical_lt; assumption).
  exists index. split; [assumption|]. split; [|exact E1].
  assert (Hcap : capacity b' = capacity b) by (unfold capacity; rewrite E1; apply length_insert).
  pose proof (fun g => sumf_insert g (slots b) i s old Hi) as Hsum.
  assert (Ho : occupied old = false /\ dropped old = false) by (split; assumption). destruct Ho as [Ho Hd].
  assert (Hso : sent old = false).
  { destruct (sent old) eqn:E; [|reflexivity]. rewrite Forall_lookup in C1.
    pose proof (ok_sent _ (C1 i old Hi) E). congruence. }
  split; rewrite ?Hcap, ?E1, ?E2, ?E3, ?E4, ?E5, ?E6, ?E7, ?E8, ?E11; auto.
  - apply Forall_insert; [assumption|]. apply slot_ok_new. lia.
  - pose proof (tree_change (dropped_counts b) (slots b) i old false s C2 Hi eq_refl) as H.
    rewrite Hd in H. exact H.
  - apply (owns_new (slots b) i old m s bytes); auto. simpl. symmetry. apply PayloadPool.u16_length. assumption.
  - specialize (Hsum (ind occupied)). unfold ind in Hsum at 2 4. rewrite Ho in Hsum. simpl in Hsum. lia.
  - specialize (Hsum (ind dropped)). unfold ind in Hsum at 2 4. rewrite Hd in Hsum. simpl in Hsum. lia.
  - specialize (Hsum (ind sent)). unfold ind in Hsum at 2 4. rewrite Hso in Hsum. simpl in Hsum. lia.
  - specialize (Hsum plain). unfold plain in Hsum at 2 4. rewrite Ho in Hsum. simpl in Hsum.
    rewrite PayloadPool.u16_length, Nat2Z.id in Hsum by assumption. lia.
  - specialize (Hsum (ind expiring)).
    assert (E : ind expiring old = 0%nat) by (unfold ind, expiring; rewrite Ho; reflexivity). lia.
Qed.

Lemma enqueue_inv p f l bytes b m :
  inv b m -> (sequence_span b < capacity b)%nat -> (length bytes <= maximum_payload_size b)%nat ->
  let b' := enqueue_packet p f l bytes b in
  exists index old, m !! index = None /\ inv b' (<[index := bytes]> m) /\
    packets b' = packets b ++ [new_slot p f l bytes index old b] /\
    capacity b' = capacity b /\ sequence_span b' = S (sequence_span b).
Proof.
  intros Hinv Hs Hb b'. destruct (enqueue_core p f l bytes b m Hinv Hs Hb) as (index & A1 & A2 & A3).
  fold b' in A2, A3. pose proof Hinv as [I1 I2 I3 I4 I5 I6 I7 I8 I9 I10 J1 J2 J3 J4 J5 J6 J7].
  destruct (PayloadPool.acquire (payloads b) bytes) as [index' pool] eqn:Ea.
  destruct (enqueue_fields p f l bytes b index' pool Ea)
    as (_ & _ & _ & _ & _ & _ & _ & _ & E9 & E10 & _ & E12 & E13 & E14 & E15 & E16 & E17 & E18 & E19 & E20).
  fold b' in E9, E10, E12, E13, E14, E15, E16, E17, E18, E19, E20. clear Ea.
  set (s := new_slot p f l bytes index (slot_at b (sequence_span b)) b) in *.
  assert (Hcap : capacity b' = capacity b) by (unfold capacity; rewrite A3; apply length_insert).
  assert (Hring : ring b' = <[sequence_span b := s]> (ring b)).
  { unfold ring. rewrite E12, A3. apply rot_insert; assumption. }
  assert (Hpk : packets b' = packets b ++ [s]).
  { unfold packets. rewrite E9, Hring, Nat.add_1_r.
    rewrite (take_S_r _ _ s) by (apply list_lookup_insert_eq; rewrite length_ring; lia).
    rewrite take_insert_ge by lia. reflexivity. }
  pose proof (length_packets b m Hinv) as Hlen.
  exists index, (slot_at b (sequence_span b)). split; [assumption|]. split; [|split; [exact Hpk|split; [assumption|lia]]].
  split; [exact A2|..]; rewrite ?Hpk, ?Hcap, ?E9, ?E10, ?E12, ?E13, ?E14, ?E15, ?E16, ?E17, ?E18, ?E19, ?E20; auto using u64_range; try lia.
  - apply Forall_app. split; [assumption|]. constructor; [left; reflexivity|constructor].
  - rewrite Hring, Nat.add_1_r, drop_insert_lt by lia.
    destruct (ring_tail b m Hinv Hs) as [Hl _]. rewrite (drop_S _ _ _ Hl) in I6.
    apply Forall_cons in I6. apply I6.
  - intros o x Ho. apply lookup_app_Some in Ho as [Ho|[Hge Ho]]; [auto|].
    apply list_lookup_singleton_Some in Ho as [Ho <-]. simpl. unfold next_sequence.
    rewrite u32_id by (unfold is_u32; pose proof (core_bound _ _ I1); lia). f_equal. lia.
  - rewrite take_app_le by lia. assumption.
  - rewrite drop_app_le by lia. apply Forall_app. split; [assumption|]. constructor; [reflexivity|constructor].
Qed.

(** ** Fragmentation *)

(** A message in pieces of [max] bytes. *)
Fixpoint fragments (n max : nat) (bytes : list Z) : list (list Z) :=
  match n with
  | O => []
  | S n => take max bytes :: fragments n max (drop max bytes)
  end.

Lemma length_fragments n max bytes : length (fragments n max bytes) = n.
Proof. revert bytes. induction n; intros; simpl; auto. Qed.

Lemma concat_fragments n max bytes : concat (fragments n max bytes) = take (n * max) bytes.
Proof.
  revert bytes. induction n as [|n IH]; intros; simpl; [reflexivity|].
  rewrite IH, take_take_drop. reflexivity.
Qed.

Lemma fragments_small n max bytes x : x ∈ fragments n max bytes -> (length x <= max)%nat.
Proof.
  revert bytes. induction n as [|n IH]; intros bytes H; simpl in H; [apply elem_of_nil in H as []|].
  apply elem_of_cons in H as [->|H]; [rewrite length_take; lia|eauto].
Qed.

(** What the [j]-th new packet of a message looks like. *)
Record new_packet (p : EnqueueParameters) (first : SequenceNumber.t) (position : Z) (index count : nat)
    (m : gmap nat (list Z)) (bytes : list Z) (s : Slot) : Prop := {
  np_occupied : occupied s = true;
  np_bytes : m !! payload_index s = Some bytes;
  np_size : plaintext_size s = Z.of_nat (length bytes);
  np_unsent : sent s = false;
  np_position : sequence_position s = u64 position;
  np_header : header s =
    {| sequence := first; message_number := Z.land (enqueue_message_number p) 0x03ffffff;
       boundary := boundary_of (index =? 0)%nat (index + 1 =? count)%nat;
       in_order := enqueue_in_order p; encryption_key := EncryptionKey.none; retransmitted := false;
       timestamp := enqueue_timestamp p; destination_socket_id := enqueue_destination p |};
}.

Lemma take_min_drop max consumed (message : list Z) :
  take (Nat.min max (length message - consumed)) (drop consumed message) = take max (drop consumed message) /\
  drop (consumed + Nat.min max (length message - consumed)) message = drop max (drop consumed message).
Proof.
  rewrite <- drop_drop. assert (E : (length message - consumed)%nat = length (drop consumed message))
    by (rewrite length_drop; reflexivity). rewrite E. set (rest := drop consumed message).
  destruct (decide (max <= length rest)%nat).
  - rewrite Nat.min_l by lia. auto.
  - rewrite Nat.min_r by lia. rewrite firstn_all, skipn_all, take_ge, drop_ge by lia. auto.
Qed.

Lemma enqueue_loop_spec p message count r : forall index consumed b m,
  inv b m -> (sequence_span b + r <= capacity b)%nat -> (index + r = count)%nat ->
  next_sequence_position b + Z.of_nat r < 2 ^ 64 ->
  let b' := enqueue_loop r index count p message consumed b in
  exists m' new, inv b' m' /\ m ⊆ m' /\ packets b' = packets b ++ new /\ length new = r /\
    capacity b' = capacity b /\
    forall j s bytes, new !! j = Some s ->
      fragments r (maximum_payload_size b) (drop consumed message) !! j = Some bytes ->
      new_packet p (SequenceNumber.advanced (first_sequence b) (Z.of_nat (sequence_span b + j)))
        (next_sequence_position b + Z.of_nat j) (index + j) count m' bytes s.
Proof.
  induction r as [|r IH]; intros index consumed b m Hinv Hcap Hc Hmax; cbn [enqueue_loop].
  { exists m, []. rewrite app_nil_r. split; [assumption|]. do 4 (split; [reflexivity|]).
    intros j s bytes H. rewrite lookup_nil in H. discriminate. }
  destruct (take_min_drop (maximum_payload_size b) consumed message) as [Et Ed]. rewrite Et.
  set (bytes0 := take (maximum_payload_size b) (drop consumed message)).
  set (b1 := enqueue_packet p _ _ bytes0 b).
  destruct (enqueue_inv p (index =? 0)%nat (index + 1 =? count)%nat bytes0 b m Hinv ltac:(lia))
    as (i & old & M & Hinv1 & Hpk1 & Hcap1 & Hspan1); [unfold bytes0; rewrite length_take; lia|].
  fold b1 in Hinv1, Hpk1, Hcap1, Hspan1.
  destruct (PayloadPool.acquire (payloads b) bytes0) as [ix pool] eqn:Ea.
  destruct (enqueue_fields p (index =? 0)%nat (index + 1 =? count)%nat bytes0 b ix pool Ea)
    as (_ & _ & _ & _ & _ & _ & _ & _ & _ & E10 & E11 & _ & E13 & _). fold b1 in E10, E11, E13. clear Ea.
  pose proof (inv_position _ _ Hinv) as Hpos. unfold is_u64 in Hpos.
  rewrite u64_id in E10 by (unfold is_u64; lia).
  destruct (IH (index + 1)%nat (consumed + Nat.min (maximum_payload_size b) (length message - consumed))%nat
              b1 _ Hinv1) as (m' & new & N1 & N2 & N3 & N4 & N5 & N6); try lia.
  set (s0 := new_slot p (index =? 0)%nat (index + 1 =? count)%nat bytes0 i old b) in *.
  exists m', (s0 :: new). split; [assumption|].
  split; [etransitivity; [apply insert_subseteq; exact M|exact N2]|].
  split; [rewrite N3, Hpk1, <- app_assoc; reflexivity|]. split; [simpl; lia|]. split; [congruence|].
  intros [|j] s bytes Hj Hb; simpl in Hj, Hb.
  - injection Hj as <-. injection Hb as <-. fold bytes0.
    pose proof (inv_core _ _ Hinv) as Hcore. pose proof (core_bound _ _ Hcore). pose proof (core_payload _ _ Hcore).
    assert (Hl : (length bytes0 <= PayloadPool.width)%nat)
      by (unfold bytes0, PayloadPool.width; rewrite length_take; lia).
    split; simpl; auto.
    + eapply lookup_weaken; [apply lookup_insert_eq|exact N2].
    + apply PayloadPool.u16_length. assumption.
    + rewrite u64_id by (unfold is_u64; lia). lia.
    + unfold next_sequence. rewrite !Nat.add_0_r, u32_id by (unfold is_u32; lia). reflexivity.
  - rewrite Ed, E11 in N6. specialize (N6 j s bytes Hj Hb). rewrite Hspan1, E13, E10 in N6.
    replace (sequence_span b + S j)%nat with (S (sequence_span b) + j)%nat by lia.
    replace (next_sequence_position b + Z.of_nat (S j)) with (next_sequence_position b + 1 + Z.of_nat j) by lia.
    replace (index + S j)%nat with (index + 1 + j)%nat by lia. exact N6.
Qed.

(** * Original transmission *)

Definition sent_slot (defer : bool) (now : Z) (s : Slot) : Slot :=
  set_first_send_microseconds now (set_submitted (negb defer) (set_sent true s)).

Lemma packets_insert b m o f : inv b m -> (o < sequence_span b)%nat ->
  packets (update_slot (physical b o) f b) = <[o := f (slot_at b o)]> (packets b).
Proof.
  intros Hinv Ho. pose proof (inv_span _ _ Hinv). pose proof (inv_head _ _ Hinv).
  unfold packets. rewrite <- take_insert_lt by assumption. f_equal.
  unfold ring, update_slot. simpl. apply rot_insert; unfold capacity in *; lia.
Qed.

Lemma ring_rest b m o f : inv b m -> (o < sequence_span b)%nat ->
  drop (sequence_span b) (ring (update_slot (physical b o) f b)) = drop (sequence_span b) (ring b).
Proof.
  intros Hinv Ho. pose proof (inv_span _ _ Hinv). pose proof (inv_head _ _ Hinv).
  replace (ring (update_slot (physical b o) f b)) with (<[o := f (slot_at b o)]> (ring b)).
  - apply drop_insert_lt. lia.
  - symmetry. unfold ring, update_slot. simpl. apply rot_insert; unfold capacity in *; lia.
Qed.

(** Marking the packet at the cursor as sent. *)
Definition send_original (defer : bool) (now : Z) (o : nat) (b : t) : t :=
  set_packets_in_flight (packets_in_flight b + 1)
    (update_slot (physical b o) (sent_slot defer now) (set_next_unsent_offset (o + 1) b)).

Lemma send_original_core defer now o b m : inv b m -> (o < sequence_span b)%nat ->
  unsent (slot_at b o) = true -> core (send_original defer now o b) m.
Proof.
  intros Hinv Ho Hu. pose proof (inv_core _ _ Hinv) as [C0 C1 C2 C3 C4 C5 C6 C7 C8 C9 C10].
  unfold unsent in Hu. b2p. set (i := physical b o). set (s := slots b !!! i).
  assert (Hi : slots b !! i = Some s)
    by (apply list_lookup_lookup_total_lt, physical_lt, (inv_head _ _ Hinv)).
  assert (Hs : occupied s = true /\ sent s = false) by (split; assumption). destruct Hs as [Hs1 Hs2].
  assert (Hok : slot_ok s) by (rewrite Forall_lookup in C1; eauto).
  pose proof (fun g => sumf_insert g (slots b) i (sent_slot defer now s) s Hi) as Hsum.
  unfold send_original, update_slot. simpl. fold i s.
  split; unfold capacity in *; simpl; rewrite ?length_insert; auto.
  - apply Forall_insert; [assumption|]. destruct Hok. split; simpl; auto.
  - rewrite list_fmap_insert. simpl. rewrite list_insert_id; [assumption|].
    rewrite list_lookup_fmap, Hi. reflexivity.
  - destruct C4 as [O1 O2 O3]. split.
    + intros j x Hj Hx. apply list_lookup_insert_Some in Hj as [(<- & <- & _)|[_ Hj]]; [apply (O1 i s Hi Hs1)|eauto].
    + intros j k x y Hj Hk Hx Hy E.
      apply list_lookup_insert_Some in Hj as [(<- & <- & _)|[_ Hj]];
        apply list_lookup_insert_Some in Hk as [(<- & <- & _)|[_ Hk]]; eauto.
    + specialize (Hsum (ind occupied)). unfold ind in Hsum at 2 4. simpl in Hsum. lia.
  - specialize (Hsum (ind occupied)). unfold ind in Hsum at 2 4. simpl in Hsum. lia.
  - specialize (Hsum (ind dropped)). unfold ind in Hsum at 2 4. simpl in Hsum. lia.
  - specialize (Hsum (ind sent)). unfold ind in Hsum at 2 4. rewrite Hs2 in Hsum. simpl in Hsum. lia.
  - specialize (Hsum plain). unfold plain in Hsum at 2 4. simpl in Hsum. lia.
  - specialize (Hsum (ind expiring)). unfold ind in Hsum at 2 4. change (expiring (sent_slot defer now s)) with (expiring s) in Hsum. lia.
Qed.

Lemma send_original_inv defer now o b m : inv b m -> (next_unsent_offset b <= o < sequence_span b)%nat ->
  unsent (slot_at b o) = true ->
  (forall k, (next_unsent_offset b <= k < o)%nat -> unsent (slot_at b k) = false) ->
  inv (send_original defer now o b) m /\
  packets (send_original defer now o b) = <[o := sent_slot defer now (slot_at b o)]> (packets b).
Proof.
  intros Hinv Ho Hu Hskip. pose proof (send_original_core defer now o b m Hinv ltac:(lia) Hu) as Hcore.
  assert (Hpk : packets (send_original defer now o b) = <[o := sent_slot defer now (slot_at b o)]> (packets b))
    by (apply (packets_insert b m o (sent_slot defer now) Hinv); lia).
  split; [|exact Hpk]. pose proof Hinv as [I1 I2 I3 I4 I5 I6 I7 I8 I9 I10 J1 J2 J3 J4 J5 J6 J7].
  pose proof (ring_rest b m o (sent_slot defer now) Hinv ltac:(lia)) as Hrest.
  assert (Hcap : capacity (send_original defer now o b) = capacity b)
    by (unfold capacity; simpl; apply length_insert).
  assert (Ho' : packets b !! o = Some (slot_at b o)) by (apply (slot_at_packets b m); [assumption|lia]).
  split; [exact Hcore|..]; rewrite ?Hpk, ?Hcap; auto; cbn [send_original]; try (simpl; lia).
  - apply Forall_insert; [assumption|]. rewrite Forall_lookup in I5. apply (I5 o _ Ho').
  - change (sequence_span (send_original defer now o b)) with (sequence_span b).
    change (ring (send_original defer now o b)) with (ring (update_slot (physical b o) (sent_slot defer now) b)).
    rewrite Hrest. assumption.
  - intros k x Hk. change (first_sequence (send_original defer now o b)) with (first_sequence b).
    apply list_lookup_insert_Some in Hk as [(<- & <- & _)|[_ Hk]]; [apply (I7 o _ Ho')|auto].
  - change (next_unsent_offset (send_original defer now o b)) with (o + 1)%nat.
    apply Forall_lookup. intros k x Hk. apply lookup_take_Some in Hk as [Hk Hlt].
    apply list_lookup_insert_Some in Hk as [(<- & <- & _)|[Hne Hk]].
    { unfold unsent. simpl. apply andb_false_r. }
    destruct (decide (k < next_unsent_offset b)%nat) as [Hlow|Hhigh].
    + rewrite Forall_lookup in I9. apply (I9 k). rewrite lookup_take_lt; assumption.
    + rewrite (slot_at_packets b m) in Hk by (auto; lia). injection Hk as <-. apply Hskip. lia.
  - change (next_unsent_offset (send_original defer now o b)) with (o + 1)%nat.
    rewrite drop_insert_lt by lia. replace (o + 1)%nat with (next_unsent_offset b + (o + 1 - next_unsent_offset b))%nat by lia.
    rewrite <- drop_drop. apply Forall_drop. assumption.
Qed.
