(* ===== verification/SendBufferSteps.v ===== *)
(** Every public operation of the send buffer preserves its invariant, and what
    the operations do to the packets in the buffer. *)
From stdpp Require Import gmap.
From S2P Require Import Prelude Sequence Packet Codec Control LossList.
From S2P Require Import RangeDropQueue PayloadPool Fenwick SendBuffer SendBufferFacts.
Import SendBuffer.

(** * Selecting a packet *)

Lemma next_original_spec defer now b : forall r c, (c + r = sequence_span b)%nat ->
  match next_original r defer now (set_next_unsent_offset c b) with
  | (Some packet, b') =>
      exists o, (c <= o < sequence_span b)%nat /\ unsent (slot_at b o) = true /\
        (forall k, (c <= k < o)%nat -> unsent (slot_at b k) = false) /\
        b' = send_original defer now o b /\ packet = outbound b (slot_at b o)
  | (None, b') =>
      (forall k, (c <= k < sequence_span b)%nat -> unsent (slot_at b k) = false) /\
      b' = set_next_unsent_offset (sequence_span b) b
  end.
Proof.
  induction r as [|r IH]; intros c Hc; cbn [next_original].
  { split; [lia|]. replace c with (sequence_span b) by lia. reflexivity. }
  cbn [next_unsent_offset sequence_span set_next_unsent_offset].
  rewrite (proj2 (Nat.ltb_lt c (sequence_span b))) by lia. cbv zeta.
  change (slots (set_next_unsent_offset c b) !!! physical (set_next_unsent_offset c b) c) with (slot_at b c).
  destruct (unsent (slot_at b c)) eqn:Eu.
  - exists c. repeat split; auto; lia.
  - specialize (IH (c + 1)%nat ltac:(lia)).
    change (set_next_unsent_offset (c + 1) (set_next_unsent_offset c b)) with (set_next_unsent_offset (c + 1) b).
    destruct (next_original r defer now (set_next_unsent_offset (c + 1) b)) as [[packet|] b'].
    + destruct IH as (o & I1 & I2 & I3 & I4 & I5). exists o. repeat split; auto; try lia.
      intros k Hk. destruct (decide (k = c)) as [->|]; [assumption|apply I3; lia].
    + destruct IH as [I1 I2]. split; [|assumption]. intros k Hk.
      destruct (decide (k = c)) as [->|]; [assumption|apply I1; lia].
Qed.

Lemma cursor_inv b m : inv b m ->
  (forall k, (next_unsent_offset b <= k < sequence_span b)%nat -> unsent (slot_at b k) = false) ->
  inv (set_next_unsent_offset (sequence_span b) b) m.
Proof.
  intros Hinv Hk. pose proof (length_packets b m Hinv) as Hl.
  pose proof Hinv as [[] I2 I3 I4 I5 I6 I7 I8 I9 I10 J1 J2 J3 J4 J5 J6 J7].
  split; auto; cbn [next_unsent_offset set_next_unsent_offset].
  - split; assumption.
  - change (packets (set_next_unsent_offset (sequence_span b) b)) with (packets b). rewrite take_ge by lia.
    apply Forall_lookup. intros o s Ho. destruct (decide (o < next_unsent_offset b)%nat) as [Hlt|Hge].
    + rewrite Forall_lookup in I9. apply (I9 o). rewrite lookup_take_lt; assumption.
    + pose proof (lookup_lt_Some _ _ _ Ho). rewrite (slot_at_packets b m) in Ho by (auto; lia).
      injection Ho as <-. apply Hk. lia.
  - change (packets (set_next_unsent_offset (sequence_span b) b)) with (packets b).
    rewrite drop_ge by lia. constructor.
Qed.

Lemma set_cursor_id b : set_next_unsent_offset (next_unsent_offset b) b = b.
Proof. destruct b. reflexivity. Qed.

Lemma pop_evolves b : queues_ok b -> (0 < retransmission_size b)%nat -> evolves b (pop_retransmission b).
Proof.
  intros [Q1 Q2 Q3 Q4 Q5 Q6] Hs. split; [split; reflexivity|reflexivity|auto|].
  intros _. split; unfold pop_retransmission, capacity in *; simpl; auto; try lia.
  apply ring_index_lt. lia.
Qed.

(** A retained, sent packet whose retransmission is due. *)
Definition due (b : t) (s : Slot) : Prop :=
  s ∈ packets b /\ occupied s = true /\ sent s = true /\ retransmission_queued s = true.

Lemma found_due b m q i : inv b m -> find b q = Some i ->
  retransmission_queued (slots b !!! i) = true -> due b (slots b !!! i).
Proof.
  intros Hinv Hf Hq. pose proof Hf as Hf'. apply find_spec in Hf as (o & Ho & -> & Hocc).
  apply offset_of_spec in Ho as [Ho _].
  pose proof (slot_at_packets b m o Hinv Ho) as Hp. unfold slot_at in Hp.
  split; [eapply list_elem_of_lookup_2; eauto|]. split; [assumption|]. split; [|assumption].
  pose proof (core_slots _ _ (inv_core _ _ Hinv)) as Hok. rewrite Forall_lookup in Hok.
  eapply ok_queued; [|exact Hq]. apply (Hok (physical b o)).
  apply list_lookup_lookup_total_lt, physical_lt, (inv_head _ _ Hinv).
Qed.

Lemma next_retransmission_spec defer r : forall b m, inv b m -> (retransmission_size b <= r)%nat ->
  match next_retransmission r defer b with
  | (Some packet, b') =>
      evolves b b' /\ exists s, due b s /\ packet = outbound_retransmission b s
  | (None, b') => evolves b b' /\ slots b' = slots b /\ retransmission_size b' = 0%nat
  end.
Proof.
  induction r as [|r IH]; intros b m Hinv Hr; cbn [next_retransmission].
  { split; [reflexivity|]. split; [reflexivity|lia]. }
  destruct (Nat.eqb_spec (retransmission_size b) 0) as [Hz|Hz]; [split; [reflexivity|auto]|].
  pose proof (pop_evolves b (inv_queues _ _ Hinv) ltac:(lia)) as Hp.
  pose proof (evolves_inv _ _ _ Hinv Hp) as Hinv1. cbv zeta.
  set (q := retransmission_queue b !!! retransmission_head b). set (b1 := pop_retransmission b) in *.
  specialize (IH b1 m Hinv1). change (retransmission_size b1) with (retransmission_size b - 1)%nat in IH.
  assert (Hcont : match next_retransmission r defer b1 with
    | (Some packet, b') => evolves b b' /\ exists s, due b s /\ packet = outbound_retransmission b s
    | (None, b') => evolves b b' /\ slots b' = slots b /\ retransmission_size b' = 0%nat end).
  { destruct (next_retransmission r defer b1) as [[packet|] b'].
    - destruct IH as (I1 & s & I2 & I3); [lia|]. split; [etransitivity; eassumption|]. exists s. auto.
    - destruct IH as (I1 & I2 & I3); [lia|]. split; [etransitivity; eassumption|]. auto. }
  destruct (find b1 q) as [i|] eqn:Ef; [|exact Hcont].
  destruct (retransmission_queued (slots b1 !!! i)) eqn:Eq; simpl negb; cbv iota; [|exact Hcont].
  split.
  - etransitivity; [exact Hp|]. apply update_evolves; [|split; reflexivity|].
    + eapply find_lt; [|exact Ef]. pose proof (inv_head _ _ Hinv1). lia.
    + intros Hok. pose proof (ok_queued _ Hok Eq). destruct Hok. split; simpl; auto.
  - exists (slots b1 !!! i). split; [|reflexivity]. apply (found_due b1 m q i); assumption.
Qed.

Lemma next_packet_inv b m defer allow now : inv b m ->
  exists m', inv (next_packet b defer allow now).2 m'.
Proof.
  intros Hinv. unfold next_packet.
  assert (Hb1 : exists r1 b1, (if allow then next_retransmission (retransmission_size b) defer b else (None, b)) = (r1, b1)
                /\ inv b1 m).
  { destruct allow; [|eauto]. pose proof (next_retransmission_spec defer _ b m Hinv (le_n _)) as H.
    destruct (next_retransmission (retransmission_size b) defer b) as [[packet|] b'];
      do 2 eexists; (split; [reflexivity|]); eapply evolves_inv; eauto; apply H. }
  destruct Hb1 as (r1 & b1 & -> & Hinv1). destruct r1 as [packet|]; [eauto|].
  pose proof (inv_cursor _ _ Hinv1) as Hcur.
  pose proof (next_original_spec defer now b1 (sequence_span b1 - next_unsent_offset b1)
    (next_unsent_offset b1) ltac:(lia)) as H. rewrite set_cursor_id in H.
  destruct (next_original _ _ _ _) as [[packet|] b']; simpl.
  - destruct H as (o & H1 & H2 & H3 & -> & _). exists m. apply send_original_inv; auto.
  - destruct H as [H1 ->]. exists m. apply cursor_inv; auto.
Qed.

(** * Bookkeeping operations *)

Lemma peek_retransmission_evolves r : forall b m, inv b m -> evolves b (peek_retransmission_loop r b).2.
Proof.
  induction r as [|r IH]; intros b m Hinv; cbn [peek_retransmission_loop]; [reflexivity|].
  destruct (Nat.eqb_spec (retransmission_size b) 0) as [Hz|Hz]; [reflexivity|].
  pose proof (pop_evolves b (inv_queues _ _ Hinv) ltac:(lia)) as Hp.
  assert (Hnext : evolves b (peek_retransmission_loop r (pop_retransmission b)).2).
  { etransitivity; [exact Hp|]. eapply IH, evolves_inv; eassumption. }
  destruct (find b _) as [i|]; [|exact Hnext]. destruct (retransmission_queued _); [reflexivity|exact Hnext].
Qed.

Lemma found_lt b m q i : inv b m -> find b q = Some i -> (i < capacity b)%nat.
Proof. intros Hinv. apply find_lt. pose proof (inv_head _ _ Hinv). lia. Qed.

Lemma requeue_evolves b m q : inv b m -> evolves b (requeue_prepared_retransmission b q).
Proof.
  intros Hinv. unfold requeue_prepared_retransmission. destruct (find b q) as [i|] eqn:Ef; [|reflexivity].
  assert (H1 : evolves b (update_slot i (set_retransmission_queued false) b)).
  { flag_change; [eapply found_lt; eassumption|discriminate]. }
  etransitivity; [exact H1|]. eapply queue_retransmission_evolves, evolves_inv; eassumption.
Qed.

Lemma note_submitted_evolves b m q : inv b m -> evolves b (note_packet_submitted b q).
Proof.
  intros Hinv. unfold note_packet_submitted. destruct (find b q) as [i|] eqn:Ef; [|reflexivity].
  destruct (sent (slots b !!! i)) eqn:Es; [|reflexivity].
  flag_change. eapply found_lt; eassumption.
Qed.

Lemma note_retransmission_evolves b m q now : inv b m -> evolves b (note_retransmission_sent b q now).
Proof.
  intros Hinv. unfold note_retransmission_sent. destruct (find b q) as [i|] eqn:Ef; [|reflexivity].
  destruct (_ && _); [|reflexivity].
  flag_change; [eapply found_lt; eassumption|discriminate].
Qed.

Lemma request_loop_evolves r : forall b m first index now minimum packets bytes, inv b m ->
  evolves b (request_loop r first index now minimum packets bytes b).2.
Proof.
  induction r as [|r IH]; intros b m first index now minimum pk by_ Hinv; cbn [request_loop]; [reflexivity|].
  cbv zeta. set (q := SequenceNumber.advanced first index).
  destruct (match _ with Some s => repeats_too_soon s now minimum | None => false end); [eapply IH; eassumption|].
  pose proof (queue_retransmission_evolves b m q Hinv) as Hq.
  destruct (queue_retransmission b q) as [ok b1]. simpl in Hq.
  destruct ok; simpl negb; cbv iota; [|exact Hq].
  pose proof (evolves_inv _ _ _ Hinv Hq).
  destruct (match _ with Some s => sent s && negb (retransmission_queued s) | None => false end);
    (etransitivity; [exact Hq|]; eapply IH; eassumption).
Qed.

Lemma request_retransmission_evolves b m r now minimum : inv b m ->
  evolves b (request_retransmission b r now minimum).2.
Proof.
  intros Hinv. unfold request_retransmission.
  destruct (validate_retransmission_range b r); try reflexivity. eapply request_loop_evolves; eassumption.
Qed.

Lemma last_sent_evolves offsets b m : inv b m -> evolves b (last_sent_loop offsets b).2.
Proof.
  intros Hinv. induction offsets as [|o rest IH]; simpl; [reflexivity|].
  destruct (_ && _); [|exact IH]. eapply queue_retransmission_evolves; eassumption.
Qed.

Lemma all_sent_evolves offsets : forall queued b m, inv b m -> evolves b (all_sent_loop offsets queued b).2.
Proof.
  induction offsets as [|o rest IH]; intros queued b m Hinv; simpl; [reflexivity|].
  destruct (_ || _); [eapply IH; eassumption|].
  pose proof (queue_retransmission_evolves b m (sequence (header (slot_at b o))) Hinv) as Hq.
  destruct (queue_retransmission b _) as [ok b1]. simpl in Hq. destruct ok; simpl; [|exact Hq].
  etransitivity; [exact Hq|]. eapply IH, evolves_inv; eassumption.
Qed.

Lemma next_drop_evolves r : forall b m, inv b m -> evolves b (next_drop_loop r b).2.
Proof.
  induction r as [|r IH]; intros b m Hinv; cbn [next_drop_loop]; [reflexivity|].
  destruct (Nat.eqb_spec (drop_request_size b) 0) as [Hz|Hz]; [reflexivity|].
  pose proof (inv_queues _ _ Hinv) as [Q1 Q2 Q3 Q4 Q5 Q6].
  assert (Hp : evolves b (pop_drop_request b)).
  { split; [split; reflexivity|reflexivity|auto|].
    intros _. split; unfold pop_drop_request, capacity in *; simpl; auto; try lia. apply ring_index_lt. lia. }
  cbv zeta. set (b1 := pop_drop_request b) in *.
  pose proof (evolves_inv _ _ _ Hinv Hp) as Hinv1.
  assert (Hnext : evolves b (next_drop_loop r b1).2) by (etransitivity; [exact Hp|eapply IH; eassumption]).
  destruct (offset_of b1 _) as [o|]; [|exact Hnext]. destruct (_ || _); [exact Hnext|].
  etransitivity; [exact Hp|]. cbn [snd]. flag_change. apply physical_lt, (inv_head _ _ Hinv1).
Qed.

Lemma range_queue_evolves b q : evolves b (set_range_drop_request_queue q b).
Proof. split; [split; reflexivity|reflexivity|auto|]. intros []. split; assumption. Qed.

Lemma next_pending_drop_evolves b m : inv b m -> evolves b (next_pending_drop_request b).2.
Proof.
  intros Hinv. unfold next_pending_drop_request.
  pose proof (next_drop_evolves (drop_request_size b) b m Hinv) as H.
  destruct (next_drop_loop _ b) as [[r|] b1]; simpl in *; [exact H|].
  destruct (RangeDropQueue.next _) as [[r|] q]; simpl; (etransitivity; [exact H|apply range_queue_evolves]).
Qed.

Lemma retained_loop_evolves r : forall o queued b m, inv b m -> evolves b (retained_loop r o queued b).2.
Proof.
  induction r as [|r IH]; intros o queued b m Hinv; cbn [retained_loop]; [reflexivity|].
  destruct (o <? sequence_span b)%nat; [|reflexivity].
  destruct (negb _); [eapply IH; eassumption|]. cbv zeta.
  pose proof (queue_drop_request_evolves b (SequenceNumber.advanced (first_sequence b) (u32 (Z.of_nat o)))
    (inv_queues _ _ Hinv)) as Hq. destruct (queue_drop_request b _) as [ok b1]. simpl in Hq.
  etransitivity; [exact Hq|]. eapply IH, evolves_inv; eassumption.
Qed.

(** * Encryption in place *)

(** The slot after its payload was replaced by the protected form. *)
Lemma protect_inv b m o x bytes :
  inv b m -> (o < sequence_span b)%nat -> (length bytes <= PayloadPool.width)%nat ->
  let s := slot_at b o in
  occupied s = true -> slot_ok x -> payload_size x = Z.of_nat (length bytes) ->
  occupied x = occupied s -> dropped x = dropped s -> sent x = sent s ->
  payload_index x = payload_index s -> plaintext_size x = plaintext_size s -> expiring x = expiring s ->
  sequence (header x) = sequence (header s) ->
  let b' := update_slot (physical b o) (fun _ => x)
              (set_payloads (PayloadPool.store (payloads b) (payload_index s) bytes) b) in
  inv b' (<[payload_index s := bytes]> m) /\ packets b' = <[o := x]> (packets b).
Proof.
  intros Hinv Ho Hb s Hocc Hok Hsz E1 E2 E3 E4 E5 E6 E7 b'.
  pose proof (packets_insert b m o (fun _ => x) Hinv Ho) as Hpk.
  pose proof (ring_rest b m o (fun _ => x) Hinv Ho) as Hrest.
  pose proof Hinv as [[C0 C1 C2 C3 C4 C5 C6 C7 C8 C9 C10] I2 I3 I4 I5 I6 I7 I8 I9 I10 J1 J2 J3 J4 J5 J6 J7].
  set (i := physical b o) in *.
  assert (Hi : slots b !! i = Some s) by (apply list_lookup_lookup_total_lt, physical_lt; assumption).
  assert (Ho' : packets b !! o = Some s) by (apply (slot_at_packets b m); assumption).
  pose proof (fun g => sumf_insert g (slots b) i x s Hi) as Hsum.
  destruct (own_stored _ _ C4 i s Hi Hocc) as (old & Hold & _).
  assert (Hcap : capacity b' = capacity b) by (unfold capacity; simpl; apply length_insert).
  assert (Hind : forall f : Slot -> bool, f x = f s -> sumf (ind f) (<[i := x]> (slots b)) = sumf (ind f) (slots b)).
  { intros f Hf. specialize (Hsum (ind f)). unfold ind in Hsum at 2 4. rewrite Hf in Hsum. lia. }
  split; [|exact Hpk]. split; rewrite ?Hcap; auto.
  - split; rewrite ?Hcap; simpl; auto; try (rewrite Hind by assumption; assumption).
    + apply Forall_insert; assumption.
    + rewrite list_fmap_insert, E2. rewrite list_insert_id; [assumption|].
      rewrite list_lookup_fmap, Hi. reflexivity.
    + apply PayloadPool.store_inv; eauto.
    + destruct C4 as [O1 O2 O3]. split.
      * intros j y Hj Hy. apply list_lookup_insert_Some in Hj as [(<- & <- & _)|[Hne Hj]].
        -- exists bytes. rewrite E4, lookup_insert_eq. auto.
        -- rewrite lookup_insert_ne; [eauto|]. intros E. apply Hne. eapply O2; eauto.
      * intros j k y z Hj Hk Hy Hz E.
        apply list_lookup_insert_Some in Hj as [(<- & <- & _)|[_ Hj]];
          apply list_lookup_insert_Some in Hk as [(<- & <- & _)|[_ Hk]]; auto.
        -- eapply O2; eauto; congruence.
        -- eapply O2; eauto; congruence.
        -- eauto.
      * rewrite map_size_insert_Some, O3, Hind by eauto. reflexivity.
    + specialize (Hsum plain). assert (Ep : plain x = plain s) by (unfold plain; rewrite E1, E5; reflexivity). lia.
  - change (packets b') with (packets (update_slot i (fun _ => x) b)). rewrite Hpk.
    apply Forall_insert; [assumption|]. left. congruence.
  - change (ring b') with (ring (update_slot i (fun _ => x) b)). simpl sequence_span. rewrite Hrest. assumption.
  - intros k y Hk. change (packets b') with (packets (update_slot i (fun _ => x) b)) in Hk. rewrite Hpk in Hk.
    simpl first_sequence. apply list_lookup_insert_Some in Hk as [(<- & <- & _)|[_ Hk]]; [rewrite E7|]; auto.
  - change (packets b') with (packets (update_slot i (fun _ => x) b)). rewrite Hpk. simpl next_unsent_offset.
    destruct (decide (o < next_unsent_offset b)%nat).
    + rewrite take_insert_lt by assumption. apply Forall_insert; [assumption|].
      rewrite Forall_lookup in I9. unfold unsent. rewrite E1, E3. apply (I9 o). rewrite lookup_take_lt; assumption.
    + rewrite take_insert_ge by lia. assumption.
  - change (packets b') with (packets (update_slot i (fun _ => x) b)). rewrite Hpk. simpl next_unsent_offset.
    destruct (decide (o < next_unsent_offset b)%nat).
    + rewrite drop_insert_lt by lia. assumption.
    + rewrite drop_insert_ge by lia. apply Forall_insert; [assumption|]. rewrite E3.
      rewrite Forall_lookup in I10. apply (I10 (o - next_unsent_offset b)%nat). rewrite lookup_drop.
      replace (next_unsent_offset b + (o - next_unsent_offset b))%nat with o by lia. assumption.
Qed.

Lemma preserve_inv b m q key mode bytes : inv b m ->
  exists m', inv (preserve_protected_payload b q key mode bytes).2 m'.
Proof.
  intros Hinv. unfold preserve_protected_payload.
  destruct (find b q) as [i|] eqn:Ef; [|eauto]. destruct (crypto_suite_for_mode mode) as [suite|] eqn:Em; [|eauto].
  assert (Htag : (suite_tag_size suite <= 16)%nat)
    by (destruct mode; simpl in Em; [discriminate| |]; injection Em as <-; simpl; lia).
  destruct (_ || _); [eauto|]. destruct (Z.ltb_spec (Z.of_nat (maximum_data_payload_size - suite_tag_size suite))
    (plaintext_size (slots b !!! i))) as [|Hfit]; [eauto|]. cbv zeta.
  destruct (Z.eqb_spec (Z.of_nat (length bytes)) (plaintext_size (slots b !!! i) + Z.of_nat (suite_tag_size suite)))
    as [Hlen|]; simpl negb; cbv iota; [|eauto].
  destruct (negb _); [eauto|]. cbn [snd].
  apply find_spec in Ef as (o & Ho & -> & Hocc). apply offset_of_spec in Ho as [Ho _].
  pose proof (core_slots _ _ (inv_core _ _ Hinv)) as Hok. rewrite Forall_lookup in Hok.
  assert (Hs : slot_ok (slot_at b o)).
  { apply (Hok (physical b o)). apply list_lookup_lookup_total_lt, physical_lt, (inv_head _ _ Hinv). }
  change (slots b !!! physical b o) with (slot_at b o) in *.
  assert (Hb : (length bytes <= PayloadPool.width)%nat).
  { unfold PayloadPool.width, maximum_data_payload_size in *. lia. }
  eexists. apply (protect_inv b m o (protected_slot key mode (Z.of_nat (length bytes)) (slot_at b o)) bytes); auto.
  - destruct Hs. split; simpl; auto. intros _. rewrite PayloadPool.u16_length by assumption.
    unfold PayloadPool.width in Hb. lia.
  - simpl. apply PayloadPool.u16_length. assumption.
Qed.

(** * Acknowledgement and drops from the front *)

Lemma acknowledge_sequence b q : SequenceNumber.wf q ->
  0 <= SequenceNumber.distance_from q (first_sequence b) ->
  q = SequenceNumber.advanced (first_sequence b)
        (Z.of_nat (Z.to_nat (SequenceNumber.distance_from q (first_sequence b)))).
Proof.
  intros Hq Hd. rewrite Z2Nat.id by assumption. symmetry. apply SequenceNumber.advanced_distance. assumption.
Qed.

(** A cumulative acknowledgement within the span removes exactly the packets
    before it. *)
Lemma acknowledge_spec b m q : inv b m -> SequenceNumber.wf q ->
  let d := SequenceNumber.distance_from q (first_sequence b) in
  match acknowledge_before b q with
  | (Error.none, b') =>
      packets b' = drop (Z.to_nat d) (packets b) /\ (d < 0 -> b' = b) /\
      exists m', m' ⊆ m /\ inv b' m'
  | (e, b') => e = Error.invalid_control_payload /\ b' = b /\ Z.of_nat (sequence_span b) < d
  end.
Proof.
  intros Hinv Hq d. unfold acknowledge_before. fold d.
  destruct (Z.ltb_spec d 0) as [Hneg|Hpos].
  { replace (Z.to_nat d) with 0%nat by lia. rewrite drop_0. split; [reflexivity|]. eauto. }
  destruct (Nat.ltb_spec (sequence_span b) (Z.to_nat d)) as [Hout|Hin]; [repeat split; lia|].
  destruct (retire_prefix b m (Z.to_nat d) q Hinv Hin (acknowledge_sequence b q Hq Hpos)) as [H1 (m' & H2 & H3)].
  cbv zeta. set (b1 := advance_head _ _ _) in *.
  destruct (negb (Z.to_nat d =? 0)%nat).
  - destruct (refresh_first_inv b1 m' H3) as (R1 & R2 & _). rewrite R2.
    split; [exact H1|]. split; [lia|]. eauto.
  - split; [exact H1|]. split; [lia|]. eauto.
Qed.

Lemma acknowledge_first b q : (acknowledge_before b q).1 = Error.none ->
  let d := SequenceNumber.distance_from q (first_sequence b) in
  0 <= d -> d <= Z.of_nat (sequence_span b) /\ first_sequence (acknowledge_before b q).2 = q.
Proof.
  unfold acknowledge_before. cbv zeta. set (d := SequenceNumber.distance_from q (first_sequence b)). intros He Hd.
  rewrite (proj2 (Z.ltb_ge d 0) Hd) in *. destruct (Nat.ltb_spec (sequence_span b) (Z.to_nat d)); [discriminate|]. split; [lia|].
  cbn [snd]. destruct (negb _); [unfold refresh_first_buffered_enqueue_time; destruct (_ =? 0)%nat; [|destruct (first_occupied _ _)]|]; reflexivity.
Qed.

Lemma acknowledge_inv b m q : inv b m -> SequenceNumber.wf q -> exists m', inv (acknowledge_before b q).2 m'.
Proof.
  intros Hinv Hq. pose proof (acknowledge_spec b m q Hinv Hq) as H.
  destruct (acknowledge_before b q) as [[] b']; cbn [snd]; try (destruct H as (_ & -> & _); eauto; fail).
  destruct H as (_ & _ & m' & _ & H). eauto.
Qed.

(** The too-late scan removes a prefix, slot by slot. *)
Lemma older_loop_discards cutoff r : forall message k bytes b,
  exists n bytes', older_loop r cutoff message k bytes b
    = ((k + n)%nat, bytes', discard_offsets (seq k n) b) /\ (n <= r)%nat /\
    (n <> 0%nat -> (k + n <= sequence_span b)%nat).
Proof.
  induction r as [|r IH]; intros message k bytes b; cbn [older_loop].
  { exists 0%nat, bytes. rewrite Nat.add_0_r. repeat split; lia. }
  assert (Hstop : exists n bytes', (k, bytes, b) = ((k + n)%nat, bytes', discard_offsets (seq k n) b)
    /\ (n <= S r)%nat /\ (n <> 0%nat -> (k + n <= sequence_span b)%nat)).
  { exists 0%nat, bytes. rewrite Nat.add_0_r. repeat split; lia. }
  destruct (Nat.ltb_spec k (sequence_span b)) as [Hk|]; [|exact Hstop].
  destruct (negb _); [exact Hstop|]. destruct (_ && _); [exact Hstop|].
  destruct (IH (message_number (header (slots b !!! physical b k))) (k + 1)%nat
    (bytes + plaintext_size (slots b !!! physical b k)) (discard_slot (physical b k) false b))
    as (n & bytes' & E & Hn & Hs).
  exists (S n), bytes'. rewrite E. split; [|split; [lia|]].
  - rewrite Nat.add_1_r. cbn [seq discard_offsets]. do 2 f_equal. lia.
  - intros _. destruct (discard_kept (physical b k) false b) as [K _].
    rewrite (kp_span _ _ K) in Hs. destruct n; [lia|]. specialize (Hs ltac:(lia)). lia.
Qed.

Lemma drop_older_inv b m cutoff : inv b m -> exists m', m' ⊆ m /\ inv (drop_messages_older_than b cutoff).2 m' /\
  packets (drop_messages_older_than b cutoff).2
    = drop (drop_packets (drop_messages_older_than b cutoff).1) (packets b).
Proof.
  intros Hinv. unfold drop_messages_older_than.
  assert (Hsame : exists m', m' ⊆ m /\ inv b m' /\ packets b = drop 0 (packets b)) by (rewrite drop_0; eauto).
  destruct (_ =? 0)%nat; [exact Hsame|]. destruct (_ || _); [exact Hsame|].
  destruct (older_loop_discards cutoff (sequence_span b) (message_number (header (slots b !!! head b))) 0 0 b)
    as (n & bytes & E & Hn & Hs). rewrite E. simpl Nat.add.
  destruct (Nat.eqb_spec n 0) as [->|Hz]; [exact Hsame|]. specialize (Hs Hz). simpl in Hs.
  destruct (discard_offsets_spec n 0 b m (inv_core _ _ Hinv) (inv_head _ _ Hinv)) as (K & _);
    [pose proof (inv_span _ _ Hinv); lia|].
  pose proof (core_bound _ _ (inv_core _ _ Hinv)). pose proof (inv_span _ _ Hinv).
  assert (Eq : SequenceNumber.next (SequenceNumber.advanced (first_sequence (discard_offsets (seq 0 n) b))
      (u32 (Z.of_nat (n - 1)))) = SequenceNumber.advanced (first_sequence b) (Z.of_nat n)).
  { rewrite (kp_first _ _ K), u32_id by (unfold is_u32; lia).
    rewrite SequenceNumber.next_mod, !SequenceNumber.advanced_mod, Zplus_mod_idemp_l. f_equal. lia. }
  rewrite Eq. destruct (retire_prefix b m n _ Hinv Hs eq_refl) as [P (m' & M1 & M2)].
  destruct (refresh_first_inv _ _ M2) as (R1 & R2 & _). exists m'. cbn [fst snd drop_packets].
  rewrite R2. auto.
Qed.

(** * Tombstones *)

(** Replacing one packet of the span. *)
Lemma replace_inv b m b' m' o x :
  inv b m -> (o < sequence_span b)%nat -> kept b b' -> capacity b' = capacity b -> core b' m' ->
  ring b' = <[o := x]> (ring b) -> present x ->
  sequence (header x) = sequence (header (slot_at b o)) -> unsent x = false -> sent x = false ->
  inv b' m' /\ packets b' = <[o := x]> (packets b).
Proof.
  intros Hinv Ho K Hcap Hc Hring Hx Hh Hu Hs. pose proof Hinv as [I1 I2 I3 I4 I5 I6 I7 I8 I9 I10 J1 J2 J3 J4 J5 J6 J7].
  assert (Hpk : packets b' = <[o := x]> (packets b)).
  { unfold packets. rewrite (kp_span _ _ K), Hring, take_insert_lt by assumption. reflexivity. }
  split; [|exact Hpk]. destruct K as [K1 K2 K3 K4 K5 K6 K7 K8 K9 K10 K11 K12 K13].
  split; rewrite ?Hpk, ?Hring, ?Hcap, ?K1, ?K2, ?K4, ?K5, ?K7, ?K8, ?K9, ?K10, ?K11, ?K12, ?K13; auto.
  - apply Forall_insert; assumption.
  - rewrite drop_insert_lt by lia. assumption.
  - intros k y Hk. apply list_lookup_insert_Some in Hk as [(<- & <- & _)|[_ Hk]]; [|auto].
    rewrite Hh. apply I7. apply (slot_at_packets b m); assumption.
  - destruct (decide (o < next_unsent_offset b)%nat).
    + rewrite take_insert_lt by assumption. apply Forall_insert; assumption.
    + rewrite take_insert_ge by lia. assumption.
  - destruct (decide (o < next_unsent_offset b)%nat).
    + rewrite drop_insert_lt by lia. assumption.
    + rewrite drop_insert_ge by lia. apply Forall_insert; assumption.
Qed.

Lemma tombstone_inv b m o : inv b m -> (o < sequence_span b)%nat -> occupied (slot_at b o) = true ->
  let b' := discard_slot (physical b o) true b in
  inv b' (without b (physical b o) m) /\
  packets b' = <[o := discarded true (slot_at b o)]> (packets b) /\
  kept b b' /\ capacity b' = capacity b.
Proof.
  intros Hinv Ho Hocc b'. pose proof (inv_head _ _ Hinv) as Hh. pose proof (inv_span _ _ Hinv) as Hsp.
  destruct (discard_kept (physical b o) true b) as [K Hs]. fold b' in K, Hs.
  assert (Hcap : capacity b' = capacity b) by (unfold capacity; rewrite Hs; apply length_insert).
  assert (Hring : ring b' = <[o := discarded true (slot_at b o)]> (ring b))
    by (rewrite slot_at_ring by lia; apply discard_ring; lia).
  assert (Hc : core b' (without b (physical b o) m))
    by (apply discard_core; [apply Hinv|apply physical_lt; assumption|intros _; exact Hocc]).
  assert (Hd : dropped (slot_at b o) = false).
  { pose proof (core_slots _ _ (inv_core _ _ Hinv)) as Hok. rewrite Forall_lookup in Hok.
    eapply ok_occupied; [|exact Hocc]. eapply Hok, list_lookup_lookup_total_lt, physical_lt. assumption. }
  assert (Hx : present (discarded true (slot_at b o)) /\
    header (discarded true (slot_at b o)) = header (slot_at b o) /\
    occupied (discarded true (slot_at b o)) = false /\ sent (discarded true (slot_at b o)) = false).
  { unfold discarded, present. rewrite Hd. simpl. auto. }
  destruct Hx as (X1 & X2 & X3 & X4).
  destruct (replace_inv b m b' _ o (discarded true (slot_at b o)) Hinv Ho K Hcap Hc Hring) as [R1 R2];
    auto; [congruence|unfold unsent; rewrite X3; reflexivity].
Qed.

(** Rewriting the metadata of a tombstone. *)
Lemma drop_info_evolves b m o f : inv b m -> dropped (slot_at b o) = true ->
  evolves b (update_slot (physical b o) (set_drop_info f) b).
Proof.
  intros Hinv Hd. pose proof (inv_head _ _ Hinv) as Hh.
  assert (Hi : (physical b o < capacity b)%nat) by (apply physical_lt; assumption).
  assert (Hocc : occupied (slot_at b o) = false).
  { destruct (occupied (slot_at b o)) eqn:E; [|reflexivity].
    pose proof (core_slots _ _ (inv_core _ _ Hinv)) as Hok. rewrite Forall_lookup in Hok.
    rewrite (ok_occupied (slot_at b o)) in Hd; [discriminate| |exact E].
    eapply Hok, list_lookup_lookup_total_lt. exact Hi. }
  apply update_evolves; [assumption| |].
  - change (slots b !!! physical b o) with (slot_at b o). split; try reflexivity.
    unfold expiring. simpl. rewrite Hocc. reflexivity.
  - intros []. split; assumption.
Qed.

Definition tombstoned (from count : nat) (b : t) : Prop :=
  forall o, (from <= o < from + count)%nat -> dropped (slot_at b o) = true.

Lemma evolves_dropped b b' m o : inv b m -> evolves b b' -> (o < sequence_span b)%nat ->
  dropped (slot_at b o) = true -> dropped (slot_at b' o) = true.
Proof.
  intros Hinv He Ho Hd. pose proof (evolves_inv _ _ _ Hinv He) as Hinv'.
  pose proof (fr_span _ _ (ev_frame _ _ He)) as Hsp.
  pose proof (slot_at_packets b m o Hinv Ho) as P. pose proof (slot_at_packets b' m o Hinv' ltac:(lia)) as P'.
  destruct (similar_lookup _ _ _ _ (evolves_packets _ _ He) P') as (s & Hs & []). rewrite P in Hs. congruence.
Qed.

Lemma tombstone_loop_inv r : forall message first o packets bytes b m,
  inv b m -> (o <= sequence_span b)%nat ->
  let '(o', packets', bytes', b') := tombstone_loop r message first o packets bytes b in
  (o <= o' <= sequence_span b)%nat /\ packets' = (packets + (o' - o))%nat /\
  sequence_span b' = sequence_span b /\ first_sequence b' = first_sequence b /\
  (exists m', inv b' m') /\
  (forall k, (k < sequence_span b)%nat -> ((k < o)%nat \/ (o' <= k)%nat) -> slot_at b' k = slot_at b k) /\
  tombstoned o (o' - o) b'.
Proof.
  induction r as [|r IH]; intros message first o pk bytes b m Hinv Ho; cbn [tombstone_loop].
  { rewrite Nat.sub_diag, Nat.add_0_r. repeat split; auto; [eauto|intros k Hk; lia]. }
  assert (Hstop : (o <= o <= sequence_span b)%nat /\ pk = (pk + (o - o))%nat /\
    sequence_span b = sequence_span b /\ first_sequence b = first_sequence b /\ (exists m', inv b m') /\
    (forall k, (k < sequence_span b)%nat -> ((k < o)%nat \/ (o <= k)%nat) -> slot_at b k = slot_at b k) /\ tombstoned o (o - o) b).
  { rewrite Nat.sub_diag, Nat.add_0_r. repeat split; auto; [eauto|intros k Hk; lia]. }
  destruct (Nat.ltb_spec o (sequence_span b)) as [Hlt|]; [|exact Hstop].
  change (slots b !!! physical b o) with (slot_at b o).
  destruct (negb (occupied (slot_at b o)) || _) eqn:E; [exact Hstop|]. b2p. clear Hstop.
  destruct (tombstone_inv b m o Hinv Hlt ltac:(assumption)) as (T1 & T2 & K & Hcap).
  set (b1 := discard_slot (physical b o) true b) in *. cbv zeta.
  destruct (kept_capacity b b1 Hcap K) as [_ Hphys].
  assert (Hd : dropped (slot_at b1 o) = true).
  { pose proof (slot_at_packets b1 _ o T1 ltac:(rewrite (kp_span _ _ K); assumption)) as P.
    rewrite T2, list_lookup_insert_eq in P by (rewrite (length_packets b m Hinv); assumption).
    injection P as <-. unfold discarded. simpl. destruct (negb _); reflexivity. }
  match goal with |- context [update_slot (physical b o) ?g b1] => set (g0 := g) end.
  pose proof (drop_info_evolves b1 _ o (fun d => {| message_first := first; message_last := message_last d;
    remaining_bytes := remaining_bytes d |}) T1 Hd) as He. rewrite Hphys in He. fold g0 in He.
  set (b2 := update_slot (physical b o) g0 b1) in *.
  pose proof (evolves_inv _ _ _ T1 He) as T3.
  assert (Hsp2 : sequence_span b2 = sequence_span b) by (exact (kp_span _ _ K)).
  specialize (IH message first (o + 1)%nat (pk + 1)%nat (bytes + plaintext_size (slot_at b o)) b2 _ T3 ltac:(lia)).
  destruct (tombstone_loop _ _ _ _ _ _ _) as [[[o' pk'] bytes'] b'].
  destruct IH as (H1 & H2 & H3 & H4 & H5 & H6 & H7). rewrite Hsp2 in *.
  assert (Hother : forall k, (k < sequence_span b)%nat -> k <> o -> slot_at b2 k = slot_at b k).
  { intros k Hk Hne. pose proof (slot_at_packets b2 _ k T3 ltac:(lia)) as P2.
    assert (P1 : packets b2 = <[o := g0 (slot_at b1 o)]> (packets b1)).
    { unfold b2. rewrite <- Hphys. apply (packets_insert b1 _ o g0 T1). rewrite (kp_span _ _ K). assumption. }
    rewrite P1, list_lookup_insert_ne, T2, list_lookup_insert_ne, (slot_at_packets b m) in P2 by auto.
    congruence. }
  split; [lia|]. split; [lia|]. split; [assumption|]. split; [rewrite H4; exact (kp_first _ _ K)|].
  split; [assumption|]. split.
  - intros k Hk Hor. rewrite H6 by lia. apply Hother; lia.
  - intros k Hk. destruct (decide (k = o)) as [->|]; [|apply H7; lia].
    rewrite H6 by lia. eapply (evolves_dropped b1 b2); eauto. rewrite (kp_span _ _ K). assumption.
Qed.

Lemma label_loop_evolves offsets : forall last bytes b m, inv b m ->
  Forall (fun o => (o < sequence_span b)%nat /\ dropped (slot_at b o) = true) offsets ->
  evolves b (label_loop offsets last bytes b).
Proof.
  induction offsets as [|o rest IH]; intros last bytes b m Hinv Ho; cbn [label_loop]; [reflexivity|].
  apply Forall_cons in Ho as [[Hlt Hd] Hrest]. cbv zeta.
  match goal with |- evolves b (label_loop rest last ?by_ (update_slot _ (set_drop_info ?f) b)) =>
    pose proof (drop_info_evolves b m o f Hinv Hd) as He end.
  etransitivity; [exact He|]. eapply IH; [eapply evolves_inv; eassumption|].
  eapply Forall_impl; [exact Hrest|]. intros k [Hk Hkd]. simpl in Hk, Hkd.
  split; [exact Hk|]. eapply evolves_dropped; eassumption.
Qed.

Lemma refresh_bounds_inv b m : inv b m -> inv (refresh_buffered_enqueue_time_bounds b) m.
Proof.
  intros Hinv. unfold refresh_buffered_enqueue_time_bounds. cbv zeta.
  destruct (refresh_first_inv b m Hinv) as [H1 _]. set (b1 := refresh_first_buffered_enqueue_time b) in *.
  destruct (_ =? 0)%nat; [assumption|]. destruct (first_occupied _ _) as [s|]; [|assumption].
  pose proof (inv_times b1 m (first_buffered_enqueue_microseconds b1) (enqueue_microseconds s) H1) as H.
  destruct b1; exact H.
Qed.

Lemma earliest_inv b m v : inv b m -> inv (set_earliest_expiration_microseconds v b) m.
Proof. intros [[] ? ? ? ? ? ? ? ? ? ? ? ? ? ? ? ?]. split; auto. split; auto. Qed.

Lemma expired_loop_inv r now : forall o earliest b m, inv b m ->
  exists m', inv (expired_loop r now o earliest b).2 m'.
Proof.
  induction r as [|r IH]; intros o earliest b m Hinv; cbn [expired_loop].
  { exists m. apply earliest_inv. assumption. }
  destruct (Nat.ltb_spec o (sequence_span b)) as [Hlt|]; [|exists m; apply earliest_inv; assumption].
  cbv zeta. destruct (_ || _); [eauto|]. destruct (_ <=? _); [eauto|].
  pose proof (tombstone_loop_inv (sequence_span b - o) (message_number (header (slot_at b o)))
    (SequenceNumber.advanced (first_sequence b) (u32 (Z.of_nat o))) o 0 0 b m Hinv ltac:(lia)) as H.
  destruct (tombstone_loop _ _ _ _ _ _ _) as [[[o' pk] bytes] b1].
  destruct H as (H1 & H2 & H3 & H4 & (m1 & H5) & H6 & H7). cbn [snd].
  exists m1. apply refresh_bounds_inv. eapply evolves_inv; [exact H5|].
  eapply label_loop_evolves; [exact H5|]. apply Forall_forall. intros k Hk.
  apply list_elem_of_In, in_rev, in_seq in Hk. split; [lia|]. apply H7. lia.
Qed.

Lemma drop_expired_inv b m now : inv b m -> exists m', inv (drop_expired_message b now).2 m'.
Proof.
  intros Hinv. unfold drop_expired_message. destruct (_ || _); [eauto|]. eapply expired_loop_inv; eassumption.
Qed.

(** * Enqueueing and synchronisation *)

Lemma packet_count_bounds b message : (0 < maximum_payload_size b)%nat -> message <> [] ->
  (length message <= packet_count b message * maximum_payload_size b)%nat.
Proof.
  intros Hm Hne. unfold packet_count. set (k := maximum_payload_size b) in *.
  pose proof (Nat.div_mod_eq (length message + k - 1) k). pose proof (Nat.mod_upper_bound (length message + k - 1) k ltac:(lia)).
  nia.
Qed.

Lemma enqueue_message_spec b m message p : inv b m ->
  match enqueue_message b message p with
  | (Error.none, b') =>
      message <> [] /\
      exists m' new, inv b' m' /\ m ⊆ m' /\ packets b' = packets b ++ new /\
        length new = packet_count b message /\ capacity b' = capacity b /\
        forall j s bytes, new !! j = Some s ->
          fragments (packet_count b message) (maximum_payload_size b) message !! j = Some bytes ->
          new_packet p (SequenceNumber.advanced (first_sequence b) (Z.of_nat (sequence_span b + j)))
            (next_sequence_position b + Z.of_nat j) j (packet_count b message) m' bytes s
  | (_, b') => b' = b /\
      (message = [] \/ (available b < packet_count b message)%nat \/
       u64_max < next_sequence_position b + Z.of_nat (packet_count b message))
  end.
Proof.
  intros Hinv. pose proof (inv_position _ _ Hinv) as Hpos. unfold enqueue_message.
  destruct (Nat.eqb_spec (length message) 0) as [Hz|Hz]; [destruct message; [auto|discriminate]|].
  destruct (Nat.ltb_spec (available b) (packet_count b message)) as [|Hfit]; [auto|].
  destruct (Z.ltb_spec (u64_max - next_sequence_position b) (Z.of_nat (packet_count b message))) as [|Hp];
    [split; [reflexivity|]; right; right; lia|].
  unfold is_u64, u64_max, available in *. pose proof (inv_span _ _ Hinv).
  destruct (enqueue_loop_spec p message (packet_count b message) (packet_count b message) 0 0 b m Hinv)
    as (m' & new & N1 & N2 & N3 & N4 & N5 & N6); try lia.
  split; [intros ->; simpl in Hz; lia|]. exists m', new. do 5 (split; [assumption|]).
  rewrite drop_0 in N6. exact N6.
Qed.

Lemma enqueue_loop_first p message r : forall index count consumed b,
  first_sequence (enqueue_loop r index count p message consumed b) = first_sequence b.
Proof.
  induction r as [|r IH]; intros index count consumed b; cbn [enqueue_loop]; [reflexivity|]. cbv zeta. rewrite IH.
  unfold enqueue_packet. destruct (PayloadPool.acquire _ _) as [i pool]. 
  repeat match goal with |- context [if ?c then _ else _] => destruct c end; reflexivity.
Qed.

Lemma enqueue_loop_position p message r : forall index count consumed b, is_u64 (next_sequence_position b + Z.of_nat r) ->
  0 <= next_sequence_position b ->
  next_sequence_position (enqueue_loop r index count p message consumed b) = next_sequence_position b + Z.of_nat r.
Proof.
  induction r as [|r IH]; intros index count consumed b Hr Hp; cbn [enqueue_loop]; [lia|]. cbv zeta.
  assert (E : forall first last bytes, next_sequence_position (enqueue_packet p first last bytes b) = next_sequence_position b + 1).
  { intros first last bytes. rewrite <- (u64_id (next_sequence_position b + 1)) by (unfold is_u64 in *; lia).
    unfold enqueue_packet. destruct (PayloadPool.acquire _ _) as [i pool].
    repeat match goal with |- context [if ?c then _ else _] => destruct c end; reflexivity. }
  rewrite IH; rewrite E; [lia|unfold is_u64 in *; lia|lia].
Qed.

Lemma enqueue_message_position b m message p : inv b m -> (enqueue_message b message p).1 = Error.none ->
  next_sequence_position (enqueue_message b message p).2 = next_sequence_position b + Z.of_nat (packet_count b message) /\
  next_sequence_position b + Z.of_nat (packet_count b message) <= u64_max.
Proof.
  intros I. pose proof (inv_position _ _ I) as Hp. unfold enqueue_message. destruct (_ =? 0)%nat; [discriminate|].
  destruct (_ <? _)%nat; [discriminate|].
  destruct (Z.ltb_spec (u64_max - next_sequence_position b) (Z.of_nat (packet_count b message))); [discriminate|]. intros _.
  cbn [snd]. unfold is_u64, u64_max in *. split; [|lia]. apply enqueue_loop_position; unfold is_u64; lia.
Qed.

Lemma acknowledge_position b m q : inv b m -> SequenceNumber.wf q ->
  next_sequence_position (acknowledge_before b q).2 = next_sequence_position b.
Proof.
  intros I Hq. unfold acknowledge_before. set (d := SequenceNumber.distance_from q (first_sequence b)).
  destruct (_ <? 0); [reflexivity|]. destruct (Nat.ltb_spec (sequence_span b) (Z.to_nat d)); [reflexivity|]. cbn [snd]. cbv zeta.
  pose proof (inv_span _ _ I).
  destruct (discard_offsets_spec (Z.to_nat d) 0 b m (inv_core _ _ I) (inv_head _ _ I) ltac:(lia)) as (K & _).
  rewrite <- (kp_position _ _ K).
  destruct (negb _); [unfold refresh_first_buffered_enqueue_time; destruct (_ =? 0)%nat; [|destruct (first_occupied _ _)]|]; reflexivity.
Qed.

Lemma enqueue_message_first b message p : first_sequence (enqueue_message b message p).2 = first_sequence b.
Proof.
  unfold enqueue_message. destruct (_ =? 0)%nat; [reflexivity|]. destruct (_ <? _)%nat; [reflexivity|].
  destruct (_ <? _); [reflexivity|]. apply enqueue_loop_first.
Qed.

Lemma synchronize_inv b m q : inv b m -> SequenceNumber.wf q -> exists m', inv (synchronize_empty b q).2 m'.
Proof.
  intros Hinv Hq. unfold synchronize_empty.
  destruct (Nat.eqb_spec (sequence_span b) 0) as [Hs|Hs]; simpl negb; [|eauto].
  destruct (_ || _); [eauto|]. cbv zeta. set (skipped := Z.land _ _).
  assert (Hsk : 0 <= skipped) by (apply Z.land_nonneg; right; easy).
  destruct (Z.ltb_spec (u64_max - next_sequence_position b) skipped) as [|Hfit]; [eauto|].
  cbn [snd]. exists m. pose proof Hinv as [[C0 C1 C2 C3 C4 C5 C6 C7 C8 C9 C10] I2 I3 I4 I5 I6 I7 I8 I9 I10 J1 J2 J3 J4 J5 J6 J7].
  rewrite Hs, drop_0 in I6.
  assert (Hbl : Forall blank (slots b)).
  { unfold ring, rot in I6. apply Forall_app in I6 as [B1 B2]. rewrite <- (take_drop (head b) (slots b)).
    apply Forall_app. auto. }
  assert (Hz : forall g : Slot -> nat, (forall s, blank s -> g s = 0%nat) -> sumf g (slots b) = 0%nat).
  { intros g Hg. apply sumf_zero. eapply Forall_impl; [exact Hbl|exact Hg]. }
  assert (Hnil : take 0 (rot 0 (slots b)) = []) by reflexivity.
  split; unfold packets, ring, capacity in *; simpl; rewrite ?Hs; auto; try lia; try (constructor; fail).
  - split; unfold capacity; simpl; auto; rewrite Hz; auto; intros s [B1 B2];
      unfold ind, plain, expiring; rewrite ?B1, ?B2; reflexivity.
  - rewrite drop_0, rot_0. assumption.
  - intros o s Ho. rewrite Hnil in Ho. discriminate Ho.
  - unfold is_u64, u64_max in *. lia.
Qed.
