(* ===== verification/SendBufferTheorems.v ===== *)
(** The send buffer's contract: what a sender can rely on. *)
From stdpp Require Import gmap.
From S2P Require Import Prelude Sequence Packet Codec Control LossList.
From S2P Require Import RangeDropQueue PayloadPool Fenwick SendBuffer SendBufferFacts SendBufferSteps.
Import SendBuffer.

(** * Any sequence of operations *)

Inductive op :=
| SynchronizeEmpty (q : SequenceNumber.t)
| EnqueueMessage (message : list Z) (p : EnqueueParameters)
| EnqueueStream (bytes : list Z) (p : EnqueueParameters)
| NextPacket (defer allow : bool) (now : Z)
| PeekRetransmission
| RequeuePrepared (q : SequenceNumber.t)
| PreserveProtected (q : SequenceNumber.t) (key : EncryptionKey.t) (mode : CryptoMode.t) (bytes : list Z)
| NoteSubmitted (q : SequenceNumber.t)
| AcknowledgeSubmitted (q : SequenceNumber.t)
| Acknowledge (q : SequenceNumber.t)
| RequestRetransmission (r : SequenceRange) (now minimum_repeat : Z)
| NoteRetransmissionSent (q : SequenceNumber.t) (now : Z)
| RequestLastSent
| RequestAllSent
| NextPendingDrop
| HasPendingDrop
| QueueRetainedDrops
| ReleaseRetiredPrefix
| QueueRangeDrops (ranges : list SequenceRange)
| DropOlder (cutoff : Z)
| DropExpired (now : Z)
| CompactRetransmissions.

Definition apply (b : t) (o : op) : t :=
  match o with
  | SynchronizeEmpty q => (synchronize_empty b q).2
  | EnqueueMessage message p => (enqueue_message b message p).2
  | EnqueueStream bytes p => (enqueue_stream b bytes p).2
  | NextPacket defer allow now => (next_packet b defer allow now).2
  | PeekRetransmission => (peek_retransmission_packet b).2
  | RequeuePrepared q => requeue_prepared_retransmission b q
  | PreserveProtected q key mode bytes => (preserve_protected_payload b q key mode bytes).2
  | NoteSubmitted q => note_packet_submitted b q
  | AcknowledgeSubmitted q => (acknowledge_submitted_before b q).2
  | Acknowledge q => (acknowledge_before b q).2
  | RequestRetransmission r now minimum_repeat => (request_retransmission b r now minimum_repeat).2
  | NoteRetransmissionSent q now => note_retransmission_sent b q now
  | RequestLastSent => (request_retransmission_of_last_sent b).2
  | RequestAllSent => (request_retransmission_of_all_sent b).2
  | NextPendingDrop => (next_pending_drop_request b).2
  | HasPendingDrop => (has_pending_drop_request b).2
  | QueueRetainedDrops => (queue_retained_drop_requests b).2
  | ReleaseRetiredPrefix => release_retired_prefix b
  | QueueRangeDrops ranges => (queue_range_drop_requests b ranges).2
  | DropOlder cutoff => (drop_messages_older_than b cutoff).2
  | DropExpired now => (drop_expired_message b now).2
  | CompactRetransmissions => compact_retransmission_queue b
  end.

(** Sequence numbers are in range. *)
Definition op_ok (o : op) : Prop :=
  match o with
  | SynchronizeEmpty q | AcknowledgeSubmitted q | Acknowledge q => SequenceNumber.wf q
  | _ => True
  end.

Lemma enqueue_message_inv b m message p : inv b m -> exists m', inv (enqueue_message b message p).2 m'.
Proof.
  intros Hinv. pose proof (enqueue_message_spec b m message p Hinv) as H.
  destruct (enqueue_message b message p) as [[] b']; cbn [snd]; try (destruct H as [-> _]; eauto; fail).
  destruct H as (_ & m' & new & H & _). eauto.
Qed.

Lemma enqueue_stream_inv b m bytes p : inv b m -> exists m', inv (enqueue_stream b bytes p).2 m'.
Proof.
  intros Hinv. unfold enqueue_stream. destruct (_ =? 0)%nat; [eauto|]. destruct (_ =? 0)%nat; [eauto|]. cbv zeta.
  match goal with |- context [enqueue_message b ?bs ?q] =>
    pose proof (enqueue_message_inv b m bs q Hinv) as H; destruct (enqueue_message b bs q) end. exact H.
Qed.

Lemma release_retired_inv b m : inv b m -> exists m', inv (release_retired_prefix b) m'.
Proof.
  intros Hinv. unfold release_retired_prefix. destruct (retired_prefix b) as [r|]; [|eauto].
  apply (acknowledge_inv b m); [assumption|apply SequenceNumber.next_wf].
Qed.

Lemma apply_inv b m o : inv b m -> op_ok o -> exists m', inv (apply b o) m'.
Proof.
  intros Hinv Ho. assert (Hev : forall b', evolves b b' -> exists m', inv b' m')
    by (intros b' He; exists m; eapply evolves_inv; eassumption).
  destruct o; simpl in Ho |- *.
  - eapply synchronize_inv; eassumption.
  - eapply enqueue_message_inv; eassumption.
  - eapply enqueue_stream_inv; eassumption.
  - eapply next_packet_inv; eassumption.
  - eapply Hev, peek_retransmission_evolves; eassumption.
  - eapply Hev, requeue_evolves; eassumption.
  - eapply preserve_inv; eassumption.
  - eapply Hev, note_submitted_evolves; eassumption.
  - unfold acknowledge_submitted_before. destruct (_ <? 0); [eauto|]. destruct (_ <? _)%nat; [eauto|].
    destruct (existsb _ _); [eauto|]. eapply acknowledge_inv; eassumption.
  - eapply acknowledge_inv; eassumption.
  - eapply Hev, request_retransmission_evolves; eassumption.
  - eapply Hev, note_retransmission_evolves; eassumption.
  - eapply Hev, last_sent_evolves; eassumption.
  - eapply Hev, all_sent_evolves; eassumption.
  - eapply Hev, next_pending_drop_evolves; eassumption.
  - unfold has_pending_drop_request. destruct (negb _); [|eauto].
    apply Hev. apply compact_drop_requests. eapply inv_queues; eassumption.
  - eapply Hev, retained_loop_evolves; eassumption.
  - eapply release_retired_inv; eassumption.
  - unfold queue_range_drop_requests. destruct (RangeDropQueue.queue _ _). apply Hev, range_queue_evolves.
  - destruct (drop_older_inv b m cutoff Hinv) as (m' & _ & H & _). eauto.
  - eapply drop_expired_inv; eassumption.
  - apply Hev. apply compact_retransmissions. eapply inv_queues; eassumption.
Qed.

Lemma send_make_inv first n max arena b : SequenceNumber.wf first ->
  length arena = (n * PayloadPool.width)%nat -> make first n max arena = Some b -> inv b ∅.
Proof.
  intros Hf Ha. unfold make, checked_send_capacity. destruct (_ || _) eqn:E; [discriminate|].
  destruct (PayloadPool.make n arena) as [pool|] eqn:Ep; [|discriminate]. intros [= <-]. b2p.
  pose proof (PayloadPool.pool_make_inv n arena pool Ha Ep) as Hpool.
  assert (Hbl : Forall blank (replicate n (inhabitant : Slot))) by (apply Forall_replicate; split; reflexivity).
  assert (Hz : forall g : Slot -> nat, g inhabitant = 0%nat -> 0%nat = sumf g (replicate n (inhabitant : Slot))).
  { intros g Hg. symmetry. apply sumf_zero, Forall_replicate, Hg. }
  unfold SequenceNumber.half_range, SequenceNumber.modulus in *.
  split; unfold packets, ring, capacity; simpl; rewrite ?length_replicate; auto; try lia; try (constructor; fail).
  - split; unfold capacity; simpl; rewrite ?length_replicate; auto; try lia;
      try (apply Hz; reflexivity).
    + apply Forall_replicate. split; simpl; auto; try discriminate; unfold maximum_data_payload_size; lia.
    + change (represents (replicate (S n) 0) (dropped <$> replicate n (inhabitant : Slot))).
      rewrite fmap_replicate. apply represents_make. clear - H2. change (2 ^ 30) with (2147483648 `div` 2). exact H2.
    + split.
      * intros i s Hi Hs. apply lookup_replicate in Hi as [-> _]. discriminate.
      * intros i j s s' Hi Hj Hs. apply lookup_replicate in Hi as [-> _]. discriminate.
      * rewrite map_size_empty. apply Hz. reflexivity.
  - rewrite drop_0, rot_0. assumption.
  - intros o s Ho. discriminate Ho.
  - unfold is_u64. lia.
Qed.

(** The buffers a program can hold: built by the constructor, then operated on. *)
Definition reachable (b : t) : Prop :=
  exists first n max arena b0 ops,
    SequenceNumber.wf first /\ length arena = (n * PayloadPool.width)%nat /\
    make first n max arena = Some b0 /\ Forall op_ok ops /\ b = fold_left apply ops b0.

Lemma reachable_inv b : reachable b -> exists m, inv b m.
Proof.
  intros (first & n & max & arena & b0 & ops & Hf & Ha & Hm & Hops & ->).
  pose proof (send_make_inv _ _ _ _ _ Hf Ha Hm) as H0. revert H0. clear Hm.
  generalize (∅ : gmap nat (list Z)) as m. revert b0.
  induction Hops as [|o ops Ho _ IH]; intros b0 m H0; simpl; [eauto|].
  destruct (apply_inv b0 m o H0 Ho) as [m' H1]. eapply IH; eassumption.
Qed.

(** Sums over the slot array are sums over the packets. *)
Lemma sumf_packets b m (g : Slot -> nat) : inv b m -> (forall s, blank s -> slot_ok s -> g s = 0%nat) ->
  sumf g (slots b) = sumf g (packets b).
Proof.
  intros Hinv Hg. rewrite <- (sumf_rot g (head b)). fold (ring b).
  rewrite <- (take_drop (sequence_span b) (ring b)), sumf_app. fold (packets b).
  rewrite (sumf_zero g (drop _ _)); [lia|].
  assert (Hok : Forall slot_ok (ring b)) by (unfold ring, rot; apply Forall_app; split;
    [apply Forall_drop|apply Forall_take]; apply (inv_core _ _ Hinv)).
  apply (Forall_drop _ (sequence_span b)) in Hok.
  eapply Forall_impl; [apply Forall_and; split; [exact (inv_blank _ _ Hinv)|exact Hok]|].
  simpl. intros s []. auto.
Qed.

(** What the pool holds for a packet. *)
Lemma packet_payload b m s : inv b m -> s ∈ packets b -> occupied s = true ->
  m !! payload_index s = Some (PayloadPool.get (payloads b) (payload_index s)).
Proof.
  intros Hinv Hs Hocc. apply list_elem_of_lookup in Hs as [o Ho]. pose proof (inv_core _ _ Hinv) as C.
  assert (o < sequence_span b)%nat by (apply lookup_lt_Some in Ho; rewrite (length_packets b m Hinv) in Ho; lia).
  rewrite (slot_at_packets b m o Hinv) in Ho by assumption. injection Ho as <-.
  destruct (own_stored _ _ (core_owns _ _ C) (physical b o) (slot_at b o)) as (bs & Hb & _); [|assumption|].
  - apply list_lookup_lookup_total_lt, physical_lt, (inv_head _ _ Hinv).
  - rewrite Hb. f_equal. symmetry. apply (PayloadPool.inv_get _ _ _ (core_pool _ _ C) _ _ Hb).
Qed.

Lemma same_payload b m b' m' s : inv b m -> inv b' m' -> m ⊆ m' \/ m' ⊆ m ->
  s ∈ packets b -> s ∈ packets b' -> occupied s = true -> outbound b' s = outbound b s.
Proof.
  intros I I' Hm Hs Hs' Hocc. pose proof (packet_payload _ _ _ I Hs Hocc) as H.
  pose proof (packet_payload _ _ _ I' Hs' Hocc) as H'. unfold outbound. f_equal.
  destruct Hm as [Hm|Hm]; [apply (lookup_weaken _ _ _ _ H) in Hm|apply (lookup_weaken _ _ _ _ H') in Hm]; congruence.
Qed.

(** C5: The send buffer's books are always right.  After any sequence of its
    operations on a freshly built buffer: the slots of the sequence span hold a
    packet or a drop tombstone each, numbered consecutively from the first
    sequence; all other slots are empty; the packet, tombstone, in-flight,
    byte and TTL counters equal what a scan of the slots would count; the
    Fenwick tree answers every prefix query like a scan; and the unsent cursor
    separates sent from unsent packets. *)
Theorem send_buffer_invariant b : reachable b ->
  (forall o s, packets b !! o = Some s ->
     present s /\ sequence (header s) = SequenceNumber.advanced (first_sequence b) (Z.of_nat o) /\
     ((o < next_unsent_offset b)%nat -> unsent s = false) /\
     ((next_unsent_offset b <= o)%nat -> sent s = false)) /\
  length (packets b) = sequence_span b /\
  Forall blank (drop (sequence_span b) (ring b)) /\
  occupied_count b = sumf (ind occupied) (packets b) /\
  retained_drop_count b = sumf (ind dropped) (packets b) /\
  packets_in_flight b = sumf (ind sent) (packets b) /\
  buffered_payload_bytes b = sumf plain (packets b) /\
  expiring_packet_count b = sumf (ind expiring) (packets b) /\
  (forall e, (e <= capacity b)%nat ->
     dropped_prefix (dropped_counts b) e = Z.of_nat (countb dropped (take e (slots b)))).
Proof.
  intros Hr. destruct (reachable_inv b Hr) as [m Hinv]. pose proof (inv_core _ _ Hinv) as C.
  split; [|split; [apply (length_packets b m Hinv)|split; [apply (inv_blank _ _ Hinv)|]]].
  - intros o s Ho. split; [|split; [apply (inv_sequence _ _ Hinv); assumption|split]].
    + pose proof (inv_present _ _ Hinv) as H. rewrite Forall_lookup in H. eauto.
    + intros Hlt. pose proof (inv_before _ _ Hinv) as H. rewrite Forall_lookup in H.
      apply (H o). rewrite lookup_take_lt; assumption.
    + intros Hge. pose proof (inv_after _ _ Hinv) as H. rewrite Forall_lookup in H.
      apply (H (o - next_unsent_offset b)%nat). rewrite lookup_drop.
      replace (next_unsent_offset b + (o - next_unsent_offset b))%nat with o by lia. assumption.
  - destruct C. unfold buffered_payload_bytes.
    repeat split; try (rewrite <- (sumf_packets b m _ Hinv); [assumption|]; intros s [B1 B2] K;
      unfold ind, plain, expiring; rewrite ?B1, ?B2; try reflexivity).
    + destruct (sent s) eqn:E; [|reflexivity]. rewrite (ok_sent _ K E) in B1. discriminate.
    + intros e He. rewrite (dropped_prefix_spec _ _ _ core_tree) by (rewrite length_map; exact He).
      unfold flags_before. rewrite firstn_map. f_equal. clear. induction (take e (slots b)) as [|s l IH]; simpl; auto.
Qed.

(** A small buffer: four packets of at most three bytes, numbered across the
    wrap-around; a two-packet message and one of a single packet; the first packet
    sent and reported lost. *)
Definition example_parameters (message now expiration : Z) : EnqueueParameters :=
  {| enqueue_message_number := message; enqueue_timestamp := 7; enqueue_destination := 9;
     enqueue_in_order := true; enqueue_time := now; enqueue_expiration := expiration |}.

Definition example_start : t :=
  initial 2147483646 4 3
    {| PayloadPool.payload := replicate (4 * PayloadPool.width) 0; PayloadPool.sizes := replicate 4 0;
       PayloadPool.free_indices := replicate 4 0%nat; PayloadPool.next_unused := 0;
       PayloadPool.free_count := 0 |}.

Definition example_ops : list op :=
  [EnqueueMessage [1; 2; 3; 4] (example_parameters 1 100 0);
   EnqueueMessage [5] (example_parameters 2 200 0);
   NextPacket false true 300;
   RequestRetransmission {| range_first := 2147483646; range_last := 2147483646 |} 400 0].

Definition example : t := fold_left apply example_ops example_start.

Lemma example_reachable : reachable example.
Proof.
  exists 2147483646, 4%nat, 3%nat, (replicate (4 * PayloadPool.width) 0), example_start, example_ops.
  split; [split; vm_compute; [discriminate|reflexivity]|].
  split; [rewrite length_replicate; reflexivity|]. split; [vm_compute; reflexivity|].
  split; [repeat constructor|reflexivity].
Qed.

Lemma send_buffer_invariant_witness :
  packets_in_flight example = 1%nat /\ packets_in_flight example = sumf (ind sent) (packets example).
Proof.
  split; [vm_compute; reflexivity|].
  apply (send_buffer_invariant example example_reachable).
Defined.

(** * Fragmentation *)

(** The number of packets a message needs: its length divided by the packet
    size, rounded up. *)
Definition packets_needed (max : nat) (message : list Z) : nat :=
  ((length message + max - 1) / max)%nat.

(** The payload bytes a slot would send. *)
Definition payload_of (b : t) (s : Slot) : list Z := out_payload (outbound b s).

(** C11: [enqueue_message] is all or nothing.  Accepted, the message is appended
    as consecutive packets of at most the configured size whose payloads
    concatenated are the message, with first / subsequent / last (or solo)
    boundaries, the masked message number and consecutive sequence numbers, and
    no packet that was already buffered changes, header or payload.  Refused, the
    buffer is untouched, and the message was empty, larger than the free
    space or past the 64-bit sequence position. *)
Theorem enqueue_message_fragments b message p : reachable b ->
  match enqueue_message b message p with
  | (Error.none, b') =>
      exists new, packets b' = packets b ++ new /\
        length new = packets_needed (maximum_payload_size b) message /\ new <> [] /\
        concat (map (payload_of b') new) = message /\
        (forall s, s ∈ new -> (length (payload_of b' s) <= maximum_payload_size b)%nat) /\
        (forall j s, new !! j = Some s -> unsent s = true /\ header s =
           {| sequence := SequenceNumber.advanced (first_sequence b) (Z.of_nat (sequence_span b + j));
              message_number := Z.land (enqueue_message_number p) 0x03ffffff;
              boundary := boundary_of (j =? 0)%nat (j + 1 =? length new)%nat;
              in_order := enqueue_in_order p; encryption_key := EncryptionKey.none;
              retransmitted := false; timestamp := enqueue_timestamp p;
              destination_socket_id := enqueue_destination p |}) /\
        (forall s, s ∈ packets b -> occupied s = true -> outbound b' s = outbound b s)
  | (_, b') => b' = b /\
      (message = [] \/ (available b < packets_needed (maximum_payload_size b) message)%nat \/
       u64_max < next_sequence_position b + Z.of_nat (packets_needed (maximum_payload_size b) message))
  end.
Proof.
  intros Hr. destruct (reachable_inv b Hr) as [m Hinv].
  pose proof (enqueue_message_spec b m message p Hinv) as H.
  destruct (enqueue_message b message p) as [[] b']; try exact H.
  destruct H as (Hne & m' & new & Hinv' & Hsub & Hpk & Hlen & Hcap & Hnew).
  pose proof (core_payload _ _ (inv_core _ _ Hinv)) as [Hmax _].
  assert (Hin : forall s, s ∈ new -> s ∈ packets b') by (intros s Hs; rewrite Hpk; apply elem_of_app; auto).
  set (fs := fragments (packet_count b message) (maximum_payload_size b) message) in *.
  assert (Hfs : length fs = length new) by (unfold fs; rewrite length_fragments; lia).
  assert (Hboth : forall j s, new !! j = Some s -> exists bytes, fs !! j = Some bytes /\ payload_of b' s = bytes).
  { intros j s Hj. destruct (lookup_lt_is_Some_2 fs j) as [bytes Hb]; [rewrite Hfs; eapply lookup_lt_Some; eauto|].
    exists bytes. split; [exact Hb|]. destruct (Hnew _ _ _ Hj Hb) as [N1 N2 _ _ _ _].
    pose proof (packet_payload _ _ _ Hinv' (Hin _ (list_elem_of_lookup_2 _ _ _ Hj)) N1) as E.
    unfold payload_of, outbound. simpl. congruence. }
  assert (Hmap : map (payload_of b') new = fs).
  { apply list_eq. intros j. change (map (payload_of b') new) with (payload_of b' <$> new).
    rewrite list_lookup_fmap. destruct (new !! j) as [s|] eqn:E; simpl.
    - destruct (Hboth _ _ E) as (bytes & -> & ->). reflexivity.
    - symmetry. apply lookup_ge_None. apply lookup_ge_None in E. lia. }
  exists new. split; [exact Hpk|]. split; [exact Hlen|]. split.
  { intros ->. pose proof (packet_count_bounds b message Hmax Hne) as K. rewrite <- Hlen in K.
    destruct message; [congruence|simpl in K; lia]. }
  split.
  { rewrite Hmap. unfold fs. rewrite concat_fragments, take_ge; [reflexivity|]. apply packet_count_bounds; auto. }
  split.
  { intros s Hs. apply list_elem_of_lookup in Hs as [j Hj]. destruct (Hboth _ _ Hj) as (bytes & Hb & ->).
    eapply fragments_small, list_elem_of_lookup_2, Hb. }
  split.
  - intros j s Hj. destruct (Hboth _ _ Hj) as (bytes & Hb & _). destruct (Hnew _ _ _ Hj Hb) as [N1 _ _ N4 _ N6].
    unfold unsent. rewrite N1, N4. split; [reflexivity|]. rewrite N6, Hlen. reflexivity.
  - intros s Hs Hocc. eapply same_payload; eauto. rewrite Hpk. apply elem_of_app. auto.
Qed.

Lemma enqueue_message_fragments_witness : exists new,
  (enqueue_message example_start [1; 2; 3; 4] (example_parameters 1 100 0)).1 = Error.none /\
  concat (map (payload_of (enqueue_message example_start [1; 2; 3; 4] (example_parameters 1 100 0)).2) new)
    = [1; 2; 3; 4] /\ length new = 2%nat.
Proof.
  assert (Hr : reachable example_start).
  { exists 2147483646, 4%nat, 3%nat, (replicate (4 * PayloadPool.width) 0), example_start, [].
    split; [split; vm_compute; [discriminate|reflexivity]|].
    split; [rewrite length_replicate; reflexivity|]. split; [vm_compute; reflexivity|].
    split; [constructor|reflexivity]. }
  pose proof (enqueue_message_fragments example_start [1; 2; 3; 4] (example_parameters 1 100 0) Hr) as H.
  assert (E : (enqueue_message example_start [1; 2; 3; 4] (example_parameters 1 100 0)).1 = Error.none)
    by (vm_compute; reflexivity).
  destruct (enqueue_message example_start [1; 2; 3; 4] (example_parameters 1 100 0)) as [e b'].
  cbn [fst snd] in E |- *. subst e. destruct H as (new & _ & Hl & _ & Hc & _). exists new. repeat split; assumption.
Defined.

(** * Acknowledgement *)

(** C14: An acknowledgement of everything before [q] retires exactly the packets
    before [q]: a stale one changes nothing, one past the end is an error that
    changes nothing, and otherwise the buffer starts at [q] and the
    packets from [q] on keep their place, header and payload. *)
Theorem acknowledgement_retires_prefix b q : reachable b -> SequenceNumber.wf q ->
  let d := SequenceNumber.distance_from q (first_sequence b) in
  match acknowledge_before b q with
  | (Error.none, b') =>
      (d < 0 -> b' = b) /\
      (0 <= d -> d <= Z.of_nat (sequence_span b) /\ first_sequence b' = q) /\
      packets b' = drop (Z.to_nat d) (packets b) /\
      (forall s, s ∈ packets b' -> occupied s = true -> outbound b' s = outbound b s)
  | (e, b') => e = Error.invalid_control_payload /\ b' = b /\ Z.of_nat (sequence_span b) < d
  end.
Proof.
  intros Hr Hq d. destruct (reachable_inv b Hr) as [m Hinv]. pose proof (acknowledge_spec b m q Hinv Hq) as H.
  fold d in H. cbv zeta in H.
  pose proof (acknowledge_first b q) as Hfirst. cbv zeta in Hfirst. fold d in Hfirst.
  destruct (acknowledge_before b q) as [[] b']; try exact H. destruct H as (H1 & H2 & m' & H3 & H4).
  split; [exact H2|]. split; [apply Hfirst; reflexivity|]. split; [exact H1|].
  intros s Hs Hocc. eapply same_payload; eauto. rewrite H1 in Hs.
  eapply elem_of_sublist; [exact Hs|apply sublist_drop].
Qed.

Lemma acknowledgement_retires_prefix_witness :
  packets (acknowledge_before example 2147483647).2 = drop 1 (packets example).
Proof.
  assert (Hq : SequenceNumber.wf 2147483647) by (split; vm_compute; [discriminate|reflexivity]).
  pose proof (acknowledgement_retires_prefix example 2147483647 example_reachable Hq) as H. cbv zeta in H.
  assert (E : (acknowledge_before example 2147483647).1 = Error.none) by (vm_compute; reflexivity).
  destruct (acknowledge_before example 2147483647) as [e b']. cbn [fst snd] in E |- *. subst e. apply H.
Defined.

(** * Checking a loss report *)

Lemma rot_segment {A} (l : list A) h k n : (h < length l)%nat -> (k < length l)%nat -> (n <= length l - k)%nat ->
  let start := ((h + k) mod length l)%nat in
  let n1 := Nat.min n (length l - start) in
  take n (drop k (rot h l)) = take n1 (drop start l) ++ take (n - n1) l.
Proof.
  intros Hh Hk Hn start n1. assert (Hs : (start < length l)%nat) by (apply Nat.mod_upper_bound; lia).
  pose proof (rot_advance l h k Hh ltac:(lia)) as E. fold start in E.
  assert (E2 : take n (rot start l) = take n (drop k (rot h l))).
  { rewrite E. unfold rot at 1. rewrite take_app_le; [reflexivity|]. rewrite length_drop, length_rot. lia. }
  rewrite <- E2. unfold rot. rewrite take_app, length_drop, take_take. unfold n1. f_equal.
  - destruct (Nat.min_spec n (length l - start)) as [[? ->]|[? ->]]; [reflexivity|].
    rewrite !take_ge; auto; rewrite length_drop; lia.
  - f_equal. lia.
Qed.

Lemma dropped_segment b m k n : inv b m -> (k < capacity b)%nat -> (n <= capacity b - k)%nat ->
  let start := physical b k in
  let n1 := Nat.min n (capacity b - start) in
  dropped_prefix (dropped_counts b) (start + n1) - dropped_prefix (dropped_counts b) start
    + dropped_prefix (dropped_counts b) (n - n1)
  = Z.of_nat (countb dropped (take n (drop k (ring b)))).
Proof.
  intros Hinv Hk Hn start n1. pose proof (inv_head _ _ Hinv) as Hh.
  assert (Hs : (start < capacity b)%nat) by (apply physical_lt; assumption).
  pose proof (core_tree _ _ (inv_core _ _ Hinv)) as T.
  assert (P : forall e, (e <= capacity b)%nat ->
    dropped_prefix (dropped_counts b) e = Z.of_nat (countb dropped (take e (slots b)))).
  { intros e He. rewrite (dropped_prefix_spec _ _ _ T) by (rewrite length_map; exact He).
    unfold flags_before. rewrite firstn_map. f_equal. clear. induction (take e (slots b)); simpl; auto. }
  rewrite !P by lia. unfold ring. rewrite (rot_segment (slots b) (head b) k n Hh Hk Hn).
  change ((head b + k) mod length (slots b))%nat with start. change (length (slots b)) with (capacity b). fold n1.
  rewrite <- (take_take_drop (slots b) start n1), !countb_app. lia.
Qed.

Lemma countb_full {A} (f : A -> bool) l : countb f l = length l <-> Forall (fun x => f x = true) l.
Proof.
  induction l as [|x l IH]; simpl; [split; auto|]. pose proof (countb_le f l). rewrite Forall_cons.
  destruct (f x); [split; [intros; split; [reflexivity|apply IH; lia]|intros [_ H']; apply IH in H'; lia]|].
  split; [lia|intros [H' _]; discriminate].
Qed.

Lemma Forall_segment {A} (P : A -> Prop) l k e :
  Forall P (take (e - k) (drop k l)) <-> (forall o x, (k <= o < e)%nat -> l !! o = Some x -> P x).
Proof.
  rewrite Forall_lookup. split.
  - intros H' o s Ho Hs. apply (H' (o - k)%nat). rewrite lookup_take_lt, lookup_drop by lia. rewrite <- Hs. f_equal. lia.
  - intros H' j s Hj. apply lookup_take_Some in Hj as [Hj ?]. rewrite lookup_drop in Hj.
    apply (H' (k + j)%nat); [lia|assumption].
Qed.

(** Below the cursor every packet is sent or dropped, so only the rest needs a look. *)
Lemma sent_or_dropped b m lo hi : inv b m -> 0 <= lo <= hi ->
  (forall o s, lo <= Z.of_nat o <= hi -> packets b !! o = Some s -> sent s = true \/ dropped s = true) <->
  (forall o s, (Nat.max (Z.to_nat lo) (next_unsent_offset b) <= o < Z.to_nat hi + 1)%nat ->
     packets b !! o = Some s -> dropped s = true).
Proof.
  intros Hinv Hlo. split.
  - intros H' o s Ho Hs. destruct (H' o s ltac:(lia) Hs) as [Hsent|]; [|assumption]. exfalso.
    pose proof (inv_after _ _ Hinv) as A. rewrite Forall_lookup in A.
    rewrite (A (o - next_unsent_offset b)%nat s) in Hsent; [discriminate|]. rewrite lookup_drop, <- Hs. f_equal. lia.
  - intros H' o s Ho Hs. destruct (Nat.lt_ge_cases o (next_unsent_offset b)); [|right; apply (H' o); [lia|assumption]].
    pose proof (inv_before _ _ Hinv) as B. rewrite Forall_lookup in B. specialize (B o s).
    rewrite lookup_take_lt in B by assumption. specialize (B Hs). unfold unsent in B.
    pose proof (inv_present _ _ Hinv) as P. rewrite Forall_lookup in P. destruct (P _ _ Hs) as [P1|P1]; [|auto].
    rewrite P1 in B. destruct (sent s); auto.
Qed.

(** C16: The range check of a loss report, which answers with three Fenwick
    queries and the unsent cursor, accepts exactly what a scan would accept: a
    forward range inside the buffered span every packet of which has been
    sent or has become a drop tombstone. *)
Theorem validate_retransmission_range_scan b r : reachable b ->
  let lo := SequenceNumber.distance_from (range_first r) (first_sequence b) in
  let hi := SequenceNumber.distance_from (range_last r) (first_sequence b) in
  validate_retransmission_range b r = Error.none <->
  0 <= SequenceNumber.distance_from (range_last r) (range_first r) /\
  0 <= lo <= hi /\ hi < Z.of_nat (sequence_span b) /\
  forall o s, lo <= Z.of_nat o <= hi -> packets b !! o = Some s -> sent s = true \/ dropped s = true.
Proof.
  intros Hr lo hi. destruct (reachable_inv b Hr) as [m Hinv]. unfold validate_retransmission_range. fold lo hi.
  destruct (_ || _ || _ || _) eqn:E; cbv zeta.
  { split; [discriminate|]. intros (H1 & H2 & H3 & _). exfalso. clear Hinv Hr.
    rewrite !orb_true_iff, !Z.ltb_lt, Nat.leb_le in E. lia. }
  rewrite !orb_false_iff, !Z.ltb_ge, Nat.leb_gt in E. destruct E as [[[E1 E2] E3] E4].
  set (k := Nat.max (Z.to_nat lo) (next_unsent_offset b)). pose proof (inv_span _ _ Hinv).
  assert (Hlen := length_packets b m Hinv).
  pose proof (sent_or_dropped b m lo hi Hinv ltac:(lia)) as Hscan. fold k in Hscan.
  rewrite Hscan. destruct (Nat.ltb_spec k (Z.to_nat hi + 1)) as [Hk|Hk].
  - rewrite (dropped_segment b m k _ Hinv) by lia. set (n := (Z.to_nat hi + 1 - k)%nat).
    assert (Hseg : take n (drop k (ring b)) = take n (drop k (packets b))).
    { unfold packets. rewrite skipn_firstn_comm, take_take. f_equal. lia. }
    assert (Hn : length (take n (drop k (packets b))) = n) by (rewrite length_take, length_drop; lia).
    rewrite Hseg. rewrite <- Hn at 2.
    pose proof (Forall_segment (fun s => dropped s = true) (packets b) k (Z.to_nat hi + 1)) as Hall. fold n in Hall.
    rewrite <- Hall, <- countb_full. destruct (Z.eqb_spec (Z.of_nat (countb dropped (take n (drop k (packets b)))))
      (Z.of_nat (length (take n (drop k (packets b)))))) as [Heq|Hne]; simpl; [split; [intros _; lia|reflexivity]|].
    split; [discriminate|]. intros (_ & _ & _ & Heq). congruence.
  - split; [|reflexivity]. intros _. repeat split; try lia.
Qed.

Lemma validate_retransmission_range_scan_witness :
  exists s, packets example !! 0%nat = Some s /\ (sent s = true \/ dropped s = true).
Proof.
  destruct (lookup_lt_is_Some_2 (packets example) 0) as [s Hs]; [vm_compute; lia|]. exists s. split; [exact Hs|].
  apply (validate_retransmission_range_scan example {| range_first := 2147483646; range_last := 2147483646 |}
    example_reachable) with (o := 0%nat); [vm_compute; reflexivity|vm_compute; split; discriminate|exact Hs].
Defined.

(** * Selecting the next packet *)

Lemma first_unsent_spec b : forall n c,
  match first_unsent b (seq c n) with
  | Some packet => exists o, (c <= o < c + n)%nat /\ unsent (slot_at b o) = true /\
      (forall k, (c <= k < o)%nat -> unsent (slot_at b k) = false) /\ packet = outbound b (slot_at b o)
  | None => forall k, (c <= k < c + n)%nat -> unsent (slot_at b k) = false
  end.
Proof.
  induction n as [|n IH]; intros c; cbn [seq first_unsent]; [lia|].
  destruct (unsent (slot_at b c)) eqn:E; [exists c; repeat split; auto; lia|]. specialize (IH (S c)).
  destruct (first_unsent b (seq (S c) n)) as [packet|].
  - destruct IH as (o & H1 & H2 & H3 & H4). exists o. repeat split; auto; try lia.
    intros k Hk. destruct (decide (k = c)) as [->|]; [assumption|apply H3; lia].
  - intros k Hk. destruct (decide (k = c)) as [->|]; [assumption|apply IH; lia].
Qed.

Lemma unsent_below b m k : inv b m -> (k < next_unsent_offset b)%nat -> unsent (slot_at b k) = false.
Proof.
  intros Hinv Hk. pose proof (inv_cursor _ _ Hinv). pose proof (inv_before _ _ Hinv) as B.
  rewrite Forall_lookup in B. apply (B k).
  rewrite lookup_take_lt by assumption. apply (slot_at_packets b m); [assumption|lia].
Qed.

(** The first unsent packet of a list of packets. *)
Fixpoint first_unsent_packet (l : list Slot) : option (nat * Slot) :=
  match l with
  | [] => None
  | s :: l => if unsent s then Some (0%nat, s) else prod_map S id <$> first_unsent_packet l
  end.

Lemma first_unsent_packet_at l o s : l !! o = Some s -> unsent s = true ->
  (forall k x, (k < o)%nat -> l !! k = Some x -> unsent x = false) -> first_unsent_packet l = Some (o, s).
Proof.
  revert o. induction l as [|y l IH]; intros o Hs Hu Hb; [discriminate|]. simpl. destruct o as [|o].
  - injection Hs as ->. rewrite Hu. reflexivity.
  - rewrite (Hb 0%nat y) by (lia || reflexivity). rewrite (IH o); [reflexivity|exact Hs|exact Hu|].
    intros k x Hk Hx. apply (Hb (S k)); [lia|exact Hx].
Qed.

Lemma first_unsent_packet_none l : (forall k x, l !! k = Some x -> unsent x = false) -> first_unsent_packet l = None.
Proof.
  induction l as [|y l IH]; intros Hb; [reflexivity|]. simpl. rewrite (Hb 0%nat y) by reflexivity.
  rewrite IH; [reflexivity|]. intros k x Hx. apply (Hb (S k) x Hx).
Qed.

(** The scan from the cursor finds the first unsent packet of the buffer. *)
Lemma first_from_cursor b m o : inv b m -> (next_unsent_offset b <= o < sequence_span b)%nat ->
  unsent (slot_at b o) = true -> (forall k, (next_unsent_offset b <= k < o)%nat -> unsent (slot_at b k) = false) ->
  first_unsent_packet (packets b) = Some (o, slot_at b o).
Proof.
  intros Hinv Ho Hu Hb. apply first_unsent_packet_at; [apply (slot_at_packets b m); [assumption|lia]|assumption|].
  intros k x Hk Hx. rewrite (slot_at_packets b m k Hinv) in Hx by lia. injection Hx as <-.
  destruct (Nat.lt_ge_cases k (next_unsent_offset b)); [eapply unsent_below; eauto|apply Hb; lia].
Qed.

Lemma none_from_cursor b m : inv b m ->
  (forall k, (next_unsent_offset b <= k < sequence_span b)%nat -> unsent (slot_at b k) = false) ->
  first_unsent_packet (packets b) = None.
Proof.
  intros Hinv Hb. apply first_unsent_packet_none. intros k x Hx.
  assert (k < sequence_span b)%nat by (apply lookup_lt_Some in Hx; rewrite (length_packets b m Hinv) in Hx; lia).
  rewrite (slot_at_packets b m k Hinv) in Hx by lia. injection Hx as <-.
  destruct (Nat.lt_ge_cases k (next_unsent_offset b)); [eapply unsent_below; eauto|apply Hb; lia].
Qed.

Lemma peek_new_packet_spec b m : inv b m ->
  peek_new_packet b = (fun x => outbound b x.2) <$> first_unsent_packet (packets b).
Proof.
  intros Hinv. unfold peek_new_packet. pose proof (inv_cursor _ _ Hinv).
  pose proof (first_unsent_spec b (sequence_span b - next_unsent_offset b) (next_unsent_offset b)) as H'.
  replace (next_unsent_offset b + (sequence_span b - next_unsent_offset b))%nat with (sequence_span b) in H' by lia.
  destruct (first_unsent b _) as [packet|].
  - destruct H' as (o & H1 & H2 & H3 & ->). rewrite (first_from_cursor b m o) by assumption. reflexivity.
  - rewrite (none_from_cursor b m) by assumption. reflexivity.
Qed.

(** The original phase of [next_packet]. *)
Lemma next_original_phase defer now b m : inv b m ->
  match first_unsent_packet (packets b) with
  | Some (o, s) => exists b', next_original (sequence_span b - next_unsent_offset b) defer now b
      = (Some (outbound b s), b') /\ packets b' = <[o := sent_slot defer now s]> (packets b)
  | None => exists b', next_original (sequence_span b - next_unsent_offset b) defer now b = (None, b')
      /\ packets b' = packets b
  end.
Proof.
  intros Hinv. pose proof (inv_cursor _ _ Hinv).
  pose proof (next_original_spec defer now b (sequence_span b - next_unsent_offset b) (next_unsent_offset b) ltac:(lia)) as H'.
  rewrite set_cursor_id in H'. destruct (next_original _ _ _ _) as [[packet|] b'].
  - destruct H' as (o & H1 & H2 & H3 & -> & ->). rewrite (first_from_cursor b m o) by assumption.
    eexists. split; [reflexivity|]. apply (send_original_inv defer now o b m); assumption.
  - destruct H' as [H1 ->]. rewrite (none_from_cursor b m) by assumption. eexists. split; reflexivity.
Qed.

(** ** The retransmission queue *)

Lemma retransmissions_pop b : queues_ok b -> (0 < retransmission_size b)%nat ->
  retransmissions b = retransmission_queue b !!! retransmission_head b :: retransmissions (pop_retransmission b).
Proof.
  intros [Q1 Q2 Q3 _ _ _] Hs. unfold retransmissions, pop_retransmission.
  cbn [retransmission_size retransmission_head retransmission_queue set_retransmission_size set_retransmission_head].
  set (q := retransmission_queue b) in *. set (h := retransmission_head b) in *. rewrite <- Q1 in Q2 |- *.
  assert (Hx : rot h q !! 0%nat = Some (q !!! h)).
  { replace h with ((h + 0) mod length q)%nat at 2 by (rewrite Nat.add_0_r, Nat.mod_small; lia).
    rewrite rot_lookup_total by lia. apply list_lookup_lookup_total_lt. rewrite length_rot. lia. }
  assert (Ht : rot h q = q !!! h :: drop 1 (rot h q)) by (rewrite <- (drop_S _ _ _ Hx), drop_0; reflexivity).
  rewrite Ht at 1. replace (retransmission_size b) with (S (retransmission_size b - 1)) at 1 by lia. cbn [take]. f_equal.
  apply list_eq. intros i. destruct (Nat.lt_ge_cases i (retransmission_size b - 1)) as [Hi|Hi].
  - rewrite !lookup_take_lt, lookup_drop by assumption.
    rewrite !list_lookup_lookup_total_lt by (rewrite length_rot; lia). f_equal.
    rewrite <- !rot_lookup_total by (lia || apply ring_index_lt; lia). f_equal.
    rewrite Nat.Div0.add_mod_idemp_l. f_equal. lia.
  - rewrite !lookup_take_ge by assumption. reflexivity.
Qed.

(** The queue phase of [next_packet] takes the first request that is still live. *)
Lemma next_retransmission_first defer r : forall b m, inv b m -> (retransmission_size b <= r)%nat ->
  let '(out, b') := next_retransmission r defer b in
  match List.filter (retransmission_live b) (retransmissions b) with
  | q :: _ => exists o skipped, offset_of b q = Some o /\ (o < sequence_span b)%nat /\ due b (slot_at b o) /\
      out = Some (outbound_retransmission b (slot_at b o)) /\
      packets b' = <[o := set_retransmission_queued defer (slot_at b o)]> (packets b) /\
      retransmissions b = skipped ++ q :: retransmissions b' /\ Forall (fun x => retransmission_live b x = false) skipped
  | [] => out = None /\ evolves b b' /\ slots b' = slots b /\ retransmissions b' = []
  end.
Proof.
  induction r as [|r IH]; intros b m Hinv Hr; cbn [next_retransmission].
  { assert (E : retransmissions b = []) by (unfold retransmissions; replace (retransmission_size b) with 0%nat by lia; reflexivity).
    rewrite E. cbn. split_and!; auto. reflexivity. }
  destruct (Nat.eqb_spec (retransmission_size b) 0) as [Hz|Hz].
  { assert (E : retransmissions b = []) by (unfold retransmissions; rewrite Hz; reflexivity). rewrite E. cbn. split_and!; auto. reflexivity. }
  pose proof (pop_evolves b (inv_queues _ _ Hinv) ltac:(lia)) as Hp.
  pose proof (evolves_inv _ _ _ Hinv Hp) as Hinv1. cbv zeta.
  rewrite (retransmissions_pop b (inv_queues _ _ Hinv) ltac:(lia)).
  set (q := retransmission_queue b !!! retransmission_head b). set (b1 := pop_retransmission b) in *.
  specialize (IH b1 m Hinv1). change (retransmission_size b1) with (retransmission_size b - 1)%nat in IH. specialize (IH ltac:(lia)).
  assert (Hskip : retransmission_live b q = false ->
    let '(out, b') := next_retransmission r defer b1 in
    match List.filter (retransmission_live b) (q :: retransmissions b1) with
    | q0 :: _ => exists o skipped, offset_of b q0 = Some o /\ (o < sequence_span b)%nat /\ due b (slot_at b o) /\
        out = Some (outbound_retransmission b (slot_at b o)) /\
        packets b' = <[o := set_retransmission_queued defer (slot_at b o)]> (packets b) /\
        q :: retransmissions b1 = skipped ++ q0 :: retransmissions b' /\ Forall (fun x => retransmission_live b x = false) skipped
    | [] => out = None /\ evolves b b' /\ slots b' = slots b /\ retransmissions b' = []
    end).
  { intros Hl. destruct (next_retransmission r defer b1) as [out b']. cbn [List.filter]. rewrite Hl.
    change (retransmission_live b) with (retransmission_live b1) in *. destruct (List.filter _ _) as [|q0 rest].
    - destruct IH as (I1 & I2 & I3 & I4). split_and!; auto. etransitivity; eassumption.
    - destruct IH as (o & skipped & I1 & I2 & I3 & I4 & I5 & I6 & I7). exists o, (q :: skipped).
      split_and!; auto. rewrite I6. reflexivity. }
  destruct (find b1 q) as [i|] eqn:Ef.
  2:{ apply Hskip. unfold retransmission_live. change (find b q) with (find b1 q). rewrite Ef. reflexivity. }
  destruct (retransmission_queued (slots b1 !!! i)) eqn:Eq; simpl negb; cbv iota.
  2:{ apply Hskip. unfold retransmission_live. change (find b q) with (find b1 q). rewrite Ef. exact Eq. }
  cbn [List.filter]. replace (retransmission_live b q) with true
    by (unfold retransmission_live; change (find b q) with (find b1 q); rewrite Ef; symmetry; exact Eq).
  pose proof (found_due b1 m q i Hinv1 Ef Eq) as Hd. apply find_spec in Ef as (o & Ho & -> & Hocc). pose proof Ho as Ho'.
  apply offset_of_spec in Ho' as [Ho' _]. exists o, []. split_and!; auto.
  exact (packets_insert b1 m o (set_retransmission_queued defer) Hinv1 Ho').
Qed.

Lemma next_original_requests defer now n : forall b, retransmissions (next_original n defer now b).2 = retransmissions b.
Proof.
  induction n as [|n IH]; intros b; cbn [next_original]; [reflexivity|].
  destruct (_ <? _)%nat; [|reflexivity]. cbv zeta. destruct (unsent _); [reflexivity|]. rewrite IH. reflexivity.
Qed.

(** C10: [next_packet] decides what goes out next.  When retransmissions are allowed
    and a queued request still names a retained packet that is flagged for
    retransmission, the oldest such request is served, before any new packet: it leaves
    the queue together with the dead requests in front of it, the packet goes out with
    the retransmitted bit and its stored payload, and of the buffered packets only its
    flag changes (kept exactly when the commit is deferred).  Otherwise the first packet
    never sent before goes out, the one [peek_new_packet] announces, and
    only that packet changes, to sent; nothing goes out only when every buffered
    packet has been sent.  The queue then holds no request if retransmissions were
    allowed, and is unchanged if not. *)
Theorem next_packet_order b defer allow now : reachable b ->
  let '(out, b') := next_packet b defer allow now in
  match (if allow then List.filter (retransmission_live b) (retransmissions b) else []) with
  | q :: _ => exists o s skipped, offset_of b q = Some o /\ packets b !! o = Some s /\ due b s /\
      out = Some (outbound_retransmission b s) /\
      packets b' = <[o := set_retransmission_queued defer s]> (packets b) /\
      retransmissions b = skipped ++ q :: retransmissions b' /\ Forall (fun x => retransmission_live b x = false) skipped
  | [] => retransmissions b' = (if allow then [] else retransmissions b) /\
      match first_unsent_packet (packets b) with
      | Some (o, s) => peek_new_packet b = Some (outbound b s) /\ out = Some (outbound b s) /\
          packets b' = <[o := sent_slot defer now s]> (packets b)
      | None => peek_new_packet b = None /\ out = None /\ packets b' = packets b
      end
  end.
Proof.
  intros Hr. destruct (reachable_inv b Hr) as [m Hinv]. unfold next_packet. rewrite (peek_new_packet_spec b m Hinv).
  assert (Horiginal : forall b1, inv b1 m -> packets b1 = packets b -> payloads b1 = payloads b ->
    let '(out, b') := next_original (sequence_span b1 - next_unsent_offset b1) defer now b1 in
    retransmissions b' = retransmissions b1 /\
    match first_unsent_packet (packets b) with
    | Some (o, s) => (fun x => outbound b x.2) <$> first_unsent_packet (packets b) = Some (outbound b s) /\
        out = Some (outbound b s) /\ packets b' = <[o := sent_slot defer now s]> (packets b)
    | None => (fun x => outbound b x.2) <$> first_unsent_packet (packets b) = None /\ out = None /\ packets b' = packets b
    end).
  { intros b1 I1 E1 E2. pose proof (next_original_phase defer now b1 m I1) as P. rewrite E1 in P.
    pose proof (next_original_requests defer now (sequence_span b1 - next_unsent_offset b1) b1) as Q.
    destruct (next_original _ _ _ _) as [out b']. split; [exact Q|].
    destruct (first_unsent_packet (packets b)) as [[o s]|]; destruct P as (b2 & [= -> ->] & P2); auto.
    split_and!; auto. unfold outbound. rewrite E2. reflexivity. }
  destruct allow; [|apply Horiginal; auto].
  pose proof (next_retransmission_first defer (retransmission_size b) b m Hinv ltac:(lia)) as R.
  destruct (next_retransmission _ defer b) as [out b1]. destruct (List.filter _ _) as [|q rest].
  - destruct R as (-> & R1 & R2 & R3). rewrite <- R3. apply Horiginal; [eapply evolves_inv; eauto| |apply (fr_payloads _ _ (ev_frame _ _ R1))].
    unfold packets, ring. rewrite R2, (fr_span _ _ (ev_frame _ _ R1)), (fr_head _ _ (ev_frame _ _ R1)). reflexivity.
  - destruct R as (o & skipped & R1 & R2 & R3 & -> & R5 & R6 & R7). exists o, (slot_at b o), skipped.
    split_and!; auto. apply (slot_at_packets b m); assumption.
Qed.

(** A request is pending in the example: it goes out first. *)
Lemma next_packet_order_witness : exists o s, offset_of example 2147483646 = Some o /\ packets example !! o = Some s /\
  (next_packet example false true 500).1 = Some (outbound_retransmission example s) /\
  retransmissions (next_packet example false true 500).2 = [].
Proof.
  pose proof (next_packet_order example false true 500 example_reachable) as H.
  assert (E : List.filter (retransmission_live example) (retransmissions example) = [2147483646]) by (vm_compute; reflexivity).
  assert (El : retransmissions example = [2147483646]) by (vm_compute; reflexivity).
  rewrite E, El in H. destruct (next_packet example false true 500) as [out b'].
  destruct H as (o & s & skipped & H1 & H2 & _ & H4 & _ & H6 & _). exists o, s. split_and!; auto. cbn [snd].
  destruct skipped as [|y [|z l]]; cbn in H6; injection H6; intros; subst; auto; discriminate.
Defined.

(** * Too-late packet drop *)

(** The packet was first sent at or before the cutoff. *)
Definition too_late (cutoff : Z) (s : Slot) : bool := sent s && (first_send_microseconds s <=? cutoff).

(** [s] is a later fragment of the message [previous] belongs to. *)
Definition continues_message (previous s : Slot) : bool :=
  (message_number (header s) =? message_number (header previous))
  && (bool_decide (boundary (header s) = MessageBoundary.subsequent)
      || bool_decide (boundary (header s) = MessageBoundary.last)).

(** Whether the packet at offset [j] is abandoned with the ones before it. *)
Definition abandoned_at (cutoff : Z) (l : list Slot) (j : nat) : bool :=
  match l !! j with
  | None => false
  | Some s => occupied s && (too_late cutoff s ||
      match j with O => false | S i => continues_message (l !!! i) s end)
  end.

Lemma older_loop_spec cutoff b0 m0 : inv b0 m0 -> forall r last k bytes b,
  (k + r = sequence_span b0)%nat -> kept b0 b -> length (slots b) = length (slots b0) ->
  (forall o, (k <= o < sequence_span b0)%nat -> slot_at b o = slot_at b0 o) ->
  (forall i, k = S i -> last = message_number (header (packets b0 !!! i))) ->
  let '(n, total, _) := older_loop r cutoff last k bytes b in
  (k <= n <= sequence_span b0)%nat /\ (forall j, (k <= j < n)%nat -> abandoned_at cutoff (packets b0) j = true) /\
  abandoned_at cutoff (packets b0) n = false /\
  total = bytes + Z.of_nat (sumf plain (take (n - k) (drop k (packets b0)))).
Proof.
  intros Hinv. pose proof (length_packets _ _ Hinv) as Hlen.
  assert (Hstop : forall k bytes, (k <= sequence_span b0)%nat -> abandoned_at cutoff (packets b0) k = false ->
    (k <= k <= sequence_span b0)%nat /\ (forall j, (k <= j < k)%nat -> abandoned_at cutoff (packets b0) j = true) /\
    abandoned_at cutoff (packets b0) k = false /\ bytes = bytes + Z.of_nat (sumf plain (take (k - k) (drop k (packets b0))))).
  { intros k bytes Hk Ha. rewrite Nat.sub_diag. simpl. repeat split; try assumption; lia. }
  induction r as [|r IH]; intros last k bytes b Hk Hkept Hslots Hat Hlast; cbn [older_loop].
  { apply Hstop; [lia|]. unfold abandoned_at. rewrite lookup_ge_None_2 by lia. reflexivity. }
  pose proof (kept_capacity b0 b Hslots Hkept) as [Hcap Hphys]. pose proof (kp_span _ _ Hkept) as Hspan.
  rewrite Hspan, (proj2 (Nat.ltb_lt k (sequence_span b0))) by lia. cbv zeta.
  change (slots b !!! physical b k) with (slot_at b k). rewrite (Hat k) by lia.
  pose proof (slot_at_packets b0 m0 k Hinv ltac:(lia)) as Hp. set (s := slot_at b0 k) in *.
  assert (Hab : abandoned_at cutoff (packets b0) k = occupied s && (too_late cutoff s ||
    (negb (k =? 0)%nat && (message_number (header s) =? last) &&
     (bool_decide (boundary (header s) = MessageBoundary.subsequent) || bool_decide (boundary (header s) = MessageBoundary.last))))).
  { unfold abandoned_at. rewrite Hp. destruct k as [|i]; [simpl; rewrite orb_false_r; reflexivity|].
    rewrite (Hlast i) by reflexivity. reflexivity. }
  destruct (occupied s) eqn:Eo; simpl negb; cbv iota; [|apply Hstop; [lia|assumption]].
  set (c := negb (k =? 0)%nat && _ && _) in *.
  replace (negb (sent s) || (cutoff <? first_send_microseconds s)) with (negb (too_late cutoff s))
    by (unfold too_late; rewrite negb_andb, Z.ltb_antisym; reflexivity).
  destruct (negb c && negb (too_late cutoff s)) eqn:Ec.
  { apply Hstop; [lia|]. rewrite Hab. destruct c, (too_late cutoff s); try discriminate; reflexivity. }
  destruct (discard_kept (physical b k) false b) as [Hk1 Hs1]. set (b1 := discard_slot (physical b k) false b) in *.
  pose proof (inv_head _ _ Hinv) as Hh. pose proof (inv_span _ _ Hinv) as Hsp.
  specialize (IH (message_number (header s)) (k + 1)%nat (bytes + plaintext_size s) b1 ltac:(lia)).
  destruct (older_loop r cutoff _ _ _ b1) as [[n total] b2].
  destruct IH as (I1 & I2 & I3 & I4).
  - etransitivity; eassumption.
  - rewrite Hs1, length_insert. assumption.
  - intros o Ho. rewrite <- (Hat o) by lia. unfold slot_at. rewrite Hs1.
    assert (Hph1 : physical b1 o = physical b o).
    { apply (kept_capacity b b1); [rewrite Hs1; apply length_insert|assumption]. }
    rewrite Hph1. apply list_lookup_total_insert_ne. clear - Ho Hh Hsp Hphys. rewrite !Hphys. unfold physical, capacity in *.
    rewrite !ring_index by lia. 
    destruct (Nat.ltb_spec (head b0 + k) (length (slots b0))), (Nat.ltb_spec (head b0 + o) (length (slots b0))); lia.
  - intros i Hi. replace i with k by lia. rewrite (list_lookup_total_correct _ _ _ Hp). reflexivity.
  - split; [lia|]. split; [|split; [exact I3|]].
    + intros j Hj. destruct (decide (j = k)) as [->|]; [|apply I2; lia].
      rewrite Hab. destruct c, (too_late cutoff s); try discriminate; reflexivity.
    + rewrite I4. rewrite (drop_S _ s k) by assumption. replace (n - k)%nat with (S (n - (k + 1))) by lia.
      rewrite firstn_cons. cbn [sumf]. unfold plain at 2. rewrite Eo. replace (k + 1)%nat with (S k) by lia.
      assert (0 <= plaintext_size s); [|lia].
      pose proof (core_slots _ _ (inv_core _ _ Hinv)) as Hok. rewrite Forall_lookup in Hok.
      apply (Hok (physical b0 k)). apply list_lookup_lookup_total_lt, physical_lt. assumption.
Qed.

(** C15: The too-late drop abandons a prefix of the buffer, and exactly the right
    one: every abandoned packet was first sent at or before the cutoff or is a
    later fragment of the message abandoned just before it, and the packet after
    the prefix is neither.  The result reports the number of packets and
    plaintext bytes, and the surviving packets keep place, header and payload. *)
Theorem too_late_drop_prefix b cutoff : reachable b ->
  let '(result, b') := drop_messages_older_than b cutoff in
  let n := drop_packets result in
  (n <= length (packets b))%nat /\
  (forall j, (j < n)%nat -> abandoned_at cutoff (packets b) j = true) /\
  abandoned_at cutoff (packets b) n = false /\
  drop_bytes result = Z.of_nat (sumf plain (take n (packets b))) /\
  packets b' = drop n (packets b) /\
  (forall s, s ∈ packets b' -> occupied s = true -> outbound b' s = outbound b s).
Proof.
  intros Hr. destruct (reachable_inv b Hr) as [m Hinv].
  destruct (drop_older_inv b m cutoff Hinv) as (m' & Hsub & Hinv' & Hpk).
  assert (Hout : forall s, s ∈ packets (drop_messages_older_than b cutoff).2 -> occupied s = true ->
    outbound (drop_messages_older_than b cutoff).2 s = outbound b s).
  { intros s Hs Hocc. eapply same_payload; eauto. rewrite Hpk in Hs. eapply elem_of_sublist; [exact Hs|apply sublist_drop]. }
  assert (Hmain : let n := drop_packets (drop_messages_older_than b cutoff).1 in
    (n <= length (packets b))%nat /\ (forall j, (j < n)%nat -> abandoned_at cutoff (packets b) j = true) /\
    abandoned_at cutoff (packets b) n = false /\
    drop_bytes (drop_messages_older_than b cutoff).1 = Z.of_nat (sumf plain (take n (packets b)))).
  { pose proof (length_packets b m Hinv) as Hlen. clear Hout Hpk Hinv' Hsub. unfold drop_messages_older_than.
    assert (Hnone : abandoned_at cutoff (packets b) 0 = false -> (0 <= length (packets b))%nat /\
      (forall j, (j < 0)%nat -> abandoned_at cutoff (packets b) j = true) /\
      abandoned_at cutoff (packets b) 0 = false /\ 0 = Z.of_nat (sumf plain (take 0 (packets b)))).
    { intros Ha. repeat split; try assumption; simpl; lia. }
    destruct (Nat.eqb_spec (sequence_span b) 0) as [Hz|Hz].
    { apply Hnone. unfold abandoned_at. rewrite lookup_ge_None_2 by lia. reflexivity. }
    assert (Hfirst : slots b !!! head b = slot_at b 0).
    { unfold slot_at, physical. rewrite Nat.add_0_r, Nat.mod_small; [reflexivity|apply (inv_head _ _ Hinv)]. }
    rewrite Hfirst. destruct (negb (sent (slot_at b 0)) || _) eqn:E.
    { apply Hnone. unfold abandoned_at. rewrite (slot_at_packets b m 0 Hinv) by lia. rewrite orb_false_r.
      unfold too_late. rewrite Z.leb_antisym. destruct (sent _), (cutoff <? _); try discriminate; apply andb_false_r. }
    pose proof (older_loop_spec cutoff b m Hinv (sequence_span b) (message_number (header (slot_at b 0))) 0 0 b
      ltac:(lia) ltac:(reflexivity) eq_refl ltac:(reflexivity) ltac:(discriminate)) as H'.
    destruct (older_loop _ _ _ _ _ _) as [[n total] b1]. destruct H' as (H1 & H2 & H3 & H4).
    rewrite Nat.sub_0_r, drop_0 in H4.
    destruct (Nat.eqb_spec n 0) as [->|Hn]; cbn [fst drop_packets drop_bytes];
      (split; [lia|]); (split; [intros; apply H2; lia|]); split; auto; lia. }
  destruct (drop_messages_older_than b cutoff) as [result b']. cbv zeta in Hmain. cbn [fst snd] in *.
  destruct Hmain as (M1 & M2 & M3 & M4). auto 10.
Qed.

Lemma too_late_drop_prefix_witness :
  packets (drop_messages_older_than example 300).2 = drop 2 (packets example).
Proof.
  pose proof (too_late_drop_prefix example 300 example_reachable) as H.
  assert (E : drop_packets (drop_messages_older_than example 300).1 = 2%nat) by (vm_compute; reflexivity).
  destruct (drop_messages_older_than example 300) as [result b']. cbn [fst snd] in *.
  destruct H as (_ & _ & _ & _ & H & _). rewrite E in H. exact H.
Defined.

(** Compacting the retransmission ring in place keeps exactly the requests that
    still name a flagged packet, in their order, and touches no packet. *)
Theorem retransmission_queue_compaction b : reachable b ->
  retransmissions (compact_retransmission_queue b)
    = List.filter (retransmission_live b) (retransmissions b) /\
  slots (compact_retransmission_queue b) = slots b.
Proof.
  intros Hr. destruct (reachable_inv b Hr) as [m Hinv].
  split; [apply compact_retransmissions; eapply inv_queues; eassumption|].
  unfold compact_retransmission_queue. destruct (compact_loop _ _ _ _ _ _ _). reflexivity.
Qed.

Lemma retransmission_queue_compaction_witness :
  retransmissions (compact_retransmission_queue example) = [2147483646].
Proof.
  rewrite (proj1 (retransmission_queue_compaction example example_reachable)). vm_compute. reflexivity.
Defined.
