(* ===== verification/OccupiedIndex.v ===== *)
(** The hierarchical bit index of the receive buffer: one leaf bit per slot, and
    above it levels whose bits mark the nonempty 64-bit words below
    (constructor, [index_occupied], [next_occupied_bit] and
    [previous_storage_bit] of src/receive_buffer.cpp).  The counters of word reads
    that the tests pass are null in the library and are left out. *)
From S2P Require Import Prelude Sequence.

(** * Bit scans of the language's standard library on 64-bit words *)

Fixpoint countr_zero_from (fuel : nat) (i : nat) (word : Z) : nat :=
  match fuel with
  | O => i
  | S fuel => if Z.testbit word (Z.of_nat i) then i else countr_zero_from fuel (S i) word
  end.

(** [std::countr_zero] on [std::uint64_t]. *)
Definition countr_zero (word : Z) : nat := countr_zero_from 64 0 word.

(** [std::countl_zero] on [std::uint64_t]. *)
Definition countl_zero (word : Z) : nat :=
  if word =? 0 then 64%nat else (63 - Z.to_nat (Z.log2 word))%nat.

Module OccupiedIndex.

(** ** Layout *)

(** The constructor's loop; [offsets] is the used prefix of
    [occupied_level_offsets_], an array of five, and the result adds the total
    number of words.  A sixth level would be written past the array: [None]. *)
Fixpoint layout_loop (room : nat) (offsets : list nat) (words total_words : nat)
    : option (list nat * nat) :=
  match room with
  | O => None
  | S room =>
    let offsets := offsets ++ [total_words] in
    let total_words := (total_words + words)%nat in
    if (words =? 1)%nat then Some (offsets, total_words)
    else layout_loop room offsets ((words + 63) / 64)%nat total_words
  end.

Definition layout (capacity_packets : nat) : option (list nat * nat) :=
  layout_loop 5 [] ((capacity_packets + 63) / 64)%nat 0.

(** ** Operations on one hierarchy ([occupied_index_] or [storage_index_]) *)

(** The loop over the levels of [index_occupied]; [offsets] are the levels
    still to visit. *)
Fixpoint index_levels (offsets : list nat) (position : nat) (occupied : bool)
    (index : list Z) : list Z :=
  match offsets with
  | [] => index
  | offset :: rest =>
    let word_position := (position / 64)%nat in
    let word := index !!! (offset + word_position)%nat in
    let was_nonempty := negb (word =? 0) in
    let bit := Z.shiftl 1 (Z.of_nat (position mod 64)) in
    let word := if occupied then Z.lor word bit else Z.land word (u64 (Z.lnot bit)) in
    let index := <[(offset + word_position)%nat := word]> index in
    let nonempty := negb (word =? 0) in
    if Bool.eqb was_nonempty nonempty then index
    else index_levels rest word_position nonempty index
  end.

Fixpoint next_occupied_bit (offsets : list nat) (index : list Z) (begin_ end_ : nat)
    : option nat :=
  match offsets with
  | [] => None
  | offset :: rest =>
    if (end_ <=? begin_)%nat then None else
    let word_position := (begin_ / 64)%nat in
    let word := Z.land (index !!! (offset + word_position)%nat)
                  (u64 (Z.shiftl u64_max (Z.of_nat (begin_ mod 64)))) in
    if negb (word =? 0) then
      let found := (word_position * 64 + countr_zero word)%nat in
      if (found <? end_)%nat then Some found else None
    else if (length rest =? 0)%nat then None
    else
      match next_occupied_bit rest index (word_position + 1)%nat ((end_ + 63) / 64)%nat with
      | None => None
      | Some next_word =>
        let next := index !!! (offset + next_word)%nat in
        let found := (next_word * 64 + countr_zero next)%nat in
        if (found <? end_)%nat then Some found else None
      end
  end.

Fixpoint previous_storage_bit (offsets : list nat) (index : list Z) (begin_ end_ : nat)
    : option nat :=
  match offsets with
  | [] => None
  | offset :: rest =>
    if (end_ <=? begin_)%nat then None else
    let position := ((end_ - 1) / 64)%nat in
    let word := Z.land (index !!! (offset + position)%nat)
                  (Z.shiftr u64_max (63 - Z.of_nat ((end_ - 1) mod 64))) in
    if negb (word =? 0) then
      let found := (position * 64 + 63 - countl_zero word)%nat in
      if (begin_ <=? found)%nat then Some found else None
    else if (length rest =? 0)%nat then None
    else
      match previous_storage_bit rest index (begin_ / 64)%nat position with
      | None => None
      | Some previous =>
        let next := index !!! (offset + previous)%nat in
        let found := (previous * 64 + 63 - countl_zero next)%nat in
        if (begin_ <=? found)%nat then Some found else None
      end
  end.

(** ** The set an index stands for *)

Definition member (offset : nat) (index : list Z) (p : nat) : bool :=
  Z.testbit (index !!! (offset + p / 64)%nat) (Z.of_nat (p mod 64)).

(** [wf offsets index n]: the levels at [offsets] index [n] positions, lie one
    after the other inside [index], hold 64-bit words, end in a level of one
    word, and a bit above the first level is set exactly when its word is not
    zero. *)
Fixpoint wf (offsets : list nat) (index : list Z) (n : nat) : Prop :=
  match offsets with
  | [] => False
  | offset :: rest =>
    let words := ((n + 63) / 64)%nat in
    (offset + words <= length index)%nat /\
    (forall w, (w < words)%nat -> is_u64 (index !!! (offset + w)%nat)) /\
    match rest with
    | [] => words = 1%nat
    | above :: _ =>
      (offset + words <= above)%nat /\
      (forall w, (w < words)%nat ->
        member above index w = negb (index !!! (offset + w)%nat =? 0)) /\
      wf rest index words
    end
  end.

(** ** Reference scans *)

Definition first_in (f : nat -> bool) (b e : nat) : option nat := List.find f (seq b (e - b)).
Definition last_in (f : nat -> bool) (b e : nat) : option nat := List.find f (rev (seq b (e - b))).

Definition is_first (f : nat -> bool) (b e : nat) (r : option nat) : Prop :=
  match r with
  | Some p => (b <= p < e)%nat /\ f p = true /\ forall q, (b <= q < p)%nat -> f q = false
  | None => forall q, (b <= q < e)%nat -> f q = false
  end.

Definition is_last (f : nat -> bool) (b e : nat) (r : option nat) : Prop :=
  match r with
  | Some p => (b <= p < e)%nat /\ f p = true /\ forall q, (p < q < e)%nat -> f q = false
  | None => forall q, (b <= q < e)%nat -> f q = false
  end.

Lemma find_seq_first f n b : is_first f b (b + n) (List.find f (seq b n)).
Proof.
  revert b. induction n as [|n IH]; intros b; simpl; [intros q; lia|].
  destruct (f b) eqn:E; simpl; [repeat split; auto; lia|].
  specialize (IH (S b)). destruct (List.find f (seq (S b) n)) as [p|]; simpl in *.
  - destruct IH as (? & ? & Hq). repeat split; auto; try lia.
    intros q ?. destruct (decide (q = b)) as [->|]; [assumption|]. apply Hq. lia.
  - intros q ?. destruct (decide (q = b)) as [->|]; [assumption|]. apply IH. lia.
Qed.

Lemma find_seq_last f n b : is_last f b (b + n) (List.find f (rev (seq b n))).
Proof.
  induction n as [|n IH]; [intros q; lia|].
  rewrite seq_S, rev_unit. simpl. destruct (f (b + n)%nat) eqn:E; simpl; [repeat split; auto; lia|].
  destruct (List.find f (rev (seq b n))) as [p|]; simpl in *.
  - destruct IH as (? & ? & Hq). repeat split; auto; try lia.
    intros q ?. destruct (decide (q = b + n)%nat) as [->|]; [assumption|]. apply Hq. lia.
  - intros q ?. destruct (decide (q = b + n)%nat) as [->|]; [assumption|]. apply IH. lia.
Qed.

Lemma first_in_spec f b e : is_first f b e (first_in f b e).
Proof.
  unfold first_in. destruct (decide (b <= e)%nat).
  - pose proof (find_seq_first f (e - b) b) as H. replace (b + (e - b))%nat with e in H by lia. exact H.
  - replace (e - b)%nat with 0%nat by lia. intros q. lia.
Qed.

Lemma last_in_spec f b e : is_last f b e (last_in f b e).
Proof.
  unfold last_in. destruct (decide (b <= e)%nat).
  - pose proof (find_seq_last f (e - b) b) as H. replace (b + (e - b))%nat with e in H by lia. exact H.
  - replace (e - b)%nat with 0%nat by lia. intros q. lia.
Qed.

Lemma is_first_unique f b e r r' : is_first f b e r -> is_first f b e r' -> r = r'.
Proof.
  destruct r as [p|], r' as [p'|]; simpl; auto.
  - intros (? & H1 & ?) (? & H2 & ?). f_equal. destruct (Nat.lt_trichotomy p p') as [|[|]]; auto;
      [rewrite H4 in H1 by lia|rewrite H0 in H2 by lia]; discriminate.
  - intros (? & H1 & ?) H2. rewrite H2 in H1 by lia. discriminate.
  - intros H2 (? & H1 & ?). rewrite H2 in H1 by lia. discriminate.
Qed.

Lemma is_last_unique f b e r r' : is_last f b e r -> is_last f b e r' -> r = r'.
Proof.
  destruct r as [p|], r' as [p'|]; simpl; auto.
  - intros (? & H1 & ?) (? & H2 & ?). f_equal. destruct (Nat.lt_trichotomy p p') as [|[|]]; auto;
      [rewrite H0 in H2 by lia|rewrite H4 in H1 by lia]; discriminate.
  - intros (? & H1 & ?) H2. rewrite H2 in H1 by lia. discriminate.
  - intros H2 (? & H1 & ?). rewrite H2 in H1 by lia. discriminate.
Qed.

(** ** Words *)

Lemma countr_zero_from_spec word fuel i :
  (forall j, (j < i)%nat -> Z.testbit word (Z.of_nat j) = false) ->
  let c := countr_zero_from fuel i word in
  (c <= i + fuel)%nat /\
  (forall j, (j < c)%nat -> Z.testbit word (Z.of_nat j) = false) /\
  ((c < i + fuel)%nat -> Z.testbit word (Z.of_nat c) = true).
Proof.
  revert i. induction fuel as [|fuel IH]; intros i Hi; simpl.
  - repeat split; auto; lia.
  - destruct (Z.testbit word (Z.of_nat i)) eqn:E; [repeat split; auto; lia|].
    destruct (IH (S i)) as (I1 & I2 & I3).
    + intros j Hj. destruct (decide (j = i)) as [->|]; [assumption|]. apply Hi. lia.
    + repeat split; auto; [lia|]. intros. apply I3. lia.
Qed.

Lemma word_eq_0 word : is_u64 word ->
  (forall j, (j < 64)%nat -> Z.testbit word (Z.of_nat j) = false) -> word = 0.
Proof.
  intros Hw H. apply Z.bits_inj'. intros j Hj. rewrite Z.bits_0.
  destruct (Z.lt_ge_cases j 64).
  - rewrite <- (Z2Nat.id j) by lia. apply H. lia.
  - rewrite <- (Z.mod_small word (2 ^ 64)) by assumption. apply Z.mod_pow2_bits_high. lia.
Qed.

Lemma countr_zero_spec word : is_u64 word -> word <> 0 ->
  (countr_zero word < 64)%nat /\ Z.testbit word (Z.of_nat (countr_zero word)) = true /\
  forall j, (j < countr_zero word)%nat -> Z.testbit word (Z.of_nat j) = false.
Proof.
  intros Hw Hnz. destruct (countr_zero_from_spec word 64 0) as (I1 & I2 & I3); [lia|].
  fold (countr_zero word) in *. change (0 + 64)%nat with 64%nat in *.
  destruct (decide (countr_zero word = 64%nat)) as [E|].
  - contradict Hnz. apply word_eq_0; [assumption|]. rewrite <- E. assumption.
  - assert (countr_zero word < 64)%nat by lia. auto.
Qed.

Lemma countl_zero_spec word : is_u64 word -> word <> 0 ->
  let top := (63 - countl_zero word)%nat in
  (countl_zero word < 64)%nat /\ Z.testbit word (Z.of_nat top) = true /\
  forall j, (top < j)%nat -> Z.testbit word (Z.of_nat j) = false.
Proof.
  intros Hw Hnz. unfold countl_zero. rewrite (proj2 (Z.eqb_neq word 0)) by assumption. cbv zeta.
  unfold is_u64 in Hw.
  assert (0 <= Z.log2 word < 64) by (split; [apply Z.log2_nonneg|apply Z.log2_lt_pow2; lia]).
  replace (Z.of_nat (63 - (63 - Z.to_nat (Z.log2 word)))) with (Z.log2 word) by lia.
  split; [lia|]. split; [apply Z.bit_log2; lia|]. intros j Hj. apply Z.bits_above_log2; lia.
Qed.

Lemma zero_word_member offset index p :
  index !!! (offset + p / 64)%nat = 0 -> member offset index p = false.
Proof. intros H. unfold member. rewrite H. apply Z.bits_0. Qed.

Lemma u64_max_bits j : 0 <= j -> Z.testbit u64_max j = (j <? 64).
Proof.
  intros. change u64_max with (Z.ones 64). destruct (Z.ltb_spec j 64);
    [apply Z.ones_spec_low|apply Z.ones_spec_high]; lia.
Qed.

Lemma mask_from_bits k j : (j < 64)%nat ->
  Z.testbit (u64 (Z.shiftl u64_max (Z.of_nat k))) (Z.of_nat j) = (k <=? j)%nat.
Proof.
  intros. unfold u64. rewrite Z.mod_pow2_bits_low, Z.shiftl_spec by lia.
  destruct (Nat.leb_spec k j).
  - rewrite u64_max_bits by lia. apply Z.ltb_lt. lia.
  - apply Z.testbit_neg_r. lia.
Qed.

Lemma mask_upto_bits k j : (k < 64)%nat ->
  Z.testbit (Z.shiftr u64_max (63 - Z.of_nat k)) (Z.of_nat j) = (j <=? k)%nat.
Proof.
  intros. rewrite Z.shiftr_spec, u64_max_bits by lia.
  destruct (Nat.leb_spec j k); [apply Z.ltb_lt|apply Z.ltb_ge]; lia.
Qed.

Lemma land_u64 a b : is_u64 a -> 0 <= b -> is_u64 (Z.land a b).
Proof.
  intros Ha Hb. unfold is_u64 in *.
  assert (0 <= Z.land a b) by (apply Z.land_nonneg; lia). split; [assumption|].
  destruct (decide (Z.land a b = 0)) as [->|]; [lia|]. apply Z.log2_lt_pow2; [lia|].
  pose proof (Z.log2_land a b ltac:(lia) Hb).
  destruct (decide (a = 0)) as [->|]; [rewrite Z.land_0_l in *; lia|].
  assert (Z.log2 a < 64) by (apply Z.log2_lt_pow2; lia). lia.
Qed.

(** Position [p] is bit [p mod 64] of word [p / 64]. *)
Lemma split_position (p : nat) : (p = p / 64 * 64 + p mod 64 /\ p mod 64 < 64)%nat.
Proof. pose proof (Nat.div_mod p 64). pose proof (Nat.mod_upper_bound p 64). lia. Qed.

Lemma position_unique (w r : nat) : (r < 64)%nat -> ((w * 64 + r) / 64 = w /\ (w * 64 + r) mod 64 = r)%nat.
Proof.
  intros. split.
  - symmetry. apply (Nat.div_unique _ _ _ r); lia.
  - symmetry. apply (Nat.mod_unique _ _ w); lia.
Qed.

Lemma words_cover n p : (p < n)%nat -> (p / 64 < (n + 63) / 64)%nat.
Proof.
  intros. pose proof (split_position p). pose proof (split_position (n + 63)). lia.
Qed.

Lemma wf_above offset rest index n : wf (offset :: rest) index n -> rest <> [] ->
  (offset + (n + 63) / 64 <= hd 0 rest)%nat /\
  (forall w, (w < (n + 63) / 64)%nat ->
     member (hd 0%nat rest) index w = negb (index !!! (offset + w)%nat =? 0)) /\
  wf rest index ((n + 63) / 64).
Proof. intros (_ & _ & H) Hr. destruct rest; [congruence|]. exact H. Qed.

Lemma member_bit offset index w r : (r < 64)%nat ->
  member offset index (w * 64 + r) = Z.testbit (index !!! (offset + w)%nat) (Z.of_nat r).
Proof. intros. unfold member. destruct (position_unique w r) as [-> ->]; auto. Qed.

(** Membership below the lowest set bit of a word, or above its highest. *)
Lemma member_below offset index w q : is_u64 (index !!! (offset + w)%nat) ->
  index !!! (offset + w)%nat <> 0 -> (q / 64 = w)%nat ->
  (q < w * 64 + countr_zero (index !!! (offset + w)%nat))%nat -> member offset index q = false.
Proof.
  intros Hu Hnz <- Hq. destruct (countr_zero_spec _ Hu Hnz) as (_ & _ & H).
  unfold member. apply H. pose proof (split_position q). lia.
Qed.

Lemma member_above offset index w q : is_u64 (index !!! (offset + w)%nat) ->
  index !!! (offset + w)%nat <> 0 -> (q / 64 = w)%nat ->
  (w * 64 + 63 - countl_zero (index !!! (offset + w)%nat) < q)%nat -> member offset index q = false.
Proof.
  intros Hu Hnz <- Hq. destruct (countl_zero_spec _ Hu Hnz) as (? & _ & H).
  unfold member. apply H. pose proof (split_position q). lia.
Qed.

(** ** Scans equal the reference scans *)

Section one_level.
Context (offset : nat) (index : list Z) (b e : nat).
Local Abbreviation word w := (index !!! (offset + w)%nat).
Local Abbreviation nonempty := (fun w => negb (word w =? 0)).

(** A scan result at this level, from the lowest bit of a word. *)
Definition clip_below (found : nat) : option nat := if (found <? e)%nat then Some found else None.
Definition clip_above (found : nat) : option nat := if (b <=? found)%nat then Some found else None.

Lemma clip_below_first found : (b <= found)%nat -> member offset index found = true ->
  (forall q, (b <= q < found)%nat -> member offset index q = false) ->
  is_first (member offset index) b e (clip_below found).
Proof.
  intros. unfold clip_below. destruct (Nat.ltb_spec found e); simpl; [auto|]. intros q ?.
  apply H1. lia.
Qed.

Lemma clip_above_last found : (found < e)%nat -> member offset index found = true ->
  (forall q, (found < q < e)%nat -> member offset index q = false) ->
  is_last (member offset index) b e (clip_above found).
Proof.
  intros. unfold clip_above. destruct (Nat.leb_spec b found); simpl; [auto|]. intros q ?.
  apply H1. lia.
Qed.

Lemma empty_word w q : nonempty w = false -> (q / 64 = w)%nat -> member offset index q = false.
Proof. intros H <-. apply zero_word_member. apply negb_false_iff, Z.eqb_eq in H. assumption. Qed.

(** The masked word of the forward scan holds the members of [b]'s word from [b] on. *)
Lemma masked_from q : (q / 64 = b / 64)%nat -> (b <= q)%nat ->
  Z.testbit (Z.land (word (b / 64)) (u64 (Z.shiftl u64_max (Z.of_nat (b mod 64)))))
    (Z.of_nat (q mod 64)) = member offset index q.
Proof.
  intros Hq Hbq. pose proof (split_position q). pose proof (split_position b).
  unfold member. rewrite Hq, Z.land_spec, mask_from_bits by lia.
  rewrite (proj2 (Nat.leb_le _ _)) by lia. apply andb_true_r.
Qed.

(** The masked word of the backward scan holds them up to [e - 1]. *)
Lemma masked_upto q : (q / 64 = (e - 1) / 64)%nat -> (q < e)%nat ->
  Z.testbit (Z.land (word ((e - 1) / 64)) (Z.shiftr u64_max (63 - Z.of_nat ((e - 1) mod 64))))
    (Z.of_nat (q mod 64)) = member offset index q.
Proof.
  intros Hq Hqe. pose proof (split_position q). pose proof (split_position (e - 1)).
  unfold member. rewrite Hq, Z.land_spec, mask_upto_bits by lia.
  rewrite (proj2 (Nat.leb_le _ _)) by lia. apply andb_true_r.
Qed.

Lemma first_in_word : is_u64 (word (b / 64)) ->
  let masked := Z.land (word (b / 64)) (u64 (Z.shiftl u64_max (Z.of_nat (b mod 64)))) in
  masked <> 0 -> is_first (member offset index) b e (clip_below (b / 64 * 64 + countr_zero masked)).
Proof.
  intros Hu masked Hnz.
  assert (Hum : is_u64 masked) by (apply land_u64; [assumption|apply u64_range]).
  destruct (countr_zero_spec _ Hum Hnz) as (Hc1 & Hc2 & Hc3).
  assert (Hc : (b mod 64 <= countr_zero masked)%nat).
  { unfold masked at 1 in Hc2. rewrite Z.land_spec, mask_from_bits in Hc2 by assumption.
    apply andb_true_iff in Hc2 as [_ Hm]. apply Nat.leb_le in Hm. assumption. }
  pose proof (split_position b). destruct (position_unique (b / 64) _ Hc1) as [Hd Hm].
  apply clip_below_first; [lia| |].
  - rewrite <- masked_from by lia. rewrite Hm. exact Hc2.
  - intros q Hq. pose proof (split_position q).
    assert (b / 64 <= q / 64)%nat by (apply Nat.Div0.div_le_mono; lia).
    rewrite <- masked_from by lia. apply Hc3. lia.
Qed.

Lemma last_in_word : (0 < e)%nat -> is_u64 (word ((e - 1) / 64)) ->
  let masked := Z.land (word ((e - 1) / 64)) (Z.shiftr u64_max (63 - Z.of_nat ((e - 1) mod 64))) in
  masked <> 0 ->
  is_last (member offset index) b e (clip_above ((e - 1) / 64 * 64 + 63 - countl_zero masked)).
Proof.
  intros He Hu masked Hnz.
  assert (Hum : is_u64 masked)
    by (apply land_u64; [assumption|apply Z.shiftr_nonneg; unfold u64_max; lia]).
  destruct (countl_zero_spec _ Hum Hnz) as (Hc1 & Hc2 & Hc3). pose proof (split_position (e - 1)).
  set (top := (63 - countl_zero masked)%nat) in *.
  assert (Hc : (top <= (e - 1) mod 64)%nat).
  { unfold masked in Hc2. rewrite Z.land_spec, mask_upto_bits in Hc2 by lia.
    apply andb_true_iff in Hc2 as [_ Hm]. apply Nat.leb_le in Hm. assumption. }
  replace ((e - 1) / 64 * 64 + 63 - countl_zero masked)%nat with ((e - 1) / 64 * 64 + top)%nat by lia.
  destruct (position_unique ((e - 1) / 64) top) as [Hd Hm]; [lia|].
  apply clip_above_last; [lia| |].
  - rewrite <- masked_upto by lia. rewrite Hm. exact Hc2.
  - intros q Hq. pose proof (split_position q).
    assert (q / 64 <= (e - 1) / 64)%nat by (apply Nat.Div0.div_le_mono; lia).
    rewrite <- masked_upto by lia. apply Hc3. lia.
Qed.

(** When [b]'s word has no member from [b] on, the next nonempty word decides. *)
Lemma first_in_next_words r :
  (forall w, (w < (e + 63) / 64)%nat -> is_u64 (word w)) ->
  (forall q, (q / 64 = b / 64)%nat -> (b <= q)%nat -> member offset index q = false) ->
  is_first nonempty (b / 64 + 1) ((e + 63) / 64) r ->
  is_first (member offset index) b e
    (match r with None => None | Some w => clip_below (w * 64 + countr_zero (word w)) end).
Proof.
  intros Hu Hmiss. destruct r as [w|].
  - intros (Hrange & Hset & Hmin). apply negb_true_iff, Z.eqb_neq in Hset.
    specialize (Hu w ltac:(lia)). destruct (countr_zero_spec _ Hu Hset) as (Hc1 & Hc2 & _).
    pose proof (split_position b). apply clip_below_first; [lia|rewrite member_bit; assumption|].
    intros q Hq. assert (b / 64 <= q / 64)%nat by (apply Nat.Div0.div_le_mono; lia).
    assert (q / 64 <= w)%nat by (pose proof (split_position q); lia).
    destruct (decide (q / 64 = b / 64)%nat); [apply Hmiss; lia|].
    destruct (decide (q / 64 = w)%nat); [apply (member_below _ _ w); [assumption..|lia]|].
    apply (empty_word (q / 64)); [apply Hmin; lia|reflexivity].
  - intros Hnone q Hq. destruct (decide (q / 64 = b / 64)%nat); [apply Hmiss; lia|].
    assert (b / 64 <= q / 64)%nat by (apply Nat.Div0.div_le_mono; lia).
    apply (empty_word (q / 64)); [|reflexivity]. apply Hnone.
    pose proof (words_cover e q ltac:(lia)). lia.
Qed.

Lemma last_in_previous_words r : (0 < e)%nat ->
  (forall w, (w < (e + 63) / 64)%nat -> is_u64 (word w)) ->
  (forall q, (q / 64 = (e - 1) / 64)%nat -> (q < e)%nat -> member offset index q = false) ->
  is_last nonempty (b / 64) ((e - 1) / 64) r ->
  is_last (member offset index) b e
    (match r with None => None | Some w => clip_above (w * 64 + 63 - countl_zero (word w)) end).
Proof.
  intros He Hu Hmiss. pose proof (words_cover e (e - 1) ltac:(lia)). destruct r as [w|].
  - intros (Hrange & Hset & Hmax). apply negb_true_iff, Z.eqb_neq in Hset.
    specialize (Hu w ltac:(lia)). destruct (countl_zero_spec _ Hu Hset) as (Hc1 & Hc2 & _).
    pose proof (split_position (e - 1)). apply clip_above_last; [lia| |].
    + replace (w * 64 + 63 - countl_zero (word w))%nat with (w * 64 + (63 - countl_zero (word w)))%nat by lia.
      rewrite member_bit by lia. assumption.
    + intros q Hq. assert (q / 64 <= (e - 1) / 64)%nat by (apply Nat.Div0.div_le_mono; lia).
      assert (w <= q / 64)%nat by (pose proof (split_position q); lia).
      destruct (decide (q / 64 = (e - 1) / 64)%nat); [apply Hmiss; lia|].
      destruct (decide (q / 64 = w)%nat); [apply (member_above _ _ w); [assumption..|lia]|].
      apply (empty_word (q / 64)); [apply Hmax; lia|reflexivity].
  - intros Hnone q Hq. destruct (decide (q / 64 = (e - 1) / 64)%nat); [apply Hmiss; lia|].
    assert (q / 64 <= (e - 1) / 64)%nat by (apply Nat.Div0.div_le_mono; lia).
    assert (b / 64 <= q / 64)%nat by (apply Nat.Div0.div_le_mono; lia).
    apply (empty_word (q / 64)); [|reflexivity]. apply Hnone. lia.
Qed.
End one_level.

Lemma is_first_ext f g b e r : (forall q, (b <= q < e)%nat -> f q = g q) -> is_first f b e r -> is_first g b e r.
Proof.
  intros E. destruct r as [p|]; simpl.
  - intros (H1 & H2 & H3). split; [assumption|]. rewrite <- E by lia. split; [assumption|].
    intros q Hq. rewrite <- E by lia. auto.
  - intros H q Hq. rewrite <- E by lia. auto.
Qed.

Lemma is_last_ext f g b e r : (forall q, (b <= q < e)%nat -> f q = g q) -> is_last f b e r -> is_last g b e r.
Proof.
  intros E. destruct r as [p|]; simpl.
  - intros (H1 & H2 & H3). split; [assumption|]. rewrite <- E by lia. split; [assumption|].
    intros q Hq. rewrite <- E by lia. auto.
  - intros H q Hq. rewrite <- E by lia. auto.
Qed.

Lemma next_occupied_bit_spec offsets index n b e :
  wf offsets index n -> (e <= n)%nat ->
  is_first (member (hd 0%nat offsets) index) b e (next_occupied_bit offsets index b e).
Proof.
  revert n b e. induction offsets as [|offset rest IH]; intros n b e Hwf He; [destruct Hwf|].
  cbn [next_occupied_bit hd]. destruct (Nat.leb_spec e b); [intros q; lia|].
  pose proof Hwf as (_ & Hu & _). pose proof (words_cover n b ltac:(lia)) as Hb.
  assert (He' : ((e + 63) / 64 <= (n + 63) / 64)%nat) by (apply Nat.Div0.div_le_mono; lia).
  destruct (Z.eqb_spec (Z.land (index !!! (offset + b / 64)%nat)
    (u64 (Z.shiftl u64_max (Z.of_nat (b mod 64))))) 0) as [Hz|Hnz]; cbn [negb].
  2:{ apply first_in_word; auto. }
  assert (Hmiss : forall q, (q / 64 = b / 64)%nat -> (b <= q)%nat -> member offset index q = false).
  { intros q ? ?. rewrite <- (masked_from offset index b q) by assumption. rewrite Hz. apply Z.bits_0. }
  destruct (Nat.eqb_spec (length rest) 0) as [Hr|Hr].
  - destruct rest; [|discriminate]. destruct Hwf as (_ & _ & Hone). intros q Hq. apply Hmiss; [|lia].
    pose proof (words_cover n q ltac:(lia)). lia.
  - destruct (wf_above _ _ _ _ Hwf ltac:(destruct rest; [contradiction|discriminate])) as (_ & Hab & Hrest).
    apply first_in_next_words; [intros; apply Hu; lia|assumption|].
    eapply is_first_ext; [|apply (IH _ _ _ Hrest He')]. intros w Hw. apply Hab. lia.
Qed.

Lemma previous_storage_bit_spec offsets index n b e :
  wf offsets index n -> (e <= n)%nat ->
  is_last (member (hd 0%nat offsets) index) b e (previous_storage_bit offsets index b e).
Proof.
  revert n b e. induction offsets as [|offset rest IH]; intros n b e Hwf He; [destruct Hwf|].
  cbn [previous_storage_bit hd]. destruct (Nat.leb_spec e b); [intros q; lia|].
  pose proof Hwf as (_ & Hu & _). pose proof (words_cover n (e - 1) ltac:(lia)) as Hb.
  assert (He' : ((e + 63) / 64 <= (n + 63) / 64)%nat) by (apply Nat.Div0.div_le_mono; lia).
  destruct (Z.eqb_spec (Z.land (index !!! (offset + (e - 1) / 64)%nat)
    (Z.shiftr u64_max (63 - Z.of_nat ((e - 1) mod 64)))) 0) as [Hz|Hnz]; cbn [negb].
  2:{ apply last_in_word; auto; lia. }
  assert (Hmiss : forall q, (q / 64 = (e - 1) / 64)%nat -> (q < e)%nat -> member offset index q = false).
  { intros q ? ?. rewrite <- (masked_upto offset index e q) by assumption. rewrite Hz. apply Z.bits_0. }
  destruct (Nat.eqb_spec (length rest) 0) as [Hr|Hr].
  - destruct rest; [|discriminate]. destruct Hwf as (_ & _ & Hone). intros q Hq. apply Hmiss; [|lia].
    pose proof (words_cover n q ltac:(lia)). lia.
  - destruct (wf_above _ _ _ _ Hwf ltac:(destruct rest; [contradiction|discriminate])) as (_ & Hab & Hrest).
    apply last_in_previous_words; [lia|intros; apply Hu; lia|assumption|].
    eapply is_last_ext; [|apply (IH _ _ _ Hrest)]; [intros w Hw; apply Hab|]; lia.
Qed.

(** ** Updates *)

Lemma member_frame offset index index' n q : (q < n)%nat ->
  (forall i, (offset <= i < offset + (n + 63) / 64)%nat -> index' !!! i = index !!! i) ->
  member offset index' q = member offset index q.
Proof. intros Hq H. unfold member. rewrite H; [reflexivity|]. pose proof (words_cover n q Hq). lia. Qed.

(** Levels depend only on the words from their first offset on. *)
Lemma wf_frame offsets index index' n : wf offsets index n ->
  length index' = length index ->
  (forall i, (hd 0%nat offsets <= i)%nat -> index' !!! i = index !!! i) -> wf offsets index' n.
Proof.
  revert n. induction offsets as [|offset rest IH]; intros n Hwf Hlen Heq; [destruct Hwf|].
  simpl in *. destruct Hwf as (H1 & H2 & H3). split; [lia|]. split.
  - intros w Hw. rewrite Heq by lia. auto.
  - destruct rest as [|above rest]; [assumption|]. destruct H3 as (H3 & H4 & H5).
    split; [assumption|]. split.
    + intros w Hw. unfold member. rewrite !Heq by lia. apply H4. assumption.
    + apply IH; [assumption..|]. intros i Hi. apply Heq. simpl in Hi. lia.
Qed.

(** The new word of an update. *)
Definition new_word (word : Z) (r : nat) (occupied : bool) : Z :=
  let bit := Z.shiftl 1 (Z.of_nat r) in
  if occupied then Z.lor word bit else Z.land word (u64 (Z.lnot bit)).

Lemma bit_bits r j : Z.testbit (Z.shiftl 1 (Z.of_nat r)) (Z.of_nat j) = (j =? r)%nat.
Proof.
  rewrite Z.shiftl_1_l, Z.pow2_bits_eqb by lia.
  destruct (Nat.eqb_spec j r) as [->|]; [apply Z.eqb_refl|apply Z.eqb_neq; lia].
Qed.

Lemma new_word_bits word r occupied j : (r < 64)%nat -> (j < 64)%nat ->
  Z.testbit (new_word word r occupied) (Z.of_nat j) =
  if (j =? r)%nat then occupied else Z.testbit word (Z.of_nat j).
Proof.
  intros Hr Hj. unfold new_word. destruct occupied.
  - rewrite Z.lor_spec, bit_bits. destruct (j =? r)%nat; [apply orb_true_r|apply orb_false_r].
  - unfold u64. rewrite Z.land_spec, Z.mod_pow2_bits_low, Z.lnot_spec, bit_bits by lia.
    destruct (j =? r)%nat; [apply andb_false_r|apply andb_true_r].
Qed.

Lemma lor_u64 a b : is_u64 a -> is_u64 b -> is_u64 (Z.lor a b).
Proof.
  unfold is_u64. intros Ha Hb. assert (0 <= Z.lor a b) by (apply Z.lor_nonneg; lia).
  split; [assumption|]. destruct (decide (Z.lor a b = 0)) as [->|]; [lia|].
  apply Z.log2_lt_pow2; [lia|]. rewrite Z.log2_lor by lia.
  apply Z.max_lub_lt; [destruct (decide (a = 0)) as [->|]|destruct (decide (b = 0)) as [->|]];
    try (simpl; lia); apply Z.log2_lt_pow2; lia.
Qed.

Lemma new_word_u64 word r occupied : (r < 64)%nat -> is_u64 word -> is_u64 (new_word word r occupied).
Proof.
  intros Hr Hw. unfold new_word. destruct occupied.
  - apply lor_u64; [assumption|]. rewrite Z.shiftl_1_l. split; [apply Z.pow_nonneg; lia|].
    apply Z.pow_lt_mono_r; lia.
  - apply land_u64; [assumption|apply u64_range].
Qed.

(** The first level after its word has been written. *)
Lemma member_new_word offset index p q occupied :
  (offset + p / 64 < length index)%nat ->
  member offset (<[(offset + p / 64)%nat :=
    new_word (index !!! (offset + p / 64)%nat) (p mod 64) occupied]> index) q =
  if (q =? p)%nat then occupied else member offset index q.
Proof.
  intros Hlen. unfold member. pose proof (split_position p). pose proof (split_position q).
  destruct (decide (q / 64 = p / 64)%nat) as [Hw|Hw].
  - rewrite Hw, list_lookup_total_insert_eq, new_word_bits by lia.
    destruct (Nat.eqb_spec (q mod 64) (p mod 64)), (Nat.eqb_spec q p); auto; lia.
  - rewrite list_lookup_total_insert_ne by lia.
    destruct (Nat.eqb_spec q p) as [->|]; [congruence|reflexivity].
Qed.

(** The index after the word of [p] has been written at one level. *)
Definition write_word (offset : nat) (index : list Z) (p : nat) (occupied : bool) : list Z :=
  <[(offset + p / 64)%nat := new_word (index !!! (offset + p / 64)%nat) (p mod 64) occupied]> index.

Section write_word.
Context (offset n p : nat) (index : list Z) (occupied : bool).
Hypothesis Hlen : (offset + (n + 63) / 64 <= length index)%nat.
Hypothesis Hu : forall w, (w < (n + 63) / 64)%nat -> is_u64 (index !!! (offset + w)%nat).
Hypothesis Hp : (p < n)%nat.
Local Abbreviation index1 := (write_word offset index p occupied).

Lemma write_word_lookup w : index1 !!! (offset + w)%nat =
  if (w =? p / 64)%nat then new_word (index !!! (offset + p / 64)%nat) (p mod 64) occupied
  else index !!! (offset + w)%nat.
Proof.
  pose proof (words_cover n p Hp). unfold write_word. destruct (Nat.eqb_spec w (p / 64)) as [->|].
  - apply list_lookup_total_insert_eq. lia.
  - apply list_lookup_total_insert_ne. lia.
Qed.

Lemma write_word_other i : (i < offset \/ offset + (n + 63) / 64 <= i)%nat -> index1 !!! i = index !!! i.
Proof.
  intros. pose proof (words_cover n p Hp). apply list_lookup_total_insert_ne. lia.
Qed.

Lemma write_word_u64 w : (w < (n + 63) / 64)%nat -> is_u64 (index1 !!! (offset + w)%nat).
Proof.
  intros Hw. rewrite write_word_lookup. pose proof (words_cover n p Hp). pose proof (split_position p).
  destruct (w =? p / 64)%nat; [|auto]. apply new_word_u64; [lia|auto].
Qed.

Lemma write_word_member q :
  member offset index1 q = if (q =? p)%nat then occupied else member offset index q.
Proof. pose proof (words_cover n p Hp). apply member_new_word. lia. Qed.
End write_word.

Record updated (offsets : list nat) (n p : nat) (occupied : bool) (index index' : list Z) : Prop := {
  updated_wf : wf offsets index' n;
  updated_length : length index' = length index;
  updated_member : forall q, (q < n)%nat ->
    member (hd 0%nat offsets) index' q = if (q =? p)%nat then occupied else member (hd 0%nat offsets) index q;
  updated_frame : forall i, (i < hd 0 offsets)%nat -> index' !!! i = index !!! i;
}.

Lemma index_levels_spec offsets index n p occupied :
  wf offsets index n -> (p < n)%nat -> updated offsets n p occupied index (index_levels offsets p occupied index).
Proof.
  revert index n p occupied. induction offsets as [|offset rest IH]; intros index n p occupied Hwf Hp; [destruct Hwf|].
  pose proof Hwf as (Hlen & Hu & Habove). pose proof (words_cover n p Hp) as Hw.
  pose proof (write_word_lookup offset n p index occupied Hlen Hp) as Hw1.
  pose proof (write_word_other offset n p index occupied Hlen Hp) as Ho1.
  pose proof (write_word_u64 offset n p index occupied Hlen Hu Hp) as Hu1.
  pose proof (write_word_member offset n p index occupied Hlen Hp) as Hm1.
  assert (Hlen1 : length (write_word offset index p occupied) = length index) by apply length_insert.
  cbn [index_levels]. fold (new_word (index !!! (offset + p / 64)%nat) (p mod 64) occupied).
  fold (write_word offset index p occupied). set (index1 := write_word _ _ _ _) in *.
  set (word' := new_word _ _ _) in *. destruct rest as [|above rest'].
  - replace (if Bool.eqb _ _ then index1 else _) with index1 by (destruct (Bool.eqb _ _); reflexivity).
    split; cbn [hd wf]; auto. split; [lia|]. split; assumption.
  - destruct Habove as (Hab & Hrel & Hrest).
    assert (Hrest1 : wf (above :: rest') index1 ((n + 63) / 64)).
    { eapply wf_frame; [eassumption..|]. simpl. intros. apply Ho1. lia. }
    assert (Hrel1 : forall w, member above index1 w = member above index w).
    { intros. unfold member. rewrite Ho1 by lia. reflexivity. }
    destruct (Bool.eqb_spec (negb (index !!! (offset + p / 64)%nat =? 0)) (negb (word' =? 0))) as [Hsame|Hdiff].
    + split; auto. split; [lia|]. split; [assumption|]. split; [assumption|]. split; [|assumption].
      intros w Hw'. rewrite Hrel1, Hrel, Hw1 by assumption. destruct (Nat.eqb_spec w (p / 64)) as [->|]; auto.
    + destruct (IH index1 ((n + 63) / 64)%nat (p / 64)%nat (negb (word' =? 0)) Hrest1 Hw) as [U1 U2 U3 U4].
      set (index2 := index_levels _ _ _ _) in *. cbn [hd] in *.
      assert (Hw2 : forall w, (w < (n + 63) / 64)%nat -> index2 !!! (offset + w)%nat = index1 !!! (offset + w)%nat)
        by (intros; apply U4; lia).
      split; cbn [hd].
      * split; [lia|]. split; [intros w Hw'; rewrite Hw2 by assumption; auto|]. split; [assumption|].
        split; [|assumption]. intros w Hw'. rewrite U3, Hw2, Hw1, Hrel1 by assumption.
        destruct (Nat.eqb_spec w (p / 64)); auto.
      * lia.
      * intros q Hq. rewrite (member_frame offset index1 index2 n q Hq), Hm1; [reflexivity|].
        intros i Hi. replace i with (offset + (i - offset))%nat by lia. apply Hw2. lia.
      * intros i Hi. rewrite U4 by lia. apply Ho1. lia.
Qed.

(** ** The constructor's layout *)

Lemma lookup_total_zeros n i : (i < n)%nat -> replicate n 0 !!! i = 0.
Proof. intros. apply list_lookup_total_correct, lookup_replicate_2. assumption. Qed.

Lemma member_zeros offsets n size p : wf offsets (replicate size 0) n -> (p < n)%nat ->
  member (hd 0%nat offsets) (replicate size 0) p = false.
Proof.
  intros Hwf Hp. destruct offsets as [|offset rest]; [destruct Hwf|]. destruct Hwf as (Hl & _).
  rewrite length_replicate in Hl. pose proof (words_cover n p Hp).
  unfold member. cbn [hd]. rewrite lookup_total_zeros by lia. apply Z.bits_0.
Qed.

(** With room for [room] levels the loop ends, provided 64-way levels of at
    most [64 ^ (room - 1)] words fit, and the empty index is well formed. *)
Lemma layout_loop_spec room offsets words total :
  (1 <= words)%nat -> (words <= 64 ^ room)%nat ->
  exists tail total', layout_loop (S room) offsets words total = Some (offsets ++ tail, total') /\
    hd 0%nat tail = total /\ (total + words <= total')%nat /\ (length tail <= S room)%nat /\
    forall n size, ((n + 63) / 64 = words)%nat -> (total' <= size)%nat -> wf tail (replicate size 0) n.
Proof.
  revert offsets words total. induction room as [|room IH]; intros offsets words total H1 H2.
  - assert (words = 1)%nat as -> by (simpl in H2; lia). exists [total], (total + 1)%nat.
    split; [reflexivity|]. do 3 (split; [simpl; lia|]). intros n size Hn Hs. cbn [wf]. rewrite Hn, length_replicate.
    split; [lia|]. split; [|reflexivity]. intros w Hw. rewrite lookup_total_zeros by lia. split; lia.
  - remember (S room) as r eqn:Er. cbn [layout_loop]. destruct (Nat.eqb_spec words 1) as [->|Hne].
    + exists [total], (total + 1)%nat. split; [reflexivity|]. do 3 (split; [simpl; lia|]).
      intros n size Hn Hs. cbn [wf]. rewrite Hn, length_replicate. split; [lia|].
      split; [|reflexivity]. intros w Hw. rewrite lookup_total_zeros by lia. split; lia.
    + subst r. pose proof (split_position (words + 63)) as Hd.
      assert (Hp : (64 ^ S room = 64 * 64 ^ room)%nat) by reflexivity.
      destruct (IH (offsets ++ [total]) ((words + 63) / 64)%nat (total + words)%nat) as
        (tail & total' & E & Hhd & Ht & Hl & Hwf); [lia|nia|].
      exists (total :: tail), total'. rewrite E, <- app_assoc. split; [reflexivity|].
      do 3 (split; [simpl; lia|]). intros n size Hn Hs. specialize (Hwf words size eq_refl Hs).
      destruct tail as [|above tail]; [destruct Hwf|]. simpl in Hhd. subst above.
      remember (total + words)%nat as above eqn:Ea. cbn [wf]. rewrite Hn, length_replicate.
      split; [lia|]. split; [intros w Hw; rewrite lookup_total_zeros by lia; split; lia|].
      split; [lia|]. split; [|cbn [wf] in Hwf; rewrite length_replicate in Hwf; exact Hwf].
      intros w Hw. rewrite lookup_total_zeros by lia. apply (member_zeros (above :: tail) words); assumption.
Qed.

Lemma layout_spec capacity : (0 < capacity)%nat -> Z.of_nat capacity < SequenceNumber.half_range ->
  exists offsets total, layout capacity = Some (offsets, total) /\ (length offsets <= 5)%nat /\
    wf offsets (replicate total 0) capacity.
Proof.
  intros H1 H2. change SequenceNumber.half_range with (2 ^ 30) in H2.
  pose proof (split_position (capacity + 63)).
  assert (E64 : Z.of_nat (64 ^ 4) = 2 ^ 24) by (rewrite Nat2Z.inj_pow; reflexivity).
  destruct (layout_loop_spec 4 [] ((capacity + 63) / 64) 0) as (tail & total & E & _ & _ & Hl & Hwf); [lia| |].
  - remember (64 ^ 4)%nat as m eqn:Em. clear Em. lia.
  - exists tail, total. auto.
Qed.
End OccupiedIndex.

(** ** The index as a set of positions *)

Module OccupiedSet.
(** The updates applied to a fresh index, and the function they define. *)
Definition apply (offsets : list nat) (index : list Z) (update : nat * bool) : list Z :=
  OccupiedIndex.index_levels offsets update.1 update.2 index.
Definition set (f : nat -> bool) (update : nat * bool) : nat -> bool :=
  fun q => if (q =? update.1)%nat then update.2 else f q.

Lemma apply_all offsets index n f updates :
  OccupiedIndex.wf offsets index n ->
  (forall q, (q < n)%nat -> OccupiedIndex.member (hd 0%nat offsets) index q = f q) ->
  Forall (fun u => (u.1 < n)%nat) updates ->
  OccupiedIndex.wf offsets (fold_left (apply offsets) updates index) n /\
  forall q, (q < n)%nat ->
    OccupiedIndex.member (hd 0%nat offsets) (fold_left (apply offsets) updates index) q
    = fold_left set updates f q.
Proof.
  intros Hwf Hf Hall. revert index f Hwf Hf. induction Hall as [|[p o] updates Hu _ IH]; intros index f Hwf Hf; [auto|].
  simpl. destruct (OccupiedIndex.index_levels_spec offsets index n p o Hwf Hu) as [U1 _ U3 _].
  apply IH; [assumption|]. intros q Hq. unfold apply, set. simpl. rewrite U3, Hf by assumption. reflexivity.
Qed.
End OccupiedSet.

(** C21: The receive buffer's bit hierarchy is an exact index of the slots.  For every
    capacity the buffer accepts, its levels fit the five-entry table, and after any
    sequence of updates in range the forward and the backward search return what a
    linear scan of the slots would: the first, respectively the last, occupied
    position of the interval, or nothing when it has none. *)
Theorem occupied_index_scans (capacity : nat) (updates : list (nat * bool)) (b e : nat) :
  (0 < capacity)%nat -> Z.of_nat capacity < SequenceNumber.half_range ->
  Forall (fun u => (u.1 < capacity)%nat) updates -> (e <= capacity)%nat ->
  exists offsets total, OccupiedIndex.layout capacity = Some (offsets, total) /\ (length offsets <= 5)%nat /\
    let index := fold_left (OccupiedSet.apply offsets) updates (replicate total 0) in
    let occupied := fold_left OccupiedSet.set updates (fun _ => false) in
    OccupiedIndex.next_occupied_bit offsets index b e = OccupiedIndex.first_in occupied b e /\
    OccupiedIndex.previous_storage_bit offsets index b e = OccupiedIndex.last_in occupied b e.
Proof.
  intros H1 H2 Hu He. destruct (OccupiedIndex.layout_spec capacity H1 H2) as (offsets & total & E & Hl & Hwf).
  exists offsets, total. split; [assumption|]. split; [assumption|]. intros index occupied.
  destruct (OccupiedSet.apply_all offsets (replicate total 0) capacity (fun _ => false) updates Hwf) as [Hwf' Hm];
    [intros q Hq; eapply OccupiedIndex.member_zeros; eassumption|assumption|].
  split.
  - eapply OccupiedIndex.is_first_unique; [|apply OccupiedIndex.first_in_spec].
    eapply OccupiedIndex.is_first_ext; [|eapply OccupiedIndex.next_occupied_bit_spec; eassumption].
    intros q Hq. apply Hm. lia.
  - eapply OccupiedIndex.is_last_unique; [|apply OccupiedIndex.last_in_spec].
    eapply OccupiedIndex.is_last_ext; [|eapply OccupiedIndex.previous_storage_bit_spec; eassumption].
    intros q Hq. apply Hm. lia.
Qed.

Lemma occupied_index_scans_witness :
  exists offsets total, OccupiedIndex.layout 200 = Some (offsets, total) /\
    let index := fold_left (OccupiedSet.apply offsets) [(70%nat, true); (150%nat, true); (70%nat, false)]
                   (replicate total 0) in
    OccupiedIndex.next_occupied_bit offsets index 3 200 = Some 150%nat /\
    OccupiedIndex.previous_storage_bit offsets index 0 150 = None.
Proof.
  pose proof (occupied_index_scans 200 [(70%nat, true); (150%nat, true); (70%nat, false)]) as H.
  assert (Hu : Forall (fun u : nat * bool => (u.1 < 200)%nat) [(70%nat, true); (150%nat, true); (70%nat, false)])
    by (repeat constructor; cbn [fst]; lia).
  destruct (H 3%nat 200%nat ltac:(lia) eq_refl Hu ltac:(lia)) as (offsets & total & E & _ & H1 & _).
  destruct (H 0%nat 150%nat ltac:(lia) eq_refl Hu ltac:(lia)) as (offsets' & total' & E' & _ & _ & H2).
  rewrite E in E'. injection E' as <- <-. exists offsets, total. split; [assumption|].
  split; [rewrite H1|rewrite H2]; vm_compute; reflexivity.
Defined.
