(* ===== verification/RejectedMessages.v ===== *)
(** The set of rejected message numbers of the receive buffer: a compressed
    binary trie in a preallocated array of nodes with a free list
    ([RejectedMessageNode], [message_rejected], [add_rejected_message] and
    [remove_rejected_message] of receive_buffer.hpp and receive_buffer.cpp). *)
From stdpp Require Import gmap.
From S2P Require Import Prelude.

#[local] Set Warnings "-clear-no-such-hyp".

Module RejectedMessages.

(** A node index is a position of the array; [no_rejected_node] is [None]. *)
Record Node := {
  children : option nat * option nat;
  message : Z;
  count : Z;
  bit : Z;
}.

(** [std::vector<RejectedMessageNode>] value-initialises its nodes. *)
Definition default_node : Node :=
  {| children := (Some 0%nat, Some 0%nat); message := 0; count := 0; bit := 32 |}.
#[export] Instance node_inhabited : Inhabited Node := populate default_node.

Definition child (e : Node) (direction : Z) : option nat :=
  if direction =? 0 then e.(children).1 else e.(children).2.
Definition set_child (direction : Z) (v : option nat) (e : Node) : Node :=
  {| children := if direction =? 0 then (v, e.(children).2) else (e.(children).1, v);
     message := message e; count := count e; bit := bit e |}.
Definition set_count (c : Z) (e : Node) : Node :=
  {| children := children e; message := message e; count := c; bit := bit e |}.

Record t := {
  nodes : list Node;
  root : option nat;
  free : option nat;
}.

(** The constructor links all nodes into the free list. *)
Definition make (capacity_packets : nat) : t :=
  let size := (capacity_packets * 2)%nat in
  {| nodes := (fun i => set_child 0 (if (i + 1 <? size)%nat then Some (i + 1)%nat else None) default_node)
                <$> seq 0 size;
     root := None; free := Some 0%nat |}.

(** [(message >> bit) & 1U]. *)
Definition direction_of (m : Z) (b : Z) : Z := Z.land (Z.shiftr m b) 1.

(** Branch bits decrease on every path, so 33 nodes is the longest one. *)
Definition depth : nat := 33.

Fixpoint rejected_from (fuel : nat) (ns : list Node) (node : option nat) (m : Z) : bool :=
  match fuel, node with
  | S fuel, Some node =>
    let entry := ns !!! node in
    if bit entry =? 32 then message entry =? m
    else rejected_from fuel ns (child entry (direction_of m (bit entry))) m
  | _, _ => false
  end.

Definition message_rejected (s : t) (m : Z) : bool := rejected_from depth (nodes s) (root s) m.

(** The first loop of [add_rejected_message]. *)
Fixpoint find_leaf (fuel : nat) (ns : list Node) (node : option nat) (m : Z) : option nat :=
  match fuel, node with
  | S fuel, Some n =>
    let entry := ns !!! n in
    if bit entry =? 32 then node
    else find_leaf fuel ns (child entry (direction_of m (bit entry))) m
  | _, _ => node
  end.

(** A [std::uint32_t*] into the structure. *)
Inductive link :=
| root_link
| child_link (node : nat) (direction : Z).

Definition deref (s : t) (l : link) : option nat :=
  match l with
  | root_link => root s
  | child_link node direction => child (nodes s !!! node) direction
  end.

Definition assign (s : t) (l : link) (v : option nat) : t :=
  match l with
  | root_link => {| nodes := nodes s; root := v; free := free s |}
  | child_link node direction =>
    {| nodes := <[node := set_child direction v (nodes s !!! node)]> (nodes s);
       root := root s; free := free s |}
  end.

Definition write (s : t) (i : nat) (e : Node) : t :=
  {| nodes := <[i := e]> (nodes s); root := root s; free := free s |}.
Definition set_free (s : t) (v : option nat) : t :=
  {| nodes := nodes s; root := root s; free := v |}.

(** The second loop of [add_rejected_message]. *)
Fixpoint find_link (fuel : nat) (s : t) (l : link) (m : Z) (b : Z) : link :=
  match fuel, deref s l with
  | S fuel, Some n =>
    let entry := nodes s !!! n in
    if negb (bit entry =? 32) && (b <? bit entry)
    then find_link fuel s (child_link n (direction_of m (bit entry))) m b
    else l
  | _, _ => l
  end.

(** [std::countl_zero] on [std::uint32_t]. *)
Definition countl_zero32 (w : Z) : Z := if w =? 0 then 32 else 31 - Z.log2 w.

(** The array holds twice as many nodes as packets fit the buffer, so the free
    list is never empty here; the impossible case leaves the state alone. *)
Definition take_node (s : t) : option (nat * t) :=
  match free s with
  | Some i => Some (i, set_free s (child (nodes s !!! i) 0))
  | None => None
  end.

Definition add_leaf (s : t) (node : option nat) (m : Z) : t :=
  match take_node s with
  | None => s
  | Some (leaf, s) =>
    let s := write s leaf {| children := (Some 0%nat, Some 0%nat); message := m; count := 1; bit := 32 |} in
    match node with
    | None => assign s root_link (Some leaf)
    | Some node =>
      let b := 31 - countl_zero32 (Z.lxor m (message (nodes s !!! node))) in
      let l := find_link depth s root_link m b in
      match take_node s with
      | None => s
      | Some (branch, s) =>
        let s := write s branch {| children := (Some 0%nat, Some 0%nat); message := 0; count := 0; bit := b |} in
        let direction := direction_of m b in
        let s := assign s (child_link branch direction) (Some leaf) in
        let s := assign s (child_link branch (Z.lxor direction 1)) (deref s l) in
        assign s l (Some branch)
      end
    end
  end.

Definition add_rejected_message (s : t) (m : Z) : t :=
  let node := find_leaf depth (nodes s) (root s) m in
  match node with
  | Some n =>
    let entry := nodes s !!! n in
    if message entry =? m then write s n (set_count (u32 (count entry + 1)) entry)
    else add_leaf s node m
  | None => add_leaf s node m
  end.

(** The loop of [remove_rejected_message]: the link to the leaf, and the branch
    above it with the link to that branch. *)
Fixpoint find_parent (fuel : nat) (s : t) (l : link) (parent : option (link * nat * Z)) (m : Z)
    : link * option (link * nat * Z) :=
  match fuel, deref s l with
  | S fuel, Some n =>
    let entry := nodes s !!! n in
    if bit entry =? 32 then (l, parent)
    else
      let direction := direction_of m (bit entry) in
      find_parent fuel s (child_link n direction) (Some (l, n, direction)) m
  | _, _ => (l, parent)
  end.

Definition give_node (s : t) (i : nat) : t :=
  set_free (assign s (child_link i 0) (free s)) (Some i).

(** [remove_rejected_message] after the slot's flag has been cleared. *)
Definition remove_rejected_message (s : t) (m : Z) : t :=
  let '(l, parent) := find_parent depth s root_link None m in
  match deref s l with
  | None => s
  | Some leaf =>
    let entry := nodes s !!! leaf in
    let c := u32 (count entry - 1) in
    let s := write s leaf (set_count c entry) in
    if negb (c =? 0) then s
    else
      let s :=
        match parent with
        | None => assign s root_link None
        | Some (parent_link, parent, direction) =>
          let s := assign s parent_link (child (nodes s !!! parent) (Z.lxor direction 1)) in
          give_node s parent
        end in
      give_node s leaf
  end.

(** ** The tree the nodes hold *)

Inductive tree :=
| Leaf (i : nat) (m : Z) (c : nat)
| Branch (i : nat) (b : Z) (l r : tree).

Definition idx (t : tree) : nat := match t with Leaf i _ _ => i | Branch i _ _ _ => i end.
Fixpoint idxs (t : tree) : list nat :=
  match t with Leaf i _ _ => [i] | Branch i _ l r => i :: idxs l ++ idxs r end.
Fixpoint msgs (t : tree) : list Z :=
  match t with Leaf _ m _ => [m] | Branch _ _ l r => msgs l ++ msgs r end.
Fixpoint total (t : tree) : nat :=
  match t with Leaf _ _ c => c | Branch _ _ l r => (total l + total r)%nat end.
Fixpoint cnt (t : tree) (m : Z) : nat :=
  match t with
  | Leaf _ n c => if m =? n then c else 0%nat
  | Branch _ _ l r => (cnt l m + cnt r m)%nat
  end.

(** The leaf a message number leads to. *)
Fixpoint route (t : tree) (m : Z) : nat * Z * nat :=
  match t with
  | Leaf i n c => (i, n, c)
  | Branch _ b l r => if Z.testbit m b then route r m else route l m
  end.

Fixpoint repr (ns : list Node) (t : tree) : Prop :=
  match t with
  | Leaf i m c => (i < length ns)%nat /\ message (ns !!! i) = m /\ count (ns !!! i) = Z.of_nat c /\
                  bit (ns !!! i) = 32
  | Branch i b l r => (i < length ns)%nat /\ bit (ns !!! i) = b /\
                      children (ns !!! i) = (Some (idx l), Some (idx r)) /\ repr ns l /\ repr ns r
  end.

(** Branch bits decrease; below a branch all numbers agree above its bit, and the
    bit itself tells the sides apart. *)
Fixpoint wft (t : tree) (hi : Z) : Prop :=
  match t with
  | Leaf _ m c => is_u32 m /\ (0 < c)%nat
  | Branch _ b l r =>
    0 <= b < hi /\ wft l b /\ wft r b /\
    (forall x, x ∈ msgs l -> Z.testbit x b = false) /\
    (forall x, x ∈ msgs r -> Z.testbit x b = true) /\
    (forall x y, x ∈ msgs l ++ msgs r -> y ∈ msgs l ++ msgs r ->
       forall j, b < j -> Z.testbit x j = Z.testbit y j)
  end.

Lemma wft_mono t lo hi : lo <= hi -> wft t lo -> wft t hi.
Proof. destruct t; simpl; [tauto|]. intros ? (? & ?). split; [lia|assumption]. Qed.

Lemma direction_of_testbit m b : 0 <= b -> direction_of m b = Z.b2z (Z.testbit m b).
Proof.
  intros. unfold direction_of. rewrite Z.testbit_spec' by assumption.
  rewrite (Z.land_ones _ 1), Z.shiftr_div_pow2 by lia. reflexivity.
Qed.

Lemma child_b2z e d : child e (Z.b2z d) = if d then (children e).2 else (children e).1.
Proof. destruct d; reflexivity. Qed.
Lemma child_other e d : child e (Z.lxor (Z.b2z d) 1) = if d then (children e).1 else (children e).2.
Proof. destruct d; reflexivity. Qed.

Lemma repr_frame ns ns' t : repr ns t -> length ns' = length ns ->
  (forall i, i ∈ idxs t -> ns' !!! i = ns !!! i) -> repr ns' t.
Proof.
  induction t as [i m c|i b l IHl r IHr]; simpl; intros H Hlen Heq.
  - rewrite Hlen, Heq by (apply list_elem_of_singleton; reflexivity). exact H.
  - rewrite Hlen, Heq by (apply list_elem_of_here). destruct H as (H1 & H2 & H3 & H4 & H5).
    split_and!; try assumption; [apply IHl|apply IHr]; auto; intros; apply Heq; set_solver.
Qed.

Lemma repr_range ns t i : repr ns t -> i ∈ idxs t -> (i < length ns)%nat.
Proof.
  induction t as [j m c|j b l IHl r IHr]; cbn [repr idxs]; intros H Hi.
  - apply list_elem_of_singleton in Hi as ->. apply H.
  - destruct H as (H1 & _ & _ & H4 & H5). apply elem_of_cons in Hi as [->|Hi]; [assumption|].
    apply elem_of_app in Hi as [Hi|Hi]; auto.
Qed.

Lemma idx_in t : idx t ∈ idxs t.
Proof. destruct t; simpl; set_solver. Qed.
Lemma route_in t m : (route t m).1.1 ∈ idxs t.
Proof. induction t as [|i b l IHl r IHr]; simpl; [set_solver|]. destruct (Z.testbit m b); set_solver. Qed.
Lemma route_msg t m : (route t m).1.2 ∈ msgs t.
Proof. induction t as [|i b l IHl r IHr]; simpl; [set_solver|]. destruct (Z.testbit m b); set_solver. Qed.

Lemma repr_route ns t m : repr ns t ->
  let '(i, n, c) := route t m in
  (i < length ns)%nat /\ message (ns !!! i) = n /\ count (ns !!! i) = Z.of_nat c /\ bit (ns !!! i) = 32.
Proof.
  induction t as [i n c|i b l IHl r IHr]; simpl; [tauto|]. intros (? & ? & ? & ? & ?).
  destruct (Z.testbit m b); [apply IHr|apply IHl]; assumption.
Qed.

Lemma cnt_absent t m : m ∉ msgs t -> cnt t m = 0%nat.
Proof.
  induction t as [i n c|i b l IHl r IHr]; simpl; intros H.
  - destruct (Z.eqb_spec m n); [set_solver|reflexivity].
  - rewrite IHl, IHr by set_solver. reflexivity.
Qed.

(** The route decides membership: a number is counted only at its leaf. *)
Lemma cnt_route t m hi : wft t hi ->
  let '(_, n, c) := route t m in cnt t m = if m =? n then c else 0%nat.
Proof.
  revert hi. induction t as [i n c|i b l IHl r IHr]; simpl; intros hi H; [reflexivity|].
  destruct H as (_ & Hl & Hr & Sl & Sr & _). destruct (Z.testbit m b) eqn:E.
  - rewrite (cnt_absent l) by (intros Hm; rewrite (Sl _ Hm) in E; discriminate). exact (IHr _ Hr).
  - rewrite (cnt_absent r) by (intros Hm; rewrite (Sr _ Hm) in E; discriminate).
    rewrite Nat.add_0_r. exact (IHl _ Hl).
Qed.

Lemma route_pos t m hi : wft t hi -> (0 < (route t m).2)%nat /\ is_u32 (route t m).1.2.
Proof.
  revert hi. induction t as [i n c|i b l IHl r IHr]; simpl; intros hi H; [tauto|].
  destruct H as (_ & Hl & Hr & _). destruct (Z.testbit m b); eauto.
Qed.

(** ** Lookup *)

Lemma repr_step ns i b l r m : repr ns (Branch i b l r) -> 0 <= b < 32 ->
  (bit (ns !!! i) =? 32) = false /\
  child (ns !!! i) (direction_of m (bit (ns !!! i))) = Some (idx (if Z.testbit m b then r else l)).
Proof.
  intros (_ & Hb & Hc & _) Hr. rewrite Hb. split; [apply Z.eqb_neq; lia|].
  rewrite direction_of_testbit, child_b2z, Hc by lia. destruct (Z.testbit m b); reflexivity.
Qed.

Lemma rejected_from_spec ns t m hi fuel : repr ns t -> wft t hi -> hi <= 32 -> hi < Z.of_nat fuel ->
  0 <= hi -> rejected_from fuel ns (Some (idx t)) m = ((route t m).1.2 =? m).
Proof.
  revert hi fuel. induction t as [i n c|i b l IHl r IHr]; intros hi fuel Hrep Hwf H1 H2 H3;
    (destruct fuel as [|fuel]; [lia|]); cbn [rejected_from idx].
  - destruct Hrep as (_ & Hm & _ & Hb). rewrite Hb, Hm. reflexivity.
  - destruct (Hwf) as (Hb & Hl & Hr & _). destruct (repr_step ns i b l r m Hrep ltac:(lia)) as [E1 E2].
    rewrite E1, E2. destruct Hrep as (_ & _ & _ & Rl & Rr). cbn [route].
    destruct (Z.testbit m b); [apply (IHr b)|apply (IHl b)]; auto; lia.
Qed.

Lemma find_leaf_spec ns t m hi fuel : repr ns t -> wft t hi -> hi <= 32 -> hi < Z.of_nat fuel ->
  0 <= hi -> find_leaf fuel ns (Some (idx t)) m = Some (route t m).1.1.
Proof.
  revert hi fuel. induction t as [i n c|i b l IHl r IHr]; intros hi fuel Hrep Hwf H1 H2 H3;
    (destruct fuel as [|fuel]; [lia|]); cbn [find_leaf idx].
  - destruct Hrep as (_ & _ & _ & Hb). rewrite Hb. reflexivity.
  - destruct (Hwf) as (Hb & Hl & Hr & _). destruct (repr_step ns i b l r m Hrep ltac:(lia)) as [E1 E2].
    rewrite E1, E2. destruct Hrep as (_ & _ & _ & Rl & Rr). cbn [route].
    destruct (Z.testbit m b); [apply (IHr b)|apply (IHl b)]; auto; lia.
Qed.

(** ** Updates of the tree *)

(** Replace the count at the leaf of [m]. *)
Fixpoint recount (t : tree) (m : Z) (c' : nat) : tree :=
  match t with
  | Leaf i n _ => Leaf i n c'
  | Branch i b l r =>
    if Z.testbit m b then Branch i b l (recount r m c') else Branch i b (recount l m c') r
  end.

Definition join (t : tree) (m b : Z) (leaf branch : nat) : tree :=
  if Z.testbit m b then Branch branch b t (Leaf leaf m 1) else Branch branch b (Leaf leaf m 1) t.

Fixpoint tins (t : tree) (m b : Z) (leaf branch : nat) : tree :=
  match t with
  | Leaf _ _ _ => join t m b leaf branch
  | Branch i b' l r =>
    if b <? b' then
      if Z.testbit m b' then Branch i b' l (tins r m b leaf branch)
      else Branch i b' (tins l m b leaf branch) r
    else join t m b leaf branch
  end.

Fixpoint tdel (t : tree) (m : Z) : option tree :=
  match t with
  | Leaf _ _ _ => None
  | Branch i b l r =>
    if Z.testbit m b
    then Some (match tdel r m with None => l | Some r' => Branch i b l r' end)
    else Some (match tdel l m with None => r | Some l' => Branch i b l' r end)
  end.

Lemma recount_idx t m c' : idx (recount t m c') = idx t /\ idxs (recount t m c') = idxs t /\
  msgs (recount t m c') = msgs t.
Proof.
  induction t as [|i b l IHl r IHr]; simpl; [auto|].
  destruct (Z.testbit m b); simpl; [destruct IHr as (_ & -> & ->)|destruct IHl as (_ & -> & ->)]; auto.
Qed.

Lemma recount_wf t m c' hi : (0 < c')%nat -> wft t hi -> wft (recount t m c') hi.
Proof.
  intros Hc. revert hi. induction t as [i n c|i b l IHl r IHr]; simpl; intros hi H; [tauto|].
  destruct (recount_idx l m c') as (_ & _ & El). destruct (recount_idx r m c') as (_ & _ & Er).
  destruct H as (H1 & H2 & H3 & H4 & H5 & H6).
  destruct (Z.testbit m b); simpl; rewrite ?El, ?Er; split_and!; auto; lia.
Qed.

Lemma recount_cnt t m c' x hi : wft t hi ->
  (cnt (recount t m c') x + (if (x =? (route t m).1.2)%Z then (route t m).2 else 0) =
   cnt t x + (if (x =? (route t m).1.2)%Z then c' else 0))%nat.
Proof.
  revert hi. induction t as [i n c|i b l IHl r IHr]; intros hi H.
  - simpl. destruct (x =? n); lia.
  - destruct H as (_ & H2 & H3 & _). simpl. destruct (Z.testbit m b); simpl;
      [specialize (IHr _ H3)|specialize (IHl _ H2)]; lia.
Qed.

Lemma recount_total t m c' : (total (recount t m c') + (route t m).2 = total t + c')%nat.
Proof. induction t as [i n c|i b l IHl r IHr]; simpl; [lia|]. destruct (Z.testbit m b); simpl; lia. Qed.

Lemma join_idxs t m b leaf branch : idxs (join t m b leaf branch) ≡ₚ leaf :: branch :: idxs t.
Proof. unfold join. destruct (Z.testbit m b); simpl; [rewrite Permutation_app_comm; simpl|]; apply Permutation_swap. Qed.

Lemma tins_idxs t m b leaf branch : idxs (tins t m b leaf branch) ≡ₚ leaf :: branch :: idxs t.
Proof.
  induction t as [i n c|i b' l IHl r IHr]; simpl; [apply join_idxs|].
  destruct (b <? b'); [|apply join_idxs].
  destruct (Z.testbit m b'); simpl; [rewrite IHr|rewrite IHl]; solve_Permutation.
Qed.

Lemma tins_msgs t m b leaf branch : msgs (tins t m b leaf branch) ≡ₚ m :: msgs t.
Proof.
  assert (Hj : forall t, msgs (join t m b leaf branch) ≡ₚ m :: msgs t).
  { intros u. unfold join. destruct (Z.testbit m b); simpl; [|reflexivity].
    rewrite Permutation_app_comm. reflexivity. }
  induction t as [i n c|i b' l IHl r IHr]; simpl; [apply Hj|]. destruct (b <? b'); [|apply Hj].
  destruct (Z.testbit m b'); simpl; [rewrite IHr|rewrite IHl]; solve_Permutation.
Qed.

Lemma tins_cnt t m b leaf branch x :
  cnt (tins t m b leaf branch) x = (cnt t x + if (x =? m)%Z then 1 else 0)%nat.
Proof.
  assert (Hj : forall t, cnt (join t m b leaf branch) x = (cnt t x + if (x =? m)%Z then 1 else 0)%nat).
  { intros u. unfold join. destruct (Z.testbit m b); simpl; lia. }
  induction t as [i n c|i b' l IHl r IHr]; simpl; [apply Hj|]. destruct (b <? b'); [|rewrite Hj; reflexivity].
  destruct (Z.testbit m b'); simpl; lia.
Qed.

Lemma tins_total t m b leaf branch : total (tins t m b leaf branch) = S (total t).
Proof.
  assert (Hj : forall t, total (join t m b leaf branch) = S (total t)).
  { intros u. unfold join. destruct (Z.testbit m b); simpl; lia. }
  induction t as [i n c|i b' l IHl r IHr]; simpl; [apply Hj|]. destruct (b <? b'); [|rewrite Hj; reflexivity].
  destruct (Z.testbit m b'); simpl; lia.
Qed.

(** [b] is the highest bit in which [m] and [n] differ. *)
Definition splits (m n b : Z) : Prop :=
  0 <= b /\ Z.testbit m b <> Z.testbit n b /\ forall j, b < j -> Z.testbit m j = Z.testbit n j.

Lemma join_wf t m n b hi leaf branch : is_u32 m -> wft t (b + 1) -> b < hi -> splits m n b ->
  (forall x, x ∈ msgs t -> forall j, b <= j -> Z.testbit x j = Z.testbit n j) ->
  (match t with Branch _ b' _ _ => b' < b | _ => True end) ->
  wft (join t m b leaf branch) hi.
Proof.
  intros Hm Hwf Hb (H0 & Hd & Ha) Hx Hbb.
  assert (Hwf' : wft t b). { destruct t; simpl in *; [assumption|]. destruct Hwf as (? & ?). split; [lia|assumption]. }
  assert (Hall : forall x, x ∈ m :: msgs t -> forall j, b < j -> Z.testbit x j = Z.testbit n j).
  { intros x Hin j Hj. apply elem_of_cons in Hin as [->|Hin]; [auto|]. apply Hx; [assumption|lia]. }
  assert (Hside : forall x, x ∈ msgs t -> Z.testbit x b = negb (Z.testbit m b)).
  { intros x Hin. rewrite (Hx x Hin b) by lia. destruct (Z.testbit m b), (Z.testbit n b); auto; congruence. }
  unfold join. destruct (Z.testbit m b) eqn:E; simpl; split_and!; auto; try lia.
  - intros x Hin. apply list_elem_of_singleton in Hin as ->. assumption.
  - intros x y Hin1 Hin2 j Hj. rewrite (Hall x), (Hall y) by (try assumption; set_solver). reflexivity.
  - intros x Hin. apply list_elem_of_singleton in Hin as ->. assumption.
  - intros x y Hin1 Hin2 j Hj. rewrite (Hall x), (Hall y) by (try assumption; set_solver). reflexivity.
Qed.

Lemma tins_wf t m b hi leaf branch : is_u32 m -> wft t hi -> b < hi -> splits m (route t m).1.2 b ->
  wft (tins t m b leaf branch) hi.
Proof.
  intros Hm. revert hi. induction t as [i n c|i b' l IHl r IHr]; intros hi Hwf Hb Hs.
  - cbn [tins]. eapply join_wf; eauto. intros x Hin. apply list_elem_of_singleton in Hin as ->. reflexivity.
  - cbn [tins]. pose proof Hwf as (H1 & H2 & H3 & H4 & H5 & H6). pose proof (route_msg (Branch i b' l r) m) as Hn.
    set (n := (route (Branch i b' l r) m).1.2) in *. destruct (Z.ltb_spec b b') as [Hlt|Hge].
    + assert (Hall : forall x, x ∈ m :: msgs l ++ msgs r -> forall j, b' < j -> Z.testbit x j = Z.testbit n j).
      { intros x Hin j Hj. apply elem_of_cons in Hin as [->|Hin]; [apply Hs; lia|apply (H6 x n); assumption]. }
      unfold n in Hs. cbn [route] in Hs. destruct (Z.testbit m b') eqn:E; cbn [wft]; split_and!; auto; try lia.
      * intros x. rewrite tins_msgs. intros [->|Hx]%elem_of_cons; auto.
      * intros x y. rewrite tins_msgs. intros Hx Hy j Hj. rewrite (Hall x), (Hall y) by (try assumption; set_solver). reflexivity.
      * intros x. rewrite tins_msgs. intros [->|Hx]%elem_of_cons; auto.
      * intros x y. rewrite tins_msgs. intros Hx Hy j Hj. rewrite (Hall x), (Hall y) by (try assumption; set_solver). reflexivity.
    + assert (Hne : b' <> b).
      { intros ->. destruct Hs as (_ & Hd & _). apply Hd. unfold n. cbn [route].
        destruct (Z.testbit m b) eqn:E; symmetry; [apply H5|apply H4]; apply route_msg. }
      apply (join_wf _ m n); auto; [|intros x Hx j Hj; apply (H6 x n); auto; lia|lia].
      cbn [wft]. split_and!; auto; lia.
Qed.

Lemma xor_splits m n : is_u32 m -> is_u32 n -> m <> n ->
  let b := 31 - countl_zero32 (Z.lxor m n) in splits m n b /\ b < 32.
Proof.
  intros Hm Hn Hne. unfold countl_zero32. assert (Hx : Z.lxor m n <> 0) by (rewrite Z.lxor_eq_0_iff; assumption).
  rewrite (proj2 (Z.eqb_neq _ _) Hx). cbv zeta.
  replace (31 - (31 - Z.log2 (Z.lxor m n))) with (Z.log2 (Z.lxor m n)) by lia.
  unfold is_u32 in *. assert (0 <= Z.lxor m n) by (apply Z.lxor_nonneg; lia).
  assert (Hlog : forall k, 0 <= k < 2 ^ 32 -> Z.log2 k < 32).
  { intros k Hk. destruct (decide (k = 0)) as [->|]; [simpl; lia|]. apply Z.log2_lt_pow2; lia. }
  pose proof (Z.log2_lxor m n ltac:(lia) ltac:(lia)). pose proof (Hlog m Hm). pose proof (Hlog n Hn).
  split; [|lia]. split; [apply Z.log2_nonneg|]. split.
  - intros E. pose proof (Z.bit_log2 (Z.lxor m n) ltac:(lia)) as Hb.
    rewrite Z.lxor_spec, E, xorb_nilpotent in Hb. discriminate.
  - intros j Hj. pose proof (Z.bits_above_log2 (Z.lxor m n) j ltac:(lia) Hj) as Hb.
    rewrite Z.lxor_spec in Hb. apply xorb_eq. assumption.
Qed.

(** The branch above the leaf of [m]. *)
Fixpoint parent_idx (t : tree) (m : Z) : nat :=
  match t with
  | Leaf i _ _ => i
  | Branch i b l r =>
    match (if Z.testbit m b then r else l) with
    | Leaf _ _ _ => i
    | Branch _ _ _ _ as s => if Z.testbit m b then parent_idx r m else parent_idx l m
    end
  end.

Lemma tdel_leaf t m : tdel t m = None -> exists i n c, t = Leaf i n c.
Proof. destruct t; simpl; [eauto|]. destruct (Z.testbit m b); discriminate. Qed.

Lemma tdel_idxs t m t' : tdel t m = Some t' ->
  idxs t ≡ₚ (route t m).1.1 :: parent_idx t m :: idxs t'.
Proof.
  revert t'. induction t as [i n c|i b l IHl r IHr]; intros t' H; [discriminate|]. simpl in *.
  destruct (Z.testbit m b).
  - injection H as <-. destruct (tdel r m) as [r'|] eqn:E.
    + destruct r as [|i' b' l' r'']; [discriminate|]. rewrite (IHr _ eq_refl). simpl. solve_Permutation.
    + apply tdel_leaf in E as (? & ? & ? & ->). simpl. solve_Permutation.
  - injection H as <-. destruct (tdel l m) as [l'|] eqn:E.
    + destruct l as [|i' b' l'' r'']; [discriminate|]. rewrite (IHl _ eq_refl). simpl. solve_Permutation.
    + apply tdel_leaf in E as (? & ? & ? & ->). simpl. solve_Permutation.
Qed.

Lemma tdel_msgs t m t' x : tdel t m = Some t' -> x ∈ msgs t' -> x ∈ msgs t.
Proof.
  revert t'. induction t as [i n c|i b l IHl r IHr]; intros t' H; [discriminate|]. simpl in *.
  destruct (Z.testbit m b); injection H as <-.
  - destruct (tdel r m) as [r'|] eqn:E; simpl; [specialize (IHr _ eq_refl)|]; set_solver.
  - destruct (tdel l m) as [l'|] eqn:E; simpl; [specialize (IHl _ eq_refl)|]; set_solver.
Qed.

Lemma tdel_wf t m t' hi : wft t hi -> tdel t m = Some t' -> wft t' hi.
Proof.
  revert t' hi. induction t as [i n c|i b l IHl r IHr]; intros t' hi Hwf H; [discriminate|].
  destruct Hwf as (H1 & H2 & H3 & H4 & H5 & H6). simpl in *. destruct (Z.testbit m b); injection H as <-.
  - destruct (tdel r m) as [r'|] eqn:E; [|apply (wft_mono l b); [lia|assumption]].
    assert (Hs := tdel_msgs r m r'). simpl. split_and!; eauto; try lia.
    intros x y Hx Hy. apply H6; set_solver.
  - destruct (tdel l m) as [l'|] eqn:E; [|apply (wft_mono r b); [lia|assumption]].
    assert (Hs := tdel_msgs l m l'). simpl. split_and!; eauto; try lia.
    intros x y Hx Hy. apply H6; set_solver.
Qed.

Lemma tdel_cnt t m t' x : tdel t m = Some t' ->
  (cnt t' x + (if (x =? (route t m).1.2)%Z then (route t m).2 else 0) = cnt t x)%nat /\
  (total t' + (route t m).2 = total t)%nat.
Proof.
  revert t'. induction t as [i n c|i b l IHl r IHr]; intros t' H; [discriminate|]. simpl in *.
  destruct (Z.testbit m b); injection H as <-.
  - destruct (tdel r m) as [r'|] eqn:E; simpl.
    + destruct (IHr _ eq_refl). lia.
    + apply tdel_leaf in E as (? & ? & ? & ->). simpl. lia.
  - destruct (tdel l m) as [l'|] eqn:E; simpl.
    + destruct (IHl _ eq_refl). lia.
    + apply tdel_leaf in E as (? & ? & ? & ->). simpl. lia.
Qed.

(** ** The nodes follow the tree *)

Definition link_node (l : link) : option nat :=
  match l with root_link => None | child_link i _ => Some i end.

(** A link into a node outside [t], with a direction of 0 or 1. *)
Definition outside (l : link) (size : nat) (used : list nat) : Prop :=
  match l with root_link => True | child_link i d => (i < size)%nat /\ (i ∉ used) /\ (d = 0 \/ d = 1) end.

Lemma assign_length s l v : length (nodes (assign s l v)) = length (nodes s).
Proof. destruct l; simpl; [reflexivity|]. apply length_insert. Qed.

Lemma assign_other s l v i : link_node l <> Some i -> nodes (assign s l v) !!! i = nodes s !!! i.
Proof.
  destruct l as [|j d]; simpl; [reflexivity|]. intros. apply list_lookup_total_insert_ne. congruence.
Qed.

Lemma deref_assign s l v used : outside l (length (nodes s)) used -> deref (assign s l v) l = v.
Proof.
  destruct l as [|i d]; simpl; [reflexivity|]. intros (Hi & _ & Hd). rewrite list_lookup_total_insert_eq by assumption.
  destruct Hd as [->| ->]; reflexivity.
Qed.

Lemma repr_recount ns t m c : repr ns t -> NoDup (idxs t) ->
  let i := (route t m).1.1 in
  repr (<[i := set_count (Z.of_nat c) (ns !!! i)]> ns) (recount t m c).
Proof.
  induction t as [i n c0|i b l IHl r IHr]; intros Hrep Hnd; cbv zeta.
  - destruct Hrep as (H1 & H2 & H3 & H4). cbn [route recount repr fst]. rewrite length_insert.
    rewrite list_lookup_total_insert_eq by assumption. auto.
  - pose proof Hrep as (H1 & H2 & H3 & H4 & H5). cbn [idxs] in Hnd.
    apply NoDup_cons in Hnd as [Hi Hnd]. apply NoDup_app in Hnd as (N1 & N2 & N3).
    cbn [route recount]. destruct (Z.testbit m b).
    + pose proof (route_in r m) as Hin. specialize (IHr H5 N3). cbv zeta in IHr.
      cbn [repr]. rewrite length_insert, list_lookup_total_insert_ne by set_solver.
      rewrite (proj1 (recount_idx r m c)). split_and!; auto.
      eapply repr_frame; [exact H4|apply length_insert|]. intros j Hj. apply list_lookup_total_insert_ne. set_solver.
    + pose proof (route_in l m) as Hin. specialize (IHl H4 N1). cbv zeta in IHl.
      cbn [repr]. rewrite length_insert, list_lookup_total_insert_ne by set_solver.
      rewrite (proj1 (recount_idx l m c)). split_and!; auto.
      eapply repr_frame; [exact H5|apply length_insert|]. intros j Hj. apply list_lookup_total_insert_ne. set_solver.
Qed.

(** Only the child that [l] denotes differs between [e] and [e']. *)
Definition same_but (l : link) (s2 s3 : t) : Prop :=
  match l with
  | root_link => True
  | child_link i d => root s3 = root s2 /\
                      nodes s3 !!! i = set_child d (child (nodes s3 !!! i) d) (nodes s2 !!! i)
  end.

(** What replacing the subtree at [L] (over the nodes [used]) does to a state. *)
Record replaced (L : link) (used : list nat) (s2 s3 : t) (t' : tree) : Prop := {
  replaced_repr : repr (nodes s3) t';
  replaced_deref : deref s3 L = Some (idx t');
  replaced_frame : forall i, i ∉ used -> link_node L <> Some i -> nodes s3 !!! i = nodes s2 !!! i;
  replaced_link : same_but L s2 s3;
  replaced_free : free s3 = free s2;
  replaced_length : length (nodes s3) = length (nodes s2);
}.

Lemma set_child_same e (d : bool) : set_child (Z.b2z d) (child e (Z.b2z d)) e = e.
Proof. destruct e as [[c0 c1] m c b], d; reflexivity. Qed.

Lemma replaced_at_link L used s2 t' : outside L (length (nodes s2)) (idxs t') -> repr (nodes s2) t' ->
  replaced L used s2 (assign s2 L (Some (idx t'))) t'.
Proof.
  intros Ho Hr. split.
  - eapply repr_frame; [exact Hr|apply assign_length|]. intros i Hi. apply assign_other.
    destruct L; simpl in *; [discriminate|]. intros [= ->]. tauto.
  - eapply deref_assign. exact Ho.
  - intros i _ Hi. apply assign_other. assumption.
  - destruct L as [|i d]; simpl in *; [trivial|]. destruct Ho as (H1 & _ & Hd). split; [reflexivity|].
    rewrite list_lookup_total_insert_eq by assumption. destruct Hd as [->| ->]; reflexivity.
  - destruct L; reflexivity.
  - apply assign_length.
Qed.

(** The subtree on the side of [m], and the tree with that side replaced. *)
Definition side (m b : Z) (l r : tree) : tree := if Z.testbit m b then r else l.
Definition with_side (m b : Z) (i : nat) (l r s' : tree) : tree :=
  if Z.testbit m b then Branch i b l s' else Branch i b s' r.

(** Replacing a side of a branch replaces the branch's tree. *)
Lemma replaced_up L s2 s3 m b i l r s' : 0 <= b < 32 ->
  replaced (child_link i (Z.b2z (Z.testbit m b))) (idxs (side m b l r)) s2 s3 s' ->
  repr (nodes s2) (Branch i b l r) -> NoDup (idxs (Branch i b l r)) ->
  deref s2 L = Some i -> outside L (length (nodes s2)) (idxs (Branch i b l r)) ->
  replaced L (idxs (Branch i b l r)) s2 s3 (with_side m b i l r s').
Proof.
  intros Hb [R1 R2 R3 R4 R5 R6] (H1 & H2 & H3 & H4 & H5) Hnd HL Ho. cbn [idxs] in *.
  apply NoDup_cons in Hnd as [Hi Hnd]. apply NoDup_app in Hnd as (N1 & N2 & N3). destruct R4 as [Rroot Rnode].
  assert (Hsub : forall j, j ∈ idxs (side m b l r) -> j ∈ idxs l ++ idxs r)
    by (unfold side; destruct (Z.testbit m b); set_solver).
  assert (Hsame : forall j, j ∉ i :: idxs l ++ idxs r -> nodes s3 !!! j = nodes s2 !!! j).
  { intros j Hj. apply R3; [set_solver|]. simpl. set_solver. }
  assert (Hkeep : forall u, u = (if Z.testbit m b then l else r) -> repr (nodes s3) u).
  { intros u ->. apply (repr_frame (nodes s2)); [destruct (Z.testbit m b); assumption|assumption|].
    intros j Hj. unfold side in R3. apply R3; [|simpl]; destruct (Z.testbit m b); set_solver. }
  assert (HLnode : deref s3 L = deref s2 L).
  { destruct L as [|j d]; simpl in *; [assumption|]. rewrite Hsame; [reflexivity|]. tauto. }
  cbn [deref] in R2. rewrite R2 in Rnode. split; try assumption.
  - unfold with_side. destruct (Z.testbit m b); cbn [repr]; rewrite R6, Rnode; simpl;
      rewrite H2, H3; split_and!; auto.
  - rewrite HLnode, HL. unfold with_side. destruct (Z.testbit m b); reflexivity.
  - intros j Hj _. auto.
  - destruct L as [|j d]; simpl in *; [trivial|]. destruct Ho as (_ & Hj & Hd). rewrite Hsame by assumption.
    split; [assumption|]. destruct Hd as [->| ->]; symmetry; [apply (set_child_same _ false)|apply (set_child_same _ true)].
Qed.

(** ** Insertion *)

Lemma tins_side i b' l r m b leaf branch : b < b' ->
  tins (Branch i b' l r) m b leaf branch = with_side m b' i l r (tins (side m b' l r) m b leaf branch).
Proof.
  intros. cbn [tins]. rewrite (proj2 (Z.ltb_lt _ _)) by assumption. unfold with_side, side.
  destruct (Z.testbit m b'); reflexivity.
Qed.

Lemma find_link_insert t m b leaf branch s s2 : forall fuel hi L,
  repr (nodes s) t -> wft t hi -> hi <= 32 -> 0 <= hi < Z.of_nat fuel -> NoDup (idxs t) -> 0 <= b ->
  deref s L = Some (idx t) -> deref s2 L = Some (idx t) ->
  outside L (length (nodes s)) (leaf :: branch :: idxs t) -> leaf ∉ idxs t -> branch ∉ idxs t ->
  length (nodes s2) = length (nodes s) -> (forall i, i ∈ idxs t -> nodes s2 !!! i = nodes s !!! i) ->
  repr (nodes s2) (Leaf leaf m 1) -> (branch < length (nodes s2))%nat -> bit (nodes s2 !!! branch) = b ->
  (let l := find_link fuel s L m b in
   children (nodes s2 !!! branch) =
     (if Z.testbit m b then (deref s l, Some leaf) else (Some leaf, deref s l)) ->
   replaced L (idxs t) s2 (assign s2 l (Some branch)) (tins t m b leaf branch)).
Proof.
  induction t as [i n c|i b' l IHl r IHr]; intros fuel hi L Hrep Hwf Hhi Hfuel Hnd Hb HL HL2 Ho Hleaf Hbr Hlen Heq Hlf Hbl Hbb.
  - destruct fuel as [|fuel]; [lia|]. cbn [find_link]. rewrite HL. cbn [idx].
    assert (E : bit (nodes s !!! i) = 32) by apply Hrep. rewrite E. cbn [negb andb Z.eqb Pos.eqb]. intros Hc.
    rewrite HL in Hc. cbn [tins].
    replace branch with (idx (join (Leaf i n c) m b leaf branch)) at 1 by (unfold join; destruct (Z.testbit m b); reflexivity).
    apply replaced_at_link.
    + rewrite Hlen. destruct L; simpl in *; [trivial|]. split_and!; try tauto. rewrite join_idxs. tauto.
    + assert (repr (nodes s2) (Leaf i n c)) by (eapply repr_frame; eassumption).
      unfold join. destruct (Z.testbit m b); cbn [repr]; rewrite Hc; split_and!; auto; apply Hlf || apply H.
  - destruct Hwf as (H1 & H2 & H3 & _). destruct fuel as [|fuel]; [lia|]. cbn [find_link].
    rewrite HL. cbn [idx].
    destruct (repr_step (nodes s) i b' l r m Hrep ltac:(lia)) as [E1 E2].
    assert (Eb : bit (nodes s !!! i) = b') by apply Hrep. rewrite E1, Eb. cbn [negb andb].
    assert (Hrep2 : repr (nodes s2) (Branch i b' l r)) by (eapply repr_frame; eassumption).
    destruct (Z.ltb_spec b b') as [Hlt|Hge].
    + rewrite tins_side by assumption. rewrite Eb in E2. rewrite direction_of_testbit in * by lia.
      intros Hc. eapply replaced_up; eauto; [lia| |rewrite Hlen; destruct L; simpl in *; set_solver].
      assert (Hs : side m b' l r = l \/ side m b' l r = r) by (unfold side; destruct (Z.testbit m b'); auto).
      cbn [idxs] in *. apply NoDup_cons in Hnd as [Hi Hnd]. apply NoDup_app in Hnd as (N1 & N2 & N3).
      destruct Hrep as (R1 & R2 & R3 & R4 & R5).
      assert (Hd2 : child (nodes s2 !!! i) (Z.b2z (Z.testbit m b')) = Some (idx (side m b' l r)))
        by (rewrite Heq by set_solver; exact E2).
      assert (Ho' : outside (child_link i (Z.b2z (Z.testbit m b'))) (length (nodes s)) (leaf :: branch :: idxs (side m b' l r))).
      { simpl. split; [assumption|]. split; [destruct Hs as [-> | ->]; set_solver|].
        destruct (Z.testbit m b'); auto. }
      fold (side m b' l r) in E2.
      destruct Hs as [E|E]; rewrite E in *; [apply (IHl fuel b')|apply (IHr fuel b')];
        try assumption; try lia; try set_solver.
    + intros Hc. rewrite HL in Hc. cbn [tins]. rewrite (proj2 (Z.ltb_ge b b')) by assumption.
      replace branch with (idx (join (Branch i b' l r) m b leaf branch)) at 1
        by (unfold join; destruct (Z.testbit m b); reflexivity).
      apply replaced_at_link.
      * rewrite Hlen. destruct L; simpl in *; [trivial|]. split_and!; try tauto. rewrite join_idxs. tauto.
      * unfold join. destruct (Z.testbit m b); cbn [repr idx] in *; rewrite Hc; split_and!; auto; apply Hlf || apply Hrep2.
Qed.

(** ** Removal *)

Fixpoint bits_ok (t : tree) (hi : Z) : Prop :=
  match t with Leaf _ _ _ => True | Branch _ b l r => 0 <= b < hi /\ bits_ok l b /\ bits_ok r b end.

Lemma wft_bits_ok t hi : wft t hi -> bits_ok t hi.
Proof. revert hi. induction t; simpl; [trivial|]. intros hi (? & ? & ? & _). auto. Qed.
Lemma recount_bits_ok t m c hi : bits_ok t hi -> bits_ok (recount t m c) hi.
Proof. revert hi. induction t; simpl; [trivial|]. intros hi (? & ? & ?). destruct (Z.testbit m b); simpl; auto. Qed.

Lemma find_parent_ext s s' m : root s' = root s ->
  (forall i, bit (nodes s' !!! i) = bit (nodes s !!! i) /\ children (nodes s' !!! i) = children (nodes s !!! i)) ->
  forall fuel l p, find_parent fuel s' l p m = find_parent fuel s l p m.
Proof.
  intros Hr H. induction fuel as [|fuel IH]; intros l p; [reflexivity|]. cbn [find_parent].
  assert (E : deref s' l = deref s l).
  { destruct l as [|i d]; simpl; [assumption|]. unfold child. rewrite (proj2 (H i)). reflexivity. }
  rewrite E. destruct (deref s l); [|reflexivity]. rewrite (proj1 (H n)), IH. reflexivity.
Qed.

(** The removed tree as a change of one side. *)
Lemma tdel_side i b l r m :
  tdel (Branch i b l r) m =
  Some (match tdel (side m b l r) m with
        | None => if Z.testbit m b then l else r
        | Some s' => with_side m b i l r s'
        end).
Proof. cbn [tdel]. unfold side, with_side. destruct (Z.testbit m b); destruct (tdel _ m); reflexivity. Qed.

(** What the loop finds below a link to [u], and what unlinking there does. *)
Definition finds_parent (s : t) (m : Z) (u : tree) : Prop :=
  forall fuel hi L p,
  repr (nodes s) u -> bits_ok u hi -> hi <= 32 -> 0 <= hi < Z.of_nat fuel -> NoDup (idxs u) ->
  deref s L = Some (idx u) -> outside L (length (nodes s)) (idxs u) ->
  match tdel u m with
  | None => find_parent fuel s L p m = (L, p)
  | Some t' => exists PL d, let pi := parent_idx u m in
      find_parent fuel s L p m = (child_link pi (Z.b2z d), Some (PL, pi, Z.b2z d)) /\
      deref s (child_link pi (Z.b2z d)) = Some (route u m).1.1 /\
      replaced L (idxs u) s (assign s PL (child (nodes s !!! pi) (Z.lxor (Z.b2z d) 1))) t'
  end.

Lemma find_parent_spec s m u : finds_parent s m u.
Proof.
  induction u as [i n c|i b l IHl r IHr]; intros fuel hi L p Hrep Hwf Hhi Hfuel Hnd HL Ho;
    (destruct fuel as [|fuel]; [lia|]); cbn [find_parent]; rewrite HL; cbn [idx].
  - assert (E : bit (nodes s !!! i) = 32) by apply Hrep. rewrite E. reflexivity.
  - destruct Hwf as (H1 & H2 & H3). destruct (repr_step (nodes s) i b l r m Hrep ltac:(lia)) as [E1 E2].
    assert (Eb : bit (nodes s !!! i) = b) by apply Hrep. rewrite E1, tdel_side. clear E1.
    rewrite Eb in *. rewrite direction_of_testbit in * by lia. fold (side m b l r) in E2.
    pose proof Hrep as (R1 & R2 & R3 & R4 & R5). pose proof Hnd as Hnd'. cbn [idxs] in Hnd'.
    apply NoDup_cons in Hnd' as [Hi Hnd']. apply NoDup_app in Hnd' as (N1 & N2 & N3).
    assert (Hside : forall P : tree -> Prop, P l -> P r -> P (side m b l r)) by (intros; unfold side; destruct (Z.testbit m b); auto).
    assert (IH : finds_parent s m (side m b l r)) by (apply Hside; assumption).
    specialize (IH fuel b (child_link i (Z.b2z (Z.testbit m b))) (Some (L, i, Z.b2z (Z.testbit m b)))).
    specialize (IH (Hside _ R4 R5) (Hside (fun u => bits_ok u b) H2 H3) ltac:(lia) ltac:(lia)
      (Hside (fun u => NoDup (idxs u)) N1 N3) E2).
    assert (Ho' : outside (child_link i (Z.b2z (Z.testbit m b))) (length (nodes s)) (idxs (side m b l r))).
    { simpl. split_and!; [assumption| |destruct (Z.testbit m b); auto].
      apply (Hside (fun u => i ∉ idxs u)); set_solver. }
    specialize (IH Ho').
    assert (Hpi : parent_idx (Branch i b l r) m = match side m b l r with Leaf _ _ _ => i | _ => parent_idx (side m b l r) m end
      /\ route (Branch i b l r) m = route (side m b l r) m).
    { cbn [parent_idx route]. unfold side. destruct (Z.testbit m b); [destruct r|destruct l]; auto. }
    destruct Hpi as [Hpi Hro]. rewrite Hpi, Hro. destruct (tdel (side m b l r) m) as [s'|] eqn:Et.
    + destruct IH as (PL & d & F1 & F2 & F3). exists PL, d. cbv zeta.
      assert (Hbr : match side m b l r with Leaf _ _ _ => i | Branch _ _ _ _ => parent_idx (side m b l r) m end
        = parent_idx (side m b l r) m) by (destruct (side m b l r); [discriminate|reflexivity]).
      rewrite Hbr. split; [exact F1|]. split; [exact F2|]. apply replaced_up; auto; lia.
    + apply tdel_leaf in Et as (i' & n & c & Et). rewrite Et in *. exists L, (Z.testbit m b). cbv zeta.
      split; [exact IH|]. split; [exact E2|]. rewrite child_other, R3.
      replace (if Z.testbit m b then (Some (idx l), Some (idx r)).1 else (Some (idx l), Some (idx r)).2)
        with (Some (idx (if Z.testbit m b then l else r))) by (destruct (Z.testbit m b); reflexivity).
      apply replaced_at_link; [|destruct (Z.testbit m b); assumption].
      destruct L; simpl in *; [trivial|]. split_and!; try tauto. destruct (Z.testbit m b); set_solver.
Qed.

(** ** The free list *)

Fixpoint chain (ns : list Node) (head : option nat) (fl : list nat) : Prop :=
  match fl with
  | [] => head = None
  | i :: fl => head = Some i /\ (i < length ns)%nat /\ chain ns (child (ns !!! i) 0) fl
  end.

Lemma chain_frame ns ns' head fl : chain ns head fl -> length ns' = length ns ->
  (forall i, i ∈ fl -> ns' !!! i = ns !!! i) -> chain ns' head fl.
Proof.
  intros H Hlen. revert head H. induction fl as [|i fl IH]; intros head H Heq; [assumption|].
  destruct H as (H1 & H2 & H3). cbn [chain]. rewrite Hlen, Heq by set_solver. split_and!; auto.
  apply IH; [assumption|]. intros j Hj. apply Heq. set_solver.
Qed.

Lemma give_node_spec s i fl : chain (nodes s) (free s) fl -> (i < length (nodes s))%nat -> i ∉ fl ->
  chain (nodes (give_node s i)) (free (give_node s i)) (i :: fl) /\
  length (nodes (give_node s i)) = length (nodes s) /\ root (give_node s i) = root s /\
  forall j, j <> i -> nodes (give_node s i) !!! j = nodes s !!! j.
Proof.
  intros Hc Hi Hn.
  assert (Hlen : length (nodes (give_node s i)) = length (nodes s)) by apply length_insert.
  assert (Hother : forall j, j <> i -> nodes (give_node s i) !!! j = nodes s !!! j)
    by (intros; apply list_lookup_total_insert_ne; congruence).
  split_and!; auto. cbn [chain]. rewrite Hlen. split_and!; auto.
  unfold give_node at 2. simpl. rewrite list_lookup_total_insert_eq by assumption.
  unfold child. simpl. apply (chain_frame (nodes s)); auto. intros j Hj. apply Hother. set_solver.
Qed.

(** ** The invariant: the trie counts the rejected messages [l] *)

Definition oidxs (ot : option tree) : list nat := match ot with None => [] | Some u => idxs u end.
Definition ocnt (ot : option tree) (m : Z) : nat := match ot with None => 0%nat | Some u => cnt u m end.
Definition ototal (ot : option tree) : nat := match ot with None => 0%nat | Some u => total u end.
Definition orepr (s : t) (ot : option tree) : Prop :=
  match ot with
  | None => root s = None
  | Some u => root s = Some (idx u) /\ repr (nodes s) u /\ wft u 32
  end.

Record holds (s : t) (ot : option tree) (fl : list nat) : Prop := {
  holds_repr : orepr s ot;
  holds_chain : chain (nodes s) (free s) fl;
  holds_nodup : NoDup (oidxs ot ++ fl);
  holds_length : (length (oidxs ot) + length fl = length (nodes s))%nat;
}.

Definition inv (capacity : nat) (s : t) (l : list Z) : Prop :=
  length (nodes s) = (capacity * 2)%nat /\ (length l <= capacity)%nat /\ Z.of_nat capacity < 2 ^ 31 /\
  exists ot fl, holds s ot fl /\ (forall m, ocnt ot m = countb (Z.eqb m) l) /\ ototal ot = length l.

Lemma idxs_length u hi : wft u hi -> (length (idxs u) + 1 <= 2 * total u)%nat.
Proof.
  revert hi. induction u as [i n c|i b l IHl r IHr]; simpl; intros hi H; [lia|].
  destruct H as (_ & Hl & Hr & _). rewrite length_app. specialize (IHl _ Hl). specialize (IHr _ Hr). lia.
Qed.

Lemma route_le_total u m : ((route u m).2 <= total u)%nat.
Proof. induction u as [|i b l IHl r IHr]; simpl; [lia|]. destruct (Z.testbit m b); lia. Qed.

Lemma rejected_make_inv capacity : (0 < capacity)%nat -> Z.of_nat capacity < 2 ^ 31 -> inv capacity (make capacity) [].
Proof.
  intros Hc Hb. unfold inv. set (size := (capacity * 2)%nat).
  assert (Hlen : length (nodes (make capacity)) = size) by (unfold make; simpl; rewrite length_fmap, length_seq; reflexivity).
  split; [assumption|]. split; [simpl; lia|]. split; [assumption|]. exists None, (seq 0 size).
  split; [|split; [intros m|]; reflexivity].
  assert (Hnode : forall i, (i < size)%nat -> child (nodes (make capacity) !!! i) 0 = if (i + 1 <? size)%nat then Some (i + 1)%nat else None).
  { intros i Hi. erewrite list_lookup_total_correct; [|unfold make; cbn [nodes]; fold size;
      rewrite list_lookup_fmap, lookup_seq_lt by lia; reflexivity]. reflexivity. }
  split; simpl; [reflexivity| |apply NoDup_seq|rewrite length_seq; symmetry; exact Hlen].
  assert (H : forall n i, (i + S n = size)%nat -> chain (nodes (make capacity)) (Some i) (seq i (S n))).
  { induction n as [|n IH]; intros i Hi; (split; [reflexivity|]; split; [rewrite Hlen; lia|]); rewrite (Hnode i) by lia.
    - rewrite (proj2 (Nat.ltb_ge _ _)) by lia. reflexivity.
    - rewrite (proj2 (Nat.ltb_lt _ _)) by lia. replace (i + 1)%nat with (S i) by lia. apply IH. lia. }
  replace size with (S (size - 1)) by lia. apply H. lia.
Qed.

Lemma root_empty capacity s l : inv capacity s l -> (root s = None <-> l = []).
Proof.
  intros (_ & _ & _ & ot & fl & [Hr _ _ _] & _ & Ht). destruct ot as [u|]; simpl in *.
  - destruct Hr as (E & _ & Hwf). pose proof (idxs_length u 32 Hwf).
    split; [congruence|]. intros ->. simpl in Ht. lia.
  - split; [|auto]. intros _. apply nil_length_inv. congruence.
Qed.

Lemma message_rejected_spec capacity s l m : inv capacity s l -> message_rejected s m = bool_decide (m ∈ l).
Proof.
  intros (_ & _ & _ & ot & fl & [H _ _ _] & Hcnt & _).
  assert (E : message_rejected s m = (0 <? Z.of_nat (ocnt ot m))).
  { destruct ot as [u|]; simpl in *.
    - destruct H as (Hr & Hrep & Hwf). unfold message_rejected. rewrite Hr.
      rewrite (rejected_from_spec _ _ _ 32) by (try assumption; unfold depth; lia).
      pose proof (cnt_route u m 32 Hwf) as Hc. pose proof (route_pos u m 32 Hwf) as Hp.
      destruct (route u m) as [[i n] c]. simpl in *. rewrite Hc, (Z.eqb_sym n).
      destruct (m =? n); symmetry; [apply Z.ltb_lt|apply Z.ltb_ge]; lia.
    - unfold message_rejected. rewrite H. reflexivity. }
  rewrite E, Hcnt. clear. induction l as [|x l IH]; cbn [countb]; [reflexivity|].
  destruct (Z.eqb_spec m x) as [->|Hne].
  - rewrite bool_decide_eq_true_2 by set_solver. apply Z.ltb_lt. lia.
  - change (0 + countb (Z.eqb m) l)%nat with (countb (Z.eqb m) l). rewrite IH. apply bool_decide_ext. set_solver.
Qed.

Lemma find_link_in s m b t : forall fuel L, repr (nodes s) t -> bits_ok t 32 -> deref s L = Some (idx t) ->
  find_link fuel s L m b = L \/ exists i d, find_link fuel s L m b = child_link i d /\ i ∈ idxs t.
Proof.
  induction t as [i n c|i b' l IHl r IHr]; intros fuel L Hrep Hb HL; (destruct fuel as [|fuel]; [left; reflexivity|]);
    cbn [find_link]; rewrite HL; cbn [idx].
  - assert (E : bit (nodes s !!! i) = 32) by apply Hrep. rewrite E. left. reflexivity.
  - destruct Hb as (Hb & Hl & Hr). destruct (repr_step (nodes s) i b' l r m Hrep ltac:(lia)) as [E1 E2].
    destruct (negb _ && _); [|left; reflexivity]. right.
    assert (Hmono : forall u, bits_ok u b' -> bits_ok u 32) by (intros [|]; simpl; [trivial|]; intros (? & ?); split; [lia|assumption]).
    destruct Hrep as (_ & _ & _ & Rl & Rr). cbn [idxs]. destruct (Z.testbit m b').
    + destruct (IHr fuel (child_link i (direction_of m (bit (nodes s !!! i)))) Rr (Hmono _ Hr) E2) as [->|(j & d & -> & Hj)];
        eexists _, _; (split; [reflexivity|set_solver]).
    + destruct (IHl fuel (child_link i (direction_of m (bit (nodes s !!! i)))) Rl (Hmono _ Hl) E2) as [->|(j & d & -> & Hj)];
        eexists _, _; (split; [reflexivity|set_solver]).
Qed.

(** *** A further rejection of a known message *)
Lemma bump_holds s u fl m : holds s (Some u) fl -> Z.of_nat (total u) < 2 ^ 31 ->
  let i := (route u m).1.1 in
  holds (write s i (set_count (u32 (count (nodes s !!! i) + 1)) (nodes s !!! i)))
    (Some (recount u m (S (route u m).2))) fl.
Proof.
  intros [(Hr & Hrep & Hwf) Hc Hnd Hl] Ht. cbv zeta.
  pose proof (repr_route (nodes s) u m Hrep) as Hn. pose proof (route_in u m) as Hin.
  pose proof (route_le_total u m) as Hle.
  destruct (recount_idx u m (S (route u m).2)) as (E1 & E2 & E3).
  simpl in Hnd. apply NoDup_app in Hnd as (N1 & N2 & N3).
  assert (Ec : u32 (count (nodes s !!! (route u m).1.1) + 1) = Z.of_nat (S (route u m).2)).
  { destruct (route u m) as [[i n] c]. simpl in *. destruct Hn as (_ & _ & -> & _). rewrite u32_id; unfold is_u32; lia. }
  rewrite Ec. split; unfold write; cbn [nodes root free].
  - simpl. rewrite E1. split_and!; auto; [apply repr_recount; assumption|apply recount_wf; [lia|assumption]].
  - eapply chain_frame; [exact Hc|apply length_insert|]. intros j Hj. apply list_lookup_total_insert_ne.
    intros <-. eapply N2; eassumption.
  - simpl. rewrite E2. apply NoDup_app. auto.
  - simpl. rewrite E2, length_insert. assumption.
Qed.

(** *** The first rejected message *)
Lemma add_first_holds s leaf fl m : holds s None (leaf :: fl) -> is_u32 m ->
  holds (add_leaf s None m) (Some (Leaf leaf m 1)) fl.
Proof.
  intros [Hr (Hf & Hi & Hc) Hnd Hl] Hm. unfold add_leaf, take_node. rewrite Hf. simpl in Hnd, Hl.
  apply NoDup_cons in Hnd as [Hn Hnd].
  split; simpl.
  - rewrite length_insert, list_lookup_total_insert_eq by assumption. simpl. split_and!; auto; lia.
  - eapply chain_frame; [exact Hc|apply length_insert|]. intros j Hj. apply list_lookup_total_insert_ne. set_solver.
  - constructor; assumption.
  - rewrite length_insert. lia.
Qed.

(** *** A new message beside others *)

(** The state before the new branch is linked in. *)
Definition with_branch (s : t) (branch leaf : nat) (b direction : Z) (l : link) : t :=
  let s := write (set_free s (child (nodes s !!! branch) 0)) branch
             {| children := (Some 0%nat, Some 0%nat); message := 0; count := 0; bit := b |} in
  let s := assign s (child_link branch direction) (Some leaf) in
  assign s (child_link branch (Z.lxor direction 1)) (deref s l).

Lemma with_branch_spec s branch leaf b d l : (branch < length (nodes s))%nat -> link_node l <> Some branch ->
  let s' := with_branch s branch leaf b (Z.b2z d) l in
  length (nodes s') = length (nodes s) /\ root s' = root s /\ free s' = child (nodes s !!! branch) 0 /\
  (forall j, j <> branch -> nodes s' !!! j = nodes s !!! j) /\
  nodes s' !!! branch = {| children := if d then (deref s l, Some leaf) else (Some leaf, deref s l);
                           message := 0; count := 0; bit := b |}.
Proof.
  intros Hi Hl. unfold with_branch. set (s2 := write _ branch _). set (s3 := assign s2 _ _). cbv zeta.
  assert (L2 : length (nodes s2) = length (nodes s)) by apply length_insert.
  assert (O3 : forall j, j <> branch -> nodes s3 !!! j = nodes s !!! j).
  { intros j Hj. unfold s3. rewrite assign_other by (simpl; congruence). apply list_lookup_total_insert_ne. congruence. }
  assert (D3 : deref s3 l = deref s l).
  { destruct l as [|j d']; [reflexivity|]. cbn [deref]. rewrite O3; [reflexivity|]. simpl in Hl. congruence. }
  assert (B2 : nodes s2 !!! branch = {| children := (Some 0%nat, Some 0%nat); message := 0; count := 0; bit := b |})
    by (apply list_lookup_total_insert_eq; assumption).
  split_and!; [unfold s3; rewrite !assign_length; exact L2|reflexivity..| |].
  - intros j Hj. rewrite assign_other by (simpl; congruence). auto.
  - rewrite D3. unfold s3. cbn [assign nodes]. rewrite !list_lookup_total_insert_eq by (rewrite ?length_insert; lia).
    rewrite B2. destruct d; reflexivity.
Qed.

(** The nodes used by the tree are apart from the next two free ones. *)
Lemma two_free (u : tree) leaf branch fl : NoDup (idxs u ++ leaf :: branch :: fl) ->
  NoDup (idxs u) /\ (leaf ∉ idxs u) /\ (branch ∉ idxs u) /\ leaf <> branch /\
  (forall j, j ∈ fl -> (j ∉ idxs u) /\ j <> leaf /\ j <> branch) /\
  NoDup (leaf :: branch :: idxs u ++ fl).
Proof.
  intros H. assert (H' : NoDup (leaf :: branch :: idxs u ++ fl)).
  { assert (E : idxs u ++ leaf :: branch :: fl ≡ₚ leaf :: branch :: idxs u ++ fl) by solve_Permutation.
    rewrite <- E. assumption. }
  pose proof H' as H''. apply NoDup_cons in H' as [H1 H']. apply NoDup_cons in H' as [H2 H'].
  apply NoDup_app in H' as (N1 & N2 & N3). split_and!; auto; try set_solver.
Qed.

Lemma add_split_holds s u leaf branch fl m : holds s (Some u) (leaf :: branch :: fl) -> is_u32 m ->
  m <> (route u m).1.2 ->
  exists b, holds (add_leaf s (Some (route u m).1.1) m) (Some (tins u m b leaf branch)) fl.
Proof.
  intros [(Hr & Hrep & Hwf) (Hf & Hi & Hf2 & Hi2 & Hc) Hnd Hl] Hm Hne.
  destruct (two_free _ _ _ _ Hnd) as (N1 & Hleaf & Hbranch & Hlb & Hfl & N').
  pose proof (route_in u m) as Hin. unfold add_leaf, take_node at 1. rewrite Hf.
  set (s1 := write _ leaf _). assert (L1 : length (nodes s1) = length (nodes s)) by apply length_insert.
  assert (O1 : forall j, j <> leaf -> nodes s1 !!! j = nodes s !!! j) by (intros; apply list_lookup_total_insert_ne; congruence).
  assert (Hmsg : message (nodes s1 !!! (route u m).1.1) = (route u m).1.2).
  { rewrite O1 by congruence. pose proof (repr_route (nodes s) u m Hrep) as Hn. destruct (route u m) as [[i n] c]. apply Hn. }
  rewrite Hmsg. destruct (xor_splits m (route u m).1.2 Hm (proj2 (route_pos u m 32 Hwf)) Hne) as [Hs Hb].
  set (b := 31 - _) in *. exists b. set (l := find_link depth s1 root_link m b).
  assert (F1 : free s1 = Some branch) by exact Hf2. unfold take_node. rewrite F1.
  rewrite direction_of_testbit by apply Hs. fold (with_branch s1 branch leaf b (Z.b2z (Z.testbit m b)) l).
  assert (Rep1 : repr (nodes s1) u) by (eapply repr_frame; [exact Hrep|assumption|intros; apply O1; congruence]).
  assert (Hl_in : link_node l <> Some branch).
  { destruct (find_link_in s1 m b u depth root_link Rep1 (wft_bits_ok _ _ Hwf) Hr) as [E|(i & d & E & Hi')];
      unfold l; rewrite E; simpl; congruence. }
  destruct (with_branch_spec s1 branch leaf b (Z.testbit m b) l ltac:(lia) Hl_in) as (L4 & Hroot & F4 & O4 & B4).
  set (s4 := with_branch _ _ _ _ _ _) in *.
  assert (R : replaced root_link (idxs u) s4 (assign s4 l (Some branch)) (tins u m b leaf branch)).
  { apply (find_link_insert u m b leaf branch s1 s4 depth 32); try assumption; try exact I; try exact Hr; try lia; try apply Hs.
    - unfold depth. lia.
    - intros j Hj. apply O4. congruence.
    - cbn [repr]. rewrite O4, L4, L1 by assumption.
      replace (nodes s1 !!! leaf) with {| children := (Some 0%nat, Some 0%nat); message := m; count := 1; bit := 32 |}
        by (symmetry; apply list_lookup_total_insert_eq; assumption). auto.
    - rewrite B4. reflexivity.
    - rewrite B4. reflexivity. }
  destruct R as [R1 R2 R3 _ R5 R6]. split.
  - cbn [orepr]. split_and!; auto. apply tins_wf; auto.
  - rewrite R5, F4, O1 by congruence. eapply chain_frame; [exact Hc|lia|].
    intros j Hj. destruct (Hfl j Hj) as (? & ? & ?). rewrite R3, O4, O1; auto.
  - cbn [oidxs]. rewrite tins_idxs. exact N'.
  - cbn [oidxs]. rewrite tins_idxs, R6, L4. simpl in *. lia.
Qed.
(** *** Removal of one rejection *)

Lemma remove_length s m : length (nodes (remove_rejected_message s m)) = length (nodes s).
Proof.
  unfold remove_rejected_message. destruct (find_parent _ _ _ _ _) as [l p]. destruct (deref s l); [|reflexivity].
  destruct (negb _); [apply length_insert|]. unfold give_node, set_free. cbn [nodes]. rewrite assign_length.
  destruct p as [[[pl pa] d]|]; cbn [nodes]; rewrite ?assign_length; cbn [nodes]; rewrite ?assign_length; apply length_insert.
Qed.

Lemma remove_last_holds s i n fl m : holds s (Some (Leaf i n 1)) fl ->
  exists fl', holds (remove_rejected_message s m) None fl'.
Proof.
  intros [(Hr & Hrep & Hwf) Hc Hnd Hl]. destruct Hrep as (Hi & Hm & Hcount & Hb). simpl in Hnd, Hl.
  apply NoDup_cons in Hnd as [Hn Hnd]. exists (i :: fl).
  unfold remove_rejected_message. cbn [find_parent depth deref]. rewrite Hr. cbn [idx]. rewrite Hb.
  cbn [Z.eqb Pos.eqb deref]. rewrite Hr. cbn [idx]. rewrite Hcount. change (u32 (Z.of_nat 1 - 1)) with 0. cbn [Z.eqb negb].
  set (s' := assign _ root_link None). assert (L' : length (nodes s') = length (nodes s)) by apply length_insert.
  assert (Hc' : chain (nodes s') (free s') fl).
  { eapply chain_frame; [exact Hc|exact L'|]. intros j Hj. apply list_lookup_total_insert_ne. set_solver. }
  destruct (give_node_spec s' i fl Hc' ltac:(lia) Hn) as (G1 & G2 & G3 & _).
  split; auto.
  - constructor; assumption.
  - cbn [oidxs length]. rewrite G2, L'. lia.
Qed.

Lemma remove_count_holds s u fl m : holds s (Some u) fl -> (1 < (route u m).2)%nat -> Z.of_nat (total u) < 2 ^ 31 ->
  holds (remove_rejected_message s m) (Some (recount u m ((route u m).2 - 1))) fl.
Proof.
  intros [(Hr & Hrep & Hwf) Hc Hnd Hl] Hpos Htot.
  pose proof (repr_route (nodes s) u m Hrep) as Hn. pose proof (route_in u m) as Hin.
  destruct (recount_idx u m ((route u m).2 - 1)) as (E1 & E2 & _). simpl in Hnd. apply NoDup_app in Hnd as (N1 & N2 & N3).
  pose proof (route_le_total u m) as Hle.
  pose proof (find_parent_spec s m u depth 32 root_link None Hrep (wft_bits_ok _ _ Hwf) ltac:(lia)
    ltac:(unfold depth; lia) N1 Hr I) as Hp.
  assert (Hd : exists l p, find_parent depth s root_link None m = (l, p) /\ deref s l = Some (route u m).1.1).
  { destruct (tdel u m) as [t'|] eqn:Et.
    - destruct Hp as (PL & d & F1 & F2 & _). eauto.
    - apply tdel_leaf in Et as (i & n & c & ->). eauto. }
  destruct Hd as (l & p & F1 & F2). unfold remove_rejected_message. rewrite F1, F2.
  assert (Ec : u32 (count (nodes s !!! (route u m).1.1) - 1) = Z.of_nat ((route u m).2 - 1)).
  { destruct (route u m) as [[i n] c]. simpl in *. destruct Hn as (_ & _ & -> & _). rewrite u32_id; unfold is_u32; lia. }
  rewrite Ec, (proj2 (Z.eqb_neq _ 0)) by lia. cbn [negb]. split; unfold write; cbn [nodes root free].
  - cbn [orepr]. rewrite E1. split_and!; auto; [apply repr_recount; assumption|apply recount_wf; [lia|assumption]].
  - eapply chain_frame; [exact Hc|apply length_insert|]. intros j Hj. apply list_lookup_total_insert_ne.
    intros <-. eapply N2; eassumption.
  - cbn [oidxs]. rewrite E2. apply NoDup_app. auto.
  - cbn [oidxs]. rewrite E2, length_insert. assumption.
Qed.

Lemma tdel_recount t m c : tdel (recount t m c) m = tdel t m /\ parent_idx (recount t m c) m = parent_idx t m /\
  (route (recount t m c) m).1.1 = (route t m).1.1.
Proof.
  induction t as [i n c0|i b l IHl r IHr]; [auto|]. cbn [recount tdel parent_idx route].
  destruct (Z.testbit m b) eqn:E; cbn [tdel parent_idx route]; rewrite E.
  - destruct IHr as (-> & H2 & H3). split; [reflexivity|]. split; [|exact H3].
    destruct r as [|i' b' l' r']; [reflexivity|]. cbn [recount] in *. destruct (Z.testbit m b'); exact H2.
  - destruct IHl as (-> & H2 & H3). split; [reflexivity|]. split; [|exact H3].
    destruct l as [|i' b' l' r']; [reflexivity|]. cbn [recount] in *. destruct (Z.testbit m b'); exact H2.
Qed.

Lemma remove_leaf_holds s u fl m t' : holds s (Some u) fl -> (route u m).2 = 1%nat -> tdel u m = Some t' ->
  exists fl', holds (remove_rejected_message s m) (Some t') fl'.
Proof.
  intros [(Hr & Hrep & Hwf) Hc Hnd Hl] Hone Ht'. set (leaf := (route u m).1.1).
  pose proof (route_in u m) as Hin. pose proof (repr_route (nodes s) u m Hrep) as Hn.
  destruct (recount_idx u m 0) as (E1 & E2 & _). destruct (tdel_recount u m 0) as (E3 & E4 & E5).
  cbn [oidxs] in *. rewrite (tdel_idxs u m t' Ht') in Hnd, Hl. fold leaf in Hnd, Hl, Hin.
  set (pi := parent_idx u m) in *.
  assert (E0 : (leaf :: pi :: idxs t') ++ fl ≡ₚ idxs t' ++ leaf :: pi :: fl) by solve_Permutation.
  pose proof Hnd as Nall. rewrite E0 in Hnd. destruct (two_free _ _ _ _ Hnd) as (Nt & Nleaf & Npi & Nlp & Nfl & _).
  assert (Hu : forall j, j ∈ idxs u <-> j = leaf \/ j = pi \/ j ∈ idxs t').
  { intros j. rewrite (tdel_idxs u m t' Ht'). rewrite !elem_of_cons. reflexivity. }
  assert (Hlf' : (leaf ∉ fl) /\ (pi ∉ fl)) by (split; intros H; destruct (Nfl _ H) as (_ & ? & ?); congruence).
  destruct Hlf' as [Nlf Npf].
  assert (Nu : NoDup (idxs u)).
  { rewrite (tdel_idxs u m t' Ht'). apply NoDup_app in Nall as (? & _ & _). assumption. }
  pose proof (repr_recount (nodes s) u m 0 Hrep Nu) as Hrep2. cbv zeta in Hrep2. fold leaf in Hrep2.
  set (s2 := write s leaf (set_count 0 (nodes s !!! leaf))).
  assert (L2 : length (nodes s2) = length (nodes s)) by apply length_insert.
  pose proof (find_parent_spec s2 m (recount u m 0) depth 32 root_link None Hrep2
    (recount_bits_ok _ _ _ _ (wft_bits_ok _ _ Hwf)) ltac:(lia) ltac:(unfold depth; lia) ltac:(rewrite E2; exact Nu)
    ltac:(rewrite E1; exact Hr) I) as Hp.
  rewrite E3, Ht', E4, E5, E2 in Hp. destruct Hp as (PL & d & F1 & F2 & F3). fold leaf pi in F1, F2, F3.
  assert (Hcell : (leaf < length (nodes s))%nat /\ count (nodes s !!! leaf) = 1).
  { unfold leaf. destruct (route u m) as [[i n] c]. simpl in *. subst c. destruct Hn as (? & _ & ? & _). auto. }
  assert (Hsame : forall i, bit (nodes s2 !!! i) = bit (nodes s !!! i) /\ children (nodes s2 !!! i) = children (nodes s !!! i)).
  { intros i. unfold s2, write. cbn [nodes]. destruct (decide (i = leaf)) as [->|Hne].
    - rewrite list_lookup_total_insert_eq by lia. auto.
    - rewrite list_lookup_total_insert_ne by congruence. auto. }
  rewrite (find_parent_ext s s2 m eq_refl Hsame) in F1.
  assert (F2' : deref s (child_link pi (Z.b2z d)) = Some leaf).
  { rewrite <- F2. cbn [deref]. unfold child. rewrite (proj2 (Hsame pi)). reflexivity. }
  unfold remove_rejected_message. rewrite F1, F2'. destruct Hcell as [Hlf ->]. change (u32 (1 - 1)) with 0.
  cbn [Z.eqb negb]. fold s2. destruct F3 as [R1 R2 R3 _ R5 R6]. set (s3 := assign s2 PL _) in *.
  assert (Hpi : (pi < length (nodes s))%nat).
  { apply (repr_range (nodes s) u); [assumption|]. apply Hu. auto. }
  assert (Hc3 : chain (nodes s3) (free s3) fl).
  { rewrite R5. eapply chain_frame; [exact Hc|lia|]. intros j Hj. destruct (Nfl j Hj) as (? & ? & ?).
    rewrite R3 by (try discriminate; rewrite Hu; tauto). apply list_lookup_total_insert_ne. congruence. }
  destruct (give_node_spec s3 pi fl Hc3 ltac:(lia) Npf) as (G1 & G2 & G3 & G4).
  destruct (give_node_spec (give_node s3 pi) leaf (pi :: fl) G1 ltac:(lia)
    ltac:(rewrite elem_of_cons; tauto)) as (K1 & K2 & K3 & K4).
  exists (leaf :: pi :: fl). split.
  - cbn [orepr]. rewrite K3, G3. split; [exact R2|]. split; [|eapply tdel_wf; eassumption].
    eapply repr_frame; [exact R1|lia|]. intros j Hj. rewrite K4, G4 by congruence. reflexivity.
  - exact K1.
  - exact Hnd.
  - cbn [oidxs length] in *. lia.
Qed.

(** ** The operations on the multiset *)

Lemma countb_cons_eqb x m l : countb (Z.eqb x) (m :: l) = (countb (Z.eqb x) l + if (x =? m)%Z then 1 else 0)%nat.
Proof. simpl. destruct (x =? m); lia. Qed.

Lemma add_inv capacity s l m : inv capacity s l -> is_u32 m -> (length l < capacity)%nat ->
  inv capacity (add_rejected_message s m) (m :: l).
Proof.
  intros (Hcap & Hl & Hb & ot & fl & Hh & Hcnt & Htot) Hm Hlt.
  assert (Hgoal : exists ot' fl', holds (add_rejected_message s m) ot' fl' /\
    (forall x, ocnt ot' x = (ocnt ot x + if (x =? m)%Z then 1 else 0)%nat) /\ ototal ot' = S (ototal ot) /\
    length (nodes (add_rejected_message s m)) = length (nodes s)).
  2:{ destruct Hgoal as (ot' & fl' & G1 & G2 & G3 & G4). split; [lia|]. split; [simpl; lia|]. split; [assumption|].
      exists ot', fl'. split; [assumption|]. split; [|simpl; lia]. intros x. rewrite G2, Hcnt, countb_cons_eqb. reflexivity. }
  unfold add_rejected_message. pose proof Hh as [Hrep _ _ Hll]. destruct ot as [u|]; cbn [orepr ocnt ototal oidxs] in *.
  - destruct Hrep as (Hr & Hrep & Hwf). rewrite Hr.
    rewrite (find_leaf_spec _ _ _ 32) by (try assumption; unfold depth; lia).
    pose proof (repr_route (nodes s) u m Hrep) as Hn. pose proof (cnt_route u m 32 Hwf) as Hc.
    assert (Emsg : message (nodes s !!! (route u m).1.1) = (route u m).1.2)
      by (destruct (route u m) as [[i n] c]; apply Hn).
    rewrite Emsg. destruct (Z.eqb_spec (route u m).1.2 m) as [E|E].
    + pose proof (bump_holds s u fl m Hh ltac:(lia)) as Hb'. cbv zeta in Hb'. eexists _, fl. split; [exact Hb'|].
      split; [|split; [|apply length_insert]].
      * intros x. pose proof (recount_cnt u m (S (route u m).2) x 32 Hwf) as Hx. rewrite E in Hx. simpl. destruct (x =? m); lia.
      * pose proof (recount_total u m (S (route u m).2)). simpl. lia.
    + pose proof (idxs_length u 32 Hwf) as Hk. destruct fl as [|leaf [|branch fl]]; cbn [length] in Hll; [lia..|].
      destruct (add_split_holds s u leaf branch fl m Hh Hm ltac:(congruence)) as (b & H).
      eexists _, fl. split; [exact H|]. split; [intros x; apply tins_cnt|]. split; [apply tins_total|].
      pose proof (holds_length _ _ _ H) as Hlen'. cbn [oidxs] in Hlen'. rewrite tins_idxs in Hlen'. simpl in Hlen'. lia.
  - rewrite Hrep. cbn [find_leaf depth]. simpl in Hll. destruct fl as [|leaf fl]; [simpl in Hll; lia|].
    pose proof (add_first_holds s leaf fl m Hh Hm) as H. eexists _, fl. split; [exact H|].
    split; [intros x; reflexivity|]. split; [reflexivity|]. pose proof (holds_length _ _ _ H) as Hlen'. simpl in *. lia.
Qed.

Lemma remove_inv capacity s l l' m : inv capacity s l -> l ≡ₚ m :: l' ->
  inv capacity (remove_rejected_message s m) l'.
Proof.
  intros (Hcap & Hl & Hb & ot & fl & Hh & Hcnt & Htot) Hperm.
  assert (Hlen : length l = S (length l')) by (rewrite Hperm; reflexivity).
  assert (Hcnt' : forall x, ocnt ot x = (countb (Z.eqb x) l' + if (x =? m)%Z then 1 else 0)%nat)
    by (intros x; rewrite Hcnt, Hperm, countb_cons_eqb; reflexivity).
  clear Hcnt Hperm. destruct ot as [u|]; cbn [ocnt ototal] in *.
  2:{ specialize (Hcnt' m). rewrite Z.eqb_refl in Hcnt'. lia. }
  pose proof Hh as [(Hr & Hrep & Hwf) _ _ Hll]. pose proof (cnt_route u m 32 Hwf) as Hc.
  pose proof (route_pos u m 32 Hwf) as [Hpos _]. pose proof (Hcnt' m) as Hm. rewrite Z.eqb_refl in Hm.
  assert (E : (route u m).1.2 = m).
  { destruct (route u m) as [[i n] c]. destruct (Z.eqb_spec m n); [auto|lia]. }
  assert (Hgoal : exists ot' fl', holds (remove_rejected_message s m) ot' fl' /\
    (forall x, (ocnt ot' x + if (x =? m)%Z then 1 else 0)%nat = cnt u x) /\ S (ototal ot') = total u /\
    length (nodes (remove_rejected_message s m)) = length (nodes s)).
  2:{ destruct Hgoal as (ot' & fl' & G1 & G2 & G3 & G4). split; [lia|]. split; [lia|]. split; [assumption|].
      exists ot', fl'. split; [assumption|]. split; [|lia]. intros x. specialize (G2 x). rewrite Hcnt' in G2. lia. }
  pose proof (remove_length s m) as HL. destruct (decide ((route u m).2 = 1%nat)) as [Hone|Hmore].
  - destruct (tdel u m) as [t'|] eqn:Et.
    + destruct (remove_leaf_holds s u fl m t' Hh Hone Et) as (fl' & H). exists (Some t'), fl'.
      assert (Hd : forall x, _) by (intros x; exact (tdel_cnt u m t' x Et)). rewrite Hone, E in Hd.
      split; [exact H|]. split; [intros x; apply (Hd x)|]. split; [|assumption].
      destruct (Hd m) as [_ Hd']. cbn [ototal]. lia.
    + apply tdel_leaf in Et as (i & n & c & ->). simpl in Hone, E. subst c n.
      destruct (remove_last_holds s i m fl m Hh) as (fl' & H). exists None, fl'. split; [exact H|]. auto.
  - pose proof (remove_count_holds s u fl m Hh ltac:(lia) ltac:(lia)) as H. eexists _, fl. split; [exact H|].
    split; [|split; [|assumption]].
    + intros x. pose proof (recount_cnt u m ((route u m).2 - 1) x 32 Hwf) as Hx. rewrite E in Hx.
      cbn [ocnt]. destruct (x =? m); lia.
    + pose proof (recount_total u m ((route u m).2 - 1)). cbn [ototal]. lia.
Qed.

#[global] Instance inv_permutation capacity s : Proper ((≡ₚ) ==> iff) (inv capacity s).
Proof.
  assert (Hone : forall l l', l ≡ₚ l' -> inv capacity s l -> inv capacity s l').
  { intros l l' H (H1 & H2 & H3 & ot & fl & H4 & H5 & H6). pose proof (Permutation_length H).
    split; [assumption|]. split; [lia|]. split; [assumption|]. exists ot, fl. split; [assumption|]. split; [|lia].
    intros m. rewrite H5, H. reflexivity. }
  intros l l' H. split; apply Hone; [|symmetry]; exact H.
Qed.

(** ** Histories of rejections *)

(** [reach capacity s l]: after the operations so far, [l] lists one message
    number per slot whose payload is rejected; a slot gives up its rejection only
    when it has one, and there are at most [capacity] slots. *)
Inductive reach (capacity : nat) : t -> list Z -> Prop :=
| reach_make : (0 < capacity)%nat -> Z.of_nat capacity < 2 ^ 31 -> reach capacity (make capacity) []
| reach_add s l m : reach capacity s l -> is_u32 m -> (length l < capacity)%nat ->
    reach capacity (add_rejected_message s m) (m :: l)
| reach_remove s l1 l2 m : reach capacity s (l1 ++ m :: l2) ->
    reach capacity (remove_rejected_message s m) (l1 ++ l2).

Lemma rejected_reach_inv capacity s l : reach capacity s l -> inv capacity s l.
Proof.
  induction 1 as [Hc Hb|s l m _ IH Hm Hl|s l1 l2 m _ IH].
  - apply rejected_make_inv; assumption.
  - apply add_inv; assumption.
  - eapply remove_inv; [exact IH|]. symmetry. apply Permutation_middle.
Qed.
End RejectedMessages.

(** C22: The trie of rejected messages is an exact multiset.  After any history
    of rejections and withdrawals within the buffer's capacity a message number is
    reported as rejected exactly when some slot still holds a rejection of it,
    the preallocated nodes never run out, and the search visits at most 33 nodes. *)
Theorem rejected_messages_multiset (capacity : nat) (s : RejectedMessages.t) (l : list Z) (m : Z) :
  RejectedMessages.reach capacity s l ->
  RejectedMessages.message_rejected s m = bool_decide (m ∈ l) /\
  length (RejectedMessages.nodes s) = (capacity * 2)%nat /\
  ((length l < capacity)%nat -> RejectedMessages.free s <> None).
Proof.
  intros H. pose proof (RejectedMessages.rejected_reach_inv capacity s l H) as Hi.
  split; [eapply RejectedMessages.message_rejected_spec; eassumption|].
  destruct Hi as (H1 & _ & _ & ot & fl & [Hr Hc _ Hl] & _ & Ht). split; [assumption|]. intros Hlt.
  destruct fl as [|i fl]; [|destruct Hc as (-> & _); discriminate]. exfalso. simpl in Hl.
  destruct ot as [u|]; cbn [RejectedMessages.oidxs RejectedMessages.ototal length] in *; [|lia].
  destruct Hr as (_ & _ & Hwf). pose proof (RejectedMessages.idxs_length u 32 Hwf). lia.
Qed.

Lemma rejected_messages_multiset_witness :
  let s := RejectedMessages.remove_rejected_message
    (RejectedMessages.add_rejected_message (RejectedMessages.add_rejected_message
      (RejectedMessages.make 3) 5) 9) 5 in
  RejectedMessages.message_rejected s 9 = true /\ RejectedMessages.message_rejected s 5 = false.
Proof.
  assert (H : RejectedMessages.reach 3 (RejectedMessages.remove_rejected_message
    (RejectedMessages.add_rejected_message (RejectedMessages.add_rejected_message
      (RejectedMessages.make 3) 5) 9) 5) ([9] ++ [])).
  { apply (RejectedMessages.reach_remove 3 _ [9] [] 5).
    apply RejectedMessages.reach_add; [|split; lia|simpl; lia].
    apply RejectedMessages.reach_add; [|split; lia|simpl; lia].
    apply RejectedMessages.reach_make; lia. }
  split.
  - rewrite (proj1 (rejected_messages_multiset _ _ _ 9 H)). reflexivity.
  - rewrite (proj1 (rejected_messages_multiset _ _ _ 5 H)). reflexivity.
Defined.
