(* ===== verification/ReceiveBuffer.v ===== *)
(** The receiver's packet store: insertion by sequence number, reassembly and
    delivery of messages, stream reads, drops and gap deadlines
    ([ReceiveBuffer] of include/robotweax/srt/receive_buffer.hpp and
    src/receive_buffer.cpp).  Definitions only; the [ReceiveBuffer...] files that follow
    hold the invariant and the theorems. *)
From stdpp Require Import gmap.
From S2P Require Import Prelude Sequence Packet Codec Control LossList ReceiveWindow.
From S2P Require Import PayloadPool OccupiedIndex RejectedMessages.

Record ReceiveInsertResult := {
  insert_error : Error.t;
  insert_status : ReceiveStatus.t;
  insert_gap : SequenceRange;
  has_gap : bool;
  insert_advance : Z;
}.

Definition insert_result (e : Error.t) (s : ReceiveStatus.t) : ReceiveInsertResult :=
  {| insert_error := e; insert_status := s; insert_gap := inhabitant; has_gap := false;
     insert_advance := 0 |}.

Record ReceivedMessageResult := {
  received_error : Error.t;
  bytes_written : nat;
  received_message_number : Z;
  received_first_sequence : SequenceNumber.t;
  received_timestamp : PacketTimestamp.t;
  delivery_time_microseconds : option Z;
}.

Definition received_failure (e : Error.t) : ReceivedMessageResult :=
  {| received_error := e; bytes_written := 0; received_message_number := 0;
     received_first_sequence := 0; received_timestamp := 0; delivery_time_microseconds := None |}.

Record BufferedMessageInfo := {
  info_first_sequence : SequenceNumber.t;
  info_last_sequence : SequenceNumber.t;
  info_timestamp : PacketTimestamp.t;
}.

Record BufferedMessageCopy := {
  copy_first_sequence : SequenceNumber.t;
  copy_next_sequence : SequenceNumber.t;
  copy_timestamp : PacketTimestamp.t;
  copy_message_number : Z;
  copy_payload : list Z;
}.

Module DropPreservation.
Inductive t := none | complete_messages | received_packets.
#[export] Instance eq_dec : EqDecision t.
Proof. solve_decision. Defined.
End DropPreservation.
Export (hints) DropPreservation.

Module ReceiveBuffer.

(** * State *)

Record Slot := {
  header : DataHeader;
  payload_index : nat;
  payload_size : nat;
  payload_offset : nat;
  rejected_payload : bool;
  occupied : bool;
  dropped : bool;
  gap_deadline_microseconds : Z;
}.

Definition eta_Slot (s : Slot) : Slot :=
  {| header := header s; payload_index := payload_index s; payload_size := payload_size s;
     payload_offset := payload_offset s; rejected_payload := rejected_payload s;
     occupied := occupied s; dropped := dropped s;
     gap_deadline_microseconds := gap_deadline_microseconds s |}.
Definition set_payload_size : nat -> Slot -> Slot := ltac:(setter eta_Slot payload_size).
Definition set_payload_offset : nat -> Slot -> Slot := ltac:(setter eta_Slot payload_offset).
Definition set_rejected_payload : bool -> Slot -> Slot := ltac:(setter eta_Slot rejected_payload).
Definition set_occupied : bool -> Slot -> Slot := ltac:(setter eta_Slot occupied).
Definition set_dropped : bool -> Slot -> Slot := ltac:(setter eta_Slot dropped).
Definition set_gap_deadline : Z -> Slot -> Slot := ltac:(setter eta_Slot gap_deadline_microseconds).

Definition default_slot : Slot :=
  {| header := default_data_header; payload_index := 0; payload_size := 0; payload_offset := 0;
     rejected_payload := false; occupied := false; dropped := false;
     gap_deadline_microseconds := 0 |}.
#[export] Instance Slot_inhabited : Inhabited Slot := populate default_slot.

Record t := {
  defer_drop_timestamp_refresh : bool;
  drop_timestamp_refresh_pending : bool;
  message_query_valid : bool;
  packet_query_valid : bool;
  message_query : option BufferedMessageInfo;
  packet_query : option BufferedMessageInfo;
  rejected : RejectedMessages.t;
  discarding_message : option Z;
  payloads : PayloadPool.t;
  slots : list Slot;
  occupied_index : list Z;
  storage_index : list Z;
  level_offsets : list nat;
  first_stored_sequence : SequenceNumber.t;
  next_ack_sequence : SequenceNumber.t;
  head : nat;
  classified_loss_prefix : nat;
  occupied_count : nat;
  buffered_payload_bytes : nat;
  first_buffered_sequence : SequenceNumber.t;
  last_buffered_sequence : SequenceNumber.t;
  first_buffered_timestamp : PacketTimestamp.t;
  last_buffered_timestamp : PacketTimestamp.t;
}.

Definition eta_t (b : t) : t :=
  {| defer_drop_timestamp_refresh := defer_drop_timestamp_refresh b;
     drop_timestamp_refresh_pending := drop_timestamp_refresh_pending b;
     message_query_valid := message_query_valid b; packet_query_valid := packet_query_valid b;
     message_query := message_query b; packet_query := packet_query b; rejected := rejected b;
     discarding_message := discarding_message b; payloads := payloads b; slots := slots b;
     occupied_index := occupied_index b; storage_index := storage_index b;
     level_offsets := level_offsets b; first_stored_sequence := first_stored_sequence b;
     next_ack_sequence := next_ack_sequence b; head := head b;
     classified_loss_prefix := classified_loss_prefix b; occupied_count := occupied_count b;
     buffered_payload_bytes := buffered_payload_bytes b;
     first_buffered_sequence := first_buffered_sequence b;
     last_buffered_sequence := last_buffered_sequence b;
     first_buffered_timestamp := first_buffered_timestamp b;
     last_buffered_timestamp := last_buffered_timestamp b |}.
Definition set_drop_timestamp_refresh_pending : bool -> t -> t := ltac:(setter eta_t drop_timestamp_refresh_pending).
Definition set_defer_drop_timestamp_refresh : bool -> t -> t := ltac:(setter eta_t defer_drop_timestamp_refresh).
Definition set_message_query_valid : bool -> t -> t := ltac:(setter eta_t message_query_valid).
Definition set_packet_query_valid : bool -> t -> t := ltac:(setter eta_t packet_query_valid).
Definition set_message_query : option BufferedMessageInfo -> t -> t := ltac:(setter eta_t message_query).
Definition set_packet_query : option BufferedMessageInfo -> t -> t := ltac:(setter eta_t packet_query).
Definition set_rejected : RejectedMessages.t -> t -> t := ltac:(setter eta_t rejected).
Definition set_discarding_message : option Z -> t -> t := ltac:(setter eta_t discarding_message).
Definition set_payloads : PayloadPool.t -> t -> t := ltac:(setter eta_t payloads).
Definition set_slots : list Slot -> t -> t := ltac:(setter eta_t slots).
Definition set_occupied_index : list Z -> t -> t := ltac:(setter eta_t occupied_index).
Definition set_storage_index : list Z -> t -> t := ltac:(setter eta_t storage_index).
Definition set_first_stored_sequence : SequenceNumber.t -> t -> t := ltac:(setter eta_t first_stored_sequence).
Definition set_next_ack_sequence : SequenceNumber.t -> t -> t := ltac:(setter eta_t next_ack_sequence).
Definition set_head : nat -> t -> t := ltac:(setter eta_t head).
Definition set_classified_loss_prefix : nat -> t -> t := ltac:(setter eta_t classified_loss_prefix).
Definition set_occupied_count : nat -> t -> t := ltac:(setter eta_t occupied_count).
Definition set_buffered_payload_bytes : nat -> t -> t := ltac:(setter eta_t buffered_payload_bytes).
Definition set_first_buffered_sequence : SequenceNumber.t -> t -> t := ltac:(setter eta_t first_buffered_sequence).
Definition set_last_buffered_sequence : SequenceNumber.t -> t -> t := ltac:(setter eta_t last_buffered_sequence).
Definition set_first_buffered_timestamp : PacketTimestamp.t -> t -> t := ltac:(setter eta_t first_buffered_timestamp).
Definition set_last_buffered_timestamp : PacketTimestamp.t -> t -> t := ltac:(setter eta_t last_buffered_timestamp).

(** The constructor; [None] is [std::invalid_argument] (the payload pool checks
    the same bounds first).  [arena] is the memory of the payload pool. *)
Definition make (initial_sequence : SequenceNumber.t) (capacity_packets : nat) (arena : list Z)
    : option t :=
  match PayloadPool.make capacity_packets arena with
  | None => None
  | Some pool =>
    if (capacity_packets =? 0)%nat || (SequenceNumber.half_range <=? Z.of_nat capacity_packets)
    then None
    else
      match OccupiedIndex.layout capacity_packets with
      | None => None
      | Some (offsets, total_words) =>
        Some {| defer_drop_timestamp_refresh := false; drop_timestamp_refresh_pending := false;
                message_query_valid := false; packet_query_valid := false;
                message_query := None; packet_query := None;
                rejected := RejectedMessages.make capacity_packets; discarding_message := None;
                payloads := pool; slots := replicate capacity_packets default_slot;
                occupied_index := replicate total_words 0;
                storage_index := replicate total_words 0; level_offsets := offsets;
                first_stored_sequence := initial_sequence;
                next_ack_sequence := initial_sequence; head := 0;
                classified_loss_prefix := 0; occupied_count := 0; buffered_payload_bytes := 0;
                first_buffered_sequence := 0; last_buffered_sequence := 0;
                first_buffered_timestamp := 0; last_buffered_timestamp := 0 |}
      end
  end.

Definition capacity (b : t) : nat := length (slots b).
Definition available (b : t) : nat := (capacity b - occupied_count b)%nat.

(** The slot of a logical offset, and its update. *)
Definition position (b : t) (offset : nat) : nat := ((head b + offset) mod capacity b)%nat.
Definition slot_at (b : t) (i : nat) : Slot := slots b !!! i.
Definition update_slot (i : nat) (f : Slot -> Slot) (b : t) : t :=
  set_slots (<[i := f (slot_at b i)]> (slots b)) b.

(** * Indexes, frontier and lookup *)

(** [index_occupied(position, occupied, false)] updates the readable packets;
    with [storage] it updates the hierarchy of stored packets as well. *)
Definition index_occupied (i : nat) (occ : bool) (storage : bool) (b : t) : t :=
  let b := if storage
           then set_storage_index (OccupiedIndex.index_levels (level_offsets b) i occ (storage_index b)) b
           else b in
  set_occupied_index (OccupiedIndex.index_levels (level_offsets b) i occ (occupied_index b)) b.

(** [packets] is a [std::size_t]. *)
Definition advance_frontier (packets : Z) (b : t) : t :=
  let b := set_head (Z.to_nat (u64 (Z.of_nat (head b) + packets) mod Z.of_nat (capacity b))) b in
  let b := set_first_stored_sequence (SequenceNumber.advanced (first_stored_sequence b) (u32 packets)) b in
  set_classified_loss_prefix
    (Z.to_nat (Z.of_nat (classified_loss_prefix b) - Z.min packets (Z.of_nat (classified_loss_prefix b)))) b.

Definition next_occupied_offset (b : t) (begin_ : nat) : option nat :=
  if (capacity b <=? begin_)%nat then None else
  let pos := position b begin_ in
  let end_ := Nat.min (capacity b) (pos + capacity b - begin_) in
  let found := OccupiedIndex.next_occupied_bit (level_offsets b) (occupied_index b) pos end_ in
  let found := if negb (bool_decide (is_Some found)) && (head b <=? pos)%nat && negb (head b =? 0)%nat
               then OccupiedIndex.next_occupied_bit (level_offsets b) (occupied_index b) 0 (head b)
               else found in
  match found with
  | None => None
  | Some found => Some ((found + capacity b - head b) mod capacity b)%nat
  end.

(** [find]: the slot that holds readable data of [sequence]. *)
Definition find (b : t) (s : SequenceNumber.t) : option nat :=
  let signed_offset := SequenceNumber.distance_from s (first_stored_sequence b) in
  if (signed_offset <? 0) || (capacity b <=? Z.to_nat signed_offset)%nat then None
  else
    let i := position b (Z.to_nat signed_offset) in
    let slot := slot_at b i in
    if occupied slot && negb (rejected_payload slot) && (sequence (header slot) =? s)
    then Some i else None.

Definition contains_data (b : t) (s : SequenceNumber.t) : bool := bool_decide (is_Some (find b s)).
Definition has_stream_data (b : t) : bool := bool_decide (is_Some (find b (first_stored_sequence b))).

Definition is_settled (b : t) (s : SequenceNumber.t) : bool :=
  let offset := SequenceNumber.distance_from s (first_stored_sequence b) in
  if (offset <? 0) || (capacity b <=? Z.to_nat offset)%nat then false
  else
    let slot := slot_at b (position b (Z.to_nat offset)) in
    dropped slot || (occupied slot && (sequence (header slot) =? s)).

Definition invalidate_delivery_queries (b : t) : t :=
  set_packet_query_valid false (set_message_query_valid false b).

(** * Timestamp bounds *)

Definition refresh_first_buffered_timestamp (b : t) : t :=
  if (occupied_count b =? 0)%nat then
    set_last_buffered_timestamp 0 (set_first_buffered_timestamp 0
      (set_last_buffered_sequence 0 (set_first_buffered_sequence 0 b)))
  else
    let found := OccupiedIndex.next_occupied_bit (level_offsets b) (storage_index b) (head b) (capacity b) in
    let found := match found with
                 | None => OccupiedIndex.next_occupied_bit (level_offsets b) (storage_index b) 0 (head b)
                 | Some _ => found
                 end in
    match found with
    | Some i => set_first_buffered_timestamp (timestamp (header (slot_at b i)))
                  (set_first_buffered_sequence (sequence (header (slot_at b i))) b)
    | None => b
    end.

Definition refresh_buffered_timestamp_bounds (b : t) : t :=
  let b := refresh_first_buffered_timestamp b in
  if (occupied_count b =? 0)%nat then b
  else
    let found := OccupiedIndex.previous_storage_bit (level_offsets b) (storage_index b) 0 (head b) in
    let found := match found with
                 | None => OccupiedIndex.previous_storage_bit (level_offsets b) (storage_index b) (head b) (capacity b)
                 | Some _ => found
                 end in
    match found with
    | Some i => set_last_buffered_timestamp (timestamp (header (slot_at b i)))
                  (set_last_buffered_sequence (sequence (header (slot_at b i))) b)
    | None => b
    end.

(** * Rejected messages, acknowledgement, trimming *)

(** [remove_rejected_message(slot)] for the slot at [i]. *)
Definition remove_rejected_message (i : nat) (b : t) : t :=
  if negb (rejected_payload (slot_at b i)) then b
  else
    let b := update_slot i (set_rejected_payload false) b in
    set_rejected (RejectedMessages.remove_rejected_message (rejected b)
                    (message_number (header (slot_at b i)))) b.

(** Each round moves [next_ack_sequence_] over one slot of the window, so
    [capacity] rounds are enough. *)
Fixpoint advance_acknowledgement_loop (fuel : nat) (b : t) : t :=
  match fuel with
  | O => b
  | S fuel =>
    let signed_offset := SequenceNumber.distance_from (next_ack_sequence b) (first_stored_sequence b) in
    if (signed_offset <? 0) || (capacity b <=? Z.to_nat signed_offset)%nat then b
    else
      let slot := slot_at b (position b (Z.to_nat signed_offset)) in
      if negb (dropped slot) && negb (occupied slot && (sequence (header slot) =? next_ack_sequence b))
      then b
      else advance_acknowledgement_loop fuel
             (set_next_ack_sequence (SequenceNumber.next (next_ack_sequence b)) b)
  end.
Definition advance_acknowledgement (b : t) : t := advance_acknowledgement_loop (capacity b) b.

(** The decision of [trim_dropped_prefix] on an occupied head slot, with the
    new value of [discarding_message_]. *)
Definition discarding_head (b : t) (slot : Slot) : option Z :=
  let discarding :=
    match discarding_message b with
    | Some m => if negb (message_number (header slot) =? m) then None else Some m
    | None => None
    end in
  match discarding with
  | Some m => Some m
  | None => if RejectedMessages.message_rejected (rejected b) (message_number (header slot))
            then Some (message_number (header slot)) else None
  end.

(** The end of each round: the head slot leaves the window. *)
Definition retire_head (b : t) : t :=
  let i := head b in
  let b := index_occupied i false true b in
  let b := invalidate_delivery_queries b in
  let b := remove_rejected_message i b in
  let b := update_slot i (fun s => set_gap_deadline 0 (set_payload_offset 0 (set_payload_size 0 s))) b in
  advance_frontier 1 b.

(** Each round empties the head slot; after [capacity] rounds all are empty. *)
Fixpoint trim_loop (fuel : nat) (b : t) : t :=
  match fuel with
  | O => b
  | S fuel =>
    let i := head b in
    let slot := slot_at b i in
    if dropped slot then trim_loop fuel (retire_head (update_slot i (set_dropped false) b))
    else if negb (occupied slot) then b
    else
      let b := set_discarding_message (discarding_head b slot) b in
      match discarding_message b with
      | None => b
      | Some _ =>
        let b := set_buffered_payload_bytes
                   (buffered_payload_bytes b - (payload_size slot - payload_offset slot))%nat b in
        let b := set_payloads (PayloadPool.release (payloads b) (payload_index slot)) b in
        let b := update_slot i (set_occupied false) b in
        let b := set_occupied_count (occupied_count b - 1)%nat b in
        let b := if bool_decide (boundary (header slot) = MessageBoundary.last
                                 \/ boundary (header slot) = MessageBoundary.solo)
                 then set_discarding_message None b else b in
        trim_loop fuel (retire_head b)
      end
  end.
Definition trim_dropped_prefix (b : t) : t := trim_loop (capacity b) b.

Definition discard_message_payload (b : t) (s : SequenceNumber.t) : t :=
  match find b s with
  | None => b
  | Some i =>
    let b := invalidate_delivery_queries b in
    let b := index_occupied
               (position b (Z.to_nat (SequenceNumber.distance_from s (first_stored_sequence b)))) false false b in
    let b := update_slot i (set_rejected_payload true) b in
    let b := set_rejected (RejectedMessages.add_rejected_message (rejected b)
                             (message_number (header (slot_at b i)))) b in
    refresh_buffered_timestamp_bounds (trim_dropped_prefix b)
  end.

(** * Insertion *)

Definition cast_u16 (n : nat) : nat := Z.to_nat (u16 (Z.of_nat n)).

(** The slot is filled, the indexes, bounds and counters follow. *)
Definition store_packet (packet : PacketView) (i : nat) (b : t) : t :=
  let s := sequence (data packet) in
  let b := invalidate_delivery_queries b in
  let '(index, pool) := PayloadPool.acquire (payloads b) (payload packet) in
  let b := set_payloads pool b in
  let b := update_slot i (fun _ =>
             {| header := data packet; payload_index := index;
                payload_size := cast_u16 (length (payload packet)); payload_offset := 0;
                rejected_payload := false; occupied := true; dropped := false;
                gap_deadline_microseconds := 0 |}) b in
  let b := index_occupied i true true b in
  let b :=
    if (occupied_count b =? 0)%nat then
      set_last_buffered_timestamp (timestamp (data packet))
        (set_first_buffered_timestamp (timestamp (data packet))
          (set_last_buffered_sequence s (set_first_buffered_sequence s b)))
    else
      let b := if SequenceNumber.distance_from s (first_buffered_sequence b) <? 0
               then set_first_buffered_timestamp (timestamp (data packet)) (set_first_buffered_sequence s b)
               else b in
      if 0 <? SequenceNumber.distance_from s (last_buffered_sequence b)
      then set_last_buffered_timestamp (timestamp (data packet)) (set_last_buffered_sequence s b)
      else b in
  let b := set_occupied_count (occupied_count b + 1)%nat b in
  set_buffered_payload_bytes (buffered_payload_bytes b + length (payload packet))%nat b.

Definition insert (b : t) (packet : PacketView) : ReceiveInsertResult * t :=
  if negb (bool_decide (kind packet = PacketKind.data))
     || (maximum_data_payload_size <? length (payload packet))%nat
  then (insert_result Error.invalid_packet_type ReceiveStatus.accepted_in_order, b)
  else
    let s := sequence (data packet) in
    let signed_offset := SequenceNumber.distance_from s (first_stored_sequence b) in
    if signed_offset <? 0 then (insert_result Error.none ReceiveStatus.older_than_window, b)
    else
      let offset := Z.to_nat signed_offset in
      if (capacity b <=? offset)%nat then (insert_result Error.none ReceiveStatus.beyond_window, b)
      else
        let i := position b offset in
        if occupied (slot_at b i) || dropped (slot_at b i)
        then (insert_result Error.none ReceiveStatus.duplicate, b)
        else
          let b := store_packet packet i b in
          let ack_offset := SequenceNumber.distance_from s (next_ack_sequence b) in
          let previous_ack := next_ack_sequence b in
          let b := advance_acknowledgement b in
          let ack_advance := SequenceNumber.distance_from (next_ack_sequence b) previous_ack in
          let result :=
            {| insert_error := Error.none;
               insert_status := if ack_offset =? 0 then ReceiveStatus.accepted_in_order
                                else ReceiveStatus.accepted_out_of_order;
               insert_gap := if 0 <? ack_offset
                             then {| range_first := previous_ack;
                                     range_last := SequenceNumber.advanced s SequenceNumber.mask |}
                             else inhabitant;
               has_gap := 0 <? ack_offset;
               insert_advance := if 0 <? ack_advance then ack_advance else 0 |} in
          let b :=
            if bool_decide (is_Some (RejectedMessages.root (rejected b)))
               || bool_decide (is_Some (discarding_message b))
            then refresh_buffered_timestamp_bounds (trim_dropped_prefix b) else b in
          (result, b).

Definition next_message_timestamp (b : t) : option PacketTimestamp.t :=
  match find b (first_stored_sequence b) with
  | None => None
  | Some i => Some (timestamp (header (slot_at b i)))
  end.

(** * Reassembly *)

Definition is_solo (s : Slot) : bool := bool_decide (boundary (header s) = MessageBoundary.solo).
Definition is_first (s : Slot) : bool := bool_decide (boundary (header s) = MessageBoundary.first).
Definition is_last (s : Slot) : bool := bool_decide (boundary (header s) = MessageBoundary.last).
Definition is_subsequent (s : Slot) : bool := bool_decide (boundary (header s) = MessageBoundary.subsequent).

(** The measuring loop of [pop_message]: the number of packets and bytes of the
    message, or the error the loop returns. *)
Fixpoint measure_message (fuel : nat) (b : t) (m : Z) (s : SequenceNumber.t) (packet_count total_size : nat)
    : Error.t + (nat * nat) :=
  match fuel with
  | O => inl Error.invalid_state
  | S fuel =>
    match find b s with
    | None => inl Error.would_block
    | Some i =>
      let slot := slot_at b i in
      if negb (message_number (header slot) =? m) || negb (payload_offset slot =? 0)%nat
         || ((0 <? packet_count)%nat && negb (is_subsequent slot) && negb (is_last slot))
      then inl Error.invalid_state
      else
        let total_size := (total_size + payload_size slot)%nat in
        let packet_count := (packet_count + 1)%nat in
        if is_solo slot || is_last slot then inr (packet_count, total_size)
        else if (capacity b <=? packet_count)%nat then inl Error.invalid_state
        else measure_message fuel b m (SequenceNumber.next s) packet_count total_size
    end
  end.

(** A delivered slot is emptied. *)
Definition empty_slot (s : Slot) : Slot :=
  set_gap_deadline 0 (set_payload_offset 0 (set_payload_size 0 (set_dropped false (set_occupied false s)))).

Fixpoint deliver_packets (packets : nat) (index written : nat) (destination : list Z) (b : t)
    : list Z * nat * t :=
  match packets with
  | O => (destination, written, b)
  | S packets =>
    let i := position b index in
    let slot := slot_at b i in
    let destination := overwrite written (take (payload_size slot) (PayloadPool.get (payloads b) (payload_index slot)))
                         destination in
    let written := (written + payload_size slot)%nat in
    let b := set_buffered_payload_bytes (buffered_payload_bytes b - payload_size slot)%nat b in
    let b := set_payloads (PayloadPool.release (payloads b) (payload_index slot)) b in
    let b := index_occupied i false true b in
    let b := update_slot i empty_slot b in
    deliver_packets packets (index + 1)%nat written destination b
  end.

(** A pop returns its result, the caller's storage and the new state. *)
Definition pop_message (b : t) (destination : list Z) : ReceivedMessageResult * list Z * t :=
  match find b (first_stored_sequence b) with
  | None => (received_failure Error.would_block, destination, b)
  | Some i =>
    let first := slot_at b i in
    if negb (is_solo first) && negb (is_first first)
    then (received_failure Error.invalid_state, destination, b)
    else if negb (payload_offset first =? 0)%nat
    then (received_failure Error.invalid_state, destination, b)
    else
      let message_number := message_number (header first) in
      let message_first_sequence := first_stored_sequence b in
      let timestamp := timestamp (header first) in
      match measure_message (capacity b) b message_number (first_stored_sequence b) 0 0 with
      | inl e => (received_failure e, destination, b)
      | inr (packet_count, total_size) =>
        if (length destination <? total_size)%nat
        then (received_failure Error.buffer_too_small, destination, b)
        else
          let b := invalidate_delivery_queries b in
          let '(destination, written, b) := deliver_packets packet_count 0 0 destination b in
          let b := advance_frontier (Z.of_nat packet_count) b in
          let b := set_occupied_count (occupied_count b - packet_count)%nat b in
          let b := trim_dropped_prefix b in
          let b := refresh_first_buffered_timestamp b in
          ({| received_error := Error.none; bytes_written := written;
              received_message_number := message_number;
              received_first_sequence := message_first_sequence;
              received_timestamp := timestamp; delivery_time_microseconds := None |},
           destination, b)
      end
  end.

(** * Cached delivery queries *)

Definition remember_packet (r : option BufferedMessageInfo) (b : t) : option BufferedMessageInfo * t :=
  (r, set_packet_query_valid true (set_packet_query r b)).
Definition remember_message (r : option BufferedMessageInfo) (b : t) : option BufferedMessageInfo * t :=
  (r, set_message_query_valid true (set_message_query r b)).

Definition packet_info (s : SequenceNumber.t) (slot : Slot) (last : SequenceNumber.t) : BufferedMessageInfo :=
  {| info_first_sequence := s; info_last_sequence := last; info_timestamp := timestamp (header slot) |}.

(** [first_buffered_packet] and [query_first_buffered_packet]. *)
Definition first_buffered_packet (b : t) : option BufferedMessageInfo * t :=
  if packet_query_valid b then (packet_query b, b)
  else if (occupied_count b =? 0)%nat then remember_packet None b
  else
    match next_occupied_offset b 0 with
    | Some offset =>
      let candidate := SequenceNumber.advanced (first_stored_sequence b) (u32 (Z.of_nat offset)) in
      match find b candidate with
      | Some i => remember_packet (Some (packet_info candidate (slot_at b i) candidate)) b
      | None => remember_packet None b
      end
    | None => remember_packet None b
    end.

(** The fragment loop: the sequence number of the fragment that completes the
    message. *)
Fixpoint find_message_end (remaining : nat) (b : t) (m : Z) (s : SequenceNumber.t) : option SequenceNumber.t :=
  match remaining with
  | O => None
  | S remaining =>
    match find b s with
    | None => None
    | Some i =>
      let slot := slot_at b i in
      if negb (message_number (header slot) =? m) || (negb (is_subsequent slot) && negb (is_last slot))
      then None
      else if is_last slot then Some s
      else find_message_end remaining b m (SequenceNumber.next s)
    end
  end.

(** The walk over readable packets; offsets increase, so [capacity] rounds are
    enough. *)
Fixpoint find_complete_message (fuel : nat) (b : t) (offset : option nat) : option BufferedMessageInfo :=
  match fuel, offset with
  | S fuel, Some o =>
    let candidate := SequenceNumber.advanced (first_stored_sequence b) (u32 (Z.of_nat o)) in
    let continue := find_complete_message fuel b (next_occupied_offset b (o + 1)%nat) in
    match find b candidate with
    | None => continue
    | Some i =>
      let first := slot_at b i in
      if negb (is_solo first) && negb (is_first first) then continue
      else if is_solo first then Some (packet_info candidate first candidate)
      else
        match find_message_end (capacity b - o - 1)%nat b (message_number (header first))
                (SequenceNumber.next candidate) with
        | Some last => Some (packet_info candidate first last)
        | None => continue
        end
    end
  | _, _ => None
  end.

(** [first_complete_message] and [query_first_complete_message]. *)
Definition first_complete_message (b : t) : option BufferedMessageInfo * t :=
  if message_query_valid b then (message_query b, b)
  else if (occupied_count b =? 0)%nat then remember_message None b
  else remember_message (find_complete_message (capacity b) b (next_occupied_offset b 0)) b.

Definition has_complete_message (b : t) : bool * t :=
  match find b (first_stored_sequence b) with
  | None => (false, b)
  | Some i =>
    if negb (is_solo (slot_at b i)) && negb (is_first (slot_at b i)) then (false, b)
    else
      let '(message, b) := first_complete_message b in
      (match message with
       | Some m => info_first_sequence m =? first_stored_sequence b
       | None => false
       end, b)
  end.

(** * Other ways to read *)

(** [slot->dropped = true]: the delivered marker. *)
Definition mark_delivered (s : Slot) : Slot :=
  set_gap_deadline 0 (set_payload_offset 0 (set_payload_size 0 (set_dropped true (set_occupied false s)))).

Definition pop_message_unordered (b : t) (destination : list Z) : ReceivedMessageResult * list Z * t :=
  let '(message, b) := first_complete_message b in
  match message with
  | None => (received_failure Error.would_block, destination, b)
  | Some message =>
    if info_first_sequence message =? first_stored_sequence b then pop_message b destination
    else if negb (info_first_sequence message =? info_last_sequence message)
    then (received_failure Error.invalid_state, destination, b)
    else
      match find b (info_first_sequence message) with
      | None => (received_failure Error.invalid_state, destination, b)
      | Some i =>
        let slot := slot_at b i in
        if negb (is_solo slot) || negb (payload_offset slot =? 0)%nat
        then (received_failure Error.invalid_state, destination, b)
        else if (length destination <? payload_size slot)%nat
        then (received_failure Error.buffer_too_small, destination, b)
        else
          let b := invalidate_delivery_queries b in
          let size := payload_size slot in
          let destination :=
            overwrite 0 (take size (PayloadPool.get (payloads b) (payload_index slot))) destination in
          let b := set_payloads (PayloadPool.release (payloads b) (payload_index slot)) b in
          let b := set_buffered_payload_bytes (buffered_payload_bytes b - size)%nat b in
          let b := set_occupied_count (occupied_count b - 1)%nat b in
          let b := index_occupied
                     (position b (Z.to_nat (SequenceNumber.distance_from (info_first_sequence message)
                                              (first_stored_sequence b)))) false true b in
          let b := update_slot i mark_delivered b in
          let b := advance_acknowledgement b in
          let b := trim_dropped_prefix b in
          let b := refresh_buffered_timestamp_bounds b in
          ({| received_error := Error.none; bytes_written := size;
              received_message_number := message_number (header slot);
              received_first_sequence := info_first_sequence message;
              received_timestamp := timestamp (header slot); delivery_time_microseconds := None |},
           destination, b)
      end
  end.

Section stream.
Context {C : Type}.

(** [PacketDuePredicate] with its context: a call may change the context (the
    session passes its delivery clock); [None] is the null pointer. *)
Definition call_due (due : option (PacketTimestamp.t -> C -> bool * C)) (ts : PacketTimestamp.t) (context : C)
    : bool * C :=
  match due with None => (true, context) | Some f => f ts context end.

(** A packet read to its end leaves the head of the window. *)
Definition consume_head (i : nat) (b : t) : t :=
  let b := invalidate_delivery_queries b in
  let b := set_payloads (PayloadPool.release (payloads b) (payload_index (slot_at b i))) b in
  let b := index_occupied (head b) false true b in
  let b := update_slot i empty_slot b in
  let b := advance_frontier 1 b in
  let b := set_occupied_count (occupied_count b - 1)%nat b in
  trim_dropped_prefix b.

(** Every round but the last removes a packet: [capacity] rounds and a last one
    are enough. *)
Fixpoint stream_loop (fuel : nat) due (context : C) (written : nat) (destination : list Z) (removed : bool) (b : t)
    : nat * list Z * bool * C * t :=
  match fuel with
  | O => (written, destination, removed, context, b)
  | S fuel =>
    if (length destination <=? written)%nat then (written, destination, removed, context, b)
    else
      match find b (first_stored_sequence b) with
      | None => (written, destination, removed, context, b)
      | Some i =>
        let slot := slot_at b i in
        let '(ready, context) := call_due due (timestamp (header slot)) context in
        if negb ready then (written, destination, removed, context, b)
        else
          let remaining := (payload_size slot - payload_offset slot)%nat in
          let copied := Nat.min remaining (length destination - written)%nat in
          let destination :=
            overwrite written
              (take copied (drop (payload_offset slot) (PayloadPool.get (payloads b) (payload_index slot))))
              destination in
          let written := (written + copied)%nat in
          let b := set_buffered_payload_bytes (buffered_payload_bytes b - copied)%nat b in
          let b := update_slot i (set_payload_offset (cast_u16 (payload_offset slot + copied))) b in
          if negb (payload_offset (slot_at b i) =? payload_size (slot_at b i))%nat
          then (written, destination, removed, context, b)
          else stream_loop fuel due context written destination true (consume_head i b)
      end
  end.

Definition pop_stream (b : t) (destination : list Z) due (context : C)
    : ReceivedMessageResult * list Z * C * t :=
  if (length destination =? 0)%nat then (received_failure Error.invalid_state, destination, context, b)
  else
    match find b (first_stored_sequence b) with
    | None => (received_failure Error.would_block, destination, context, b)
    | Some i =>
      let first := slot_at b i in
      let '(ready, context) := call_due due (timestamp (header first)) context in
      if negb ready then (received_failure Error.would_block, destination, context, b)
      else
        let first_sequence := first_stored_sequence b in
        let '(written, destination, removed, context, b) :=
          stream_loop (S (capacity b)) due context 0 destination false b in
        let b := if removed : bool then refresh_first_buffered_timestamp b else b in
        ({| received_error := Error.none; bytes_written := written;
            received_message_number := message_number (header first);
            received_first_sequence := first_sequence;
            received_timestamp := timestamp (header first); delivery_time_microseconds := None |},
         destination, context, b)
    end.
End stream.

(** * Window, gaps, spans *)

Fixpoint window_loop (b : t) (offset : nat) : nat :=
  match offset with
  | O => capacity b
  | S offset' =>
    let slot := slot_at b (position b offset') in
    if occupied slot || dropped slot then (capacity b - offset)%nat else window_loop b offset'
  end.
Definition window_available (b : t) : nat := window_loop b (capacity b).

Definition mark_gap_at (deadline : Z) (s : SequenceNumber.t) (b : t) : t :=
  let signed_offset := SequenceNumber.distance_from s (first_stored_sequence b) in
  if (0 <=? signed_offset) && (Z.to_nat signed_offset <? capacity b)%nat then
    let i := position b (Z.to_nat signed_offset) in
    let slot := slot_at b i in
    if negb (occupied slot) && negb (dropped slot) && (gap_deadline_microseconds slot =? 0)
    then update_slot i (set_gap_deadline deadline) b else b
  else b.

(** The loop visits the [distance + 1] sequence numbers of the range. *)
Fixpoint mark_gap_loop (rounds : nat) (deadline : Z) (s : SequenceNumber.t) (b : t) : t :=
  let b := mark_gap_at deadline s b in
  match rounds with
  | O => b
  | S rounds => mark_gap_loop rounds deadline (SequenceNumber.next s) b
  end.

Definition mark_gap (b : t) (range : SequenceRange) (deadline : Z) : t :=
  let span := SequenceNumber.distance_from (range_last range) (range_first range) in
  if (deadline =? 0) || (span <? 0) then b
  else mark_gap_loop (Z.to_nat span) deadline (range_first range) b.

Definition next_gap_deadline (b : t) : option Z :=
  fold_left (fun earliest slot =>
    if negb (gap_deadline_microseconds slot =? 0)
       && match earliest with None => true | Some e => gap_deadline_microseconds slot <? e end
    then Some (gap_deadline_microseconds slot) else earliest) (slots b) None.

(** [next_expired_gap] with its cursor and inspection budget. *)
Fixpoint expired_gap_loop (b : t) (now : Z) (cursor : SequenceNumber.t) (remaining : nat)
    : option SequenceNumber.t * SequenceNumber.t * nat :=
  match remaining with
  | O => (None, cursor, O)
  | S remaining' =>
    let offset := SequenceNumber.distance_from cursor (first_stored_sequence b) in
    if (offset <? 0) || (capacity b <=? Z.to_nat offset)%nat then (None, cursor, remaining)
    else
      let slot := slot_at b (position b (Z.to_nat offset)) in
      if negb (occupied slot) && negb (dropped slot) && negb (gap_deadline_microseconds slot =? 0)
         && (gap_deadline_microseconds slot <=? now)
      then (Some cursor, SequenceNumber.next cursor, remaining')
      else expired_gap_loop b now (SequenceNumber.next cursor) remaining'
  end.

Definition next_expired_gap_from (b : t) (now : Z) (cursor : SequenceNumber.t) (remaining : nat)
    : option SequenceNumber.t * SequenceNumber.t * nat :=
  let cursor := if SequenceNumber.distance_from cursor (first_stored_sequence b) <? 0
                then first_stored_sequence b else cursor in
  expired_gap_loop b now cursor remaining.

Definition next_expired_gap (b : t) (now : Z) : option SequenceNumber.t :=
  (next_expired_gap_from b now (first_stored_sequence b) (capacity b)).1.1.

Definition buffered_span_milliseconds (b : t) : Z :=
  if (occupied_count b =? 0)%nat then 0
  else
    let span := PacketTimestamp.distance_from (last_buffered_timestamp b) (first_buffered_timestamp b) in
    if 0 <=? span then u64 (u64 span / 1000 + 1) else 0.

(** * Dropping *)

Fixpoint discard_loop (count : nat) (index : nat) (b : t) : t :=
  match count with
  | O => b
  | S count =>
    let i := position b index in
    let slot := slot_at b i in
    let b :=
      if occupied slot then
        let b := set_buffered_payload_bytes
                   (buffered_payload_bytes b - (payload_size slot - payload_offset slot))%nat b in
        let b := set_payloads (PayloadPool.release (payloads b) (payload_index slot)) b in
        set_occupied_count (occupied_count b - 1)%nat b
      else b in
    let b := index_occupied i false true b in
    let b := remove_rejected_message i b in
    let b := update_slot i (fun _ => default_slot) b in
    discard_loop count (index + 1)%nat b
  end.

Definition discard_before (b : t) (next_sequence : SequenceNumber.t) : Error.t * t :=
  let distance := SequenceNumber.distance_from next_sequence (first_stored_sequence b) in
  if distance <=? 0 then (Error.none, b)
  else if SequenceNumber.half_range <=? u32 distance then (Error.invalid_state, b)
  else
    let b := invalidate_delivery_queries b in
    let count := u32 distance in
    let inspected := Nat.min (Z.to_nat count) (capacity b) in
    let b := discard_loop inspected 0 b in
    let b :=
      if (capacity b <=? Z.to_nat count)%nat then
        set_buffered_payload_bytes 0 (set_occupied_count 0
          (set_slots ((fun _ => default_slot) <$> slots b) b))
      else b in
    let b := advance_frontier count b in
    let b := if SequenceNumber.distance_from (next_ack_sequence b) next_sequence <? 0
             then set_next_ack_sequence next_sequence b else b in
    (Error.none, refresh_first_buffered_timestamp b).

Definition acknowledge_peer_drop_range (b : t) (range : SequenceRange) : bool * t :=
  if (SequenceNumber.distance_from (range_last range) (range_first range) <? 0)
     || (0 <? SequenceNumber.distance_from (range_first range) (next_ack_sequence b))
     || (SequenceNumber.distance_from (range_last range) (next_ack_sequence b) <? 0)
  then (false, b)
  else (true, advance_acknowledgement (set_next_ack_sequence (SequenceNumber.next (range_last range)) b)).

(** The stored slot at a logical offset, readable or not (the local lambda
    [slot_at] of [complete_message_last_offset]). *)
Definition stored_at (b : t) (index : nat) : option Slot :=
  let slot := slot_at b (position b index) in
  if occupied slot
     && (sequence (header slot) =? SequenceNumber.advanced (first_stored_sequence b) (u32 (Z.of_nat index)))
  then Some slot else None.

(** The walk back to the first fragment; [None] is a return without result. *)
Fixpoint message_start (b : t) (m : Z) (offset first : nat) : option nat :=
  match first with
  | O => Some O
  | S before =>
    match stored_at b first with
    | None => None
    | Some current =>
      if negb (message_number (header current) =? m) then None
      else if is_first current then Some first
      else if negb (first =? offset)%nat && negb (is_subsequent current) then None
      else if (first =? offset)%nat && negb (is_subsequent current) && negb (is_last current) then None
      else message_start b m offset before
    end
  end.

Fixpoint message_end (fuel : nat) (b : t) (m : Z) (index : nat) : option nat :=
  match fuel with
  | O => None
  | S fuel =>
    match stored_at b index with
    | None => None
    | Some fragment =>
      if negb (payload_offset fragment =? 0)%nat || negb (message_number (header fragment) =? m) then None
      else if is_last fragment then Some index
      else if negb (is_subsequent fragment) then None
      else message_end fuel b m (index + 1)%nat
    end
  end.

Definition complete_message_last_offset (b : t) (offset : nat) : option nat :=
  match stored_at b offset with
  | None => None
  | Some member =>
    if negb (payload_offset member =? 0)%nat then None
    else if is_solo member then Some offset
    else
      let m := message_number (header member) in
      match message_start b m offset offset with
      | None => None
      | Some first =>
        match stored_at b first with
        | None => None
        | Some start =>
          if negb (is_first start) || negb (message_number (header start) =? m) then None
          else message_end (capacity b - (first + 1))%nat b m (first + 1)%nat
        end
      end
  end.

(** Local variables of the loop of [drop_range_impl]. *)
Record drop_progress := {
  newly_dropped : Z;
  first_preserved : option SequenceNumber.t;
  preserve_through : option nat;
}.

(** A slot of the range that is not preserved. *)
Definition drop_slot (i : nat) (b : t) : t :=
  let slot := slot_at b i in
  let b :=
    if occupied slot then
      let b := invalidate_delivery_queries b in
      let b := set_buffered_payload_bytes
                 (buffered_payload_bytes b - (payload_size slot - payload_offset slot))%nat b in
      let b := set_payloads (PayloadPool.release (payloads b) (payload_index slot)) b in
      let b := index_occupied i false true b in
      let b := remove_rejected_message i b in
      let b := update_slot i (fun s => set_payload_offset 0 (set_payload_size 0 (set_occupied false s))) b in
      set_occupied_count (occupied_count b - 1)%nat b
    else b in
  update_slot i (fun s => set_gap_deadline 0 (set_dropped true s)) b.

Definition preserve_here (p : drop_progress) (s : SequenceNumber.t) (through : option nat) : drop_progress :=
  {| newly_dropped := newly_dropped p;
     first_preserved := match first_preserved p with None => Some s | Some x => Some x end;
     preserve_through := through |}.

Definition drop_at (preservation : DropPreservation.t) (offset : nat) (p : drop_progress) (b : t)
    : drop_progress * t :=
  let i := position b offset in
  let slot := slot_at b i in
  let dropping :=
    ({| newly_dropped := if negb (dropped slot) then u64 (newly_dropped p + 1) else newly_dropped p;
        first_preserved := first_preserved p; preserve_through := preserve_through p |}, drop_slot i b) in
  match preservation with
  | DropPreservation.received_packets =>
    if occupied slot && negb (rejected_payload slot)
       && (sequence (header slot) =? SequenceNumber.advanced (first_stored_sequence b) (u32 (Z.of_nat offset)))
    then (preserve_here p (sequence (header slot)) (preserve_through p), b)
    else dropping
  | DropPreservation.complete_messages =>
    if match preserve_through p with Some last => (offset <=? last)%nat | None => false end
    then (p, b)
    else
      match complete_message_last_offset b offset with
      | Some last => (preserve_here p (sequence (header slot)) (Some last), b)
      | None => dropping
      end
  | DropPreservation.none => dropping
  end.

Fixpoint drop_loop (preservation : DropPreservation.t) (count offset : nat) (p : drop_progress) (b : t)
    : drop_progress * t :=
  match count with
  | O => (p, b)
  | S count =>
    let '(p, b) := drop_at preservation offset p b in
    drop_loop preservation count (offset + 1)%nat p b
  end.

(** The frontier jump over the part of the range beyond the window. *)
Definition drop_frontier (range : SequenceRange) (start_offset : Z) (p : drop_progress) (b : t) : Z * t :=
  if (start_offset <=? 0)
     && (0 <=? SequenceNumber.distance_from (range_last range) (first_stored_sequence b))
  then
    let target := SequenceNumber.next (range_last range) in
    let target :=
      match first_preserved p with
      | Some preserved =>
        if (0 <=? SequenceNumber.distance_from preserved (first_stored_sequence b))
           && (0 <? SequenceNumber.distance_from target preserved)
        then preserved else target
      | None => target
      end in
    let additional_advance := u64 (SequenceNumber.distance_from target (first_stored_sequence b)) in
    let dropped := u64 (newly_dropped p + additional_advance) in
    let b := if negb (additional_advance =? 0) then invalidate_delivery_queries b else b in
    (dropped, advance_frontier additional_advance b)
  else (newly_dropped p, b).

(** [drop_range_impl]; the message number is unused, and the result adds the
    count written through [newly_dropped_packets]. *)
Definition drop_range_impl (b : t) (range : SequenceRange) (preservation : DropPreservation.t)
    : Error.t * Z * t :=
  let last_offset := SequenceNumber.distance_from (range_last range) (range_first range) in
  if last_offset <? 0 then (Error.invalid_control_payload, 0, b)
  else
    let start_offset := SequenceNumber.distance_from (range_first range) (first_stored_sequence b) in
    let end_offset := SequenceNumber.distance_from (range_last range) (first_stored_sequence b) in
    if end_offset <? 0 then (Error.none, 0, b)
    else
      let occupied_before := occupied_count b in
      let first_offset := if 0 <? start_offset then Z.to_nat start_offset else 0%nat in
      let final_offset := Nat.min (Z.to_nat end_offset) (capacity b - 1) in
      let '(p, b) := drop_loop preservation (final_offset + 1 - first_offset) first_offset
                       {| newly_dropped := 0; first_preserved := None; preserve_through := None |} b in
      let b := trim_dropped_prefix (advance_acknowledgement b) in
      let '(dropped, b) := drop_frontier range start_offset p b in
      let b :=
        if 0 <? SequenceNumber.distance_from (first_stored_sequence b) (next_ack_sequence b)
        then advance_acknowledgement (set_next_ack_sequence (first_stored_sequence b) b) else b in
      let b :=
        if negb (occupied_count b =? occupied_before)%nat then
          if defer_drop_timestamp_refresh b then set_drop_timestamp_refresh_pending true b
          else refresh_buffered_timestamp_bounds b
        else b in
      (Error.none, dropped, b).

Definition drop_range (b : t) (range : SequenceRange) : Error.t * Z * t :=
  drop_range_impl b range DropPreservation.none.
Definition drop_peer_requested_range (b : t) (range : SequenceRange) : Error.t * Z * t :=
  drop_range_impl b range DropPreservation.complete_messages.
Definition drop_peer_requested_stream_range (b : t) (range : SequenceRange) : Error.t * Z * t :=
  drop_range_impl b range DropPreservation.received_packets.

(** * Copies of complete messages *)

Definition slot_of (b : t) (index : nat) : option Slot :=
  match find b (SequenceNumber.advanced (first_stored_sequence b) (u32 (Z.of_nat index))) with
  | Some i => Some (slot_at b i)
  | None => None
  end.

(** The size of the packets from [index] on; [inr None] is [oversized]. *)
Fixpoint message_bytes (count : nat) (b : t) (index maximum_bytes bytes : nat) : Error.t + option nat :=
  match count with
  | O => inr (Some bytes)
  | S count =>
    match slot_of b index with
    | None => inl Error.invalid_state
    | Some slot =>
      if negb (payload_offset slot =? 0)%nat then inl Error.invalid_state
      else if (maximum_bytes - bytes <? payload_size slot)%nat then inr None
      else message_bytes count b (index + 1)%nat maximum_bytes (bytes + payload_size slot)%nat
    end
  end.

Fixpoint copy_packets (count : nat) (b : t) (index written : nat) (payload : list Z) : Error.t + list Z :=
  match count with
  | O => inr payload
  | S count =>
    match slot_of b index with
    | None => inl Error.invalid_state
    | Some slot =>
      copy_packets count b (index + 1)%nat (written + payload_size slot)%nat
        (overwrite written (take (payload_size slot) (PayloadPool.get (payloads b) (payload_index slot))) payload)
    end
  end.

(** Offsets increase with every round.  Allocation always succeeds in the model. *)
Fixpoint copy_loop (fuel : nat) (b : t) (maximum_packets maximum_bytes offset packets bytes : nat)
    (messages : list BufferedMessageCopy) : Error.t * list BufferedMessageCopy :=
  match fuel with
  | O => (Error.none, messages)
  | S fuel =>
    if negb ((offset <? capacity b)%nat && negb (occupied_count b =? 0)%nat) then (Error.none, messages)
    else
      let continue last := copy_loop fuel b maximum_packets maximum_bytes (last + 1)%nat packets bytes messages in
      let first_sequence := SequenceNumber.advanced (first_stored_sequence b) (u32 (Z.of_nat offset)) in
      match find b first_sequence with
      | None => continue offset
      | Some i =>
        let first := slot_at b i in
        if negb (payload_offset first =? 0)%nat || (negb (is_solo first) && negb (is_first first))
        then continue offset
        else
          match complete_message_last_offset b offset with
          | None => continue offset
          | Some last =>
            let packet_count := (last - offset + 1)%nat in
            if (maximum_packets <? packet_count)%nat then continue last
            else
              match message_bytes packet_count b offset maximum_bytes 0 with
              | inl e => (e, [])
              | inr None => continue last
              | inr (Some message_bytes) =>
                if (maximum_packets - packets <? packet_count)%nat || (maximum_bytes - bytes <? message_bytes)%nat
                then (Error.none, messages)
                else
                  match copy_packets packet_count b offset 0 (replicate message_bytes 0) with
                  | inl e => (e, [])
                  | inr payload =>
                    let copy :=
                      {| copy_first_sequence := first_sequence;
                         copy_next_sequence :=
                           SequenceNumber.advanced (first_stored_sequence b) (u32 (Z.of_nat (last + 1)));
                         copy_timestamp := timestamp (header first);
                         copy_message_number := message_number (header first);
                         copy_payload := payload |} in
                    copy_loop fuel b maximum_packets maximum_bytes (last + 1)%nat
                      (packets + packet_count)%nat (bytes + message_bytes)%nat (messages ++ [copy])
                  end
              end
          end
      end
  end.

Definition copy_complete_messages (b : t) (maximum_packets maximum_bytes : nat)
    : Error.t * list BufferedMessageCopy :=
  copy_loop (S (capacity b)) b maximum_packets maximum_bytes 0 0 0 [].
End ReceiveBuffer.
