(* ===== verification/ReceiveBufferFacts.v ===== *)
(** The invariant of the receive buffer's storage: slots, payload pool, bit
    indexes, rejected messages and counters agree, and each primitive change of a
    slot keeps them in agreement. *)
From stdpp Require Import gmap.
From S2P Require Import Prelude Sequence Packet Codec Control LossList ReceiveWindow.
From S2P Require Import PayloadPool OccupiedIndex RejectedMessages ReceiveBuffer.
Import ReceiveBuffer.

(** * Slots *)

Definition readable (s : Slot) : bool := occupied s && negb (rejected_payload s).
Definition settled (s : Slot) : bool := occupied s || dropped s.
Definition unread (s : Slot) : nat := (payload_size s - payload_offset s)%nat.
Definition msg (s : Slot) : Z := message_number (header s).
Definition rejected_list (ss : list Slot) : list Z := msg <$> List.filter rejected_payload ss.

Record slot_wf (s : Slot) : Prop := {
  wf_exclusive : occupied s = true -> dropped s = false;
  wf_rejected : rejected_payload s = true -> occupied s = true;
  wf_offset : (payload_offset s <= payload_size s)%nat;
  wf_size : (payload_size s <= PayloadPool.width)%nat;
  wf_empty : occupied s = false -> payload_size s = 0%nat;
  wf_gap : settled s = true -> gap_deadline_microseconds s = 0;
  wf_message : occupied s = true -> is_u32 (msg s);
  wf_deadline : 0 <= gap_deadline_microseconds s;
}.

(** An empty slot with a marker and a gap deadline. *)
Definition vacant (s : Slot) : Prop :=
  occupied s = false /\ rejected_payload s = false /\ payload_size s = 0%nat /\ payload_offset s = 0%nat /\
  0 <= gap_deadline_microseconds s /\ (dropped s = true -> gap_deadline_microseconds s = 0).

Lemma vacant_wf s : vacant s -> slot_wf s.
Proof.
  intros (H1 & H2 & H3 & H4 & H5 & H6). split; unfold settled; rewrite ?H1, ?H2, ?H3, ?H4; simpl; auto; try discriminate; lia.
Qed.

Lemma wf_vacant s : slot_wf s -> occupied s = false -> vacant s.
Proof.
  intros [A1 A2 A3 A4 A5 A6 A7 A8] H. specialize (A5 H). unfold settled in A6. rewrite H in *. simpl in A6.
  split_and!; auto; try lia. destruct (rejected_payload s); [|reflexivity]. specialize (A2 eq_refl). discriminate.
Qed.

(** * Storage invariant *)

(** [m] maps the payload indices held by occupied slots to their bytes. *)
Record phys (b : t) (m : gmap nat (list Z)) : Prop := {
  phys_capacity : (0 < capacity b)%nat /\ Z.of_nat (capacity b) < SequenceNumber.half_range;
  phys_slots : forall i s, slots b !! i = Some s -> slot_wf s;
  phys_pool : PayloadPool.inv (capacity b) (payloads b) m;
  phys_stored : forall i s, slots b !! i = Some s -> occupied s = true ->
    exists bs, m !! payload_index s = Some bs /\ length bs = payload_size s;
  phys_inj : forall i j s s', slots b !! i = Some s -> slots b !! j = Some s' ->
    occupied s = true -> occupied s' = true -> payload_index s = payload_index s' -> i = j;
  phys_size : base.size m = countb occupied (slots b);
  phys_readable : OccupiedIndex.wf (level_offsets b) (occupied_index b) (capacity b) /\
    forall i s, slots b !! i = Some s ->
      OccupiedIndex.member (hd 0%nat (level_offsets b)) (occupied_index b) i = readable s;
  phys_storage : OccupiedIndex.wf (level_offsets b) (storage_index b) (capacity b) /\
    forall i s, slots b !! i = Some s ->
      OccupiedIndex.member (hd 0%nat (level_offsets b)) (storage_index b) i = occupied s;
  phys_rejected : RejectedMessages.inv (capacity b) (rejected b) (rejected_list (slots b));
  phys_bytes : buffered_payload_bytes b = sum_list_with unread (slots b);
}.

Lemma rejected_list_insert ss i s s' : ss !! i = Some s ->
  (if rejected_payload s then [msg s] else []) ++ rejected_list (<[i := s']> ss) ≡ₚ
  (if rejected_payload s' then [msg s'] else []) ++ rejected_list ss.
Proof.
  intros H. destruct (insert_split ss i s s' H) as [E1 E2]. rewrite E2. rewrite E1 at 3.
  unfold rejected_list. rewrite !List.filter_app, !fmap_app. simpl.
  destruct (rejected_payload s), (rejected_payload s'); simpl; solve_Permutation.
Qed.

Lemma rejected_list_length ss : (length (rejected_list ss) <= length ss)%nat.
Proof. unfold rejected_list. rewrite length_fmap. apply List.filter_length_le. Qed.

(** The index of a slot property after slot [i] has become [s']. *)
Lemma index_slots_insert offsets index (f : Slot -> bool) ss i s' :
  OccupiedIndex.wf offsets index (length ss) -> (i < length ss)%nat ->
  (forall j s, ss !! j = Some s -> OccupiedIndex.member (hd 0%nat offsets) index j = f s) ->
  OccupiedIndex.wf offsets (OccupiedIndex.index_levels offsets i (f s') index) (length (<[i := s']> ss)) /\
  forall j s, <[i := s']> ss !! j = Some s ->
    OccupiedIndex.member (hd 0%nat offsets) (OccupiedIndex.index_levels offsets i (f s') index) j = f s.
Proof.
  intros Hwf Hi Hf. rewrite length_insert.
  destruct (OccupiedIndex.index_levels_spec offsets index (length ss) i (f s') Hwf Hi) as [U1 _ U3 _].
  split; [assumption|]. intros j s Hj. assert (Hlt := lookup_lt_Some _ _ _ Hj). rewrite length_insert in Hlt.
  rewrite U3 by assumption. destruct (Nat.eqb_spec j i) as [->|Hne].
  - rewrite list_lookup_insert_eq in Hj by assumption. congruence.
  - rewrite list_lookup_insert_ne in Hj by congruence. eauto.
Qed.

(** An unchanged property needs no update of its index. *)
Lemma index_slots_same offsets index (f : Slot -> bool) ss i s s' :
  OccupiedIndex.wf offsets index (length ss) -> ss !! i = Some s -> f s' = f s ->
  (forall j s, ss !! j = Some s -> OccupiedIndex.member (hd 0%nat offsets) index j = f s) ->
  OccupiedIndex.wf offsets index (length (<[i := s']> ss)) /\
  forall j s, <[i := s']> ss !! j = Some s -> OccupiedIndex.member (hd 0%nat offsets) index j = f s.
Proof.
  intros Hwf Hi Hs Hf. rewrite length_insert. split; [assumption|]. intros j s0 Hj.
  destruct (decide (j = i)) as [->|Hne].
  - rewrite list_lookup_insert_eq in Hj by (apply lookup_lt_Some in Hi; assumption).
    injection Hj as <-. rewrite Hs. eauto.
  - rewrite list_lookup_insert_ne in Hj by congruence. eauto.
Qed.

(** * Primitive changes of a slot *)

(** An occupied slot gives up its packet and becomes [s']. *)
Definition forget (i : nat) (s' : Slot) (b : t) : t :=
  let s := slot_at b i in
  set_slots (<[i := s']> (slots b))
    (set_rejected (if rejected_payload s then RejectedMessages.remove_rejected_message (rejected b) (msg s)
                   else rejected b)
      (set_occupied_index (OccupiedIndex.index_levels (level_offsets b) i false (occupied_index b))
        (set_storage_index (OccupiedIndex.index_levels (level_offsets b) i false (storage_index b))
          (set_payloads (PayloadPool.release (payloads b) (payload_index s))
            (set_buffered_payload_bytes (buffered_payload_bytes b - unread s)%nat b))))).

Lemma slot_at_lookup b i s : slots b !! i = Some s -> slot_at b i = s.
Proof. intros. unfold slot_at. apply list_lookup_total_correct. assumption. Qed.

Lemma lookup_slot b i : (i < capacity b)%nat -> slots b !! i = Some (slot_at b i).
Proof. intros. apply list_lookup_lookup_total_lt. assumption. Qed.

Lemma forget_phys b m i s s' : phys b m -> slots b !! i = Some s -> occupied s = true -> vacant s' ->
  phys (forget i s' b) (delete (payload_index s) m).
Proof.
  intros [P1 P2 P3 P4 P5 P6 P7 P8 P9 P10] Hi Ho Hv. pose proof (lookup_lt_Some _ _ _ Hi) as Hlt.
  pose proof (vacant_wf s' Hv) as Hw. destruct Hv as (V1 & V2 & V3 & V4 & V5 & V6).
  unfold forget. rewrite (slot_at_lookup b i s Hi). unfold capacity in *.
  assert (Hidx : forall j u, <[i := s']> (slots b) !! j = Some u -> occupied u = true -> j <> i /\ slots b !! j = Some u).
  { intros j u Hj Hu. destruct (decide (j = i)) as [->|Hne].
    - rewrite list_lookup_insert_eq in Hj by assumption. congruence.
    - rewrite list_lookup_insert_ne in Hj by congruence. auto. }
  destruct (P4 i s Hi Ho) as (bs & Hbs & _).
  split; unfold capacity; cbn [slots payloads occupied_index storage_index level_offsets rejected buffered_payload_bytes
    set_slots set_rejected set_occupied_index set_storage_index set_payloads set_buffered_payload_bytes];
    rewrite ?length_insert; auto.
  - intros j u Hj. destruct (decide (j = i)) as [->|Hne].
    + rewrite list_lookup_insert_eq in Hj by assumption. congruence.
    + rewrite list_lookup_insert_ne in Hj by congruence. eauto.
  - apply PayloadPool.release_inv; [assumption|eauto].
  - intros j u Hj Hu. destruct (Hidx j u Hj Hu) as [Hne Hj']. destruct (P4 j u Hj' Hu) as (bs' & Hb' & Hl').
    exists bs'. split; [|assumption]. rewrite lookup_delete_ne; [assumption|]. intros E. apply Hne. symmetry. eapply P5; eauto.
  - intros j k u u' Hj Hk Hu Hu'. destruct (Hidx j u Hj Hu), (Hidx k u' Hk Hu'). eauto.
  - rewrite map_size_delete_Some by eauto. pose proof (countb_insert occupied _ i s s' Hi) as Hc. rewrite V1, Ho in Hc. lia.
  - pose proof (index_slots_insert (level_offsets b) (occupied_index b) readable (slots b) i s' (proj1 P7) Hlt (proj2 P7)) as H.
    assert (Er : readable s' = false) by (unfold readable; rewrite V1; reflexivity).
    rewrite Er, length_insert in H. exact H.
  - pose proof (index_slots_insert (level_offsets b) (storage_index b) occupied (slots b) i s' (proj1 P8) Hlt (proj2 P8)) as H.
    rewrite V1, length_insert in H. exact H.
  - pose proof (rejected_list_insert (slots b) i s s' Hi) as Hr. rewrite V2 in Hr. simpl in Hr.
    destruct (rejected_payload s); [|rewrite Hr; assumption].
    eapply RejectedMessages.remove_inv; [exact P9|]. symmetry. exact Hr.
  - pose proof (sum_insert unread _ i s s' Hi) as Hs. unfold unread at 4 in Hs. rewrite V3 in Hs. lia.
Qed.

(** A vacant slot changes its markers. *)
Lemma remark_phys b m i s s' : phys b m -> slots b !! i = Some s -> occupied s = false -> vacant s' ->
  phys (set_slots (<[i := s']> (slots b)) b) m.
Proof.
  intros [P1 P2 P3 P4 P5 P6 P7 P8 P9 P10] Hi Ho Hv. pose proof (lookup_lt_Some _ _ _ Hi) as Hlt.
  pose proof (wf_vacant s (P2 _ _ Hi) Ho) as (W1 & W2 & W3 & W4 & _).
  pose proof (vacant_wf s' Hv) as Hw. destruct Hv as (V1 & V2 & V3 & V4 & V5 & V6). unfold capacity in *.
  assert (Hidx : forall j u, <[i := s']> (slots b) !! j = Some u -> occupied u = true -> slots b !! j = Some u).
  { intros j u Hj Hu. destruct (decide (j = i)) as [->|Hne].
    - rewrite list_lookup_insert_eq in Hj by assumption. congruence.
    - rewrite list_lookup_insert_ne in Hj by congruence. auto. }
  split; unfold capacity; cbn [slots payloads occupied_index storage_index level_offsets rejected buffered_payload_bytes set_slots];
    rewrite ?length_insert; auto.
  - intros j u Hj. destruct (decide (j = i)) as [->|Hne].
    + rewrite list_lookup_insert_eq in Hj by assumption. congruence.
    + rewrite list_lookup_insert_ne in Hj by congruence. eauto.
  - intros j u Hj Hu. eauto.
  - intros j k u u' Hj Hk Hu Hu'. eauto.
  - pose proof (countb_insert occupied _ i s s' Hi) as Hc. rewrite V1, Ho in Hc. lia.
  - pose proof (index_slots_same (level_offsets b) (occupied_index b) readable (slots b) i s s' (proj1 P7) Hi) as H.
    rewrite length_insert in H. apply H; [unfold readable; rewrite V1, Ho; reflexivity|apply P7].
  - pose proof (index_slots_same (level_offsets b) (storage_index b) occupied (slots b) i s s' (proj1 P8) Hi) as H.
    rewrite length_insert in H. apply H; [congruence|apply P8].
  - pose proof (rejected_list_insert (slots b) i s s' Hi) as Hr. rewrite V2, W2 in Hr. simpl in Hr. rewrite Hr. assumption.
  - pose proof (sum_insert unread _ i s s' Hi) as Hs. unfold unread at 2 4 in Hs. rewrite V3, W3 in Hs. lia.
Qed.

(** A vacant slot takes the packet stored in [pool] at its index. *)
Definition fill (i : nat) (s' : Slot) (pool : PayloadPool.t) (b : t) : t :=
  set_slots (<[i := s']> (slots b))
    (set_occupied_index (OccupiedIndex.index_levels (level_offsets b) i true (occupied_index b))
      (set_storage_index (OccupiedIndex.index_levels (level_offsets b) i true (storage_index b))
        (set_payloads pool
          (set_buffered_payload_bytes (buffered_payload_bytes b + payload_size s')%nat b)))).

Lemma countb_lt_length {A} (f : A -> bool) l i x : l !! i = Some x -> f x = false -> (countb f l < length l)%nat.
Proof.
  intros H Hf. destruct (insert_split l i x x H) as [E _]. rewrite E, countb_app, length_app. simpl. rewrite Hf.
  pose proof (countb_le f (take i l)). pose proof (countb_le f (drop (S i) l)). lia.
Qed.

Lemma fill_phys b m i s s' bs pool : phys b m -> slots b !! i = Some s -> occupied s = false ->
  (length bs <= PayloadPool.width)%nat -> PayloadPool.acquire (payloads b) bs = (payload_index s', pool) ->
  slot_wf s' -> readable s' = true -> payload_offset s' = 0%nat -> payload_size s' = length bs ->
  phys (fill i s' pool b) (<[payload_index s' := bs]> m) /\ m !! payload_index s' = None.
Proof.
  intros [P1 P2 P3 P4 P5 P6 P7 P8 P9 P10] Hi Ho Hb Ha Hw Hr Hoff Hsz. pose proof (lookup_lt_Some _ _ _ Hi) as Hlt.
  pose proof (wf_vacant s (P2 _ _ Hi) Ho) as (W1 & W2 & W3 & W4 & _).
  pose proof Hr as Hr'. unfold readable in Hr'. apply andb_true_iff in Hr' as [V1 V2]. apply negb_true_iff in V2.
  unfold capacity in *. pose proof (PayloadPool.acquire_inv _ _ _ bs P3) as Hacq.
  pose proof (countb_lt_length occupied _ i s Hi Ho) as Hroom.
  rewrite Ha in Hacq. destruct Hacq as (A1 & A2 & A3); [lia|assumption|]. split; [|assumption].
  assert (Hidx : forall j u, <[i := s']> (slots b) !! j = Some u ->
    (j = i /\ u = s') \/ (j <> i /\ slots b !! j = Some u)).
  { intros j u Hj. destruct (decide (j = i)) as [->|Hne].
    - rewrite list_lookup_insert_eq in Hj by assumption. left. split; congruence.
    - rewrite list_lookup_insert_ne in Hj by congruence. auto. }
  assert (Hfresh : forall j u, slots b !! j = Some u -> occupied u = true -> payload_index u <> payload_index s').
  { intros j u Hj Hu E. destruct (P4 j u Hj Hu) as (bs' & Hb' & _). congruence. }
  split; unfold capacity, fill; cbn [slots payloads occupied_index storage_index level_offsets rejected buffered_payload_bytes
    set_slots set_occupied_index set_storage_index set_payloads set_buffered_payload_bytes];
    rewrite ?length_insert; auto.
  - intros j u Hj. destruct (Hidx j u Hj) as [[-> ->]|[_ Hj']]; eauto.
  - intros j u Hj Hu. destruct (Hidx j u Hj) as [[-> ->]|[_ Hj']].
    + exists bs. rewrite lookup_insert_eq. auto.
    + destruct (P4 j u Hj' Hu) as (bs' & Hb' & Hl'). exists bs'. rewrite lookup_insert_ne; [auto|]. intros E. eapply Hfresh; eauto.
  - intros j k u u' Hj Hk Hu Hu' E.
    destruct (Hidx j u Hj) as [[-> ->]|[_ Hj']], (Hidx k u' Hk) as [[-> ->]|[_ Hk']]; eauto.
    + exfalso. eapply Hfresh; [exact Hk'|exact Hu'|]. congruence.
    + exfalso. eapply Hfresh; [exact Hj'|exact Hu|]. congruence.
  - rewrite map_size_insert_None by assumption. pose proof (countb_insert occupied _ i s s' Hi) as Hc. rewrite V1, Ho in Hc. lia.
  - pose proof (index_slots_insert (level_offsets b) (occupied_index b) readable (slots b) i s' (proj1 P7) Hlt (proj2 P7)) as H.
    rewrite Hr, length_insert in H. exact H.
  - pose proof (index_slots_insert (level_offsets b) (storage_index b) occupied (slots b) i s' (proj1 P8) Hlt (proj2 P8)) as H.
    rewrite V1, length_insert in H. exact H.
  - pose proof (rejected_list_insert (slots b) i s s' Hi) as Hl. rewrite V2, W2 in Hl. simpl in Hl. rewrite Hl. assumption.
  - pose proof (sum_insert unread _ i s s' Hi) as Hs. unfold unread at 2 4 in Hs. rewrite Hoff, W3 in Hs. lia.
Qed.

(** The payload of a readable slot is rejected. *)
Definition reject (i : nat) (b : t) : t :=
  set_slots (<[i := set_rejected_payload true (slot_at b i)]> (slots b))
    (set_rejected (RejectedMessages.add_rejected_message (rejected b) (msg (slot_at b i)))
      (set_occupied_index (OccupiedIndex.index_levels (level_offsets b) i false (occupied_index b)) b)).

Lemma reject_phys b m i s : phys b m -> slots b !! i = Some s -> readable s = true -> phys (reject i b) m.
Proof.
  intros [P1 P2 P3 P4 P5 P6 P7 P8 P9 P10] Hi Hr. pose proof (lookup_lt_Some _ _ _ Hi) as Hlt.
  unfold readable in Hr. apply andb_true_iff in Hr as [Ho Hn]. apply negb_true_iff in Hn.
  pose proof (P2 i s Hi) as [A1 A2 A3 A4 A5 A6 A7 A8].
  unfold reject. rewrite (slot_at_lookup b i s Hi). set (s' := set_rejected_payload true s). unfold capacity in *.
  assert (Hidx : forall j u, <[i := s']> (slots b) !! j = Some u ->
    (j = i /\ u = s') \/ (j <> i /\ slots b !! j = Some u)).
  { intros j u Hj. destruct (decide (j = i)) as [->|Hne].
    - rewrite list_lookup_insert_eq in Hj by assumption. left. split; congruence.
    - rewrite list_lookup_insert_ne in Hj by congruence. auto. }
  split; unfold capacity; cbn [slots payloads occupied_index storage_index level_offsets rejected buffered_payload_bytes
    set_slots set_rejected set_occupied_index]; rewrite ?length_insert; auto.
  - intros j u Hj. destruct (Hidx j u Hj) as [[-> ->]|[_ Hj']]; [|eauto]. split; auto.
  - intros j u Hj Hu. destruct (Hidx j u Hj) as [[-> ->]|[_ Hj']]; [|eauto]. apply (P4 i s Hi Ho).
  - intros j k u u' Hj Hk Hu Hu' E.
    destruct (Hidx j u Hj) as [[-> ->]|[_ Hj']], (Hidx k u' Hk) as [[-> ->]|[_ Hk']]; eauto.
  - pose proof (countb_insert occupied _ i s s' Hi) as Hc. change (occupied s') with (occupied s) in Hc. lia.
  - pose proof (index_slots_insert (level_offsets b) (occupied_index b) readable (slots b) i s' (proj1 P7) Hlt (proj2 P7)) as H.
    assert (Er : readable s' = false) by (unfold readable, s'; simpl; apply andb_false_r).
    rewrite Er, length_insert in H. exact H.
  - pose proof (index_slots_same (level_offsets b) (storage_index b) occupied (slots b) i s s' (proj1 P8) Hi eq_refl (proj2 P8)) as H.
    rewrite length_insert in H. exact H.
  - pose proof (rejected_list_insert (slots b) i s s' Hi) as Hl. rewrite Hn in Hl. simpl in Hl. rewrite Hl.
    apply RejectedMessages.add_inv; auto. apply (Nat.le_lt_trans _ (countb rejected_payload (slots b))).
    + unfold rejected_list. rewrite length_fmap, countb_filter. lia.
    + eapply countb_lt_length; eassumption.
  - pose proof (sum_insert unread _ i s s' Hi) as Hs. change (unread s') with (unread s) in Hs. lia.
Qed.

(** A stream read moves the offset of an occupied slot. *)
Definition reread (i k : nat) (b : t) : t :=
  set_slots (<[i := set_payload_offset (payload_offset (slot_at b i) + k)%nat (slot_at b i)]> (slots b))
    (set_buffered_payload_bytes (buffered_payload_bytes b - k)%nat b).

Lemma reread_phys b m i k s : phys b m -> slots b !! i = Some s -> occupied s = true -> (k <= unread s)%nat ->
  phys (reread i k b) m.
Proof.
  intros [P1 P2 P3 P4 P5 P6 P7 P8 P9 P10] Hi Ho Hk. pose proof (lookup_lt_Some _ _ _ Hi) as Hlt.
  pose proof (P2 i s Hi) as [A1 A2 A3 A4 A5 A6 A7 A8]. unfold unread in Hk.
  unfold reread. rewrite (slot_at_lookup b i s Hi). set (s' := set_payload_offset _ s). unfold capacity in *.
  assert (Hidx : forall j u, <[i := s']> (slots b) !! j = Some u ->
    (j = i /\ u = s') \/ (j <> i /\ slots b !! j = Some u)).
  { intros j u Hj. destruct (decide (j = i)) as [->|Hne].
    - rewrite list_lookup_insert_eq in Hj by assumption. left. split; congruence.
    - rewrite list_lookup_insert_ne in Hj by congruence. auto. }
  split; unfold capacity; cbn [slots payloads occupied_index storage_index level_offsets rejected buffered_payload_bytes
    set_slots set_buffered_payload_bytes]; rewrite ?length_insert; auto.
  - intros j u Hj. destruct (Hidx j u Hj) as [[-> ->]|[_ Hj']]; [|eauto]. split; auto. simpl. lia.
  - intros j u Hj Hu. destruct (Hidx j u Hj) as [[-> ->]|[_ Hj']]; [|eauto]. apply (P4 i s Hi Ho).
  - intros j l u u' Hj Hl Hu Hu' E.
    destruct (Hidx j u Hj) as [[-> ->]|[_ Hj']], (Hidx l u' Hl) as [[-> ->]|[_ Hl']]; eauto.
  - pose proof (countb_insert occupied _ i s s' Hi) as Hc. change (occupied s') with (occupied s) in Hc. lia.
  - pose proof (index_slots_same (level_offsets b) (occupied_index b) readable (slots b) i s s' (proj1 P7) Hi eq_refl (proj2 P7)) as H.
    rewrite length_insert in H. exact H.
  - pose proof (index_slots_same (level_offsets b) (storage_index b) occupied (slots b) i s s' (proj1 P8) Hi eq_refl (proj2 P8)) as H.
    rewrite length_insert in H. exact H.
  - pose proof (rejected_list_insert (slots b) i s s' Hi) as Hl. change (rejected_payload s') with (rejected_payload s) in Hl.
    change (msg s') with (msg s) in Hl. destruct (rejected_payload s); simpl in Hl; [apply Permutation_cons_inv in Hl|]; rewrite Hl; assumption.
  - pose proof (sum_insert unread _ i s s' Hi) as Hs. pose proof (sum_lookup_le unread _ i s Hi).
    unfold unread at 2 4 in Hs. unfold unread at 1 in H. simpl in Hs. lia.
Qed.

Lemma phys_ext b b' m : slots b' = slots b -> payloads b' = payloads b -> occupied_index b' = occupied_index b ->
  storage_index b' = storage_index b -> level_offsets b' = level_offsets b -> rejected b' = rejected b ->
  buffered_payload_bytes b' = buffered_payload_bytes b -> phys b m -> phys b' m.
Proof.
  intros E1 E2 E3 E4 E5 E6 E7 [P1 P2 P3 P4 P5 P6 P7 P8 P9 P10].
  split; unfold capacity in *; rewrite ?E1, ?E2, ?E3, ?E4, ?E5, ?E6, ?E7; assumption.
Qed.

(** * The window *)

(** The slot and the sequence number at a logical offset. *)
Definition lslot (b : t) (off : nat) : Slot := slot_at b (position b off).
Definition seq_at (b : t) (off : nat) : SequenceNumber.t :=
  SequenceNumber.advanced (first_stored_sequence b) (Z.of_nat off).

Record window (b : t) : Prop := {
  win_capacity : (0 < capacity b)%nat /\ Z.of_nat (capacity b) < SequenceNumber.half_range;
  win_head : (head b < capacity b)%nat;
  win_first : SequenceNumber.wf (first_stored_sequence b);
  win_sequence : forall off, (off < capacity b)%nat -> occupied (lslot b off) = true ->
    sequence (header (lslot b off)) = seq_at b off;
}.

Section window.
Context (b : t).
Hypothesis Hw : window b.

Lemma position_lt off : (position b off < capacity b)%nat.
Proof. unfold position. apply ring_index_lt. apply Hw. Qed.

Lemma position_inj off off' : (off < capacity b)%nat -> (off' < capacity b)%nat ->
  position b off = position b off' -> off = off'.
Proof.
  destruct Hw as [_ Hh _ _]. unfold position. intros H1 H2. rewrite !ring_index by lia. repeat case_if; lia.
Qed.

(** Every physical slot has one logical offset. *)
Definition offset_of (i : nat) : nat := ((i + capacity b - head b) mod capacity b)%nat.

Lemma offset_of_position off : (off < capacity b)%nat -> offset_of (position b off) = off.
Proof.
  destruct Hw as [_ Hh _ _]. intros H. unfold offset_of, position. rewrite ring_index by lia. case_if.
  - replace (head b + off + capacity b - head b)%nat with (off + 1 * capacity b)%nat by lia.
    rewrite Nat.Div0.mod_add. apply Nat.mod_small. assumption.
  - replace (head b + off - capacity b + capacity b - head b)%nat with off by lia. apply Nat.mod_small. assumption.
Qed.

Lemma position_offset_of i : (i < capacity b)%nat -> position b (offset_of i) = i /\ (offset_of i < capacity b)%nat.
Proof.
  destruct Hw as [[Hc _] Hh _ _]. intros H. unfold offset_of, position.
  assert (Hlt : ((i + capacity b - head b) mod capacity b < capacity b)%nat) by (apply ring_index_lt; lia).
  split; [|assumption]. destruct (decide (head b <= i)%nat).
  - replace (i + capacity b - head b)%nat with (i - head b + 1 * capacity b)%nat by lia.
    rewrite Nat.Div0.mod_add, (Nat.mod_small (i - head b)) by lia. rewrite ring_index by lia. case_if; lia.
  - rewrite (Nat.mod_small (i + capacity b - head b)) by lia. rewrite ring_index by lia. case_if; lia.
Qed.

Lemma lslot_lookup off : slots b !! position b off = Some (lslot b off).
Proof. apply lookup_slot, position_lt. Qed.

Lemma u32_offset off : (off < capacity b)%nat -> u32 (Z.of_nat off) = Z.of_nat off.
Proof.
  destruct Hw as [[_ Hc] _ _ _]. SequenceNumber.consts. intros. apply u32_id. unfold is_u32. lia.
Qed.

Lemma seq_at_wf off : SequenceNumber.wf (seq_at b off).
Proof. apply SequenceNumber.advanced_wf. Qed.

Lemma seq_at_0 : seq_at b 0 = first_stored_sequence b.
Proof.
  unfold seq_at. rewrite SequenceNumber.advanced_mod, Z.add_0_r. apply Z.mod_small. apply Hw.
Qed.

Lemma next_seq_at off : SequenceNumber.next (seq_at b off) = seq_at b (S off).
Proof.
  unfold seq_at. rewrite SequenceNumber.next_mod, !SequenceNumber.advanced_mod.
  rewrite Zplus_mod_idemp_l. f_equal. lia.
Qed.

Lemma distance_seq_at off : Z.of_nat off < SequenceNumber.half_range ->
  SequenceNumber.distance_from (seq_at b off) (first_stored_sequence b) = Z.of_nat off.
Proof. intros. apply SequenceNumber.distance_advanced. SequenceNumber.consts. lia. Qed.

Lemma seq_at_inj off off' : (off < capacity b)%nat -> (off' < capacity b)%nat -> seq_at b off = seq_at b off' -> off = off'.
Proof.
  destruct Hw as [[_ Hc] _ _ _]. intros H1 H2 E. apply Nat2Z.inj.
  rewrite <- (distance_seq_at off), <- (distance_seq_at off') by lia. congruence.
Qed.

(** A sequence number at a nonnegative distance is at that offset. *)
Lemma seq_at_distance s : SequenceNumber.wf s ->
  0 <= SequenceNumber.distance_from s (first_stored_sequence b) ->
  s = seq_at b (Z.to_nat (SequenceNumber.distance_from s (first_stored_sequence b))).
Proof.
  intros H1 H2. unfold seq_at. rewrite Z2Nat.id by assumption. symmetry. apply SequenceNumber.advanced_distance. assumption.
Qed.

(** Whether a sequence number lies in the window is whether it is some offset's. *)
Lemma in_window_spec s : SequenceNumber.wf s ->
  let d := SequenceNumber.distance_from s (first_stored_sequence b) in
  if (d <? 0) || (capacity b <=? Z.to_nat d)%nat
  then forall off, (off < capacity b)%nat -> s <> seq_at b off
  else (Z.to_nat d < capacity b)%nat /\ s = seq_at b (Z.to_nat d).
Proof.
  intros Hs d. destruct Hw as [[_ Hc] _ _ _]. destruct (Z.ltb_spec d 0) as [Hd|Hd]; cbn [orb].
  - intros off Ho ->. unfold d in Hd. rewrite distance_seq_at in Hd by lia. lia.
  - destruct (Nat.leb_spec (capacity b) (Z.to_nat d)) as [Hl|Hl].
    + intros off Ho ->. unfold d in Hl. rewrite distance_seq_at in Hl by lia. lia.
    + split; [assumption|]. apply seq_at_distance; assumption.
Qed.

Lemma find_seq_at off : (off < capacity b)%nat ->
  find b (seq_at b off) = if readable (lslot b off) then Some (position b off) else None.
Proof.
  intros Ho. pose proof Hw as [[_ Hc] _ _ Hs]. unfold find. rewrite distance_seq_at by lia.
  rewrite (proj2 (Z.ltb_ge _ _)), Nat2Z.id, (proj2 (Nat.leb_gt _ _)) by lia. cbn [orb]. fold (lslot b off).
  unfold readable. specialize (Hs off Ho). destruct (occupied (lslot b off)); [|reflexivity].
  rewrite Hs, Z.eqb_refl, andb_true_r by reflexivity. reflexivity.
Qed.

Lemma find_outside s : (forall off, (off < capacity b)%nat -> s <> seq_at b off) -> SequenceNumber.wf s -> find b s = None.
Proof.
  intros H Hs. unfold find. pose proof (in_window_spec s Hs) as Hd. cbv zeta in Hd.
  destruct (_ || _); [reflexivity|]. destruct Hd as [H1 H2]. exfalso. eapply H; eauto.
Qed.

Lemma find_first : find b (first_stored_sequence b) = if readable (lslot b 0) then Some (position b 0) else None.
Proof. rewrite <- seq_at_0. apply find_seq_at. apply Hw. Qed.

Lemma settled_seq_at off : (off < capacity b)%nat -> is_settled b (seq_at b off) = settled (lslot b off).
Proof.
  intros Ho. pose proof Hw as [[_ Hc] _ _ Hs]. unfold is_settled. rewrite distance_seq_at by lia.
  rewrite (proj2 (Z.ltb_ge _ _)), Nat2Z.id, (proj2 (Nat.leb_gt _ _)) by lia. cbn [orb]. fold (lslot b off).
  unfold settled. specialize (Hs off Ho). destruct (occupied (lslot b off)).
  - rewrite Hs, Z.eqb_refl by reflexivity. apply orb_true_r.
  - rewrite orb_false_r. reflexivity.
Qed.
End window.

(** Changes that keep the ring and every stored sequence number. *)
Lemma window_ext b b' : capacity b' = capacity b -> head b' = head b ->
  first_stored_sequence b' = first_stored_sequence b ->
  (forall i, (i < capacity b)%nat -> occupied (slot_at b' i) = true ->
     occupied (slot_at b i) = true /\ sequence (header (slot_at b' i)) = sequence (header (slot_at b i))) ->
  window b -> window b'.
Proof.
  intros E1 E2 E3 Hs Hw. pose proof Hw as [H1 H2 H3 H4]. split; rewrite ?E1, ?E2, ?E3; auto.
  intros off Ho Hocc. unfold lslot, seq_at in *.
  assert (Ep : position b' off = position b off) by (unfold position; rewrite E1, E2; reflexivity).
  rewrite E3, Ep in *. destruct (Hs (position b off) (position_lt b Hw off) Hocc) as [Ho' ->]. apply H4; assumption.
Qed.

Lemma advance_frontier_window b k : window b -> 0 <= k < 2 ^ 31 ->
  (forall off, (off < capacity b)%nat -> Z.of_nat off < k -> occupied (lslot b off) = false) ->
  window (advance_frontier k b).
Proof.
  intros Hw Hk Hv. pose proof Hw as [[Hc Hc'] Hh Hf Hs]. SequenceNumber.consts.
  assert (Ehead : head (advance_frontier k b) = Z.to_nat ((Z.of_nat (head b) + k) mod Z.of_nat (capacity b))).
  { unfold advance_frontier. simpl. rewrite u64_id by (unfold is_u64; lia). reflexivity. }
  assert (Efirst : first_stored_sequence (advance_frontier k b) = SequenceNumber.advanced (first_stored_sequence b) k).
  { unfold advance_frontier. simpl. rewrite u32_id by (unfold is_u32; lia). reflexivity. }
  assert (Ecap : capacity (advance_frontier k b) = capacity b) by reflexivity.
  set (b' := advance_frontier k b) in *.
  assert (Hmod := Z.mod_pos_bound (Z.of_nat (head b) + k) (Z.of_nat (capacity b)) ltac:(lia)).
  split; rewrite ?Ecap; SequenceNumber.consts; try lia.
  - rewrite Efirst. apply SequenceNumber.advanced_wf.
  - intros off Ho Hocc.
    assert (Ep : position b' off = position b (Z.to_nat ((k + Z.of_nat off) mod Z.of_nat (capacity b)))).
    { unfold position. rewrite Ecap, Ehead. apply Nat2Z.inj.
      pose proof (Z.mod_pos_bound (k + Z.of_nat off) (Z.of_nat (capacity b)) ltac:(lia)).
      rewrite !Nat2Z.inj_mod, !Nat2Z.inj_add, !Z2Nat.id by lia.
      rewrite Zplus_mod_idemp_l, Zplus_mod_idemp_r. f_equal. lia. }
    set (o := Z.to_nat ((k + Z.of_nat off) mod Z.of_nat (capacity b))) in *.
    pose proof (Z.mod_pos_bound (k + Z.of_nat off) (Z.of_nat (capacity b)) ltac:(lia)) as Hob.
    assert (Hl : lslot b' off = lslot b o) by (unfold lslot; rewrite Ep; reflexivity).
    rewrite Hl in *. assert (Hoc : (o < capacity b)%nat) by lia.
    destruct (Z.lt_ge_cases (Z.of_nat o) k) as [Hlt|Hge].
    { rewrite (Hv o Hoc Hlt) in Hocc. discriminate. }
    rewrite (Hs o Hoc Hocc). assert (Eo : Z.of_nat o = k + Z.of_nat off).
    { unfold o in Hge |- *. rewrite Z2Nat.id in * by lia. apply Z.mod_small. split; [lia|].
      destruct (Z.lt_ge_cases (k + Z.of_nat off) (Z.of_nat (capacity b))); [assumption|exfalso].
      destruct (Z.lt_ge_cases k (Z.of_nat (capacity b))).
      - assert ((k + Z.of_nat off) mod Z.of_nat (capacity b) = k + Z.of_nat off - Z.of_nat (capacity b))
          by (symmetry; apply (Z.mod_unique _ _ 1); lia). lia.
      - lia. }
    unfold seq_at. rewrite Efirst, Eo, !SequenceNumber.advanced_mod, Zplus_mod_idemp_l. f_equal. lia.
Qed.

(** * Contents *)

(** What a physical slot holds: its fields and, if occupied, its bytes. *)
Definition content (b : t) (i : nat) : Slot * list Z :=
  (slot_at b i, if occupied (slot_at b i) then PayloadPool.get (payloads b) (payload_index (slot_at b i)) else []).
Definition lcontent (b : t) (off : nat) : Slot * list Z := content b (position b off).

Lemma content_bytes b m i : phys b m -> (i < capacity b)%nat -> occupied (slot_at b i) = true ->
  m !! payload_index (slot_at b i) = Some (content b i).2 /\ length (content b i).2 = payload_size (slot_at b i).
Proof.
  intros [P1 P2 P3 P4 P5 P6 P7 P8 P9 P10] Hi Ho. destruct (P4 i _ (lookup_slot b i Hi) Ho) as (bs & Hb & Hl).
  unfold content. rewrite Ho. simpl. rewrite (PayloadPool.inv_get _ _ _ P3 _ _ Hb). auto.
Qed.

(** Contents agree where the slot is the same and the pool still holds its bytes. *)
Lemma content_same b b' m m' i : phys b m -> phys b' m' -> (i < capacity b)%nat -> capacity b' = capacity b ->
  slot_at b' i = slot_at b i ->
  (occupied (slot_at b i) = true -> m' !! payload_index (slot_at b i) = m !! payload_index (slot_at b i)) ->
  content b' i = content b i.
Proof.
  intros P P' Hi Hc Hs Hm. destruct (occupied (slot_at b i)) eqn:Ho.
  - destruct (content_bytes b m i P Hi Ho) as [H1 _].
    destruct (content_bytes b' m' i P' ltac:(lia) ltac:(congruence)) as [H2 _].
    rewrite Hs, Hm, H1 in H2 by reflexivity. rewrite (surjective_pairing (content b' i)), (surjective_pairing (content b i)).
    f_equal; [exact Hs|congruence].
  - unfold content. rewrite Hs, Ho. reflexivity.
Qed.

Lemma slot_at_insert b i j s : (i < capacity b)%nat ->
  <[i := s]> (slots b) !!! j = if decide (j = i) then s else slot_at b j.
Proof.
  intros. destruct (decide (j = i)) as [->|].
  - apply list_lookup_total_insert_eq. assumption.
  - apply list_lookup_total_insert_ne. congruence.
Qed.

(** A change of slot [i] to [s'] that leaves the other slots and their bytes. *)
Definition changed (i : nat) (s' : Slot) (bs : list Z) (b b' : t) : Prop :=
  capacity b' = capacity b /\ content b' i = (s', bs) /\
  forall j, (j < capacity b)%nat -> j <> i -> content b' j = content b j.

Lemma changed_ext i s' bs b b1 b2 : slots b2 = slots b1 -> payloads b2 = payloads b1 ->
  changed i s' bs b b1 -> changed i s' bs b b2.
Proof.
  intros E1 E2 (C1 & C2 & C3). unfold changed, content, slot_at, capacity in *. rewrite E1, E2. auto.
Qed.

Lemma forget_changed b m i s s' : phys b m -> slots b !! i = Some s -> occupied s = true -> vacant s' ->
  changed i s' [] b (forget i s' b).
Proof.
  intros P Hi Ho Hv. pose proof (forget_phys b m i s s' P Hi Ho Hv) as P'.
  assert (Hlt : (i < capacity b)%nat) by (eapply lookup_lt_Some; eassumption).
  assert (Hcap : capacity (forget i s' b) = capacity b) by apply length_insert.
  assert (Hs : forall j, slot_at (forget i s' b) j = if decide (j = i) then s' else slot_at b j)
    by (intros; apply slot_at_insert; assumption).
  split; [assumption|]. split.
  - unfold content. rewrite Hs, decide_True by reflexivity. rewrite (proj1 Hv). reflexivity.
  - intros j Hj Hne. apply (content_same b (forget i s' b) m (delete (payload_index s) m)); auto.
    + rewrite Hs, decide_False by assumption. reflexivity.
    + intros Hoj. rewrite lookup_delete_ne; [reflexivity|]. intros E. apply Hne.
      symmetry. eapply (phys_inj b m P); eauto using lookup_slot.
Qed.

Lemma remark_changed b m i s s' : phys b m -> slots b !! i = Some s -> occupied s = false -> vacant s' ->
  changed i s' [] b (set_slots (<[i := s']> (slots b)) b).
Proof.
  intros P Hi Ho Hv. pose proof (remark_phys b m i s s' P Hi Ho Hv) as P'.
  assert (Hlt : (i < capacity b)%nat) by (eapply lookup_lt_Some; eassumption).
  set (b' := set_slots _ b) in *. assert (Hcap : capacity b' = capacity b) by apply length_insert.
  assert (Hs : forall j, slot_at b' j = if decide (j = i) then s' else slot_at b j)
    by (intros; apply slot_at_insert; assumption).
  split; [assumption|]. split.
  - unfold content. rewrite Hs, decide_True by reflexivity. rewrite (proj1 Hv). reflexivity.
  - intros j Hj Hne. apply (content_same b b' m m); auto. rewrite Hs, decide_False by assumption. reflexivity.
Qed.

Lemma fill_changed b m i s s' bs pool : phys b m -> slots b !! i = Some s -> occupied s = false ->
  (length bs <= PayloadPool.width)%nat -> PayloadPool.acquire (payloads b) bs = (payload_index s', pool) ->
  slot_wf s' -> readable s' = true -> payload_offset s' = 0%nat -> payload_size s' = length bs ->
  changed i s' bs b (fill i s' pool b).
Proof.
  intros P Hi Ho Hb Ha Hw Hr Hoff Hsz.
  destruct (fill_phys b m i s s' bs pool P Hi Ho Hb Ha Hw Hr Hoff Hsz) as [P' Hfresh].
  assert (Hlt : (i < capacity b)%nat) by (eapply lookup_lt_Some; eassumption).
  set (b' := fill i s' pool b) in *. assert (Hcap : capacity b' = capacity b) by apply length_insert.
  assert (Hs : forall j, slot_at b' j = if decide (j = i) then s' else slot_at b j)
    by (intros; apply slot_at_insert; assumption).
  assert (Hsi : slot_at b' i = s') by (rewrite Hs, decide_True; reflexivity).
  unfold readable in Hr. apply andb_true_iff in Hr as [Ho' _].
  split; [assumption|]. split.
  - destruct (content_bytes b' _ i P' ltac:(lia) ltac:(congruence)) as [H1 _].
    rewrite Hsi, lookup_insert_eq in H1. rewrite (surjective_pairing (content b' i)). f_equal; [exact Hsi|congruence].
  - intros j Hj Hne. eapply (content_same b b'); eauto.
    + rewrite Hs, decide_False by assumption. reflexivity.
    + intros Hoj. apply lookup_insert_ne. intros E.
      destruct (content_bytes b m j P Hj Hoj) as [H1 _]. congruence.
Qed.

Lemma reject_changed b m i s : phys b m -> slots b !! i = Some s -> readable s = true ->
  changed i (set_rejected_payload true s) (content b i).2 b (reject i b).
Proof.
  intros P Hi Hr. pose proof (reject_phys b m i s P Hi Hr) as P'.
  assert (Hlt : (i < capacity b)%nat) by (eapply lookup_lt_Some; eassumption).
  set (b' := reject i b) in *. assert (Hcap : capacity b' = capacity b) by apply length_insert.
  assert (Hs : forall j, slot_at b' j = if decide (j = i) then set_rejected_payload true (slot_at b i) else slot_at b j)
    by (intros; apply slot_at_insert; assumption).
  split; [assumption|]. split.
  - unfold content. rewrite Hs, decide_True, (slot_at_lookup b i s Hi) by reflexivity. reflexivity.
  - intros j Hj Hne. apply (content_same b b' m m); auto. rewrite Hs, decide_False by assumption. reflexivity.
Qed.

Lemma reread_changed b m i k s : phys b m -> slots b !! i = Some s -> occupied s = true -> (k <= unread s)%nat ->
  changed i (set_payload_offset (payload_offset s + k) s) (content b i).2 b (reread i k b).
Proof.
  intros P Hi Ho Hk. pose proof (reread_phys b m i k s P Hi Ho Hk) as P'.
  assert (Hlt : (i < capacity b)%nat) by (eapply lookup_lt_Some; eassumption).
  set (b' := reread i k b) in *. assert (Hcap : capacity b' = capacity b) by apply length_insert.
  assert (Hs : forall j, slot_at b' j = if decide (j = i) then set_payload_offset (payload_offset (slot_at b i) + k)%nat (slot_at b i)
    else slot_at b j) by (intros; apply slot_at_insert; assumption).
  split; [assumption|]. split.
  - unfold content. rewrite Hs, decide_True, (slot_at_lookup b i s Hi) by reflexivity. reflexivity.
  - intros j Hj Hne. apply (content_same b b' m m); auto. rewrite Hs, decide_False by assumption. reflexivity.
Qed.
