(* ===== verification/ReceiveBufferQueries.v ===== *)
(** The delivery queries of the receive buffer: the searches through the bit
    index and their caches equal plain scans of the window. *)
From stdpp Require Import gmap.
From S2P Require Import Prelude Sequence Packet Codec Control LossList ReceiveWindow.
From S2P Require Import PayloadPool OccupiedIndex RejectedMessages ReceiveBuffer ReceiveBufferFacts.
Import ReceiveBuffer.

(** * Searching for readable packets *)

Lemma readable_member b m off : phys b m -> window b ->
  OccupiedIndex.member (hd 0%nat (level_offsets b)) (occupied_index b) (position b off) = readable (lslot b off).
Proof. intros P W. apply (phys_readable b m P). apply lslot_lookup. assumption. Qed.

Lemma stored_member b m off : phys b m -> window b ->
  OccupiedIndex.member (hd 0%nat (level_offsets b)) (storage_index b) (position b off) = occupied (lslot b off).
Proof. intros P W. apply (phys_storage b m P). apply lslot_lookup. assumption. Qed.

(** Positions of an offset before and after the end of the array. *)
Lemma position_low b off : window b -> (head b + off < capacity b)%nat -> position b off = (head b + off)%nat.
Proof. intros W H. apply Nat.mod_small. assumption. Qed.
Lemma position_high b off : window b -> (capacity b <= head b + off)%nat -> (off < capacity b)%nat ->
  position b off = (head b + off - capacity b)%nat.
Proof. intros [_ Hh _ _] H1 H2. unfold position. rewrite ring_index by lia. case_if; lia. Qed.

(** A scan of a stretch of positions is a scan of a stretch of offsets. *)
Lemma scan_offsets b (f : nat -> bool) (g : nat -> bool) p e off eoff r :
  window b -> (off <= eoff)%nat -> (eoff <= capacity b)%nat ->
  (forall o, (off <= o < eoff)%nat -> (p <= position b o < e)%nat /\ f (position b o) = g o) ->
  (forall q, (p <= q < e)%nat -> (off <= offset_of b q < eoff)%nat /\ (q < capacity b)%nat) ->
  (forall o o', (off <= o < eoff)%nat -> (off <= o' < eoff)%nat -> (o < o')%nat <-> (position b o < position b o')%nat) ->
  OccupiedIndex.is_first f p e r -> OccupiedIndex.is_first g off eoff (offset_of b <$> r).
Proof.
  intros W H1 H2 H3 H4 H5 Hr. destruct r as [q|]; simpl.
  - destruct Hr as (Hq & Hf & Hmin). destruct (H4 q Hq) as [Ho Hc].
    destruct (position_offset_of b W q Hc) as [Ep _].
    split; [assumption|]. split.
    + destruct (H3 _ Ho) as [_ <-]. rewrite Ep. assumption.
    + intros o Hoo. destruct (H3 o ltac:(lia)) as [Hp <-]. apply Hmin. split; [lia|].
      rewrite <- Ep. apply (proj1 (H5 o (offset_of b q) ltac:(lia) Ho)). lia.
  - intros o Ho. destruct (H3 o Ho) as [Hp <-]. apply Hr. assumption.
Qed.

Lemma scan_offsets_last b (f : nat -> bool) (g : nat -> bool) p e off eoff r :
  window b -> (off <= eoff)%nat -> (eoff <= capacity b)%nat ->
  (forall o, (off <= o < eoff)%nat -> (p <= position b o < e)%nat /\ f (position b o) = g o) ->
  (forall q, (p <= q < e)%nat -> (off <= offset_of b q < eoff)%nat /\ (q < capacity b)%nat) ->
  (forall o o', (off <= o < eoff)%nat -> (off <= o' < eoff)%nat -> (o < o')%nat <-> (position b o < position b o')%nat) ->
  OccupiedIndex.is_last f p e r -> OccupiedIndex.is_last g off eoff (offset_of b <$> r).
Proof.
  intros W H1 H2 H3 H4 H5 Hr. destruct r as [q|]; simpl.
  - destruct Hr as (Hq & Hf & Hmax). destruct (H4 q Hq) as [Ho Hc].
    destruct (position_offset_of b W q Hc) as [Ep _].
    split; [assumption|]. split.
    + destruct (H3 _ Ho) as [_ <-]. rewrite Ep. assumption.
    + intros o Hoo. destruct (H3 o ltac:(lia)) as [Hp <-]. apply Hmax. split; [|lia].
      rewrite <- Ep. apply (proj1 (H5 (offset_of b q) o Ho ltac:(lia))). lia.
  - intros o Ho. destruct (H3 o Ho) as [Hp <-]. apply Hr. assumption.
Qed.

Lemma is_last_extend f b mid e : (b <= mid <= e)%nat -> forall r r',
  OccupiedIndex.is_last f mid e r -> OccupiedIndex.is_last f b mid r' ->
  OccupiedIndex.is_last f b e (match r with Some _ => r | None => r' end).
Proof.
  intros H [p|] r' H1 H2; simpl in *.
  - destruct H1 as (? & ? & ?). split_and!; auto; lia.
  - destruct r' as [p|]; simpl in *.
    + destruct H2 as (? & ? & Hq). split_and!; auto; try lia. intros q Hq'.
      destruct (decide (q < mid)%nat); [apply Hq|apply H1]; lia.
    + intros q Hq. destruct (decide (q < mid)%nat); [apply H2|apply H1]; lia.
Qed.

Lemma is_first_extend f b mid e : (b <= mid <= e)%nat -> forall r r',
  OccupiedIndex.is_first f b mid r -> OccupiedIndex.is_first f mid e r' ->
  OccupiedIndex.is_first f b e (match r with Some _ => r | None => r' end).
Proof.
  intros H [p|] r' H1 H2; simpl in *.
  - destruct H1 as (? & ? & ?). split_and!; auto; lia.
  - destruct r' as [p|]; simpl in *.
    + destruct H2 as (? & ? & Hq). split_and!; auto; try lia. intros q Hq'.
      destruct (decide (q < mid)%nat); [apply H1|apply Hq]; lia.
    + intros q Hq. destruct (decide (q < mid)%nat); [apply H1|apply H2]; lia.
Qed.

Section scans.
Context (b : t) (index : list Z) (f : Slot -> bool).
Hypothesis W : window b.
Hypothesis Hwf : OccupiedIndex.wf (level_offsets b) index (capacity b).
Hypothesis Hmem : forall off, (off < capacity b)%nat ->
  OccupiedIndex.member (hd 0%nat (level_offsets b)) index (position b off) = f (lslot b off).
Local Abbreviation g := (fun off => f (lslot b off)).

(** The offsets from [off] to the end of the array, and those after it. *)
Lemma scan_upper off : (head b + off <= capacity b)%nat ->
  OccupiedIndex.is_first g off (capacity b - head b)
    (offset_of b <$> OccupiedIndex.next_occupied_bit (level_offsets b) index (head b + off) (capacity b)).
Proof.
  intros Ho. pose proof W as [Hc Hh _ _].
  eapply scan_offsets; [exact W|lia|lia| | | |apply (OccupiedIndex.next_occupied_bit_spec _ _ _ _ _ Hwf); lia].
  - intros o H. rewrite <- Hmem by lia. rewrite position_low by (auto; lia). split; [lia|reflexivity].
  - intros q Hq. assert (E : q = position b (q - head b)) by (rewrite position_low; auto; lia).
    rewrite E, offset_of_position by (auto; lia). rewrite <- E. lia.
  - intros o o' H H'. rewrite !position_low by (auto; lia). lia.
Qed.

Lemma scan_upper_last :
  OccupiedIndex.is_last g 0 (capacity b - head b)
    (offset_of b <$> OccupiedIndex.previous_storage_bit (level_offsets b) index (head b) (capacity b)).
Proof.
  pose proof W as [Hc Hh _ _].
  eapply scan_offsets_last; [exact W|lia|lia| | | |apply (OccupiedIndex.previous_storage_bit_spec _ _ _ _ _ Hwf); lia].
  - intros o H. rewrite <- Hmem by lia. rewrite position_low by (auto; lia). split; [lia|reflexivity].
  - intros q Hq. assert (E : q = position b (q - head b)) by (rewrite position_low; auto; lia).
    rewrite E, offset_of_position by (auto; lia). rewrite <- E. lia.
  - intros o o' H H'. rewrite !position_low by (auto; lia). lia.
Qed.

Lemma scan_lower_last :
  OccupiedIndex.is_last g (capacity b - head b) (capacity b)
    (offset_of b <$> OccupiedIndex.previous_storage_bit (level_offsets b) index 0 (head b)).
Proof.
  pose proof W as [Hc Hh _ _].
  eapply scan_offsets_last; [exact W|lia|lia| | | |apply (OccupiedIndex.previous_storage_bit_spec _ _ _ _ _ Hwf); lia].
  - intros o H. rewrite <- Hmem by lia. rewrite position_high by (auto; lia). split; [lia|reflexivity].
  - intros q Hq. assert (E : q = position b (q + capacity b - head b)) by (rewrite position_high; auto; lia).
    rewrite E, offset_of_position by (auto; lia). rewrite <- E. lia.
  - intros o o' H H'. rewrite !position_high by (auto; lia). lia.
Qed.

Lemma scan_lower off : (capacity b <= head b + off)%nat -> (off <= capacity b)%nat ->
  OccupiedIndex.is_first g off (capacity b)
    (offset_of b <$> OccupiedIndex.next_occupied_bit (level_offsets b) index (head b + off - capacity b) (head b)).
Proof.
  intros Ho Hoc. pose proof W as [Hc Hh _ _].
  eapply scan_offsets; [exact W|lia|lia| | | |apply (OccupiedIndex.next_occupied_bit_spec _ _ _ _ _ Hwf); lia].
  - intros o H. rewrite <- Hmem by lia. rewrite position_high by (auto; lia). split; [lia|reflexivity].
  - intros q Hq. assert (E : q = position b (q + capacity b - head b)) by (rewrite position_high; auto; lia).
    rewrite E, offset_of_position by (auto; lia). rewrite <- E. lia.
  - intros o o' H H'. rewrite !position_high by (auto; lia). lia.
Qed.
End scans.

Lemma next_occupied_offset_spec b m begin_ : phys b m -> window b ->
  OccupiedIndex.is_first (fun off => readable (lslot b off)) begin_ (capacity b) (next_occupied_offset b begin_).
Proof.
  intros P W. pose proof W as [Hc Hh _ _]. unfold next_occupied_offset.
  destruct (Nat.leb_spec (capacity b) begin_); [intros q; lia|].
  assert (Hmem : forall off, (off < capacity b)%nat -> OccupiedIndex.member (hd 0%nat (level_offsets b)) (occupied_index b) (position b off)
    = readable (lslot b off)) by (intros; eapply readable_member; eassumption).
  pose proof (proj1 (phys_readable b m P)) as Hwf.
  assert (Eo : forall r : option nat, match r with None => None | Some f => Some ((f + capacity b - head b) mod capacity b)%nat end
    = (offset_of b <$> r)) by (intros [|]; reflexivity). rewrite Eo.
  destruct (decide (head b + begin_ < capacity b)%nat) as [Hl|Hl].
  - rewrite position_low by (auto; lia). rewrite Nat.min_l by lia.
    pose proof (scan_upper b (occupied_index b) readable W Hwf Hmem begin_ ltac:(lia)) as H1.
    set (r := OccupiedIndex.next_occupied_bit _ _ (head b + begin_) _) in *.
    rewrite (proj2 (Nat.leb_le (head b) _)), andb_true_r by lia.
    destruct (Nat.eqb_spec (head b) 0) as [E0|E0].
    + rewrite andb_false_r. replace (capacity b) with (capacity b - head b)%nat by lia. exact H1.
    + rewrite andb_true_r. pose proof (scan_lower b (occupied_index b) readable W Hwf Hmem (capacity b - head b) ltac:(lia) ltac:(lia)) as H2.
      replace (head b + (capacity b - head b) - capacity b)%nat with 0%nat in H2 by lia.
      pose proof (is_first_extend _ begin_ (capacity b - head b) (capacity b) ltac:(lia) _ _ H1 H2) as H3.
      destruct r as [q|]; simpl in *; exact H3.
  - rewrite position_high by (auto; lia). rewrite Nat.min_r by lia.
    rewrite (proj2 (Nat.leb_gt (head b) _)), andb_false_r by lia.
    replace (head b + begin_ - capacity b + capacity b - begin_)%nat with (head b) by lia.
    apply scan_lower; auto; lia.
Qed.

(** * Reference queries on the readable headers of the window *)

Definition visible (b : t) (off : nat) : option DataHeader :=
  if readable (lslot b off) then Some (header (lslot b off)) else None.
Definition rview (b : t) : list (option DataHeader) := visible b <$> seq 0 (capacity b).

(** The offset of the fragment that ends message [m], whose fragments start at
    the head of [v] with offset [off]. *)
Fixpoint message_end_in (v : list (option DataHeader)) (m : Z) (off : nat) : option nat :=
  match v with
  | Some h :: v =>
    if negb (message_number h =? m) then None
    else match boundary h with
         | MessageBoundary.last => Some off
         | MessageBoundary.subsequent => message_end_in v m (S off)
         | _ => None
         end
  | _ => None
  end.

(** The first complete message: its first and last offset and its timestamp. *)
Fixpoint first_message_in (v : list (option DataHeader)) (off : nat) : option (nat * nat * PacketTimestamp.t) :=
  match v with
  | [] => None
  | None :: v => first_message_in v (S off)
  | Some h :: v =>
    match boundary h with
    | MessageBoundary.solo => Some (off, off, timestamp h)
    | MessageBoundary.first =>
      match message_end_in v (message_number h) (S off) with
      | Some e => Some (off, e, timestamp h)
      | None => first_message_in v (S off)
      end
    | _ => first_message_in v (S off)
    end
  end.

Fixpoint first_packet_in (v : list (option DataHeader)) (off : nat) : option (nat * nat * PacketTimestamp.t) :=
  match v with
  | [] => None
  | None :: v => first_packet_in v (S off)
  | Some h :: _ => Some (off, off, timestamp h)
  end.

Definition to_info (base : SequenceNumber.t) (r : nat * nat * PacketTimestamp.t) : BufferedMessageInfo :=
  {| info_first_sequence := SequenceNumber.advanced base (Z.of_nat r.1.1);
     info_last_sequence := SequenceNumber.advanced base (Z.of_nat r.1.2); info_timestamp := r.2 |}.

Definition message_answer (b : t) : option BufferedMessageInfo :=
  to_info (first_stored_sequence b) <$> first_message_in (rview b) 0.
Definition packet_answer (b : t) : option BufferedMessageInfo :=
  to_info (first_stored_sequence b) <$> first_packet_in (rview b) 0.

Lemma rview_lookup b off : (off < capacity b)%nat -> rview b !! off = Some (visible b off).
Proof. intros. unfold rview. rewrite list_lookup_fmap, lookup_seq_lt by assumption. reflexivity. Qed.

Lemma rview_drop b off : (off < capacity b)%nat -> drop off (rview b) = visible b off :: drop (S off) (rview b).
Proof. intros. apply drop_S. apply rview_lookup. assumption. Qed.

Lemma length_rview b : length (rview b) = capacity b.
Proof. unfold rview. rewrite length_fmap, length_seq. reflexivity. Qed.

Lemma rview_drop_end b off : (capacity b <= off)%nat -> drop off (rview b) = [].
Proof. intros. apply drop_ge. rewrite length_rview. assumption. Qed.

Lemma find_visible b off : window b -> (off < capacity b)%nat ->
  match find b (seq_at b off) with
  | Some i => visible b off = Some (header (slot_at b i)) /\ slot_at b i = lslot b off
  | None => visible b off = None
  end.
Proof.
  intros W H. rewrite (find_seq_at b W off H). unfold visible, lslot. destruct (readable _); auto.
Qed.

Lemma find_message_end_spec b m off : window b -> (off <= capacity b)%nat ->
  find_message_end (capacity b - off) b m (seq_at b off) = seq_at b <$> message_end_in (drop off (rview b)) m off.
Proof.
  intros W. remember (capacity b - off)%nat as n eqn:En. revert off En. induction n as [|n IH]; intros off En Ho.
  - rewrite rview_drop_end by lia. reflexivity.
  - rewrite rview_drop by lia. cbn [find_message_end]. pose proof (find_visible b off W ltac:(lia)) as Hf.
    destruct (find b (seq_at b off)) as [i|]; [|rewrite Hf; reflexivity]. destruct Hf as [Hv _]. rewrite Hv.
    cbn [message_end_in]. unfold is_subsequent, is_last.
    destruct (message_number (header (slot_at b i)) =? m); cbn [negb orb]; [|reflexivity].
    destruct (boundary (header (slot_at b i))); cbn [bool_decide decide_rel]; try reflexivity.
    rewrite bool_decide_eq_true_2, bool_decide_eq_false_2 by congruence. cbn [negb andb].
    rewrite next_seq_at. apply IH; lia.
Qed.

Lemma first_message_skip b off o : (off <= o <= capacity b)%nat ->
  (forall q, (off <= q < o)%nat -> readable (lslot b q) = false) ->
  first_message_in (drop off (rview b)) off = first_message_in (drop o (rview b)) o.
Proof.
  intros H Hn. remember (o - off)%nat as n eqn:En. revert off En H Hn. induction n as [|n IH]; intros off En H Hn.
  - replace o with off by lia. reflexivity.
  - rewrite rview_drop by lia. unfold visible. rewrite (Hn off) by lia. cbn [first_message_in].
    apply IH; [lia..|]. intros q Hq. apply Hn. lia.
Qed.

Lemma find_complete_message_spec b m : phys b m -> window b -> forall fuel off,
  (capacity b <= off + fuel)%nat -> (off <= capacity b)%nat ->
  find_complete_message fuel b (next_occupied_offset b off) =
  to_info (first_stored_sequence b) <$> first_message_in (drop off (rview b)) off.
Proof.
  intros P W. induction fuel as [|fuel IH]; intros off Hf Ho.
  - rewrite rview_drop_end by lia. reflexivity.
  - pose proof (next_occupied_offset_spec b m off P W) as Hn. destruct (next_occupied_offset b off) as [o|]; cbn [find_complete_message].
    + destruct Hn as (Hoo & Hr & Hmin). rewrite (first_message_skip b off o) by (auto; lia).
      rewrite (u32_offset b W) by lia. fold (seq_at b o). rewrite (IH (o + 1)%nat) by lia.
      rewrite (find_seq_at b W o), Hr by lia. rewrite (rview_drop b o) by lia. unfold visible. rewrite Hr.
      replace (o + 1)%nat with (S o) by lia. cbn [first_message_in]. fold (lslot b o). unfold is_solo, is_first.
      replace (capacity b - o - 1)%nat with (capacity b - S o)%nat by lia.
      rewrite next_seq_at, find_message_end_spec by (auto; lia).
      destruct (boundary (header (lslot b o))).
      * rewrite !bool_decide_eq_false_2 by discriminate. reflexivity.
      * rewrite !bool_decide_eq_false_2 by discriminate. reflexivity.
      * rewrite (bool_decide_eq_false_2 (_ = MessageBoundary.solo)) by discriminate.
        rewrite bool_decide_eq_true_2 by reflexivity. cbn [negb andb].
        destruct (message_end_in _ _ _); reflexivity.
      * rewrite (bool_decide_eq_true_2 (_ = MessageBoundary.solo)) by reflexivity. reflexivity.
    + rewrite (first_message_skip b off (capacity b)) by (auto; lia). rewrite rview_drop_end by lia. reflexivity.
Qed.

Lemma first_packet_skip b off o : (off <= o <= capacity b)%nat ->
  (forall q, (off <= q < o)%nat -> readable (lslot b q) = false) ->
  first_packet_in (drop off (rview b)) off = first_packet_in (drop o (rview b)) o.
Proof.
  intros H Hn. remember (o - off)%nat as n eqn:En. revert off En H Hn. induction n as [|n IH]; intros off En H Hn.
  - replace o with off by lia. reflexivity.
  - rewrite rview_drop by lia. unfold visible. rewrite (Hn off) by lia. cbn [first_packet_in].
    apply IH; [lia..|]. intros q Hq. apply Hn. lia.
Qed.

Lemma nothing_readable b : occupied_count b = countb occupied (slots b) -> window b -> occupied_count b = 0%nat ->
  forall off, readable (lslot b off) = false.
Proof.
  intros Hc W H0 off. unfold readable. rewrite (countb_zero occupied (slots b)); [reflexivity|lia|].
  apply list_elem_of_lookup_2 with (position b off). apply lslot_lookup. assumption.
Qed.

(** * Caches *)

Definition cache (b : t) : Prop :=
  (message_query_valid b = true -> message_query b = message_answer b) /\
  (packet_query_valid b = true -> packet_query b = packet_answer b).

Lemma first_complete_message_spec b m : phys b m -> window b -> cache b ->
  occupied_count b = countb occupied (slots b) -> (first_complete_message b).1 = message_answer b.
Proof.
  intros P W [C _] Hc. unfold first_complete_message. destruct (message_query_valid b); [auto|].
  unfold message_answer. destruct (Nat.eqb_spec (occupied_count b) 0) as [E|E]; cbn [remember_message fst].
  - pose proof (first_message_skip b 0 (capacity b) ltac:(lia)) as H. rewrite drop_0 in H. rewrite H, rview_drop_end by
      (try lia; intros; apply nothing_readable; auto). reflexivity.
  - rewrite (find_complete_message_spec b m P W) by lia. rewrite drop_0. reflexivity.
Qed.

Lemma first_buffered_packet_spec b m : phys b m -> window b -> cache b ->
  occupied_count b = countb occupied (slots b) -> (first_buffered_packet b).1 = packet_answer b.
Proof.
  intros P W [_ C] Hc. unfold first_buffered_packet. destruct (packet_query_valid b); [auto|].
  unfold packet_answer. assert (Hskip := first_packet_skip b 0). rewrite drop_0 in Hskip.
  destruct (Nat.eqb_spec (occupied_count b) 0) as [E|E]; cbn [remember_packet fst].
  - rewrite (Hskip (capacity b)), rview_drop_end by (try lia; intros; apply nothing_readable; auto). reflexivity.
  - pose proof (next_occupied_offset_spec b m 0 P W) as Hn. destruct (next_occupied_offset b 0) as [o|].
    + destruct Hn as (Hoo & Hr & Hmin). rewrite (u32_offset b W) by lia. fold (seq_at b o).
      rewrite (find_seq_at b W o), Hr by lia. cbn [remember_packet fst]. rewrite (Hskip o), (rview_drop b o) by (auto; lia).
      unfold visible. rewrite Hr. reflexivity.
    + cbn [remember_packet fst]. rewrite (Hskip (capacity b)), rview_drop_end by (auto; lia). reflexivity.
Qed.

Lemma cache_invalidated b : cache (invalidate_delivery_queries b).
Proof. split; discriminate. Qed.

(** A cached answer stays right while headers and readability stay. *)
Lemma rview_ext b b' : capacity b' = capacity b ->
  (forall off, (off < capacity b)%nat -> visible b' off = visible b off) -> rview b' = rview b.
Proof.
  intros Hc H. unfold rview. rewrite Hc. apply list_fmap_ext. intros i off Hi.
  apply lookup_seq in Hi as [-> Hlt]. apply H. lia.
Qed.

Lemma cache_ext b b' : capacity b' = capacity b -> first_stored_sequence b' = first_stored_sequence b ->
  (forall off, (off < capacity b)%nat -> visible b' off = visible b off) ->
  message_query_valid b' = message_query_valid b -> message_query b' = message_query b ->
  packet_query_valid b' = packet_query_valid b -> packet_query b' = packet_query b -> cache b -> cache b'.
Proof.
  intros Hc Hf Hv E1 E2 E3 E4 [C1 C2]. unfold cache, message_answer, packet_answer in *.
  rewrite (rview_ext b b' Hc Hv), E1, E2, E3, E4, Hf. auto.
Qed.
