(* ===== verification/ReceiveBufferSteps.v ===== *)
(** One lemma per operation of the receive buffer: how it changes the window, and
    that it keeps the invariant. *)
From stdpp Require Import gmap.
From S2P Require Import Prelude Sequence Packet Codec Control LossList ReceiveWindow.
From S2P Require Import PayloadPool OccupiedIndex RejectedMessages ReceiveBuffer ReceiveBufferFacts.
From S2P Require Import ReceiveBufferQueries.
Import ReceiveBuffer.

(** Everything but the timestamp bounds, which some operations refresh last. *)
Record core (b : t) (m : gmap nat (list Z)) : Prop := {
  core_phys : phys b m;
  core_window : window b;
  core_count : occupied_count b = countb occupied (slots b);
  core_ack : SequenceNumber.wf (next_ack_sequence b);
  core_cache : cache b;
}.

(** A slot that left the window: empty, without marker or deadline. *)
Definition blank (s : Slot) : Prop := vacant s /\ dropped s = false /\ gap_deadline_microseconds s = 0.

(** [shifted k b b']: the first [k] offsets left the window, the others moved
    up with their contents, and blank slots follow. *)
Record shifted (k : nat) (b b' : t) : Prop := {
  shifted_le : (k <= capacity b)%nat;
  shifted_capacity : capacity b' = capacity b;
  shifted_first : first_stored_sequence b' = seq_at b k;
  shifted_content : forall off, (k + off < capacity b)%nat -> lcontent b' off = lcontent b (k + off);
  shifted_blank : forall off, (off < capacity b)%nat -> (capacity b <= k + off)%nat -> blank (lslot b' off);
  shifted_ack : next_ack_sequence b' = next_ack_sequence b;
  shifted_defer : defer_drop_timestamp_refresh b' = defer_drop_timestamp_refresh b;
}.

Lemma lcontent_lslot b b' off off' : lcontent b' off' = lcontent b off -> lslot b' off' = lslot b off.
Proof. unfold lcontent, content, lslot. congruence. Qed.

Lemma shifted_refl b : window b -> shifted 0 b b.
Proof. intros W. split; auto; try lia. symmetry. apply seq_at_0. assumption. Qed.

Lemma shifted_trans b b1 b2 k1 k2 : shifted k1 b b1 -> shifted k2 b1 b2 -> (k1 + k2 <= capacity b)%nat ->
  shifted (k1 + k2) b b2.
Proof.
  intros [A1 A2 A3 A4 A5 A6 A7] [B1 B2 B3 B4 B5 B6 B7] H. split; try congruence.
  - rewrite B3. unfold seq_at. rewrite A3. unfold seq_at. rewrite !SequenceNumber.advanced_mod, Zplus_mod_idemp_l. f_equal. lia.
  - intros off Ho. rewrite B4, A4 by lia. f_equal. lia.
  - intros off Ho Ho'. destruct (decide (k2 + off < capacity b)%nat).
    + rewrite (lcontent_lslot b1 b2 (k2 + off) off) by (apply B4; lia). apply A5; lia.
    + apply B5; lia.
Qed.

(** ** Clearing a vacant slot *)

Definition clear (i : nat) (s' : Slot) (b : t) : t :=
  set_slots (<[i := s']> (slots b))
    (set_occupied_index (OccupiedIndex.index_levels (level_offsets b) i false (occupied_index b))
      (set_storage_index (OccupiedIndex.index_levels (level_offsets b) i false (storage_index b)) b)).

Lemma clear_phys b m i s s' : phys b m -> slots b !! i = Some s -> occupied s = false -> vacant s' ->
  phys (clear i s' b) m /\ changed i s' [] b (clear i s' b).
Proof.
  intros P Hi Ho Hv. pose proof (remark_phys b m i s s' P Hi Ho Hv) as P'.
  pose proof (remark_changed b m i s s' P Hi Ho Hv) as (C1 & C2 & C3).
  assert (Hlt : (i < length (slots b))%nat) by (eapply lookup_lt_Some; eassumption).
  pose proof P as [P1 P2 P3 P4 P5 P6 P7 P8 P9 P10]. destruct P' as [Q1 Q2 Q3 Q4 Q5 Q6 Q7 Q8 Q9 Q10].
  destruct Hv as (V1 & _).
  assert (Hphys : phys (clear i s' b) m).
  { split; unfold capacity in *; cbn [clear slots payloads occupied_index storage_index level_offsets rejected buffered_payload_bytes
      set_slots set_occupied_index set_storage_index] in *; auto.
    - pose proof (index_slots_insert (level_offsets b) (occupied_index b) readable (slots b) i s' (proj1 P7) Hlt (proj2 P7)) as H.
      assert (Er : readable s' = false) by (unfold readable; rewrite V1; reflexivity). rewrite Er in H. exact H.
    - pose proof (index_slots_insert (level_offsets b) (storage_index b) occupied (slots b) i s' (proj1 P8) Hlt (proj2 P8)) as H.
      rewrite V1 in H. exact H. }
  split; [assumption|]. split; [exact C1|]. split; [exact C2|exact C3].
Qed.

(** ** One slot leaves at the head *)

Lemma advance_one_facts b : window b -> occupied (lslot b 0) = false ->
  window (advance_frontier 1 b) /\ first_stored_sequence (advance_frontier 1 b) = seq_at b 1 /\
  forall off, (off < capacity b)%nat ->
    position (advance_frontier 1 b) off = position b (if (S off <? capacity b)%nat then S off else 0%nat).
Proof.
  intros W Hv. pose proof W as [[Hc Hc'] Hh _ _]. split.
  - apply advance_frontier_window; [assumption|lia|]. intros off Ho Hlt. replace off with 0%nat by lia. assumption.
  - split; [reflexivity|]. intros off Ho. unfold position.
    assert (Eh : head (advance_frontier 1 b) = ((head b + 1) mod capacity b)%nat).
    { unfold advance_frontier. simpl. SequenceNumber.consts. rewrite u64_id by (unfold is_u64; lia).
      apply Nat2Z.inj. rewrite Z2Nat.id by (apply Z.mod_pos_bound; lia). rewrite Nat2Z.inj_mod. f_equal. lia. }
    rewrite Eh. change (capacity (advance_frontier 1 b)) with (capacity b).
    rewrite Nat.Div0.add_mod_idemp_l. destruct (Nat.ltb_spec (S off) (capacity b)).
    + f_equal. lia.
    + replace (head b + 1 + off)%nat with (head b + 0 + 1 * capacity b)%nat by lia. apply Nat.Div0.mod_add.
Qed.

(** The head slot, changed to a blank [s'], leaves the window. *)
Lemma retire_shifted b b1 m1 s' : window b -> phys b1 m1 -> window b1 -> changed (head b) s' [] b b1 -> blank s' ->
  head b1 = head b -> first_stored_sequence b1 = first_stored_sequence b ->
  next_ack_sequence b1 = next_ack_sequence b -> defer_drop_timestamp_refresh b1 = defer_drop_timestamp_refresh b ->
  shifted 1 b (advance_frontier 1 b1) /\ window (advance_frontier 1 b1).
Proof.
  intros W P1 W1 (C1 & C2 & C3) Hb E1 E2 E3 E4. pose proof W as [[Hc Hc'] Hh _ _].
  assert (Ep : forall off, position b1 off = position b off) by (intros; unfold position; rewrite C1, E1; reflexivity).
  assert (E0 : position b 0 = head b) by (rewrite position_low by (auto; lia); lia).
  assert (Hs0 : slot_at b1 (head b) = s') by exact (f_equal fst C2).
  destruct (advance_one_facts b1 W1) as (W2 & F2 & P2).
  { unfold lslot. rewrite Ep, E0, Hs0. apply Hb. }
  split; [|assumption]. split; auto.
  - rewrite F2. unfold seq_at. rewrite E2. reflexivity.
  - intros off Ho. unfold lcontent. rewrite P2 by lia. rewrite (proj2 (Nat.ltb_lt _ _)) by lia. rewrite Ep.
    change (content (advance_frontier 1 b1)) with (content b1). apply C3; [apply position_lt; assumption|].
    intros E. rewrite <- E0 in E. apply (position_inj b W) in E; lia.
  - intros off Ho Hge. unfold lslot. rewrite P2 by lia. rewrite (proj2 (Nat.ltb_ge _ _)) by lia. rewrite Ep, E0.
    change (slot_at (advance_frontier 1 b1)) with (slot_at b1). rewrite Hs0. assumption.
Qed.

(** ** Trimming *)

Definition retired (s : Slot) : Slot := set_gap_deadline 0 (set_payload_offset 0 (set_payload_size 0 s)).

Lemma set_rejected_same s : rejected_payload s = false -> set_rejected_payload false s = s.
Proof. destruct s; simpl. intros ->. reflexivity. Qed.

(** A state with slot [i] rewritten reads back the rewritten slot. *)
Lemma slot_at_set_slots b i s : (i < capacity b)%nat -> slot_at (set_slots (<[i := s]> (slots b)) b) i = s.
Proof. intros. apply list_lookup_total_insert_eq. assumption. Qed.

Lemma retire_head_vacant b : (head b < capacity b)%nat -> rejected_payload (slot_at b (head b)) = false ->
  retire_head b = advance_frontier 1 (invalidate_delivery_queries (clear (head b) (retired (slot_at b (head b))) b)).
Proof.
  intros Hh Hr. unfold retire_head, remove_rejected_message.
  change (slot_at (invalidate_delivery_queries (index_occupied (head b) false true b)) (head b)) with (slot_at b (head b)).
  rewrite Hr. reflexivity.
Qed.

Lemma update_slot_clear b i f s' : (i < capacity b)%nat ->
  clear i s' (update_slot i f b) = clear i s' b.
Proof. intros. unfold clear, update_slot. destruct b; cbn. rewrite list_insert_insert_eq. reflexivity. Qed.

Lemma trim_dropped_round b : (head b < capacity b)%nat -> rejected_payload (slot_at b (head b)) = false ->
  retire_head (update_slot (head b) (set_dropped false) b) =
  advance_frontier 1 (invalidate_delivery_queries
    (clear (head b) (retired (set_dropped false (slot_at b (head b)))) b)).
Proof.
  intros Hh Hr. set (b1 := update_slot (head b) (set_dropped false) b).
  assert (Es : slot_at b1 (head b) = set_dropped false (slot_at b (head b))) by (apply list_lookup_total_insert_eq; exact Hh).
  rewrite retire_head_vacant; change (head b1) with (head b).
  - rewrite Es. unfold b1. rewrite update_slot_clear by assumption. reflexivity.
  - unfold capacity, b1. cbn. rewrite length_insert. exact Hh.
  - rewrite Es. exact Hr.
Qed.

(** The state changes of a round that discards the packet at the head. *)
Definition discard_head (discarding : option Z) (b : t) : t :=
  let s := slot_at b (head b) in
  set_discarding_message discarding
    (set_occupied_count (occupied_count b - 1)%nat
      (forget (head b) (retired (set_rejected_payload false (set_occupied false s))) b)).

(** States are equal when their slots, rejected messages and other fields are. *)
Lemma t_ext b b' : slots b' = slots b -> rejected b' = rejected b ->
  set_slots [] (set_rejected (rejected b) b') = set_slots [] (set_rejected (rejected b) b) -> b' = b.
Proof. destruct b, b'; cbn. intros -> -> [=]. subst. reflexivity. Qed.

Lemma remove_rejected_slots b i s : (i < capacity b)%nat -> slot_at b i = s ->
  slots (remove_rejected_message i b) = <[i := set_rejected_payload false s]> (slots b) /\
  rejected (remove_rejected_message i b) =
    (if rejected_payload s then RejectedMessages.remove_rejected_message (rejected b) (msg s) else rejected b) /\
  forall r l, set_slots l (set_rejected r (remove_rejected_message i b)) = set_slots l (set_rejected r b).
Proof.
  intros Hi <-. unfold remove_rejected_message. destruct (rejected_payload (slot_at b i)) eqn:E; cbn [negb].
  - assert (Es : slot_at (update_slot i (set_rejected_payload false) b) i = set_rejected_payload false (slot_at b i))
      by (apply slot_at_set_slots; assumption). rewrite Es. auto.
  - rewrite set_rejected_same by assumption. split; [|auto]. symmetry. apply list_insert_id. apply lookup_slot. assumption.
Qed.

Lemma trim_discard_round b (d : option Z) : (head b < capacity b)%nat ->
  let s := slot_at b (head b) in
  retire_head (set_discarding_message d (set_occupied_count (occupied_count b - 1)%nat
    (update_slot (head b) (set_occupied false)
      (set_payloads (PayloadPool.release (payloads b) (payload_index s))
        (set_buffered_payload_bytes (buffered_payload_bytes b - (payload_size s - payload_offset s))%nat b))))) =
  advance_frontier 1 (invalidate_delivery_queries (discard_head d b)).
Proof.
  intros Hh s. unfold retire_head. f_equal. set (i := head b) in *. set (b1 := set_discarding_message _ _).
  change (head b1) with i. set (b2 := invalidate_delivery_queries (index_occupied i false true b1)).
  assert (Es : slot_at b2 i = set_occupied false s) by (apply list_lookup_total_insert_eq; exact Hh).
  assert (Hc : (i < capacity b2)%nat) by (unfold capacity, b2; cbn; rewrite length_insert; exact Hh).
  destruct (remove_rejected_slots b2 i _ Hc Es) as (R1 & R2 & R3). set (b3 := remove_rejected_message i b2) in *.
  assert (Es3 : slot_at b3 i = set_rejected_payload false (set_occupied false s)).
  { unfold slot_at. rewrite R1. apply list_lookup_total_insert_eq. exact Hc. }
  apply t_ext.
  - transitivity (<[i := retired (slot_at b3 i)]> (slots b3)); [reflexivity|]. rewrite Es3, R1.
    change (slots b2) with (<[i := set_occupied false s]> (slots b)). rewrite !list_insert_insert_eq. reflexivity.
  - cbn. exact R2.
  - change (set_slots [] (set_rejected (rejected (invalidate_delivery_queries (discard_head d b))) b3) =
      set_slots [] (set_rejected (rejected (invalidate_delivery_queries (discard_head d b)))
        (invalidate_delivery_queries (discard_head d b)))). rewrite R3. reflexivity.
Qed.

(** The stored bounds on sequence numbers and timestamps are not written. *)
Definition same_bounds (b b' : t) : Prop :=
  first_buffered_sequence b' = first_buffered_sequence b /\ last_buffered_sequence b' = last_buffered_sequence b /\
  first_buffered_timestamp b' = first_buffered_timestamp b /\ last_buffered_timestamp b' = last_buffered_timestamp b.

Lemma same_bounds_trans b b1 b2 : same_bounds b b1 -> same_bounds b1 b2 -> same_bounds b b2.
Proof. unfold same_bounds. intuition congruence. Qed.

(** Some payload of the buffer is rejected or being discarded. *)
Definition has_rejections (b : t) : Prop := rejected_list (slots b) <> [] \/ discarding_message b <> None.

Lemma retired_blank s : dropped s = false -> occupied s = false -> rejected_payload s = false -> blank (retired s).
Proof. intros H1 H2 H3. split; [|auto]. split_and!; auto; simpl; lia. Qed.

Lemma changed_window b b' i s' bs : window b -> changed i s' bs b b' -> head b' = head b ->
  first_stored_sequence b' = first_stored_sequence b -> (i < capacity b)%nat ->
  (occupied s' = true -> occupied (slot_at b i) = true /\ sequence (header s') = sequence (header (slot_at b i))) ->
  window b'.
Proof.
  intros W (C1 & C2 & C3) E1 E2 Hi Hs. apply (window_ext b); auto. intros j Hj Ho. destruct (decide (j = i)) as [->|Hne].
  - assert (E : slot_at b' i = s') by exact (f_equal fst C2). rewrite E in *. auto.
  - assert (E : slot_at b' j = slot_at b j) by exact (f_equal fst (C3 j Hj Hne)). rewrite E in *. auto.
Qed.

Lemma head_slot b : window b -> slots b !! head b = Some (lslot b 0) /\ slot_at b (head b) = lslot b 0.
Proof.
  intros W. pose proof W as [_ Hh _ _]. assert (E : position b 0 = head b) by (rewrite position_low by (auto; lia); lia).
  unfold lslot. rewrite E. split; [apply lookup_slot; assumption|reflexivity].
Qed.

Lemma trim_dropped_step b m : core b m -> dropped (lslot b 0) = true ->
  let b' := retire_head (update_slot (head b) (set_dropped false) b) in
  core b' m /\ shifted 1 b b' /\ same_bounds b b' /\ (has_rejections b' <-> has_rejections b).
Proof.
  intros [P W Hc Ha _] Hd. destruct (head_slot b W) as [Hl Hs]. pose proof W as [Hcap Hh _ _].
  pose proof (phys_slots b m P _ _ Hl) as Hwf.
  assert (Ho : occupied (lslot b 0) = false).
  { destruct (occupied (lslot b 0)) eqn:E; [|reflexivity]. rewrite (wf_exclusive _ Hwf E) in Hd. discriminate. }
  pose proof (wf_vacant _ Hwf Ho) as (V1 & V2 & _).
  cbv zeta. rewrite trim_dropped_round by (try assumption; congruence). rewrite Hs.
  set (s' := retired (set_dropped false (lslot b 0))).
  assert (Hb : blank s') by (apply retired_blank; auto).
  destruct (clear_phys b m (head b) _ s' P Hl Ho (proj1 Hb)) as [P1 C1].
  assert (W1 : window (clear (head b) s' b)).
  { eapply (changed_window b); eauto. intros E. rewrite (proj1 (proj1 Hb)) in E. discriminate. }
  assert (P2 : phys (invalidate_delivery_queries (clear (head b) s' b)) m) by (eapply phys_ext; [..|exact P1]; reflexivity).
  assert (W2 : window (invalidate_delivery_queries (clear (head b) s' b))).
  { apply (window_ext (clear (head b) s' b)); auto. }
  destruct (retire_shifted b (invalidate_delivery_queries (clear (head b) s' b)) m s' W P2 W2 C1 Hb) as [S3 W3]; auto.
  split; [split|split; [assumption|]].
  - eapply phys_ext; [..|exact P1]; reflexivity.
  - assumption.
  - pose proof (countb_insert occupied (slots b) (head b) _ s' Hl) as Hk. rewrite Ho in Hk.
    rewrite (proj1 (proj1 Hb)) in Hk. cbn. lia.
  - exact Ha.
  - split; discriminate.
  - split; [split_and!; reflexivity|]. unfold has_rejections. set (b2 := advance_frontier 1 _).
    assert (E1 : slots b2 = <[head b := s']> (slots b)) by reflexivity.
    assert (E2 : discarding_message b2 = discarding_message b) by reflexivity. rewrite E1, E2.
    pose proof (rejected_list_insert (slots b) (head b) _ s' Hl) as Hr. rewrite V2 in Hr.
    change (rejected_payload s') with (rejected_payload (lslot b 0)) in Hr. rewrite V2 in Hr. cbn [app] in Hr.
    split; (intros [H|H]; [left|right; assumption]); intros E; apply H; rewrite E in Hr.
    + apply Permutation_nil_r. exact Hr.
    + apply Permutation_nil_r. symmetry. exact Hr.
Qed.

Lemma trim_discard_step b m d : core b m -> occupied (lslot b 0) = true ->
  let b' := advance_frontier 1 (invalidate_delivery_queries (discard_head d b)) in
  core b' (delete (payload_index (lslot b 0)) m) /\ shifted 1 b b' /\ same_bounds b b'.
Proof.
  intros [P W Hc Ha _] Ho. destruct (head_slot b W) as [Hl Hs]. pose proof W as [Hcap Hh _ _].
  pose proof (phys_slots b m P _ _ Hl) as Hwf. cbv zeta. unfold discard_head. rewrite Hs.
  set (s' := retired (set_rejected_payload false (set_occupied false (lslot b 0)))).
  assert (Hb : blank s') by (apply retired_blank; auto; exact (wf_exclusive _ Hwf Ho)).
  pose proof (forget_phys b m (head b) _ s' P Hl Ho (proj1 Hb)) as P1.
  pose proof (forget_changed b m (head b) _ s' P Hl Ho (proj1 Hb)) as C1.
  set (b1 := forget (head b) s' b) in *.
  assert (W1 : window b1).
  { eapply (changed_window b); eauto. intros E. rewrite (proj1 (proj1 Hb)) in E. discriminate. }
  set (b2 := invalidate_delivery_queries _).
  assert (P2 : phys b2 (delete (payload_index (lslot b 0)) m)) by (eapply phys_ext; [..|exact P1]; reflexivity).
  assert (W2 : window b2) by (apply (window_ext b1); auto).
  assert (C2 : changed (head b) s' [] b b2) by (eapply changed_ext; [..|exact C1]; reflexivity).
  destruct (retire_shifted b b2 _ s' W P2 W2 C2 Hb) as [S3 W3]; try reflexivity.
  split; [split|split; [assumption|split_and!; reflexivity]].
  - eapply phys_ext; [..|exact P1]; reflexivity.
  - assumption.
  - pose proof (countb_insert occupied (slots b) (head b) _ s' Hl) as Hk. rewrite Ho in Hk.
    rewrite (proj1 (proj1 Hb)) in Hk. cbn. lia.
  - exact Ha.
  - split; discriminate.
Qed.

Lemma visible_ext b b' off : slots b' = slots b -> head b' = head b -> visible b' off = visible b off.
Proof. intros E1 E2. unfold visible, lslot, slot_at, position, capacity. rewrite E1, E2. reflexivity. Qed.

(** Fields outside the invariant may change. *)
Lemma core_ext b b' m : slots b' = slots b -> payloads b' = payloads b -> occupied_index b' = occupied_index b ->
  storage_index b' = storage_index b -> level_offsets b' = level_offsets b -> rejected b' = rejected b ->
  buffered_payload_bytes b' = buffered_payload_bytes b -> head b' = head b ->
  first_stored_sequence b' = first_stored_sequence b -> occupied_count b' = occupied_count b ->
  SequenceNumber.wf (next_ack_sequence b') -> message_query_valid b' = message_query_valid b ->
  message_query b' = message_query b -> packet_query_valid b' = packet_query_valid b ->
  packet_query b' = packet_query b -> core b m -> core b' m.
Proof.
  intros E1 E2 E3 E4 E5 E6 E7 E8 E9 E10 E11 E12 E13 E14 E15 [P W Hc Ha Hq]. split.
  - eapply phys_ext; eauto.
  - apply (window_ext b); auto; [unfold capacity; congruence|]. intros i Hi. unfold slot_at. rewrite E1. auto.
  - congruence.
  - assumption.
  - apply (cache_ext b); auto; [unfold capacity; congruence|]. intros off _. apply visible_ext; assumption.
Qed.

(** The head that stops the trimming loop. *)
Definition stopped (b : t) : Prop :=
  dropped (lslot b 0) = false /\
  (occupied (lslot b 0) = true ->
   discarding_message b = None /\ RejectedMessages.message_rejected (rejected b) (msg (lslot b 0)) = false).

Lemma discarding_head_none b s : discarding_head b s = None ->
  RejectedMessages.message_rejected (rejected b) (msg s) = false.
Proof.
  unfold discarding_head. fold (msg s). destruct (discarding_message b) as [d|]; [destruct (negb _); [|discriminate]|];
    destruct (RejectedMessages.message_rejected (rejected b) (msg s)); congruence.
Qed.

Lemma discarding_head_some b m s x : core b m -> discarding_head b s = Some x -> has_rejections b.
Proof.
  intros H E. unfold discarding_head in E. unfold has_rejections. destruct (discarding_message b) as [d|]; [right; discriminate|].
  left. rewrite (RejectedMessages.message_rejected_spec _ _ _ _ (phys_rejected b m (core_phys b m H))) in E.
  case_bool_decide as Hin; [|discriminate]. intros E'. rewrite E' in Hin. apply not_elem_of_nil in Hin. assumption.
Qed.

Record trimmed (fuel : nat) (b b' : t) (m' : gmap nat (list Z)) (k : nat) : Prop := {
  trimmed_core : core b' m';
  trimmed_shifted : shifted k b b';
  trimmed_bounds : same_bounds b b';
  trimmed_le : (k <= fuel)%nat;
  trimmed_stop : k = fuel \/ stopped b';
  trimmed_clean : ~ has_rejections b -> ~ has_rejections b' /\ forall off, (off < k)%nat -> dropped (lslot b off) = true;
  trimmed_settled : forall off, (off < k)%nat -> settled (lslot b off) = true;
  trimmed_count : (occupied_count b' <= occupied_count b)%nat /\
    (occupied_count b' = occupied_count b -> forall off, (off < k)%nat -> occupied (lslot b off) = false);
}.

Lemma trimmed_step fuel b b1 b2 m2 k : shifted 1 b b1 -> same_bounds b b1 -> (S fuel <= capacity b)%nat ->
  settled (lslot b 0) = true ->
  (occupied_count b1 <= occupied_count b)%nat /\ (occupied_count b1 = occupied_count b -> occupied (lslot b 0) = false) ->
  (~ has_rejections b -> ~ has_rejections b1 /\ dropped (lslot b 0) = true) ->
  trimmed fuel b1 b2 m2 k -> trimmed (S fuel) b b2 m2 (S k).
Proof.
  intros S1 B1 Hf Hs0 [Hc1 Hc2] Hcl [T1 T2 T3 T4 T5 T6 T7 [T8 T9]]. pose proof S1 as [A1 A2 A3 A4 A5 A6 A7].
  split; try assumption; try lia.
  - apply (shifted_trans b b1 b2 1 k); auto. lia.
  - eapply same_bounds_trans; eassumption.
  - destruct T5; [left; lia|right; assumption].
  - intros Hn. destruct (Hcl Hn) as [Hn1 Hd]. destruct (T6 Hn1) as [Hn2 Hall]. split; [assumption|].
    intros [|off] Ho; [assumption|]. rewrite <- (Hall off) by lia. symmetry. f_equal. apply lcontent_lslot. rewrite A4; [reflexivity|lia].
  - intros [|off] Ho; [assumption|]. rewrite <- (T7 off) by lia. symmetry. f_equal. apply lcontent_lslot. rewrite A4; [reflexivity|lia].
  - split; [lia|]. intros E [|off] Ho; [apply Hc2; lia|]. rewrite <- (T9 ltac:(lia) off) by lia. symmetry. f_equal. apply lcontent_lslot.
    rewrite A4; [reflexivity|lia].
Qed.

Lemma dropped_vacant b m off : core b m -> dropped (lslot b off) = true -> occupied (lslot b off) = false.
Proof.
  intros C Hd. destruct (phys_slots b m (core_phys b m C) _ _ (lslot_lookup b (core_window b m C) off)) as [A _ _ _ _ _ _ _].
  destruct (occupied (lslot b off)); [|reflexivity]. rewrite A in Hd by reflexivity. discriminate.
Qed.

Lemma occupied_positive b m off : core b m -> occupied (lslot b off) = true -> (0 < occupied_count b)%nat.
Proof.
  intros C Ho. rewrite (core_count b m C). destruct (countb occupied (slots b)) eqn:E; [|lia].
  rewrite (countb_zero occupied (slots b)) in Ho; [discriminate|assumption|].
  apply list_elem_of_lookup_2 with (position b off). apply lslot_lookup. apply C.
Qed.

Lemma retire_count b i f : occupied_count (retire_head (update_slot i f b)) = occupied_count b.
Proof.
  unfold retire_head, remove_rejected_message. destruct (negb _); reflexivity.
Qed.

Lemma trim_loop_spec fuel : forall b m, core b m -> (fuel <= capacity b)%nat ->
  exists k m', trimmed fuel b (trim_loop fuel b) m' k.
Proof.
  induction fuel as [|fuel IH]; intros b m H Hf; pose proof (core_window b m H) as W; pose proof W as [Hcap Hh _ _].
  - exists 0%nat, m. split; auto using shifted_refl; [split_and!; reflexivity| |lia|split; [reflexivity|intros; lia]]. intros Hn. split; [assumption|lia].
  - cbn [trim_loop]. destruct (head_slot b W) as [Hl Hs]. rewrite Hs. destruct (dropped (lslot b 0)) eqn:Hd.
    + destruct (trim_dropped_step b m H Hd) as (C1 & S1 & B1 & R1).
      destruct (IH _ m C1) as (k & m' & T); [rewrite (shifted_capacity 1 b _ S1); lia|].
      exists (S k), m'. eapply trimmed_step; eauto; [unfold settled; rewrite Hd; apply orb_true_r| |rewrite R1; auto].
      split; [rewrite retire_count; reflexivity|]. intros _. eapply dropped_vacant; eassumption.
    + destruct (occupied (lslot b 0)) eqn:Ho; cbn [negb].
      2:{ exists 0%nat, m. split; auto using shifted_refl; try lia; [split_and!; reflexivity| | |].
          - right. split; [assumption|]. rewrite Ho. discriminate.
          - intros Hn. split; [assumption|lia].
          - split; [reflexivity|intros; lia]. }
      cbn [discarding_message set_discarding_message]. destruct (discarding_head b (lslot b 0)) as [x|] eqn:Hx.
      * set (b0 := set_discarding_message (Some x) b). assert (H0 : core b0 m) by (eapply core_ext; [..|exact H]; try reflexivity; apply H).
        set (d := if bool_decide (boundary (header (lslot b 0)) = MessageBoundary.last
          \/ boundary (header (lslot b 0)) = MessageBoundary.solo) then None else Some x).
        pose proof (trim_discard_step b0 m d H0 Ho) as (C1 & S1 & B1). set (b1 := advance_frontier 1 _) in *.
        pose proof (trim_discard_round b0 d Hh) as E. cbv zeta in E.
        assert (S1' : shifted 1 b b1) by (destruct S1 as [Q1 Q2 Q3 Q4 Q5 Q6 Q7]; split; assumption).
        destruct (IH b1 _ C1) as (k & m' & T); [rewrite (shifted_capacity 1 b _ S1'); lia|].
        exists (S k), m'. eapply (trimmed_step fuel b b1); auto.
        { unfold settled. rewrite Ho. reflexivity. }
        { change (occupied_count b1) with (occupied_count b - 1)%nat. pose proof (occupied_positive b m 0 H Ho). split; lia. }
        { intros Hn. exfalso. apply Hn. eapply discarding_head_some; eassumption. }
        match goal with |- trimmed _ _ (trim_loop _ (retire_head ?r)) _ _ => set (rr := r) end.
        replace (retire_head rr) with b1; [exact T|]. unfold b1. rewrite <- E. f_equal. unfold rr, d.
        change (slot_at b0 (head b0)) with (slot_at b (head b)). rewrite Hs. case_bool_decide; reflexivity.
      * exists 0%nat, m. split; try lia.
        -- eapply core_ext; [..|exact H]; try reflexivity. apply H.
        -- destruct (shifted_refl b W) as [Q1 Q2 Q3 Q4 Q5 Q6 Q7]. split; assumption.
        -- split_and!; reflexivity.
        -- right. split; [exact Hd|]. intros _. split; [reflexivity|]. exact (discarding_head_none b _ Hx).
        -- intros Hn. split; [|lia]. intros [E|E]; [apply Hn; left; exact E|apply E; reflexivity].
        -- split; [reflexivity|intros; lia].
Qed.

Lemma trim_spec b m : core b m -> exists k m', trimmed (capacity b) b (trim_dropped_prefix b) m' k /\ stopped (trim_dropped_prefix b).
Proof.
  intros H. unfold trim_dropped_prefix. destruct (trim_loop_spec (capacity b) b m H ltac:(lia)) as (k & m' & T). exists k, m'. split; [exact T|].
  destruct T as [T1 [Q1 Q2 Q3 Q4 Q5 Q6 Q7] T3 T4 [E|Hst] T6 _ _]; [|exact Hst]. subst k.
  pose proof (proj1 (win_capacity b (core_window b m H))).
  destruct (Q5 0%nat) as (V & Hd & _); [lia..|]. split; [exact Hd|]. rewrite (proj1 V). discriminate.
Qed.

(** ** Acknowledgement *)

(** The first offset from [off] on that is neither received nor dropped, or the
    end of the window. *)
Definition unsettled_from (b : t) (off : nat) : nat :=
  match OccupiedIndex.first_in (fun o => negb (settled (lslot b o))) off (capacity b) with
  | Some o => o
  | None => capacity b
  end.

Definition ack_target (b : t) : SequenceNumber.t :=
  let d := SequenceNumber.distance_from (next_ack_sequence b) (first_stored_sequence b) in
  if (d <? 0) || (capacity b <=? Z.to_nat d)%nat then next_ack_sequence b
  else seq_at b (unsettled_from b (Z.to_nat d)).

Lemma unsettled_from_step b off : (off < capacity b)%nat ->
  unsettled_from b off = if settled (lslot b off) then unsettled_from b (S off) else off.
Proof.
  intros H. unfold unsettled_from, OccupiedIndex.first_in.
  replace (capacity b - off)%nat with (S (capacity b - S off)) by lia. cbn [seq List.find].
  destruct (settled (lslot b off)); reflexivity.
Qed.

Lemma unsettled_from_spec b off : (off <= capacity b)%nat ->
  (off <= unsettled_from b off <= capacity b)%nat /\
  (forall o, (off <= o < unsettled_from b off)%nat -> settled (lslot b o) = true) /\
  ((unsettled_from b off < capacity b)%nat -> settled (lslot b (unsettled_from b off)) = false).
Proof.
  intros H. unfold unsettled_from. pose proof (OccupiedIndex.first_in_spec (fun o => negb (settled (lslot b o))) off (capacity b)) as Hs.
  destruct (OccupiedIndex.first_in _ _ _) as [o|]; simpl in Hs.
  - destruct Hs as (H1 & H2 & H3). split; [lia|]. split; [|intros; apply negb_true_iff; assumption].
    intros o' Ho'. apply negb_false_iff. apply H3. lia.
  - split; [lia|]. split; [|lia]. intros o' Ho'. apply negb_false_iff. apply Hs. lia.
Qed.

Lemma settled_test b off : window b -> (off < capacity b)%nat ->
  let slot := lslot b off in
  (negb (dropped slot) && negb (occupied slot && (sequence (header slot) =? seq_at b off))) = negb (settled slot).
Proof.
  intros W Ho. cbv zeta. unfold settled. pose proof (win_sequence b W off Ho) as Hs.
  destruct (occupied (lslot b off)); [rewrite Hs by reflexivity; rewrite Z.eqb_refl|]; destruct (dropped _); reflexivity.
Qed.

Lemma advance_ack_loop_spec fuel : forall b off, window b -> next_ack_sequence b = seq_at b off ->
  (off <= capacity b)%nat -> (capacity b <= off + fuel)%nat ->
  advance_acknowledgement_loop fuel b = set_next_ack_sequence (seq_at b (unsettled_from b off)) b.
Proof.
  induction fuel as [|fuel IH]; intros b off W Ha Ho Hf; pose proof W as [[Hc Hc'] _ _ _].
  - replace off with (capacity b) in * by lia. destruct (unsettled_from_spec b (capacity b) ltac:(lia)) as [Hu _].
    replace (unsettled_from b (capacity b)) with (capacity b) by lia. simpl. rewrite <- Ha. destruct b; reflexivity.
  - cbn [advance_acknowledgement_loop]. rewrite Ha.
    rewrite (distance_seq_at b) by lia. rewrite (proj2 (Z.ltb_ge _ _)), Nat2Z.id by lia. cbn [orb].
    destruct (Nat.leb_spec (capacity b) off) as [Hle|Hlt].
    + replace off with (capacity b) in * by lia. destruct (unsettled_from_spec b (capacity b) ltac:(lia)) as [Hu _].
      replace (unsettled_from b (capacity b)) with (capacity b) by lia. rewrite <- Ha. destruct b; reflexivity.
    + fold (lslot b off). rewrite settled_test, unsettled_from_step by assumption.
      destruct (settled (lslot b off)); cbn [negb]; [|rewrite <- Ha; destruct b; reflexivity].
      rewrite next_seq_at. set (b1 := set_next_ack_sequence (seq_at b (S off)) b).
      assert (W1 : window b1) by (apply (window_ext b); auto).
      rewrite (IH b1 (S off) W1 eq_refl) by (change (capacity b1) with (capacity b); lia). reflexivity.
Qed.

Lemma advance_acknowledgement_spec b : window b -> SequenceNumber.wf (next_ack_sequence b) ->
  advance_acknowledgement b = set_next_ack_sequence (ack_target b) b.
Proof.
  intros W Ha. unfold advance_acknowledgement, ack_target. pose proof (in_window_spec b W _ Ha) as Hd. cbv zeta in Hd.
  destruct (_ || _) eqn:E.
  - assert (Hgen : forall fuel, advance_acknowledgement_loop fuel b = b).
    { intros [|fuel]; cbn [advance_acknowledgement_loop]; [reflexivity|]. rewrite E. reflexivity. }
    rewrite Hgen. destruct b; reflexivity.
  - destruct Hd as [H1 H2]. apply advance_ack_loop_spec; auto; lia.
Qed.

Lemma ack_target_wf b : SequenceNumber.wf (next_ack_sequence b) -> SequenceNumber.wf (ack_target b).
Proof. intros. unfold ack_target. destruct (_ || _); [assumption|]. apply seq_at_wf. Qed.

Lemma core_set_ack b m x : SequenceNumber.wf x -> core b m -> core (set_next_ack_sequence x b) m.
Proof. intros Hx H. eapply core_ext; [..|exact H]; reflexivity || exact Hx. Qed.

Lemma advance_acknowledgement_core b m : core b m -> core (advance_acknowledgement b) m.
Proof.
  intros H. rewrite advance_acknowledgement_spec by apply H. apply core_set_ack; [|assumption].
  apply ack_target_wf. apply H.
Qed.

(** ** Timestamp bounds *)

Definition stored (b : t) (off : nat) : bool := occupied (lslot b off).

Definition first_bound (b : t) : Prop :=
  occupied_count b <> 0%nat -> exists f, OccupiedIndex.is_first (stored b) 0 (capacity b) (Some f) /\
    first_buffered_sequence b = seq_at b f /\ first_buffered_timestamp b = timestamp (header (lslot b f)).
Definition last_bound (b : t) : Prop :=
  occupied_count b <> 0%nat -> exists l, OccupiedIndex.is_last (stored b) 0 (capacity b) (Some l) /\
    last_buffered_sequence b = seq_at b l /\ last_buffered_timestamp b = timestamp (header (lslot b l)).

Lemma some_stored b m : core b m -> occupied_count b <> 0%nat -> exists off, (off < capacity b)%nat /\ stored b off = true.
Proof.
  intros [P W Hc _ _] Hne. assert (Hex : exists s, s ∈ slots b /\ occupied s = true).
  { rewrite Hc in Hne. clear Hc. induction (slots b) as [|s l IH]; [simpl in Hne; lia|]. simpl in Hne.
    destruct (occupied s) eqn:E; [exists s; split; [set_solver|assumption]|].
    destruct IH as (s' & Hs & Ho); [lia|]. exists s'. split; [set_solver|assumption]. }
  destruct Hex as (s & Hin & Ho). apply list_elem_of_lookup_1 in Hin as [i Hi].
  pose proof (lookup_lt_Some _ _ _ Hi) as Hlt. destruct (position_offset_of b W i Hlt) as [Ep Hoff].
  exists (offset_of b i). split; [assumption|]. unfold stored, lslot. rewrite Ep, (slot_at_lookup b i s Hi). assumption.
Qed.

(** The two searches of a refresh. *)
Lemma first_stored_search b m : core b m -> exists r,
  (match OccupiedIndex.next_occupied_bit (level_offsets b) (storage_index b) (head b) (capacity b) with
   | None => OccupiedIndex.next_occupied_bit (level_offsets b) (storage_index b) 0 (head b)
   | Some i => Some i end) = (position b <$> r) /\ OccupiedIndex.is_first (stored b) 0 (capacity b) r.
Proof.
  intros [P W Hc _ _]. pose proof W as [Hcap Hh _ _]. pose proof (proj1 (phys_storage b m P)) as Hwf.
  assert (Hmem : forall off, (off < capacity b)%nat -> OccupiedIndex.member (hd 0%nat (level_offsets b)) (storage_index b) (position b off)
    = occupied (lslot b off)) by (intros; eapply stored_member; eassumption).
  pose proof (scan_upper b (storage_index b) occupied W Hwf Hmem 0 ltac:(lia)) as H1. rewrite Nat.add_0_r in H1.
  pose proof (scan_lower b (storage_index b) occupied W Hwf Hmem (capacity b - head b) ltac:(lia) ltac:(lia)) as H2.
  replace (head b + (capacity b - head b) - capacity b)%nat with 0%nat in H2 by lia.
  pose proof (is_first_extend _ 0 (capacity b - head b) (capacity b) ltac:(lia) _ _ H1 H2) as H3.
  pose proof (OccupiedIndex.next_occupied_bit_spec _ _ _ (head b) (capacity b) Hwf ltac:(lia)) as B1.
  pose proof (OccupiedIndex.next_occupied_bit_spec _ _ _ 0 (head b) Hwf ltac:(lia)) as B2.
  eexists. split; [|exact H3].
  destruct (OccupiedIndex.next_occupied_bit _ _ (head b) (capacity b)) as [i|]; simpl in *.
  - destruct B1 as (Hi & _). rewrite (proj1 (position_offset_of b W i ltac:(lia))). reflexivity.
  - destruct (OccupiedIndex.next_occupied_bit _ _ 0 (head b)) as [i|]; simpl in *; [|reflexivity].
    destruct B2 as (Hi & _). rewrite (proj1 (position_offset_of b W i ltac:(lia))). reflexivity.
Qed.

Lemma last_stored_search b m : core b m -> exists r,
  (match OccupiedIndex.previous_storage_bit (level_offsets b) (storage_index b) 0 (head b) with
   | None => OccupiedIndex.previous_storage_bit (level_offsets b) (storage_index b) (head b) (capacity b)
   | Some i => Some i end) = (position b <$> r) /\ OccupiedIndex.is_last (stored b) 0 (capacity b) r.
Proof.
  intros [P W Hc _ _]. pose proof W as [Hcap Hh _ _]. pose proof (proj1 (phys_storage b m P)) as Hwf.
  assert (Hmem : forall off, (off < capacity b)%nat -> OccupiedIndex.member (hd 0%nat (level_offsets b)) (storage_index b) (position b off)
    = occupied (lslot b off)) by (intros; eapply stored_member; eassumption).
  pose proof (scan_lower_last b (storage_index b) occupied W Hwf Hmem) as H1.
  pose proof (scan_upper_last b (storage_index b) occupied W Hwf Hmem) as H2.
  pose proof (is_last_extend _ 0 (capacity b - head b) (capacity b) ltac:(lia) _ _ H1 H2) as H3.
  pose proof (OccupiedIndex.previous_storage_bit_spec _ _ _ (head b) (capacity b) Hwf ltac:(lia)) as B1.
  pose proof (OccupiedIndex.previous_storage_bit_spec _ _ _ 0 (head b) Hwf ltac:(lia)) as B2.
  eexists. split; [|exact H3].
  destruct (OccupiedIndex.previous_storage_bit _ _ 0 (head b)) as [i|]; simpl in *.
  - destruct B2 as (Hi & _). rewrite (proj1 (position_offset_of b W i ltac:(lia))). reflexivity.
  - destruct (OccupiedIndex.previous_storage_bit _ _ (head b) (capacity b)) as [i|]; simpl in *; [|reflexivity].
    destruct B1 as (Hi & _). rewrite (proj1 (position_offset_of b W i ltac:(lia))). reflexivity.
Qed.

(** Bounds refer to the fields below and to nothing else. *)
Lemma first_bound_ext b b' : slots b' = slots b -> head b' = head b -> first_stored_sequence b' = first_stored_sequence b ->
  occupied_count b' = occupied_count b -> first_buffered_sequence b' = first_buffered_sequence b ->
  first_buffered_timestamp b' = first_buffered_timestamp b -> first_bound b -> first_bound b'.
Proof.
  intros E1 E2 E3 E4 E5 E6 H. unfold first_bound, stored, lslot, seq_at, slot_at, position, capacity in *.
  rewrite E1, E2, E3, E4, E5, E6. exact H.
Qed.
Lemma last_bound_ext b b' : slots b' = slots b -> head b' = head b -> first_stored_sequence b' = first_stored_sequence b ->
  occupied_count b' = occupied_count b -> last_buffered_sequence b' = last_buffered_sequence b ->
  last_buffered_timestamp b' = last_buffered_timestamp b -> last_bound b -> last_bound b'.
Proof.
  intros E1 E2 E3 E4 E5 E6 H. unfold last_bound, stored, lslot, seq_at, slot_at, position, capacity in *.
  rewrite E1, E2, E3, E4, E5, E6. exact H.
Qed.

(** States that differ at most in the four bounds. *)
Definition unbound (b : t) : t :=
  set_last_buffered_timestamp 0 (set_first_buffered_timestamp 0
    (set_last_buffered_sequence 0 (set_first_buffered_sequence 0 b))).
Definition same_state (b b' : t) : Prop := unbound b' = unbound b.

#[export] Instance same_state_equivalence : Equivalence same_state.
Proof. unfold same_state. split; [intros ?; reflexivity|intros ? ? E; symmetry; exact E|intros ? ? ? E1 E2; congruence]. Qed.

(** Rewrite a projection of [b'] along [same_state b b']. *)
Ltac along H :=
  repeat match goal with |- ?f ?b' = ?f ?b =>
    change (f (unbound b') = f (unbound b)); rewrite H; reflexivity end.

Lemma same_state_core b b' m : same_state b b' -> core b m -> core b' m.
Proof.
  intros H C. eapply core_ext; [..|exact C]; try solve [along H].
  replace (next_ack_sequence b') with (next_ack_sequence b); [apply C|]. symmetry. along H.
Qed.

Lemma same_state_slots b b' : same_state b b' -> slots b' = slots b /\ head b' = head b /\
  first_stored_sequence b' = first_stored_sequence b /\ payloads b' = payloads b /\
  next_ack_sequence b' = next_ack_sequence b /\ occupied_count b' = occupied_count b /\
  defer_drop_timestamp_refresh b' = defer_drop_timestamp_refresh b /\ discarding_message b' = discarding_message b /\
  rejected b' = rejected b.
Proof. intros H. split_and!; along H. Qed.

Lemma same_state_shifted k b b1 b2 : same_state b1 b2 -> shifted k b b1 -> shifted k b b2.
Proof.
  intros H [Q1 Q2 Q3 Q4 Q5 Q6 Q7]. destruct (same_state_slots _ _ H) as (E1 & E2 & E3 & E4 & E5 & E6 & E7 & _).
  split; unfold lcontent, content, lslot, slot_at, position, capacity in *; rewrite ?E1, ?E2, ?E3, ?E4, ?E5, ?E7; assumption.
Qed.

Lemma refresh_first_spec b m : core b m -> let b' := refresh_first_buffered_timestamp b in
  same_state b b' /\ first_bound b' /\ (last_bound b -> last_bound b').
Proof.
  intros C. pose proof (core_window b m C) as W. cbv zeta. unfold refresh_first_buffered_timestamp.
  destruct (Nat.eqb_spec (occupied_count b) 0) as [E|E].
  - split; [reflexivity|]. split; [|intros _]; intros H; exfalso; apply H; exact E.
  - destruct (first_stored_search b m C) as (r & Hr & Hf).
    assert (Hr' : (match OccupiedIndex.next_occupied_bit (level_offsets b) (storage_index b) (head b) (capacity b) with
      | Some _ => OccupiedIndex.next_occupied_bit (level_offsets b) (storage_index b) (head b) (capacity b)
      | None => OccupiedIndex.next_occupied_bit (level_offsets b) (storage_index b) 0 (head b) end) = (position b <$> r)).
    { rewrite <- Hr. destruct (OccupiedIndex.next_occupied_bit _ _ (head b) _); reflexivity. }
    rewrite Hr'. destruct r as [f|]; cbn [fmap option_fmap option_map].
    + split; [reflexivity|]. split.
      * intros _. exists f. split; [exact Hf|]. split; [|reflexivity]. cbn. fold (lslot b f).
        apply (win_sequence b W); [destruct Hf; lia|apply Hf].
      * apply last_bound_ext; reflexivity.
    + exfalso. destruct (some_stored b m C E) as (off & Ho & Hs). rewrite (Hf off) in Hs by lia. discriminate.
Qed.

Lemma refresh_bounds_spec b m : core b m -> let b' := refresh_buffered_timestamp_bounds b in
  same_state b b' /\ first_bound b' /\ last_bound b'.
Proof.
  intros C. cbv zeta. unfold refresh_buffered_timestamp_bounds. destruct (refresh_first_spec b m C) as (S1 & F1 & _).
  set (b1 := refresh_first_buffered_timestamp b) in *. pose proof (same_state_core b b1 m S1 C) as C1.
  pose proof (core_window b1 m C1) as W1.
  destruct (Nat.eqb_spec (occupied_count b1) 0) as [E|E].
  - split; [assumption|]. split; [assumption|]. intros H. exfalso. apply H. exact E.
  - destruct (last_stored_search b1 m C1) as (r & Hr & Hf).
    assert (Hr' : (match OccupiedIndex.previous_storage_bit (level_offsets b1) (storage_index b1) 0 (head b1) with
      | Some _ => OccupiedIndex.previous_storage_bit (level_offsets b1) (storage_index b1) 0 (head b1)
      | None => OccupiedIndex.previous_storage_bit (level_offsets b1) (storage_index b1) (head b1) (capacity b1) end) = (position b1 <$> r)).
    { rewrite <- Hr. destruct (OccupiedIndex.previous_storage_bit _ _ 0 _); reflexivity. }
    rewrite Hr'. destruct r as [l|]; cbn [fmap option_fmap option_map].
    + split; [rewrite S1; reflexivity|]. split.
      * revert F1. apply first_bound_ext; reflexivity.
      * intros _. exists l. split; [exact Hf|]. split; [|reflexivity]. cbn. fold (lslot b1 l).
        apply (win_sequence b1 W1); [destruct Hf; lia|apply Hf].
    + exfalso. destruct (some_stored b1 m C1 E) as (off & Ho & Hs). rewrite (Hf off) in Hs by lia. discriminate.
Qed.

(** ** Insertion *)

Definition packet_slot (packet : PacketView) (index : nat) : Slot :=
  {| header := data packet; payload_index := index; payload_size := length (payload packet); payload_offset := 0;
     rejected_payload := false; occupied := true; dropped := false; gap_deadline_microseconds := 0 |}.

(** A data packet whose header fields have their types' ranges. *)
Definition packet_ok (packet : PacketView) : Prop :=
  SequenceNumber.wf (sequence (data packet)) /\ is_u32 (message_number (data packet)) /\
  (length (payload packet) <= maximum_data_payload_size)%nat.

Lemma cast_u16_id n : (n <= maximum_data_payload_size)%nat -> cast_u16 n = n.
Proof.
  intros. unfold cast_u16, u16, maximum_data_payload_size in *. rewrite Z.mod_small by lia. apply Nat2Z.id.
Qed.

Definition stored_state (packet : PacketView) (i : nat) (b : t) : t :=
  let '(index, pool) := PayloadPool.acquire (payloads b) (payload packet) in
  set_occupied_count (occupied_count b + 1)%nat (fill i (packet_slot packet index) pool (invalidate_delivery_queries b)).

Lemma store_packet_state packet i b : packet_ok packet -> same_state (stored_state packet i b) (store_packet packet i b).
Proof.
  intros (_ & _ & Hl). unfold store_packet, stored_state.
  change (payloads (invalidate_delivery_queries b)) with (payloads b).
  destruct (PayloadPool.acquire (payloads b) (payload packet)) as [index pool].
  rewrite cast_u16_id by assumption. unfold same_state.
  repeat match goal with |- context [if ?c then _ else _] => destruct c end; reflexivity.
Qed.

Lemma packet_slot_wf packet index : packet_ok packet -> slot_wf (packet_slot packet index).
Proof. intros (H1 & H2 & H3). split; simpl; auto; try discriminate; lia. Qed.

Lemma changed_count b b' i s' bs : changed i s' bs b b' -> slots b' = <[i := s']> (slots b) -> (i < capacity b)%nat ->
  (countb occupied (slots b') + (if occupied (slot_at b i) then 1 else 0) =
   countb occupied (slots b) + (if occupied s' then 1 else 0))%nat.
Proof. intros _ E Hi. rewrite E. apply countb_insert. apply lookup_slot. assumption. Qed.

(** Storing fills one vacant slot. *)
Lemma stored_state_spec b m packet off : core b m -> packet_ok packet -> (off < capacity b)%nat ->
  sequence (data packet) = seq_at b off -> settled (lslot b off) = false ->
  exists index m', core (stored_state packet (position b off) b) m' /\
    changed (position b off) (packet_slot packet index) (payload packet) b (stored_state packet (position b off) b).
Proof.
  intros [P W Hc Ha _] Hp Ho Hseq Hset. unfold stored_state.
  destruct (PayloadPool.acquire (payloads b) (payload packet)) as [index pool] eqn:Eacq.
  apply orb_false_iff in Hset as [Hocc Hdr].
  set (i := position b off). set (s' := packet_slot packet index). set (b0 := invalidate_delivery_queries b).
  assert (P0 : phys b0 m) by (eapply phys_ext; [..|exact P]; reflexivity).
  pose proof (lslot_lookup b W off : slots b0 !! i = Some (lslot b off)) as Hl.
  pose proof (packet_slot_wf packet index Hp) as Hw.
  destruct (fill_phys b0 m i _ s' (payload packet) pool P0 Hl Hocc) as [P1 _]; try assumption; try reflexivity; [apply Hp|].
  pose proof (fill_changed b0 m i _ s' (payload packet) pool P0 Hl Hocc) as C1.
  specialize (C1 ltac:(apply Hp) Eacq Hw eq_refl eq_refl eq_refl).
  set (b1 := fill i s' pool b0) in *.
  exists index, (<[payload_index s' := payload packet]> m).
  assert (Hi : (i < capacity b)%nat) by (apply position_lt; assumption).
  assert (C2 : changed i s' (payload packet) b (set_occupied_count (occupied_count b + 1) b1)).
  { eapply changed_ext; [..|exact C1]; reflexivity. }
  split; [|exact C2]. split.
  - eapply phys_ext; [..|exact P1]; reflexivity.
  - destruct C2 as (D1 & D2 & D3). pose proof W as [W1 W2 W3 W4].
    set (b2 := set_occupied_count _ b1) in *. split; rewrite ?D1; auto.
    intros o Hoo Hs. unfold lslot in *.
    assert (Ep : position b2 o = position b o) by (unfold position; rewrite D1; reflexivity). rewrite Ep in *.
    destruct (decide (position b o = i)) as [Ei|Hne].
    + apply (position_inj b W) in Ei; [|assumption..]. subst o. fold i.
      assert (Es : slot_at b2 i = s') by exact (f_equal fst D2). rewrite Es. exact Hseq.
    + assert (Es : slot_at b2 (position b o) = slot_at b (position b o)) by exact (f_equal fst (D3 _ (position_lt b W o) Hne)).
      rewrite Es in *. apply W4; assumption.
  - assert (E : slots (set_occupied_count (occupied_count b + 1) b1) = <[i := s']> (slots b)) by reflexivity.
    pose proof (changed_count b _ i s' _ C2 E Hi) as Hk.
    assert (Es : slot_at b i = lslot b off) by reflexivity. rewrite Es, Hocc in Hk. change (occupied s') with true in Hk.
    change (occupied_count (set_occupied_count (occupied_count b + 1) b1)) with (occupied_count b + 1)%nat.
    cbv iota in Hk. lia.
  - exact Ha.
  - split; discriminate.
Qed.

Lemma distance_offsets b off off' : window b -> (off < capacity b)%nat -> (off' < capacity b)%nat ->
  SequenceNumber.distance_from (seq_at b off) (seq_at b off') = Z.of_nat off - Z.of_nat off'.
Proof.
  intros [[_ Hc] _ _ _] H H'. apply SequenceNumber.distance_unique; [SequenceNumber.consts; lia|].
  unfold seq_at. rewrite !SequenceNumber.advanced_mod, <- Zminus_mod. f_equal. lia.
Qed.

Lemma changed_lslot b b' off s' bs o : window b -> changed (position b off) s' bs b b' -> head b' = head b ->
  (off < capacity b)%nat -> (o < capacity b)%nat -> lslot b' o = if (o =? off)%nat then s' else lslot b o.
Proof.
  intros W (C1 & C2 & C3) Hh Ho Hoo. unfold lslot.
  assert (Ep : position b' o = position b o) by (unfold position; rewrite C1, Hh; reflexivity). rewrite Ep.
  destruct (Nat.eqb_spec o off) as [->|Hne]; [exact (f_equal fst C2)|].
  apply (f_equal fst (C3 _ (position_lt b W o) ltac:(intros E; apply Hne; apply (position_inj b W) in E; assumption))).
Qed.

(** The bounds fields of [store_packet]. *)
Lemma store_packet_fields packet i b :
  let s := sequence (data packet) in
  let b' := store_packet packet i b in
  let lower := (occupied_count b =? 0)%nat || (SequenceNumber.distance_from s (first_buffered_sequence b) <? 0) in
  let upper := (occupied_count b =? 0)%nat || (0 <? SequenceNumber.distance_from s (last_buffered_sequence b)) in
  first_buffered_sequence b' = (if lower then s else first_buffered_sequence b) /\
  first_buffered_timestamp b' = (if lower then timestamp (data packet) else first_buffered_timestamp b) /\
  last_buffered_sequence b' = (if upper then s else last_buffered_sequence b) /\
  last_buffered_timestamp b' = (if upper then timestamp (data packet) else last_buffered_timestamp b).
Proof.
  cbv zeta. unfold store_packet. destruct (PayloadPool.acquire _ _) as [index pool].
  change (occupied_count (index_occupied i true true _)) with (occupied_count b).
  destruct (occupied_count b =? 0)%nat; cbn [orb]; [split_and!; reflexivity|].
  match goal with |- context [if SequenceNumber.distance_from ?x ?y <? 0 then _ else _] =>
    change y with (first_buffered_sequence b) end.
  destruct (SequenceNumber.distance_from _ (first_buffered_sequence b) <? 0);
  match goal with |- context [if 0 <? SequenceNumber.distance_from ?x ?y then set_last_buffered_timestamp _ _ else _] =>
    change y with (last_buffered_sequence b) end;
  destruct (0 <? SequenceNumber.distance_from _ (last_buffered_sequence b)); split_and!; reflexivity.
Qed.

Section store_bounds.
Context (b b' : t) (packet : PacketView) (off : nat) (s' : Slot) (bs : list Z).
Hypothesis W : window b.
Hypothesis Ho : (off < capacity b)%nat.
Hypothesis Hcnt : occupied_count b = countb occupied (slots b).
Hypothesis Hvac : stored b off = false.
Hypothesis Eb : b' = store_packet packet (position b off) b.
Hypothesis Hs : sequence (data packet) = seq_at b off.
Hypothesis C : changed (position b off) s' bs b b'.
Hypothesis Hh : header s' = data packet.
Hypothesis Hocc : occupied s' = true.
Hypothesis Ehead : head b' = head b.
Hypothesis Efirst : first_stored_sequence b' = first_stored_sequence b.

Lemma store_lslot o : (o < capacity b)%nat -> lslot b' o = if (o =? off)%nat then s' else lslot b o.
Proof. intros. eapply changed_lslot; eauto. Qed.

Lemma store_stored o : (o < capacity b)%nat -> stored b' o = (o =? off)%nat || stored b o.
Proof.
  intros H. unfold stored. rewrite store_lslot by assumption. destruct (o =? off)%nat; [rewrite Hocc|]; reflexivity.
Qed.

Lemma nothing_stored : occupied_count b = 0%nat -> forall o, stored b o = false.
Proof.
  intros E o. unfold stored. apply (countb_zero occupied (slots b)); [lia|].
  apply list_elem_of_lookup_2 with (position b o). apply lslot_lookup. assumption.
Qed.

Lemma store_first_bound : first_bound b -> first_bound b'.
Proof.
  intros Hf _. pose proof (store_packet_fields packet (position b off) b) as F. cbv zeta in F. rewrite <- Eb, Hs in F.
  destruct F as (F1 & F2 & _ & _). pose proof (proj1 C) as Ecap.
  assert (Eseq : forall o, seq_at b' o = seq_at b o) by (intros; unfold seq_at; rewrite Efirst; reflexivity).
  destruct (Nat.eqb_spec (occupied_count b) 0) as [E|E]; cbn [orb] in F1, F2; cbv iota in F1, F2.
  2: destruct (Hf E) as (f & (Hfc & Hfs & Hfm) & Hfq & Hft); rewrite Hfq, distance_offsets in F1, F2 by (auto; lia);
     destruct (Z.ltb_spec (Z.of_nat off - Z.of_nat f) 0).
  1,2: exists off; rewrite Eseq, store_lslot, Nat.eqb_refl, Hh, Ecap by assumption; split; [|split; assumption]; split; [lia|];
    (split; [rewrite store_stored, Nat.eqb_refl by assumption; reflexivity|]); intros q Hq;
    rewrite store_stored, (proj2 (Nat.eqb_neq q off)) by lia; cbn [orb].
  - apply nothing_stored. assumption.
  - apply Hfm. lia.
  - assert (Hne : f <> off) by (intros ->; congruence).
    exists f. rewrite Eseq, Ecap, store_lslot, (proj2 (Nat.eqb_neq f off)) by lia. split; [|split; congruence]. split; [lia|].
    split; [rewrite store_stored, Hfs, orb_true_r by lia; reflexivity|].
    intros q Hq. rewrite store_stored, (proj2 (Nat.eqb_neq q off)) by lia. apply Hfm. lia.
Qed.

Lemma store_last_bound : last_bound b -> last_bound b'.
Proof.
  intros Hl _. pose proof (store_packet_fields packet (position b off) b) as F. cbv zeta in F. rewrite <- Eb, Hs in F.
  destruct F as (_ & _ & F1 & F2). pose proof (proj1 C) as Ecap.
  assert (Eseq : forall o, seq_at b' o = seq_at b o) by (intros; unfold seq_at; rewrite Efirst; reflexivity).
  destruct (Nat.eqb_spec (occupied_count b) 0) as [E|E]; cbn [orb] in F1, F2; cbv iota in F1, F2.
  2: destruct (Hl E) as (f & (Hfc & Hfs & Hfm) & Hfq & Hft); rewrite Hfq, distance_offsets in F1, F2 by (auto; lia);
     destruct (Z.ltb_spec 0 (Z.of_nat off - Z.of_nat f)).
  1,2: exists off; rewrite Eseq, store_lslot, Nat.eqb_refl, Hh, Ecap by assumption; split; [|split; assumption]; split; [lia|];
    (split; [rewrite store_stored, Nat.eqb_refl by assumption; reflexivity|]); intros q Hq;
    rewrite store_stored, (proj2 (Nat.eqb_neq q off)) by lia; cbn [orb].
  - apply nothing_stored. assumption.
  - apply Hfm. lia.
  - assert (Hne : f <> off) by (intros ->; congruence).
    exists f. rewrite Eseq, Ecap, store_lslot, (proj2 (Nat.eqb_neq f off)) by lia. split; [|split; congruence]. split; [lia|].
    split; [rewrite store_stored, Hfs, orb_true_r by lia; reflexivity|].
    intros q Hq. rewrite store_stored, (proj2 (Nat.eqb_neq q off)) by lia. apply Hfm. lia.
Qed.
End store_bounds.

(** ** The whole invariant *)

Record inv (b : t) (m : gmap nat (list Z)) : Prop := {
  inv_core : core b m;
  inv_first : first_bound b;
  inv_last : last_bound b;
  inv_defer : defer_drop_timestamp_refresh b = false;
}.

(** What the window looks like after a packet has been stored at [off]. *)
Record inserted (off : nat) (packet : PacketView) (b b1 : t) : Prop := {
  inserted_capacity : capacity b1 = capacity b;
  inserted_first : first_stored_sequence b1 = first_stored_sequence b;
  inserted_here : exists index, lcontent b1 off = (packet_slot packet index, payload packet);
  inserted_other : forall o, (o < capacity b)%nat -> o <> off -> lcontent b1 o = lcontent b o;
}.

Lemma changed_lcontent b b' off s' bs o : window b -> changed (position b off) s' bs b b' -> head b' = head b ->
  (off < capacity b)%nat -> (o < capacity b)%nat -> lcontent b' o = if (o =? off)%nat then (s', bs) else lcontent b o.
Proof.
  intros W (C1 & C2 & C3) Hh Ho Hoo. unfold lcontent.
  assert (Ep : position b' o = position b o) by (unfold position; rewrite C1, Hh; reflexivity). rewrite Ep.
  destruct (Nat.eqb_spec o off) as [->|Hne]; [exact C2|].
  apply C3; [apply position_lt; assumption|]. intros E. apply Hne. apply (position_inj b W) in E; assumption.
Qed.

Lemma store_packet_spec b m packet off : inv b m -> packet_ok packet -> (off < capacity b)%nat ->
  sequence (data packet) = seq_at b off -> settled (lslot b off) = false ->
  let b1 := store_packet packet (position b off) b in
  exists m', inv b1 m' /\ inserted off packet b b1 /\ next_ack_sequence b1 = next_ack_sequence b /\
    discarding_message b1 = discarding_message b /\ rejected b1 = rejected b.
Proof.
  intros [C Hf Hl Hd] Hp Ho Hs Hset. cbv zeta. pose proof C as [P W Hcnt Ha Hq].
  destruct (stored_state_spec b m packet off C Hp Ho Hs Hset) as (index & m' & C1 & Ch).
  pose proof (store_packet_state packet (position b off) b Hp) as Hss.
  set (b0 := stored_state packet (position b off) b) in *. set (b1 := store_packet packet (position b off) b) in *.
  pose proof (same_state_slots b0 b1 Hss) as (E1 & E2 & E3 & E4 & E5 & E6 & E7 & E8 & E9).
  assert (F : head b0 = head b /\ first_stored_sequence b0 = first_stored_sequence b /\
    next_ack_sequence b0 = next_ack_sequence b /\ defer_drop_timestamp_refresh b0 = defer_drop_timestamp_refresh b /\
    discarding_message b0 = discarding_message b /\ rejected b0 = rejected b).
  { unfold b0, stored_state. destruct (PayloadPool.acquire _ _). split_and!; reflexivity. }
  destruct F as (F1 & F2 & F3 & F4 & F5 & F6).
  assert (Ch1 : changed (position b off) (packet_slot packet index) (payload packet) b b1) by (eapply changed_ext; eauto).
  apply orb_false_iff in Hset as [Hocc _].
  exists m'. split; [split|split; [split|split_and!; congruence]].
  - eapply same_state_core; eassumption.
  - eapply (store_first_bound b b1); eauto; congruence.
  - eapply (store_last_bound b b1); eauto; congruence.
  - congruence.
  - apply Ch1.
  - congruence.
  - exists index. rewrite (changed_lcontent b b1 off _ _ off W Ch1), Nat.eqb_refl by (congruence || assumption). reflexivity.
  - intros o Hoo Hne. rewrite (changed_lcontent b b1 off _ _ o W Ch1) by (congruence || assumption).
    rewrite (proj2 (Nat.eqb_neq o off)) by assumption. reflexivity.
Qed.

Lemma inv_set_ack b m x : SequenceNumber.wf x -> inv b m -> inv (set_next_ack_sequence x b) m.
Proof.
  intros Hx [C Hf Hl Hd]. split; [apply core_set_ack; assumption| | |exact Hd].
  - revert Hf. apply first_bound_ext; reflexivity.
  - revert Hl. apply last_bound_ext; reflexivity.
Qed.

Lemma advance_acknowledgement_inv b m : inv b m ->
  advance_acknowledgement b = set_next_ack_sequence (ack_target b) b /\ inv (advance_acknowledgement b) m.
Proof.
  intros H. assert (E : advance_acknowledgement b = set_next_ack_sequence (ack_target b) b)
    by (apply advance_acknowledgement_spec; apply H).
  split; [assumption|]. rewrite E. apply inv_set_ack; [|assumption]. apply ack_target_wf. apply H.
Qed.

(** Trimming and refreshing the bounds. *)
Lemma trim_refresh_inv b m : core b m -> defer_drop_timestamp_refresh b = false ->
  let b' := refresh_buffered_timestamp_bounds (trim_dropped_prefix b) in
  exists k m', inv b' m' /\ shifted k b b' /\ stopped (trim_dropped_prefix b) /\ same_state (trim_dropped_prefix b) b' /\
    (~ has_rejections b -> ~ has_rejections b' /\ forall off, (off < k)%nat -> dropped (lslot b off) = true).
Proof.
  intros C Hd. cbv zeta. destruct (trim_spec b m C) as (k & m' & [T1 T2 T3 T4 T5 T6 _ _] & Hst).
  destruct (refresh_bounds_spec _ m' T1) as (S1 & F1 & L1). exists k, m'.
  split; [split|split; [|split; [assumption|split; [assumption|]]]].
  - eapply same_state_core; eassumption.
  - assumption.
  - assumption.
  - destruct (same_state_slots _ _ S1) as (_ & _ & _ & _ & _ & _ & E & _). rewrite E, (shifted_defer _ _ _ T2). assumption.
  - eapply same_state_shifted; eassumption.
  - intros Hn. destruct (T6 Hn) as [Hn' Hall]. split; [|assumption].
    destruct (same_state_slots _ _ S1) as (E1 & _ & _ & _ & _ & _ & _ & E2 & _). unfold has_rejections in *. rewrite E1, E2. assumption.
Qed.

Lemma no_rejections_test b m : core b m ->
  (bool_decide (is_Some (RejectedMessages.root (rejected b))) || bool_decide (is_Some (discarding_message b))) = false
  <-> ~ has_rejections b.
Proof.
  intros C. pose proof (RejectedMessages.root_empty _ _ _ (phys_rejected b m (core_phys b m C))) as Hr. unfold has_rejections.
  rewrite orb_false_iff, !bool_decide_eq_false, <- !eq_None_not_Some, Hr.
  destruct (discarding_message b), (rejected_list (slots b)); intuition congruence.
Qed.
