(* ===== verification/ReceiveBufferOps.v ===== *)
(** The public operations of the receive buffer: results, effects on the window
    and preservation of the invariant. *)
From stdpp Require Import gmap.
From S2P Require Import Prelude Sequence Packet Codec Control LossList ReceiveWindow.
From S2P Require Import PayloadPool OccupiedIndex RejectedMessages ReceiveBuffer ReceiveBufferFacts.
From S2P Require Import ReceiveBufferQueries ReceiveBufferSteps.
Import ReceiveBuffer.

(** * Construction *)

Lemma receive_make_inv initial capacity_packets arena b : SequenceNumber.wf initial ->
  length arena = (capacity_packets * PayloadPool.width)%nat ->
  make initial capacity_packets arena = Some b -> inv b ∅ /\ capacity b = capacity_packets.
Proof.
  intros Hs Ha Hm. unfold make in Hm. destruct (PayloadPool.make capacity_packets arena) as [pool|] eqn:Ep; [|discriminate].
  destruct (_ || _) eqn:E; [discriminate|]. b2p.
  destruct (OccupiedIndex.layout_spec capacity_packets ltac:(lia) ltac:(lia)) as (offsets & total & El & _ & Hwf).
  rewrite El in Hm. injection Hm as <-. split; [|unfold capacity; cbn; apply length_replicate].
  set (b := Build_t _ _ _ _ _ _ _ _ _ _ _ _ _ _ _ _ _ _ _ _ _ _ _).
  assert (Hcap : capacity b = capacity_packets) by (unfold capacity, b; cbn; apply length_replicate).
  assert (Hsl : forall i s, slots b !! i = Some s -> s = default_slot) by (intros i s Hi; apply lookup_replicate_1 in Hi; apply Hi).
  assert (Hocc : forall off, lslot b off = default_slot \/ (capacity b <= position b off)%nat).
  { intros off. destruct (decide (position b off < capacity b)%nat) as [Hlt|]; [left|right; lia].
    unfold lslot. eapply Hsl. apply lookup_slot. assumption. }
  assert (Hz : forall f : Slot -> nat, f default_slot = 0%nat -> sum_list_with f (slots b) = 0%nat).
  { intros f Hf. unfold b. cbn. clear -Hf. induction capacity_packets; simpl; [reflexivity|]. rewrite Hf. assumption. }
  assert (Hc0 : countb occupied (slots b) = 0%nat).
  { unfold b. cbn. clear. induction capacity_packets; simpl; [reflexivity|]. assumption. }
  assert (Hr0 : rejected_list (slots b) = []).
  { unfold b, rejected_list. cbn. clear. induction capacity_packets; simpl; [reflexivity|]. assumption. }
  split; [split| | |reflexivity].
  - split; rewrite ?Hcap; auto.
    + split; lia.
    + intros i s Hi. rewrite (Hsl i s Hi). apply vacant_wf. split_and!; auto; simpl; lia.
    + eapply PayloadPool.pool_make_inv; eassumption.
    + intros i s Hi Ho. rewrite (Hsl i s Hi) in Ho. discriminate.
    + intros i j s s' Hi _ Ho. rewrite (Hsl i s Hi) in Ho. discriminate.
    + split; [exact Hwf|]. intros i s Hi. rewrite (Hsl i s Hi). eapply OccupiedIndex.member_zeros; [exact Hwf|].
      apply lookup_lt_Some in Hi. fold (capacity b) in Hi. lia.
    + split; [exact Hwf|]. intros i s Hi. rewrite (Hsl i s Hi). eapply OccupiedIndex.member_zeros; [exact Hwf|].
      apply lookup_lt_Some in Hi. fold (capacity b) in Hi. lia.
    + rewrite Hr0. apply RejectedMessages.rejected_make_inv; [lia|]. SequenceNumber.consts. lia.
    + symmetry. apply Hz. reflexivity.
  - split; rewrite ?Hcap; auto; [split; lia|simpl; lia|].
    intros off Ho Hoc. destruct (Hocc off) as [E|E]; [rewrite E in Hoc; discriminate|].
    exfalso. unfold position in E. pose proof (Nat.mod_upper_bound (head b + off) (capacity b)). lia.
  - symmetry. exact Hc0.
  - exact Hs.
  - split; discriminate.
  - intros Hx. exfalso. apply Hx. reflexivity.
  - intros Hx. exfalso. apply Hx. reflexivity.
Qed.

(** * Insertion *)

Lemma insert_rejected_packet b packet : kind packet <> PacketKind.data \/ (maximum_data_payload_size < length (payload packet))%nat ->
  insert b packet = (insert_result Error.invalid_packet_type ReceiveStatus.accepted_in_order, b).
Proof.
  intros H. unfold insert. destruct H as [H|H].
  - rewrite (bool_decide_eq_false_2 _ H). reflexivity.
  - rewrite (proj2 (Nat.ltb_lt _ _) H), orb_true_r. reflexivity.
Qed.

(** The guards of [insert], on a packet of the right kind and size. *)
Lemma insert_guards b packet : kind packet = PacketKind.data -> packet_ok packet ->
  insert b packet =
  let s := sequence (data packet) in
  let d := SequenceNumber.distance_from s (first_stored_sequence b) in
  if d <? 0 then (insert_result Error.none ReceiveStatus.older_than_window, b)
  else if (capacity b <=? Z.to_nat d)%nat then (insert_result Error.none ReceiveStatus.beyond_window, b)
  else if settled (lslot b (Z.to_nat d)) then (insert_result Error.none ReceiveStatus.duplicate, b)
  else
    let b1 := store_packet packet (position b (Z.to_nat d)) b in
    let ack := SequenceNumber.distance_from s (next_ack_sequence b1) in
    let b2 := advance_acknowledgement b1 in
    let adv := SequenceNumber.distance_from (next_ack_sequence b2) (next_ack_sequence b1) in
    ({| insert_error := Error.none;
        insert_status := if ack =? 0 then ReceiveStatus.accepted_in_order else ReceiveStatus.accepted_out_of_order;
        insert_gap := if 0 <? ack then {| range_first := next_ack_sequence b1;
                                          range_last := SequenceNumber.advanced s SequenceNumber.mask |} else inhabitant;
        has_gap := 0 <? ack; insert_advance := if 0 <? adv then adv else 0 |},
     if bool_decide (is_Some (RejectedMessages.root (rejected b2))) || bool_decide (is_Some (discarding_message b2))
     then refresh_buffered_timestamp_bounds (trim_dropped_prefix b2) else b2).
Proof.
  intros Hk (_ & _ & Hl). unfold insert. rewrite (bool_decide_eq_true_2 _ Hk), (proj2 (Nat.ltb_ge _ _) Hl). reflexivity.
Qed.

(** The effect of an accepted packet: stored at its offset, the acknowledgement
    moved on, and a prefix of [k] offsets trimmed when messages are rejected. *)
Record accepted (off : nat) (packet : PacketView) (b b' : t) : Prop := {
  accepted_inv : exists m', inv b' m';
  accepted_trim : exists b1 k, inserted off packet b b1 /\ shifted k b1 b' /\
    next_ack_sequence b1 = ack_target (set_next_ack_sequence (next_ack_sequence b) b1) /\
    (~ has_rejections b -> b1 = b');
  accepted_clean : ~ has_rejections b -> ~ has_rejections b';
}.

Lemma has_rejections_fields b b' m m' : core b m -> core b' m' -> rejected b' = rejected b ->
  discarding_message b' = discarding_message b -> ~ has_rejections b -> ~ has_rejections b'.
Proof.
  intros C C' E1 E2. rewrite <- (no_rejections_test b m C), <- (no_rejections_test b' m' C'), E1, E2. auto.
Qed.

Lemma insert_accepted b m packet : inv b m -> kind packet = PacketKind.data -> packet_ok packet ->
  let s := sequence (data packet) in
  let d := SequenceNumber.distance_from s (first_stored_sequence b) in
  0 <= d -> (Z.to_nat d < capacity b)%nat -> settled (lslot b (Z.to_nat d)) = false ->
  accepted (Z.to_nat d) packet b (insert b packet).2 /\
  let r := (insert b packet).1 in
  let ack := SequenceNumber.distance_from s (next_ack_sequence b) in
  insert_error r = Error.none /\
  insert_status r = (if ack =? 0 then ReceiveStatus.accepted_in_order else ReceiveStatus.accepted_out_of_order) /\
  has_gap r = (0 <? ack) /\
  (0 < ack -> insert_gap r = {| range_first := next_ack_sequence b; range_last := SequenceNumber.advanced s SequenceNumber.mask |}) /\
  insert_advance r = Z.max 0 (SequenceNumber.distance_from (next_ack_sequence (insert b packet).2) (next_ack_sequence b)).
Proof.
  intros Hi Hk Hp s d Hd Hlt Hset. rewrite insert_guards by assumption. cbv zeta. fold s d.
  rewrite (proj2 (Z.ltb_ge d 0)), (proj2 (Nat.leb_gt (capacity b) (Z.to_nat d))), Hset by lia.
  pose proof (core_window b m (inv_core b m Hi)) as W.
  assert (Es : s = seq_at b (Z.to_nat d)) by (apply seq_at_distance; [apply Hp|assumption]).
  destruct (store_packet_spec b m packet (Z.to_nat d) Hi Hp Hlt Es Hset) as (m1 & I1 & In1 & A1 & D1 & R1).
  set (b1 := store_packet packet _ b) in *. destruct (advance_acknowledgement_inv b1 m1 I1) as [Eadv I2].
  set (b2 := advance_acknowledgement b1) in *. rewrite A1.
  assert (N2 : next_ack_sequence b2 = ack_target (set_next_ack_sequence (next_ack_sequence b) b2)).
  { rewrite Eadv. unfold ack_target. cbn. rewrite A1. reflexivity. }
  assert (In2 : inserted (Z.to_nat d) packet b b2) by (rewrite Eadv; destruct In1 as [J1 J2 J3 J4]; split; assumption).
  assert (Hrej : ~ has_rejections b -> ~ has_rejections b2).
  { apply (has_rejections_fields b b2 m m1); try apply Hi; try apply I2; rewrite Eadv; assumption. }
  set (test := bool_decide _ || bool_decide _). cbn [fst snd insert_error insert_status has_gap insert_gap insert_advance].
  assert (Hfin : accepted (Z.to_nat d) packet b (if test then refresh_buffered_timestamp_bounds (trim_dropped_prefix b2) else b2) /\
    next_ack_sequence (if test then refresh_buffered_timestamp_bounds (trim_dropped_prefix b2) else b2) = next_ack_sequence b2).
  { destruct test eqn:Et.
    - destruct (trim_refresh_inv b2 m1 (inv_core _ _ I2) (inv_defer _ _ I2)) as (k & m' & I3 & S3 & _ & _ & _).
      assert (Hno : ~ has_rejections b -> False).
      { intros Hn. apply Hrej in Hn. rewrite <- (no_rejections_test b2 m1 (inv_core _ _ I2)) in Hn. unfold test in Et. congruence. }
      split; [|apply S3]. split; [eauto| |tauto]. exists b2, k. split_and!; auto. tauto.
    - split; [|reflexivity]. split; [eauto| |assumption]. exists b2, 0%nat. split_and!; auto. apply shifted_refl. apply I2. }
  destruct Hfin as [Hacc Hack]. split; [exact Hacc|]. rewrite Hack. split_and!; auto.
  - intros Hpos. rewrite (proj2 (Z.ltb_lt 0 _)) by assumption. reflexivity.
  - destruct (Z.ltb_spec 0 (SequenceNumber.distance_from (next_ack_sequence b2) (next_ack_sequence b))); lia.
Qed.

(** * Leaving the window *)

Lemma advance_position b n off : window b -> (n <= capacity b)%nat -> (off < capacity b)%nat ->
  position (advance_frontier (Z.of_nat n) b) off =
  position b (if (n + off <? capacity b)%nat then n + off else n + off - capacity b)%nat.
Proof.
  intros W Hn Ho. pose proof W as [[Hc Hc'] Hh _ _]. unfold position.
  assert (Eh : head (advance_frontier (Z.of_nat n) b) = ((head b + n) mod capacity b)%nat).
  { unfold advance_frontier. simpl. SequenceNumber.consts. rewrite u64_id by (unfold is_u64; lia).
    apply Nat2Z.inj. rewrite Z2Nat.id by (apply Z.mod_pos_bound; lia). rewrite Nat2Z.inj_mod. f_equal. lia. }
  rewrite Eh. change (capacity (advance_frontier (Z.of_nat n) b)) with (capacity b).
  rewrite Nat.Div0.add_mod_idemp_l. destruct (Nat.ltb_spec (n + off) (capacity b)).
  - f_equal. lia.
  - replace (head b + n + off)%nat with (head b + (n + off - capacity b) + 1 * capacity b)%nat by lia. apply Nat.Div0.mod_add.
Qed.

(** The first [n] offsets, already blank in [b1], leave the window. *)
Lemma retire_many b b1 n : window b1 -> capacity b1 = capacity b -> (n <= capacity b)%nat ->
  first_stored_sequence b1 = first_stored_sequence b -> next_ack_sequence b1 = next_ack_sequence b ->
  defer_drop_timestamp_refresh b1 = defer_drop_timestamp_refresh b ->
  (forall o, (o < n)%nat -> blank (lslot b1 o)) ->
  (forall o, (n <= o < capacity b)%nat -> lcontent b1 o = lcontent b o) ->
  shifted n b (advance_frontier (Z.of_nat n) b1) /\ window (advance_frontier (Z.of_nat n) b1).
Proof.
  intros W1 Ec Hn Ef Ea Ed Hb Hk. pose proof W1 as [[Hc Hc'] Hh _ _]. SequenceNumber.consts.
  assert (W2 : window (advance_frontier (Z.of_nat n) b1)).
  { apply advance_frontier_window; [assumption|lia|]. intros off Ho Hlt. apply (Hb off). lia. }
  split; [|assumption]. split; auto.
  - unfold advance_frontier. cbn. rewrite u32_id by (unfold is_u32; lia). unfold seq_at. rewrite Ef. reflexivity.
  - intros off Ho. unfold lcontent. rewrite advance_position by (auto; lia). rewrite (proj2 (Nat.ltb_lt _ _)) by lia.
    change (content (advance_frontier (Z.of_nat n) b1)) with (content b1). apply (Hk (n + off)%nat). lia.
  - intros off Ho Hge. unfold lslot. rewrite advance_position by (auto; lia). rewrite (proj2 (Nat.ltb_ge _ _)) by lia.
    change (slot_at (advance_frontier (Z.of_nat n) b1)) with (slot_at b1). apply Hb. lia.
Qed.

(** * Messages *)

(** The [n] offsets from [off] on hold one complete, untouched message. *)
Record whole_message (b : t) (off n : nat) (m : Z) : Prop := {
  whole_count : (0 < n)%nat /\ (off + n <= capacity b)%nat;
  whole_slot : forall o, (o < n)%nat -> let s := lslot b (off + o) in
    readable s = true /\ payload_offset s = 0%nat /\ msg s = m /\
    boundary (header s) = (if (n =? 1)%nat then MessageBoundary.solo
                           else if (o =? 0)%nat then MessageBoundary.first
                           else if (o =? n - 1)%nat then MessageBoundary.last
                           else MessageBoundary.subsequent);
}.

(** The bytes at an offset, and those of [n] offsets in order. *)
Definition bytes_at (b : t) (off : nat) : list Z := (lcontent b off).2.
Definition message_payload (b : t) (off n : nat) : list Z := concat (bytes_at b <$> seq off n).

Definition size_at (b : t) (off : nat) : nat := payload_size (lslot b off).

Lemma length_bytes_at b m off : phys b m -> window b -> occupied (lslot b off) = true ->
  length (bytes_at b off) = size_at b off /\
  take (size_at b off) (PayloadPool.get (payloads b) (payload_index (lslot b off))) = bytes_at b off.
Proof.
  intros P W Ho. destruct (content_bytes b m (position b off) P (position_lt b W off) Ho) as [H1 H2].
  split; [exact H2|]. unfold bytes_at, lcontent in *. unfold content in *. fold (lslot b off) in *. rewrite Ho in *.
  cbn [snd] in *. apply take_ge. unfold size_at. lia.
Qed.

Lemma length_message_payload b m off n : phys b m -> window b ->
  (forall o, (off <= o < off + n)%nat -> occupied (lslot b o) = true) ->
  length (message_payload b off n) = sum_list_with (size_at b) (seq off n).
Proof.
  intros P W. revert off. induction n as [|n IH]; intros off H; [reflexivity|].
  unfold message_payload in *. cbn [seq fmap list_fmap concat sum_list_with]. rewrite length_app.
  rewrite (proj1 (length_bytes_at b m off P W (H off ltac:(lia)))). f_equal. apply IH. intros o Ho. apply H. lia.
Qed.

Lemma boundary_tests s : is_solo s = bool_decide (boundary (header s) = MessageBoundary.solo) /\
  is_first s = bool_decide (boundary (header s) = MessageBoundary.first) /\
  is_last s = bool_decide (boundary (header s) = MessageBoundary.last) /\
  is_subsequent s = bool_decide (boundary (header s) = MessageBoundary.subsequent).
Proof. auto. Qed.

(** The fragments a measuring run from [off] accepts, up to [count]. *)
Definition fragments (b : t) (m : Z) (off count : nat) : Prop :=
  forall o, (off <= o < count)%nat -> let s := lslot b o in
    readable s = true /\ payload_offset s = 0%nat /\ msg s = m /\
    ((0 < o)%nat -> boundary (header s) = MessageBoundary.subsequent \/ boundary (header s) = MessageBoundary.last) /\
    ((S o = count)%nat <-> boundary (header s) = MessageBoundary.solo \/ boundary (header s) = MessageBoundary.last).

Lemma measure_sound b m : window b -> forall fuel off total count tot, (off < capacity b)%nat ->
  measure_message fuel b m (seq_at b off) off total = inr (count, tot) ->
  (off < count <= capacity b)%nat /\ tot = (total + sum_list_with (size_at b) (seq off (count - off)))%nat /\
  fragments b m off count.
Proof.
  intros W. induction fuel as [|fuel IH]; intros off total count tot Ho H; [discriminate|]. cbn [measure_message] in H.
  rewrite find_seq_at in H by assumption. destruct (readable (lslot b off)) eqn:Hr; [|discriminate]. fold (lslot b off) in H.
  destruct (_ || _) eqn:Hg in H; [discriminate|]. apply orb_false_iff in Hg as [Hg Hg3]. apply orb_false_iff in Hg as [Hg1 Hg2].
  apply negb_false_iff, Z.eqb_eq in Hg1. apply negb_false_iff, Nat.eqb_eq in Hg2.
  destruct (boundary_tests (lslot b off)) as (T1 & T2 & T3 & T4). rewrite T3, T4 in *. rewrite T1 in H.
  assert (Hsub : (0 < off)%nat -> boundary (header (lslot b off)) = MessageBoundary.subsequent \/ boundary (header (lslot b off)) = MessageBoundary.last).
  { intros Hpos. rewrite (proj2 (Nat.ltb_lt 0 off) Hpos) in Hg3. cbn [andb] in Hg3.
    repeat case_bool_decide; auto; discriminate. }
  destruct (bool_decide (_ = MessageBoundary.solo) || bool_decide (_ = MessageBoundary.last)) eqn:Hc.
  - injection H as <- <-. split; [lia|]. replace (off + 1 - off)%nat with 1%nat by lia. split; [simpl; unfold size_at; lia|].
    intros o Hoo. replace o with off by lia. split_and!; auto. split; [|lia]. intros _.
    apply orb_true_iff in Hc as [Hc|Hc]; apply bool_decide_eq_true_1 in Hc; auto.
  - destruct (Nat.leb_spec (capacity b) (off + 1)) as [|Hlt]; [discriminate|]. rewrite next_seq_at in H.
    replace (off + 1)%nat with (S off) in * by lia.
    destruct (IH (S off) _ count tot Hlt H) as (I1 & I2 & I3). split; [lia|]. split.
    + rewrite I2. replace (count - off)%nat with (S (count - S off)) by lia. cbn [seq sum_list_with]. unfold size_at at 2. lia.
    + intros o Hoo. destruct (decide (o = off)) as [->|]; [|apply I3; lia]. split_and!; auto.
      apply orb_false_iff in Hc as [Hc1 Hc2]. apply bool_decide_eq_false_1 in Hc1, Hc2. split; [lia|tauto].
Qed.

Lemma fragments_whole b m n : window b -> (0 < n <= capacity b)%nat -> fragments b m 0 n ->
  boundary (header (lslot b 0)) = MessageBoundary.solo \/ boundary (header (lslot b 0)) = MessageBoundary.first ->
  whole_message b 0 n m.
Proof.
  intros W Hn Hf H0. split; [lia|]. intros o Ho. cbn [Nat.add]. destruct (Hf o ltac:(lia)) as (F1 & F2 & F3 & F4 & F5).
  split_and!; auto. destruct (Nat.eqb_spec n 1) as [->|Hn1].
  - replace o with 0%nat in * by lia. destruct F5 as [F5 _]. destruct (F5 eq_refl), H0; congruence.
  - destruct (Nat.eqb_spec o 0) as [->|Ho0].
    + destruct H0 as [H0|H0]; [|assumption]. destruct F5 as [_ F5]. specialize (F5 (or_introl H0)). lia.
    + destruct (Nat.eqb_spec o (n - 1)) as [->|Hlast].
      * destruct F5 as [F5 _]. destruct (F5 ltac:(lia)) as [E|E]; [|assumption]. destruct (F4 ltac:(lia)); congruence.
      * destruct (F4 ltac:(lia)) as [E|E]; [assumption|]. destruct F5 as [_ F5]. specialize (F5 (or_intror E)). lia.
Qed.

Lemma measure_complete b m n : window b -> whole_message b 0 n m -> forall fuel off total, (off < n)%nat -> (n <= off + fuel)%nat ->
  measure_message fuel b m (seq_at b off) off total = inr (n, (total + sum_list_with (size_at b) (seq off (n - off)))%nat).
Proof.
  intros W [[Hn Hc] Hs]. induction fuel as [|fuel IH]; intros off total Ho Hf; [lia|]. cbn [measure_message].
  destruct (Hs off Ho) as (H1 & H2 & H3 & H4). cbn [Nat.add] in *. rewrite find_seq_at by (auto; lia). rewrite H1. fold (lslot b off).
  unfold msg in H3. rewrite H3, Z.eqb_refl, H2, Nat.eqb_refl. cbn [negb orb].
  destruct (boundary_tests (lslot b off)) as (T1 & T2 & T3 & T4). rewrite T1, T3, T4, H4.
  replace (n - off)%nat with (S (n - S off)) by lia. cbn [seq sum_list_with]. fold (size_at b off).
  destruct (Nat.eqb_spec n 1) as [->|Hn1].
  - replace off with 0%nat in * by lia. cbn. rewrite Nat.add_0_r. reflexivity.
  - destruct (Nat.eqb_spec off 0) as [->|Ho0]; [|destruct (Nat.eqb_spec off (n - 1)) as [E|Hlast]].
    + cbn [bool_decide decide_rel Nat.ltb Nat.leb andb orb]. rewrite !bool_decide_eq_false_2 by discriminate. cbn [orb].
      rewrite (proj2 (Nat.leb_gt _ _)) by lia. rewrite next_seq_at, IH by lia. cbn [Nat.add]. do 2 f_equal. lia.
    + rewrite (bool_decide_eq_true_2 (MessageBoundary.last = MessageBoundary.last)) by reflexivity. cbn [negb].
      rewrite andb_false_r, orb_true_r. replace (n - S off)%nat with 0%nat by lia. cbn [seq sum_list_with]. do 2 f_equal; lia.
    + rewrite (bool_decide_eq_true_2 (MessageBoundary.subsequent = MessageBoundary.subsequent)) by reflexivity. cbn [negb].
      rewrite andb_false_r, !bool_decide_eq_false_2 by discriminate. cbn [andb orb].
      rewrite (proj2 (Nat.leb_gt _ _)) by lia. rewrite next_seq_at. replace (off + 1)%nat with (S off) by lia.
      rewrite IH by lia. do 2 f_equal. lia.
Qed.

(** * Frames *)

(** [b'] with the stored packets, counters and query flags of [b]. *)
Definition rebase (b b' : t) : t :=
  set_slots (slots b) (set_payloads (payloads b) (set_occupied_index (occupied_index b)
    (set_storage_index (storage_index b) (set_buffered_payload_bytes (buffered_payload_bytes b)
      (set_rejected (rejected b) (set_occupied_count (occupied_count b)
        (set_message_query_valid (message_query_valid b) (set_packet_query_valid (packet_query_valid b) b')))))))).

(** The other fields are unchanged. *)
Definition frame (b b' : t) : Prop := rebase b b' = b.

Lemma frame_refl b : frame b b.
Proof. destruct b; reflexivity. Qed.
Lemma frame_trans b b1 b2 : frame b b1 -> frame b1 b2 -> frame b b2.
Proof.
  unfold frame. intros H1 H2. transitivity (rebase b (rebase b1 b2)); [reflexivity|]. rewrite H2. exact H1.
Qed.

(** Read a projection through a frame. *)
Ltac framed H :=
  match type of H with frame ?b ?b' =>
    match goal with |- ?f b' = ?f b => change (f (rebase b b') = f b); rewrite H; reflexivity end
  end.

Lemma frame_fields b b' : frame b b' -> head b' = head b /\ first_stored_sequence b' = first_stored_sequence b /\
  next_ack_sequence b' = next_ack_sequence b /\ defer_drop_timestamp_refresh b' = defer_drop_timestamp_refresh b /\
  discarding_message b' = discarding_message b.
Proof. intros H. split_and!; framed H. Qed.

Lemma frame_bounds b b' : frame b b' -> same_bounds b b'.
Proof. intros H. unfold same_bounds. split_and!; framed H. Qed.

Lemma forget_frame i s' b : frame b (forget i s' b).
Proof. destruct b; reflexivity. Qed.

(** A packet leaves the slot at [off]. *)
Lemma forget_step b m off s' : phys b m -> window b -> (off < capacity b)%nat -> occupied (lslot b off) = true -> vacant s' ->
  let b' := forget (position b off) s' b in
  exists m', phys b' m' /\ window b' /\ capacity b' = capacity b /\
    (forall o, (o < capacity b)%nat -> lcontent b' o = if (o =? off)%nat then (s', []) else lcontent b o) /\
    S (countb occupied (slots b')) = countb occupied (slots b).
Proof.
  intros P W Ho Hocc Hv b'. pose proof (lslot_lookup b W off) as Hl.
  pose proof (forget_changed b m _ _ s' P Hl Hocc Hv) as Hch. fold b' in Hch.
  exists (delete (payload_index (lslot b off)) m). split_and!.
  - apply forget_phys; assumption.
  - eapply changed_window; [exact W|exact Hch|reflexivity|reflexivity|apply position_lt; assumption|].
    rewrite (proj1 Hv). discriminate.
  - apply Hch.
  - intros o Hoo. eapply changed_lcontent; eauto.
  - pose proof (changed_count b b' _ _ _ Hch eq_refl (position_lt b W off)) as Hc. fold (lslot b off) in Hc.
    rewrite Hocc, (proj1 Hv) in Hc. lia.
Qed.

(** * Delivery of a message *)

Lemma deliver_round b i : (i < capacity b)%nat -> payload_offset (slot_at b i) = 0%nat -> rejected_payload (slot_at b i) = false ->
  let s := slot_at b i in
  update_slot i empty_slot (index_occupied i false true
    (set_payloads (PayloadPool.release
                     (payloads (set_buffered_payload_bytes (buffered_payload_bytes b - payload_size s)%nat b)) (payload_index s))
      (set_buffered_payload_bytes (buffered_payload_bytes b - payload_size s)%nat b))) = forget i (empty_slot s) b.
Proof.
  intros Hi H0 Hr s. unfold forget, unread. fold s in H0, Hr. fold s. rewrite H0, Hr, Nat.sub_0_r.
  unfold update_slot, slot_at, index_occupied. destruct b; reflexivity.
Qed.

Lemma empty_slot_blank s : rejected_payload s = false -> blank (empty_slot s).
Proof. intros H. split; [|auto]. split_and!; auto; simpl; lia. Qed.

Record delivered (index n : nat) (b b' : t) : Prop := {
  delivered_phys : exists m', phys b' m';
  delivered_window : window b';
  delivered_capacity : capacity b' = capacity b;
  delivered_blank : forall o, (index <= o < index + n)%nat -> blank (lslot b' o);
  delivered_other : forall o, (o < capacity b)%nat -> ~ (index <= o < index + n)%nat -> lcontent b' o = lcontent b o;
  delivered_count : (countb occupied (slots b') + n = countb occupied (slots b))%nat;
  delivered_frame : frame b b';
  delivered_fields : occupied_count b' = occupied_count b /\ message_query_valid b' = message_query_valid b /\
    packet_query_valid b' = packet_query_valid b;
}.

Lemma message_payload_ext b b' index n : (forall o, (index <= o < index + n)%nat -> lcontent b' o = lcontent b o) ->
  message_payload b' index n = message_payload b index n.
Proof.
  revert index. induction n as [|n IH]; intros index H; [reflexivity|]. unfold message_payload in *.
  cbn [seq fmap list_fmap concat]. unfold bytes_at at 1 3. rewrite H by lia. f_equal. apply IH. intros. apply H. lia.
Qed.

Lemma deliver_spec n : forall index written dest b m, phys b m -> window b -> (index + n <= capacity b)%nat ->
  (forall o, (index <= o < index + n)%nat -> readable (lslot b o) = true /\ payload_offset (lslot b o) = 0%nat) ->
  (written + length (message_payload b index n) <= length dest)%nat ->
  let '(dest', written', b') := deliver_packets n index written dest b in
  dest' = overwrite written (message_payload b index n) dest /\
  written' = (written + length (message_payload b index n))%nat /\ delivered index n b b'.
Proof.
  induction n as [|n IH]; intros index written dest b m P W Hn Hs Hd.
  - cbn. split_and!; [unfold overwrite; cbn; rewrite Nat.add_0_r; symmetry; apply take_drop|lia|].
    split; auto; try lia; [eauto|apply frame_refl].
  - cbn [deliver_packets]. destruct (Hs index ltac:(lia)) as [Hr H0]. unfold readable in Hr.
    apply andb_true_iff in Hr as [Hocc Hrej]. apply negb_true_iff in Hrej.
    destruct (length_bytes_at b m index P W Hocc) as [L1 L2]. fold (lslot b index) in *. unfold size_at in L1, L2.
    rewrite deliver_round by (auto using position_lt). fold (lslot b index). rewrite L2.
    destruct (forget_step b m index (empty_slot (lslot b index)) P W ltac:(lia) Hocc (proj1 (empty_slot_blank _ Hrej)))
      as (m1 & P1 & W1 & C1 & K1 & N1).
    pose proof (forget_frame (position b index) (empty_slot (lslot b index)) b) as F1. set (b1 := forget _ _ b) in *.
    assert (Hk : forall o, (o < capacity b)%nat -> o <> index -> lcontent b1 o = lcontent b o).
    { intros o Ho Hne. rewrite K1 by assumption. rewrite (proj2 (Nat.eqb_neq _ _)) by assumption. reflexivity. }
    assert (Ep : message_payload b1 (S index) n = message_payload b (S index) n)
      by (apply message_payload_ext; intros o Ho; apply Hk; lia).
    assert (Em : message_payload b index (S n) = bytes_at b index ++ message_payload b (S index) n) by reflexivity.
    rewrite Em, length_app in Hd. rewrite <- L1. replace (index + 1)%nat with (S index) by lia.
    specialize (IH (S index) (written + length (bytes_at b index))%nat (overwrite written (bytes_at b index) dest) b1 m1 P1 W1 ltac:(lia)).
    rewrite Ep in IH. destruct (deliver_packets _ _ _ _ _) as [[dest' written'] b'].
    destruct IH as (I1 & I2 & I3).
    { intros o Ho. rewrite (lcontent_lslot b b1 o o (Hk o ltac:(lia) ltac:(lia))). apply Hs. lia. }
    { rewrite overwrite_length by lia. lia. }
    split_and!.
    + rewrite I1, Em. apply overwrite_adjacent. lia.
    + rewrite I2, Em, length_app. lia.
    + destruct I3 as [D1 D2 D3 D4 D5 D6 D7 D8]. split; auto; try congruence.
      * intros o Ho. destruct (decide (o = index)) as [->|]; [|apply D4; lia].
        rewrite (lcontent_lslot b1 b' index index (D5 index ltac:(lia) ltac:(lia))).
        unfold lslot. change (blank (lcontent b1 index).1). rewrite K1, Nat.eqb_refl by lia. apply empty_slot_blank, Hrej.
      * intros o Ho Hne. rewrite D5 by lia. apply Hk; lia.
      * lia.
      * eapply frame_trans; eassumption.
Qed.

(** * After a shift *)

Lemma seq_at_shifted k b b' off : shifted k b b' -> seq_at b' off = seq_at b (k + off).
Proof.
  intros S. unfold seq_at at 1. rewrite (shifted_first k b b' S). unfold seq_at.
  rewrite !SequenceNumber.advanced_mod, Zplus_mod_idemp_l. f_equal. lia.
Qed.

Lemma shifted_lslot k b b' off : shifted k b b' -> (k + off < capacity b)%nat -> lslot b' off = lslot b (k + off).
Proof. intros S H. apply lcontent_lslot. apply S. assumption. Qed.

Lemma stored_count b m off : core b m -> stored b off = true -> occupied_count b <> 0%nat.
Proof.
  intros C H E. unfold stored in H. rewrite (countb_zero occupied (slots b)) in H; [discriminate|pose proof (core_count b m C); lia|].
  apply list_elem_of_lookup_2 with (position b off). apply lslot_lookup. apply C.
Qed.

Lemma shifted_stored k b b' off : shifted k b b' -> (off < capacity b)%nat -> stored b' off = true ->
  (k + off < capacity b)%nat /\ stored b (k + off) = true.
Proof.
  intros S Ho H. unfold stored in *. destruct (decide (k + off < capacity b)%nat) as [Hlt|Hge].
  - rewrite <- (shifted_lslot k b b') by assumption. auto.
  - destruct (shifted_blank k b b' S off Ho ltac:(lia)) as [V _]. rewrite (proj1 V) in H. discriminate.
Qed.

Lemma last_bound_shifted k b b' m m' : shifted k b b' -> core b m -> core b' m' -> same_bounds b b' -> last_bound b -> last_bound b'.
Proof.
  intros S C C' (_ & B2 & _ & B4) Hl Hne. pose proof (shifted_capacity k b b' S) as Ec.
  destruct (some_stored b' m' C' Hne) as (off & Ho & Hst). rewrite Ec in Ho.
  destruct (shifted_stored k b b' off S Ho Hst) as [Hk Hst'].
  destruct (Hl (stored_count b m _ C Hst')) as (l & (L1 & L2 & L3) & L4 & L5).
  assert (Hkl : (k + off <= l)%nat).
  { destruct (le_lt_dec (k + off) l) as [|Hlt]; [assumption|]. rewrite (L3 (k + off)%nat) in Hst' by lia. discriminate. }
  exists (l - k)%nat. replace l with (k + (l - k))%nat in L2, L4, L5 by lia.
  rewrite B2, B4, (seq_at_shifted k b b') by assumption. rewrite (shifted_lslot k b b') by (auto; lia).
  split_and!; auto. rewrite Ec. split; [lia|]. split; [unfold stored; rewrite (shifted_lslot k b b') by (auto; lia); assumption|].
  intros q Hq. destruct (stored b' q) eqn:E; [|reflexivity]. exfalso.
  destruct (shifted_stored k b b' q S ltac:(lia) E) as [Hkq E']. rewrite L3 in E' by lia. discriminate.
Qed.

(** A window whose first [n] offsets left is trimmed only up to the blank slots. *)
Lemma trim_shifted n k fuel b b1 b2 m : shifted n b b1 -> trimmed fuel b1 b2 m k -> shifted (n + k) b b2.
Proof.
  intros S T. apply (shifted_trans b b1 b2 n k S (trimmed_shifted _ _ _ _ _ T)).
  destruct (le_lt_dec (n + k) (capacity b)) as [|Hlt]; [assumption|exfalso].
  pose proof (shifted_le n b b1 S) as Hle. pose proof (trimmed_settled _ _ _ _ _ T (capacity b - n)%nat ltac:(lia)) as Hset.
  assert (Hk : (k <= capacity b1)%nat) by apply T. rewrite (shifted_capacity n b b1 S) in Hk.
  destruct (shifted_blank n b b1 S (capacity b - n)%nat) as ((V & _) & Hd & _); [lia..|].
  unfold settled in Hset. rewrite V, Hd in Hset. discriminate.
Qed.

(** Rejections seen through the window. *)
Lemma has_rejections_window b : window b ->
  ~ has_rejections b <-> (forall off, (off < capacity b)%nat -> rejected_payload (lslot b off) = false) /\ discarding_message b = None.
Proof.
  intros W. unfold has_rejections, rejected_list. split.
  - intros H. split; [|destruct (discarding_message b); [exfalso; apply H; right; discriminate|reflexivity]].
    intros off Ho. destruct (rejected_payload (lslot b off)) eqn:E; [|reflexivity]. exfalso. apply H. left.
    assert (Hin : lslot b off ∈ List.filter rejected_payload (slots b)).
    { apply list_elem_of_In, List.filter_In. split; [|assumption]. apply list_elem_of_In.
      apply list_elem_of_lookup_2 with (position b off). apply lslot_lookup. assumption. }
    destruct (List.filter rejected_payload (slots b)); [apply not_elem_of_nil in Hin; contradiction|discriminate].
  - intros [H Hd] [E|E]; [|congruence]. apply E.
    destruct (List.filter rejected_payload (slots b)) as [|s l] eqn:Ef; [reflexivity|exfalso].
    assert (Hin : List.In s (List.filter rejected_payload (slots b))) by (rewrite Ef; left; reflexivity).
    apply List.filter_In in Hin as [Hin Hr]. apply list_elem_of_In, list_elem_of_lookup in Hin as [i Hi].
    pose proof (lookup_lt_Some _ _ _ Hi) as Hlt. destruct (position_offset_of b W i Hlt) as [Ep Eo].
    specialize (H (offset_of b i) Eo). unfold lslot in H. rewrite Ep, (slot_at_lookup b i s Hi) in H. congruence.
Qed.

Lemma shifted_rejections k b b' : window b -> window b' -> shifted k b b' -> discarding_message b' = discarding_message b ->
  ~ has_rejections b -> ~ has_rejections b'.
Proof.
  intros W W' S Ed. rewrite !has_rejections_window by assumption. intros [H1 H2]. split; [|congruence].
  intros off Ho. rewrite (shifted_capacity k b b' S) in Ho. destruct (decide (k + off < capacity b)%nat).
  - rewrite (shifted_lslot k b b') by assumption. apply H1. assumption.
  - destruct (shifted_blank k b b' S off Ho ltac:(lia)) as [(_ & Hv & _) _]. exact Hv.
Qed.

(** The state between the delivery of a message of [n] packets and the trim. *)
Definition after_delivery (n : nat) (b : t) : t :=
  let b := advance_frontier (Z.of_nat n) b in set_occupied_count (occupied_count b - n)%nat b.

Lemma after_delivery_core b b1 n m : core b m -> (n <= capacity b)%nat ->
  delivered 0 n (invalidate_delivery_queries b) b1 ->
  (exists m', core (after_delivery n b1) m') /\ shifted n b (after_delivery n b1) /\
  same_bounds b (after_delivery n b1) /\ discarding_message (after_delivery n b1) = discarding_message b.
Proof.
  intros C Hn [[m' D1] D2 D3 D4 D5 D6 D7 (D8 & D9 & D10)]. destruct (frame_fields _ _ D7) as (E1 & E2 & E3 & E4 & E5).
  destruct (retire_many b b1 n D2 D3 Hn E2 E3 E4) as [S W].
  { intros o Ho. apply D4. lia. }
  { intros o Ho. apply (D5 o); [apply Ho|lia]. }
  assert (S' : shifted n b (after_delivery n b1)) by (destruct S as [Q1 Q2 Q3 Q4 Q5 Q6 Q7]; split; assumption).
  split; [|split; [exact S'|split]].
  - exists m'. split.
    + eapply phys_ext; [..|exact D1]; reflexivity.
    + eapply window_ext; [..|exact W]; auto.
    + cbn. rewrite D8. pose proof (core_count b m C) as Hc. cbn. rewrite Hc. cbn in D6. lia.
    + rewrite (shifted_ack _ _ _ S'). apply C.
    + split; cbn; rewrite ?D9, ?D10; discriminate.
  - destruct (frame_bounds _ _ D7) as (B1 & B2 & B3 & B4). split_and!; assumption.
  - exact E5.
Qed.

(** Trimming after a delivery from the head, with the lower bound refreshed. *)
Lemma trim_first_inv n b b1 m m1 : inv b m -> core b1 m1 -> shifted n b b1 -> same_bounds b b1 ->
  discarding_message b1 = discarding_message b ->
  let b' := refresh_first_buffered_timestamp (trim_dropped_prefix b1) in
  exists k m', inv b' m' /\ shifted (n + k) b b' /\
    (~ has_rejections b -> ~ has_rejections b' /\ forall off, (n <= off < n + k)%nat -> dropped (lslot b off) = true).
Proof.
  intros I C1 S1 B1 Ed. cbv zeta. pose proof (inv_core b m I) as C.
  destruct (trim_spec b1 m1 C1) as (k & m2 & T & _). pose proof (trim_shifted n k _ b b1 _ m2 S1 T) as S2.
  pose proof T as [T1 T2 T3 T4 T5 T6 T7 T8]. set (b2 := trim_dropped_prefix b1) in *.
  destruct (refresh_first_spec b2 m2 T1) as (SS & F & L).
  destruct (same_state_slots _ _ SS) as (E1 & _ & _ & _ & _ & _ & E2 & E3 & _).
  exists k, m2. split; [split|split].
  - eapply same_state_core; eassumption.
  - exact F.
  - apply L. eapply (last_bound_shifted (n + k) b b2); eauto; [eapply same_bounds_trans; eassumption|apply I].
  - rewrite E2, (shifted_defer _ _ _ S2). apply I.
  - eapply same_state_shifted; eassumption.
  - intros Hn. pose proof (shifted_rejections n b b1 (core_window b m C) (core_window b1 m1 C1) S1 Ed Hn) as Hn1.
    destruct (T6 Hn1) as [Hn2 Hall]. split.
    + unfold has_rejections in *. rewrite E1, E3. assumption.
    + intros off Ho. rewrite <- (Hall (off - n)%nat) by lia. rewrite (shifted_lslot n b b1); [do 2 f_equal; lia|assumption|].
      pose proof (shifted_le _ _ _ S2). lia.
Qed.

Lemma pop_message_result b m dest n mn : inv b m -> whole_message b 0 n mn ->
  let payload := message_payload b 0 n in
  (length payload <= length dest)%nat ->
  exists b', pop_message b dest =
    ({| received_error := Error.none; bytes_written := length payload; received_message_number := mn;
        received_first_sequence := first_stored_sequence b; received_timestamp := timestamp (header (lslot b 0));
        delivery_time_microseconds := None |}, overwrite 0 payload dest, b') /\
  exists k m', inv b' m' /\ shifted (n + k) b b' /\
    (~ has_rejections b -> ~ has_rejections b' /\ forall off, (n <= off < n + k)%nat -> dropped (lslot b off) = true).
Proof.
  intros I Hm payload Hl. pose proof (inv_core b m I) as C. pose proof (core_window b m C) as W. pose proof (core_phys b m C) as P.
  destruct Hm as [[Hn Hc] Hs]. destruct (Hs 0%nat Hn) as (R0 & O0 & M0 & B0). cbn [Nat.add] in *. unfold pop_message.
  rewrite find_first, R0 by assumption. fold (lslot b 0). destruct (boundary_tests (lslot b 0)) as (T1 & T2 & _ & _).
  assert (Hst : negb (is_solo (lslot b 0)) && negb (is_first (lslot b 0)) = false).
  { rewrite T1, T2, B0. destruct (n =? 1)%nat; reflexivity. }
  rewrite Hst, O0, Nat.eqb_refl. cbn [negb]. unfold msg in M0. rewrite M0.
  pose proof (measure_complete b mn n W ltac:(split; auto) (capacity b) 0 0 Hn ltac:(lia)) as Em.
  rewrite seq_at_0, Nat.sub_0_r in Em by assumption. rewrite Em. cbn [Nat.add].
  assert (Hocc : forall o, (0 <= o < 0 + n)%nat -> readable (lslot b o) = true /\ payload_offset (lslot b o) = 0%nat)
    by (intros o Ho; destruct (Hs o ltac:(lia)) as (? & ? & _); auto).
  rewrite <- (length_message_payload b m 0 n P W) by (intros o Ho; destruct (Hocc o Ho) as [H _]; apply andb_true_iff in H; apply H).
  fold payload. rewrite (proj2 (Nat.ltb_ge _ _)) by assumption.
  pose proof (deliver_spec n 0 0 dest (invalidate_delivery_queries b) m) as D.
  change (message_payload (invalidate_delivery_queries b) 0 n) with payload in D.
  destruct (deliver_packets n 0 0 dest (invalidate_delivery_queries b)) as [[dest' written'] b1].
  destruct D as (D1 & D2 & D3); auto; [eapply phys_ext; [..|exact P]; reflexivity|eapply window_ext; [..|exact W]; auto|].
  destruct (after_delivery_core b b1 n m C ltac:(lia) D3) as ([m1 C1] & S1 & B1 & Ed).
  rewrite D1, D2. eexists. split; [reflexivity|]. exact (trim_first_inv n b _ m m1 I C1 S1 B1 Ed).
Qed.

Lemma measure_error fuel b m : forall s n total, measure_message fuel b m s n total <> inl Error.none.
Proof.
  induction fuel as [|fuel IH]; intros s n total; cbn [measure_message]; [discriminate|].
  destruct (find b s); [|discriminate]. destruct (_ || _); [discriminate|]. destruct (_ || _); [discriminate|].
  destruct (_ <=? _)%nat; [discriminate|]. apply IH.
Qed.

(** A pop either fails without effect or finds a whole message at the head. *)
Lemma pop_message_cases b m dest : inv b m ->
  (exists e, e <> Error.none /\ pop_message b dest = (received_failure e, dest, b)) \/
  exists n mn, whole_message b 0 n mn /\ (length (message_payload b 0 n) <= length dest)%nat.
Proof.
  intros I. pose proof (inv_core b m I) as C. pose proof (core_window b m C) as W. pose proof (core_phys b m C) as P. unfold pop_message.
  rewrite find_first by assumption. destruct (readable (lslot b 0)) eqn:R0; [|left; eexists; split; [|reflexivity]; discriminate].
  fold (lslot b 0). destruct (boundary_tests (lslot b 0)) as (T1 & T2 & _ & _). rewrite T1, T2.
  destruct (negb (bool_decide (boundary _ = MessageBoundary.solo)) && _) eqn:Hb; [left; eexists; split; [|reflexivity]; discriminate|].
  destruct (Nat.eqb_spec (payload_offset (lslot b 0)) 0) as [O0|]; cbn [negb]; [|left; eexists; split; [|reflexivity]; discriminate].
  destruct (measure_message _ _ _ _ _ _) as [e|[n total]] eqn:Em.
  { left. exists e. split; [|reflexivity]. intros ->. eapply measure_error. exact Em. }
  destruct (Nat.ltb_spec (length dest) total) as [|Hlen]; [left; eexists; split; [|reflexivity]; discriminate|].
  right. rewrite <- (seq_at_0 b W) in Em. destruct (measure_sound b _ W _ 0 0 n total (proj1 (win_capacity b W)) Em) as (M1 & M2 & M3).
  exists n, (message_number (header (lslot b 0))). split.
  - apply fragments_whole; auto. apply andb_false_iff in Hb as [Hb|Hb]; apply negb_false_iff, bool_decide_eq_true_1 in Hb; auto.
  - rewrite (length_message_payload b m 0 n P W); [rewrite Nat.sub_0_r in M2; lia|].
    intros o Ho. destruct (M3 o ltac:(lia)) as (H & _). apply andb_true_iff in H. apply H.
Qed.

Lemma pop_message_inv b m dest : inv b m -> exists m', inv (pop_message b dest).2 m'.
Proof.
  intros I. destruct (pop_message_cases b m dest I) as [(e & _ & E)|(n & mn & H & Hl)]; [rewrite E; eauto|].
  destruct (pop_message_result b m dest n mn I H Hl) as (b' & E & k & m' & I' & _). rewrite E. eauto.
Qed.
