(* ===== verification/ReceiveBufferReads.v ===== *)
(** The other reads of the receive buffer: cached queries, out-of-order delivery
    and byte streams. *)
From stdpp Require Import gmap.
From S2P Require Import Prelude Sequence Packet Codec Control LossList ReceiveWindow.
From S2P Require Import PayloadPool OccupiedIndex RejectedMessages ReceiveBuffer ReceiveBufferFacts.
From S2P Require Import ReceiveBufferQueries ReceiveBufferSteps ReceiveBufferOps.
Import ReceiveBuffer.

(** * Cached queries *)

Definition cached_message (b : t) : t := set_message_query_valid true (set_message_query (message_answer b) b).
Definition cached_packet (b : t) : t := set_packet_query_valid true (set_packet_query (packet_answer b) b).

Lemma first_complete_message_state b m : core b m ->
  first_complete_message b = (message_answer b, if message_query_valid b then b else cached_message b).
Proof.
  intros C. pose proof (first_complete_message_spec b m) as H. rewrite (surjective_pairing (first_complete_message b)).
  rewrite H by apply C. f_equal. unfold first_complete_message in *. destruct (message_query_valid b) eqn:E; [reflexivity|].
  destruct (occupied_count b =? 0)%nat; cbn in H; rewrite H by apply C; reflexivity.
Qed.

Lemma first_buffered_packet_state b m : core b m ->
  first_buffered_packet b = (packet_answer b, if packet_query_valid b then b else cached_packet b).
Proof.
  intros C. pose proof (first_buffered_packet_spec b m) as H. rewrite (surjective_pairing (first_buffered_packet b)).
  rewrite H by apply C. f_equal. unfold first_buffered_packet in *. destruct (packet_query_valid b) eqn:E; [reflexivity|].
  destruct (occupied_count b =? 0)%nat; [cbn in H; rewrite H by apply C; reflexivity|].
  destruct (next_occupied_offset b 0) as [o|]; [|cbn in H; rewrite H by apply C; reflexivity].
  destruct (find b _); cbn in H; rewrite H by apply C; reflexivity.
Qed.

(** Changes of the caches that keep them right. *)
Lemma inv_cached b b' m : slots b' = slots b -> payloads b' = payloads b -> occupied_index b' = occupied_index b ->
  storage_index b' = storage_index b -> level_offsets b' = level_offsets b -> rejected b' = rejected b ->
  buffered_payload_bytes b' = buffered_payload_bytes b -> head b' = head b ->
  first_stored_sequence b' = first_stored_sequence b -> occupied_count b' = occupied_count b ->
  next_ack_sequence b' = next_ack_sequence b -> defer_drop_timestamp_refresh b' = defer_drop_timestamp_refresh b ->
  same_bounds b b' -> cache b' -> inv b m -> inv b' m.
Proof.
  intros E1 E2 E3 E4 E5 E6 E7 E8 E9 E10 E11 E12 (B1 & B2 & B3 & B4) K [[C1 C2 C3 C4 C5] F L D].
  split; [split| | |congruence]; auto; try congruence.
  - eapply phys_ext; [..|exact C1]; assumption.
  - eapply window_ext; [..|exact C2]; auto; unfold capacity, slot_at; rewrite E1; auto.
  - eapply first_bound_ext; [..|exact F]; assumption.
  - eapply last_bound_ext; [..|exact L]; assumption.
Qed.

Lemma cached_message_inv b m : inv b m -> inv (if message_query_valid b then b else cached_message b) m.
Proof.
  intros I. destruct (message_query_valid b); [assumption|]. eapply inv_cached; [..|exact I]; try reflexivity; [split_and!; reflexivity|].
  split; [intros _; reflexivity|]. intros H. apply (core_cache b m (inv_core b m I)). exact H.
Qed.

Lemma cached_packet_inv b m : inv b m -> inv (if packet_query_valid b then b else cached_packet b) m.
Proof.
  intros I. destruct (packet_query_valid b); [assumption|]. eapply inv_cached; [..|exact I]; try reflexivity; [split_and!; reflexivity|].
  split; [|intros _; reflexivity]. intros H. apply (core_cache b m (inv_core b m I)). exact H.
Qed.

(** * Delivery out of order *)

Lemma message_end_in_range v m : forall off l, message_end_in v m off = Some l -> (off <= l < off + length v)%nat.
Proof.
  induction v as [|[h|] v IH]; intros off l H; cbn [message_end_in] in H; try discriminate.
  destruct (negb _); [discriminate|]. destruct (boundary h); try discriminate.
  - apply IH in H. cbn [length]. lia.
  - injection H as <-. cbn [length]. lia.
Qed.

(** A message from offset [f] to [l] of a view that starts at [off]. *)
Definition located (v : list (option DataHeader)) (off f l : nat) (ts : PacketTimestamp.t) : Prop :=
  (off <= f <= l)%nat /\ (l < off + length v)%nat /\ exists h, v !! (f - off)%nat = Some (Some h) /\ ts = timestamp h /\
    (f = l -> boundary h = MessageBoundary.solo) /\ (f <> l -> boundary h = MessageBoundary.first).

Lemma located_skip x v off f l ts : located v (S off) f l ts -> located (x :: v) off f l ts.
Proof.
  intros (H1 & H2 & h & H3 & H4). split; [lia|]. split; [cbn [length]; lia|].
  exists h. split; [|assumption]. replace (f - off)%nat with (S (f - S off)) by lia. exact H3.
Qed.

Lemma first_message_in_located v : forall off f l ts, first_message_in v off = Some (f, l, ts) -> located v off f l ts.
Proof.
  induction v as [|[h|] v IH]; intros off f l ts H; cbn [first_message_in] in H; [discriminate| |apply located_skip, IH, H].
  destruct (boundary h) eqn:Hb; [apply located_skip, IH, H..| |].
  - destruct (message_end_in v (message_number h) (S off)) as [e|] eqn:He; [|apply located_skip, IH, H].
    injection H as <- <- <-. apply message_end_in_range in He. split; [lia|]. split; [cbn [length]; lia|].
    exists h. rewrite Nat.sub_diag. split_and!; auto. lia.
  - injection H as <- <- <-. split; [lia|]. split; [cbn [length]; lia|]. exists h. rewrite Nat.sub_diag. split_and!; auto. lia.
Qed.

(** The packet at [off] is given up and counted out. *)
Definition release_at (off : nat) (s' : Slot) (b : t) : t :=
  set_occupied_count (occupied_count b - 1)%nat (forget (position b off) s' b).
Definition surrender (off : nat) (s' : Slot) (b : t) : t := release_at off s' (invalidate_delivery_queries b).

Lemma core_invalidated b m : core b m -> core (invalidate_delivery_queries b) m.
Proof.
  intros [C1 C2 C3 C4 C5]. split; auto.
  - eapply phys_ext; [..|exact C1]; reflexivity.
  - eapply window_ext; [..|exact C2]; auto.
  - apply cache_invalidated.
Qed.

Lemma lcontent_count n b o : lcontent (set_occupied_count n b) o = lcontent b o.
Proof. reflexivity. Qed.

Lemma lcontent_ack a b o : lcontent (set_next_ack_sequence a b) o = lcontent b o.
Proof. reflexivity. Qed.

Lemma counted_core b m n : phys b m -> window b -> n = countb occupied (slots b) -> SequenceNumber.wf (next_ack_sequence b) ->
  message_query_valid b = false -> packet_query_valid b = false -> core (set_occupied_count n b) m.
Proof.
  intros P W -> A Q1 Q2. split; auto.
  - eapply phys_ext; [..|exact P]; reflexivity.
  - eapply window_ext; [..|exact W]; auto.
  - split; cbn; rewrite ?Q1, ?Q2; discriminate.
Qed.

Lemma counted_frame n b b' : frame b b' -> frame b (set_occupied_count n b').
Proof. intros H. apply (frame_trans _ b'); [exact H|destruct b'; reflexivity]. Qed.

Lemma release_at_core b m off s' : core b m -> message_query_valid b = false -> packet_query_valid b = false ->
  (off < capacity b)%nat -> occupied (lslot b off) = true -> vacant s' ->
  let b' := release_at off s' b in
  (exists m', core b' m') /\ capacity b' = capacity b /\ frame b b' /\
  (forall o, (o < capacity b)%nat -> lcontent b' o = if (o =? off)%nat then (s', []) else lcontent b o).
Proof.
  intros C Q1 Q2 Ho Hocc Hv. destruct (forget_step b m off s' (core_phys b m C) (core_window b m C) Ho Hocc Hv)
    as (m1 & P1 & W1 & C1 & K1 & N1). cbv zeta. unfold release_at. split; [|split; [|split]].
  - exists m1. apply counted_core; auto; [|apply C]. pose proof (core_count b m C) as Hc. lia.
  - exact C1.
  - apply counted_frame, forget_frame.
  - intros o Hoo. rewrite lcontent_count. apply K1. assumption.
Qed.

Lemma surrender_core b m off s' : core b m -> (off < capacity b)%nat -> occupied (lslot b off) = true -> vacant s' ->
  let b' := surrender off s' b in
  (exists m', core b' m') /\ capacity b' = capacity b /\ frame b b' /\
  (forall o, (o < capacity b)%nat -> lcontent b' o = if (o =? off)%nat then (s', []) else lcontent b o).
Proof.
  intros C Ho Hocc Hv. pose proof (core_invalidated b m C) as C0. cbv zeta. unfold surrender.
  assert (F0 : frame b (invalidate_delivery_queries b)) by (destruct b; reflexivity).
  assert (K0 : forall o, lcontent (invalidate_delivery_queries b) o = lcontent b o) by reflexivity.
  change (capacity b) with (capacity (invalidate_delivery_queries b)) in *.
  change (lslot b off) with (lslot (invalidate_delivery_queries b) off) in *.
  assert (Q1 : message_query_valid (invalidate_delivery_queries b) = false) by reflexivity.
  assert (Q2 : packet_query_valid (invalidate_delivery_queries b) = false) by reflexivity.
  set (b0 := invalidate_delivery_queries b) in *. clearbody b0.
  destruct (release_at_core b0 m off s' C0 Q1 Q2 Ho Hocc Hv) as (R1 & R2 & R3 & R4).
  split; [exact R1|]. split; [exact R2|]. split; [eapply frame_trans; eassumption|].
  intros o Hoo. rewrite R4, K0 by assumption. reflexivity.
Qed.

Lemma mark_delivered_vacant s : rejected_payload s = false -> vacant (mark_delivered s).
Proof. intros H. split_and!; auto; simpl; lia. Qed.

Lemma unordered_round b f s : lslot b f = s -> rejected_payload s = false -> payload_offset s = 0%nat ->
  (let b1 := invalidate_delivery_queries b in
   let b2 := set_payloads (PayloadPool.release (payloads b) (payload_index s)) b1 in
   let b3 := set_buffered_payload_bytes (buffered_payload_bytes b2 - payload_size s)%nat b2 in
   let b4 := set_occupied_count (occupied_count b3 - 1)%nat b3 in
   update_slot (position b f) mark_delivered (index_occupied (position b4 f) false true b4)) =
  surrender f (mark_delivered s) b.
Proof.
  intros Hs Hr H0. unfold surrender, release_at, forget.
  change (slot_at (invalidate_delivery_queries b) (position (invalidate_delivery_queries b) f)) with (lslot b f).
  rewrite Hs, Hr. unfold unread. rewrite H0, Nat.sub_0_r. cbv zeta. unfold update_slot.
  change (slot_at (index_occupied _ _ _ _) (position b f)) with (lslot b f). rewrite Hs. destruct b; reflexivity.
Qed.

(** A complete message of one packet behind a gap is delivered. *)
Lemma pop_unordered_solo b m dest f ts : inv b m -> first_message_in (rview b) 0 = Some (f, f, ts) -> (0 < f)%nat ->
  payload_offset (lslot b f) = 0%nat -> (length (bytes_at b f) <= length dest)%nat ->
  let s := lslot b f in
  let b0 := if message_query_valid b then b else cached_message b in
  let b1 := advance_acknowledgement (surrender f (mark_delivered s) b0) in
  pop_message_unordered b dest =
    ({| received_error := Error.none; bytes_written := length (bytes_at b f); received_message_number := msg s;
        received_first_sequence := seq_at b f; received_timestamp := timestamp (header s);
        delivery_time_microseconds := None |}, overwrite 0 (bytes_at b f) dest,
     refresh_buffered_timestamp_bounds (trim_dropped_prefix b1)).
Proof.
  intros I Hf Hpos H0 Hl s b0 b1. pose proof (inv_core b m I) as C. pose proof (core_window b m C) as W.
  destruct (first_message_in_located _ _ _ _ _ Hf) as (_ & Hlt & h & Hh & _ & Hb & _). rewrite length_rview in Hlt. cbn [Nat.add] in Hlt.
  rewrite Nat.sub_0_r, rview_lookup in Hh by assumption. injection Hh as Hh. unfold visible in Hh. fold s in Hh.
  destruct (readable s) eqn:Hr; [|discriminate]. injection Hh as <-. specialize (Hb eq_refl).
  pose proof Hr as Hr'. unfold readable in Hr'. apply andb_true_iff in Hr' as [Hocc Hrej]. apply negb_true_iff in Hrej.
  destruct (length_bytes_at b m f (core_phys b m C) W Hocc) as [L1 L2].
  unfold pop_message_unordered. rewrite (first_complete_message_state b m C). fold b0. unfold message_answer. rewrite Hf.
  cbn [fmap option_fmap option_map to_info fst snd info_first_sequence info_last_sequence].
  assert (W0 : window b0) by (unfold b0; destruct (message_query_valid b); [assumption|eapply window_ext; [..|exact W]; auto]).
  assert (E0 : first_stored_sequence b0 = first_stored_sequence b /\ lslot b0 f = s /\ position b0 f = position b f /\
    payloads b0 = payloads b /\ capacity b0 = capacity b) by (unfold b0; destruct (message_query_valid b); auto).
  destruct E0 as (Ef & Es & Ep & Ey & Ec). fold (seq_at b f). rewrite Ef.
  assert (Hne : (seq_at b f =? first_stored_sequence b)%Z = false).
  { apply Z.eqb_neq. rewrite <- seq_at_0 by assumption. intros E. apply seq_at_inj in E; auto; lia. }
  rewrite Hne, Z.eqb_refl. cbn [negb].
  assert (Efind : find b0 (seq_at b f) = Some (position b0 f)).
  { replace (seq_at b f) with (seq_at b0 f) by (unfold seq_at; congruence). rewrite find_seq_at by (auto; lia). rewrite Es, Hr. reflexivity. }
  rewrite Efind. fold (lslot b0 f). rewrite Es.
  fold s in H0. destruct (boundary_tests s) as (T1 & _). rewrite T1, (bool_decide_eq_true_2 _ Hb), H0, Nat.eqb_refl. cbn [negb orb].
  unfold size_at in L1, L2. fold s in L1, L2. rewrite (proj2 (Nat.ltb_ge _ _)) by lia. cbv zeta.
  change (payloads (invalidate_delivery_queries b0)) with (payloads b0). rewrite Ey, L2, <- L1.
  f_equal. f_equal. f_equal. unfold b1. f_equal.
  change (first_stored_sequence _) with (first_stored_sequence b0). rewrite Ef, distance_seq_at, Nat2Z.id.
  2: destruct W as [[_ Hc] _ _ _]; lia.
  rewrite <- (unordered_round b0 f s Es Hrej H0), <- L1, <- Ey. reflexivity.
Qed.

(** The window after an out-of-order delivery: a marker at [f], the
    acknowledgement moved on, and the settled prefix trimmed. *)
Lemma unordered_state b m f : inv b m -> (f < capacity b)%nat -> readable (lslot b f) = true ->
  let b1 := advance_acknowledgement (surrender f (mark_delivered (lslot b f)) b) in
  let b' := refresh_buffered_timestamp_bounds (trim_dropped_prefix b1) in
  (exists k m', inv b' m' /\ shifted k b1 b' /\ (~ has_rejections b1 -> ~ has_rejections b' /\ forall off, (off < k)%nat -> dropped (lslot b1 off) = true)) /\
  capacity b1 = capacity b /\ first_stored_sequence b1 = first_stored_sequence b /\ window b1 /\
  discarding_message b1 = discarding_message b /\
  forall o, (o < capacity b)%nat -> lcontent b1 o = if (o =? f)%nat then (mark_delivered (lslot b f), []) else lcontent b o.
Proof.
  intros I Hf Hr. unfold readable in Hr. apply andb_true_iff in Hr as [Hocc Hrej]. apply negb_true_iff in Hrej.
  destruct (surrender_core b m f (mark_delivered (lslot b f)) (inv_core b m I) Hf Hocc (mark_delivered_vacant _ Hrej))
    as ([m1 C1] & E1 & F1 & K1). cbv zeta.
  revert C1 E1 F1 K1. generalize (surrender f (mark_delivered (lslot b f)) b). intros b0 C1 E1 F1 K1.
  destruct (frame_fields _ _ F1) as (_ & E2 & _ & E3 & E4). pose proof (core_window _ _ C1) as W0.
  pose proof (advance_acknowledgement_spec b0 W0 (core_ack _ _ C1)) as Ea. pose proof (advance_acknowledgement_core b0 m1 C1) as C2.
  split; [|split; [|split; [|split; [|split]]]].
  2: rewrite Ea; exact E1.
  2: rewrite Ea; exact E2.
  3: rewrite Ea; exact E4.
  2: apply (core_window _ _ C2).
  2: intros o Ho; rewrite Ea, lcontent_ack; apply K1; assumption.
  destruct (trim_refresh_inv _ m1 C2) as (k & m' & I' & S' & _ & _ & Hn).
  { rewrite Ea. cbn. rewrite E3. apply I. }
  exists k, m'. auto.
Qed.

Lemma pop_unordered_inv b m dest : inv b m -> exists m', inv (pop_message_unordered b dest).2 m'.
Proof.
  intros I. pose proof (inv_core b m I) as C. pose proof (core_window b m C) as W. pose proof (cached_message_inv b m I) as I0.
  destruct (first_message_in (rview b) 0) as [[[f l] ts]|] eqn:Hf.
  2:{ unfold pop_message_unordered. rewrite (first_complete_message_state b m C). unfold message_answer. rewrite Hf. eauto. }
  destruct (first_message_in_located _ _ _ _ _ Hf) as (_ & Hlt & h & Hh & _ & Hb & _). rewrite length_rview in Hlt. cbn [Nat.add] in Hlt.
  destruct (decide (0 < f /\ f = l /\ payload_offset (lslot b f) = 0 /\ length (bytes_at b f) <= length dest)%nat) as [(H1 & <- & H2 & H3)|Hno].
  - rewrite (pop_unordered_solo b m dest f ts I Hf H1 H2 H3). cbn [snd].
    rewrite Nat.sub_0_r, rview_lookup in Hh by assumption. injection Hh as Hh. unfold visible in Hh.
    destruct (readable (lslot b f)) eqn:Hr; [|discriminate].
    set (b0 := if message_query_valid b then b else cached_message b) in *.
    assert (E : capacity b0 = capacity b /\ lslot b0 f = lslot b f) by (unfold b0; destruct (message_query_valid b); auto).
    destruct E as [E1 E2]. destruct (unordered_state b0 m f I0) as ((k & m' & I' & _) & _); [lia|congruence|].
    rewrite E2 in I'. eauto.
  - unfold pop_message_unordered. rewrite (first_complete_message_state b m C). set (b0 := if message_query_valid b then b else cached_message b) in *.
    assert (E : first_stored_sequence b0 = first_stored_sequence b /\ lslot b0 f = lslot b f /\ capacity b0 = capacity b /\ payloads b0 = payloads b)
      by (unfold b0; destruct (message_query_valid b); auto). destruct E as (E1 & E2 & E3 & E4). clearbody b0.
    unfold message_answer. rewrite Hf. cbn [fmap option_fmap option_map to_info fst snd info_first_sequence info_last_sequence].
    fold (seq_at b f) (seq_at b l). rewrite E1. destruct (Z.eqb_spec (seq_at b f) (first_stored_sequence b)) as [|Hne]; [eapply pop_message_inv; eassumption|].
    destruct (Z.eqb_spec (seq_at b f) (seq_at b l)) as [Efl|]; cbn [negb]; [|eauto].
    assert (Epos : (0 < f)%nat) by (destruct f; [exfalso; apply Hne, seq_at_0; assumption|lia]).
    destruct (first_message_in_located _ _ _ _ _ Hf) as (Hfl & _). apply seq_at_inj in Efl; [|assumption|lia..]. subst l.
    replace (seq_at b f) with (seq_at b0 f) by (unfold seq_at; congruence).
    rewrite find_seq_at by (try apply I0; lia). destruct (readable (lslot b0 f)) eqn:Hr; [|eauto]. fold (lslot b0 f). rewrite E2 in *.
    destruct (Nat.eqb_spec (payload_offset (lslot b f)) 0) as [H0|]; [|rewrite orb_true_r; eauto]. rewrite orb_false_r.
    destruct (negb (is_solo (lslot b f))); [eauto|]. destruct (Nat.ltb_spec (length dest) (payload_size (lslot b f))) as [|Hge]; [eauto|].
    exfalso. apply Hno. split_and!; auto. unfold readable in Hr. apply andb_true_iff in Hr as [Hocc _].
    rewrite (proj1 (length_bytes_at b m f (core_phys b m C) W Hocc)). exact Hge.
Qed.
