(* ===== verification/ReceiveBufferStream.v ===== *)
(** Byte-stream reads of the receive buffer: [pop_stream] reads the unread bytes of
    consecutive packets, across markers of dropped packets. *)
From stdpp Require Import gmap.
From S2P Require Import Prelude Sequence Packet Codec Control LossList ReceiveWindow.
From S2P Require Import PayloadPool OccupiedIndex RejectedMessages ReceiveBuffer ReceiveBufferFacts.
From S2P Require Import ReceiveBufferQueries ReceiveBufferSteps ReceiveBufferOps ReceiveBufferReads.
Import ReceiveBuffer.

(** The unread bytes of the packets from [off] on: dropped packets are skipped and
    the first missing packet ends the stream. *)
Fixpoint stream_view (n : nat) (b : t) (off : nat) : list Z :=
  match n with
  | O => []
  | S n =>
    if readable (lslot b off) then drop (payload_offset (lslot b off)) (bytes_at b off) ++ stream_view n b (S off)
    else if dropped (lslot b off) then stream_view n b (S off) else []
  end.
Definition stream (b : t) : list Z := if dropped (lslot b 0) then [] else stream_view (capacity b) b 0.

Lemma stream_view_ext n : forall b b' off off', (forall o, (o < n)%nat -> lcontent b' (off' + o) = lcontent b (off + o)) ->
  stream_view n b' off' = stream_view n b off.
Proof.
  induction n as [|n IH]; intros b b' off off' H; [reflexivity|]. cbn [stream_view].
  pose proof (H 0%nat ltac:(lia)) as H0. rewrite !Nat.add_0_r in H0. unfold bytes_at.
  rewrite (lcontent_lslot _ _ _ _ H0), H0. rewrite (IH b b' (S off) (S off')); [reflexivity|].
  intros o Ho. specialize (H (S o) ltac:(lia)). rewrite <- !Nat.add_succ_comm in H. exact H.
Qed.

Lemma stream_view_tail n j : forall b off, (forall o, (n <= o < n + j)%nat -> blank (lslot b (off + o))) ->
  stream_view (n + j) b off = stream_view n b off.
Proof.
  induction n as [|n IH]; intros b off H; cbn [Nat.add stream_view].
  - destruct j as [|j]; [reflexivity|]. cbn [stream_view]. destruct (H 0%nat ltac:(lia)) as ((V & _) & Hd & _).
    rewrite Nat.add_0_r in *. unfold readable. rewrite V, Hd. reflexivity.
  - rewrite IH; [reflexivity|]. intros o Ho. replace (S off + o)%nat with (off + S o)%nat by lia. apply H. lia.
Qed.

Lemma stream_view_dropped k : forall n b off, (forall o, (off <= o < off + k)%nat -> dropped (lslot b o) = true /\ readable (lslot b o) = false) ->
  stream_view (k + n) b off = stream_view n b (k + off).
Proof.
  induction k as [|k IH]; intros n b off H; [reflexivity|]. cbn [Nat.add stream_view].
  destruct (H off ltac:(lia)) as [H1 H2]. rewrite H1, H2, IH by (intros; apply H; lia). f_equal. lia.
Qed.

Lemma stream_shifted k b b' : shifted k b b' -> stream_view (capacity b') b' 0 = stream_view (capacity b - k) b k.
Proof.
  intros S. rewrite (shifted_capacity k b b' S). pose proof (shifted_le k b b' S).
  replace (capacity b) with (capacity b - k + k)%nat at 1 by lia.
  rewrite stream_view_tail by (intros o Ho; apply S; lia). apply stream_view_ext.
  intros o Ho. rewrite (shifted_content k b b' S) by lia. f_equal.
Qed.

(** * One packet *)

(** The head packet has been read to its end and leaves. *)
Lemma consume_round b : window b -> unread (lslot b 0) = 0%nat -> rejected_payload (lslot b 0) = false ->
  consume_head (position b 0) b =
  trim_dropped_prefix (after_delivery 1 (forget (position b 0) (empty_slot (lslot b 0)) (invalidate_delivery_queries b))).
Proof.
  intros W H0 Hr. unfold consume_head. cbv zeta. f_equal. unfold after_delivery. cbv zeta.
  assert (Ep : position b 0 = head b).
  { unfold position. rewrite Nat.add_0_r. apply Nat.mod_small. apply W. }
  change (head (set_payloads _ (invalidate_delivery_queries b))) with (head b). rewrite <- Ep.
  change (slot_at (invalidate_delivery_queries b) (position b 0)) with (lslot b 0).
  unfold update_slot. change (slot_at (index_occupied _ _ _ _) (position b 0)) with (lslot b 0).
  unfold forget. change (slot_at (invalidate_delivery_queries b) (position b 0)) with (lslot b 0).
  rewrite Hr, H0, Nat.sub_0_r. destruct b; reflexivity.
Qed.

Lemma forget_delivered b m : core b m -> readable (lslot b 0) = true ->
  delivered 0 1 (invalidate_delivery_queries b) (forget (position b 0) (empty_slot (lslot b 0)) (invalidate_delivery_queries b)).
Proof.
  intros C Hr. unfold readable in Hr. apply andb_true_iff in Hr as [Hocc Hrej]. apply negb_true_iff in Hrej.
  pose proof (core_invalidated b m C) as C0. revert C0. change (position b 0) with (position (invalidate_delivery_queries b) 0).
  change (lslot b 0) with (lslot (invalidate_delivery_queries b) 0) in *. revert Hocc Hrej.
  generalize (invalidate_delivery_queries b). intros b0 Hocc Hrej C0. pose proof (core_window _ _ C0) as W0.
  destruct (forget_step b0 m 0 (empty_slot (lslot b0 0)) (core_phys _ _ C0) W0 (proj1 (win_capacity b0 W0)) Hocc
    (proj1 (empty_slot_blank _ Hrej))) as (m1 & P1 & W1 & C1 & K1 & N1).
  split; eauto using forget_frame.
  - intros o Ho. replace o with 0%nat by lia. pose proof (K1 0%nat (proj1 (win_capacity b0 W0))) as E. cbn [Nat.eqb] in E.
    change (lslot _ 0) with (lcontent (forget (position b0 0) (empty_slot (lslot b0 0)) b0) 0).1. rewrite E. apply empty_slot_blank, Hrej.
  - intros o Ho Hne. rewrite K1 by assumption. destruct o; [lia|reflexivity].
  - lia.
Qed.

Lemma consume_spec b m : core b m -> readable (lslot b 0) = true -> unread (lslot b 0) = 0%nat ->
  let b' := consume_head (position b 0) b in
  exists k m', core b' m' /\ shifted (1 + k) b b' /\ same_bounds b b' /\ stopped b' /\
    (~ has_rejections b -> ~ has_rejections b' /\ forall off, (1 <= off < 1 + k)%nat -> dropped (lslot b off) = true).
Proof.
  intros C Hr H0. pose proof (core_window b m C) as W. pose proof (forget_delivered b m C Hr) as D.
  assert (Hrej : rejected_payload (lslot b 0) = false) by (unfold readable in Hr; apply andb_true_iff in Hr; apply negb_true_iff; apply Hr).
  cbv zeta. rewrite consume_round by assumption. destruct (after_delivery_core b _ 1 m C (proj1 (win_capacity b W)) D) as ([m1 C1] & S1 & B1 & Ed).
  revert C1 S1 B1 Ed. generalize (after_delivery 1 (forget (position b 0) (empty_slot (lslot b 0)) (invalidate_delivery_queries b))).
  intros b1 C1 S1 B1 Ed. destruct (trim_spec b1 m1 C1) as (k & m2 & T & Hst).
  pose proof (trim_shifted 1 k _ b b1 _ m2 S1 T) as S2. pose proof T as [T1 T2 T3 T4 T5 T6 T7 T8].
  exists k, m2. split_and!; auto; [eapply same_bounds_trans; eassumption|].
  intros Hn. pose proof (shifted_rejections 1 b b1 W (core_window b1 m1 C1) S1 Ed Hn) as Hn1.
  destruct (T6 Hn1) as [Hn2 Hall]. split; [assumption|]. intros off Ho. rewrite <- (Hall (off - 1)%nat) by lia.
  rewrite (shifted_lslot 1 b b1); [do 2 f_equal; lia|assumption|]. pose proof (shifted_le _ _ _ S2). lia.
Qed.

(** Bounds depend on which offsets are stored and on their timestamps. *)
Lemma first_bound_same b b' : capacity b' = capacity b -> first_stored_sequence b' = first_stored_sequence b ->
  occupied_count b' = occupied_count b -> same_bounds b b' ->
  (forall o, (o < capacity b)%nat -> stored b' o = stored b o /\ header (lslot b' o) = header (lslot b o)) ->
  first_bound b -> first_bound b'.
Proof.
  intros Ec Ef En (B1 & _ & B3 & _) H F Hne. rewrite En in Hne. destruct (F Hne) as (f & (F1 & F2 & F3) & F4 & F5). exists f.
  destruct (H f ltac:(lia)) as [Hs Hh]. unfold seq_at in *. rewrite Ec, Ef, B1, B3, Hh. split_and!; auto.
  split; [assumption|]. split; [congruence|]. intros q Hq. rewrite (proj1 (H q ltac:(lia))). auto.
Qed.

Lemma last_bound_same b b' : capacity b' = capacity b -> first_stored_sequence b' = first_stored_sequence b ->
  occupied_count b' = occupied_count b -> same_bounds b b' ->
  (forall o, (o < capacity b)%nat -> stored b' o = stored b o /\ header (lslot b' o) = header (lslot b o)) ->
  last_bound b -> last_bound b'.
Proof.
  intros Ec Ef En (_ & B2 & _ & B4) H F Hne. rewrite En in Hne. destruct (F Hne) as (f & (F1 & F2 & F3) & F4 & F5). exists f.
  destruct (H f ltac:(lia)) as [Hs Hh]. unfold seq_at in *. rewrite Ec, Ef, B2, B4, Hh. split_and!; auto.
  split; [assumption|]. split; [congruence|]. intros q Hq. rewrite (proj1 (H q ltac:(lia))). auto.
Qed.

(** [k] bytes of the head packet are read. *)
Definition read_head (k : nat) (b : t) : t := reread (position b 0) k b.

Record partly_read (k : nat) (b b' : t) : Prop := {
  partly_core : exists m', core b' m';
  partly_capacity : capacity b' = capacity b;
  partly_head : lslot b' 0 = set_payload_offset (payload_offset (lslot b 0) + k) (lslot b 0);
  partly_bytes : bytes_at b' 0 = bytes_at b 0;
  partly_other : forall o, (0 < o < capacity b)%nat -> lcontent b' o = lcontent b o;
  partly_first : first_stored_sequence b' = first_stored_sequence b;
  partly_ack : next_ack_sequence b' = next_ack_sequence b;
  partly_defer : defer_drop_timestamp_refresh b' = defer_drop_timestamp_refresh b;
  partly_discarding : discarding_message b' = discarding_message b;
  partly_bounds : (first_bound b -> first_bound b') /\ (last_bound b -> last_bound b');
}.

Lemma read_head_spec b m k : core b m -> readable (lslot b 0) = true -> (k <= unread (lslot b 0))%nat -> partly_read k b (read_head k b).
Proof.
  intros C Hr Hk. pose proof (core_window b m C) as W. pose proof (core_phys b m C) as P.
  unfold readable in Hr. apply andb_true_iff in Hr as [Hocc Hrej].
  pose proof (lslot_lookup b W 0) as Hl. pose proof (proj1 (win_capacity b W)) as Hcap.
  pose proof (reread_phys b m (position b 0) k _ P Hl Hocc Hk) as P1.
  pose proof (reread_changed b m (position b 0) k _ P Hl Hocc Hk) as Ch. set (s' := set_payload_offset _ _) in Ch.
  pose proof (changed_count b _ _ _ _ Ch eq_refl (position_lt b W 0)) as Hcnt. fold (lslot b 0) in Hcnt. rewrite Hocc in Hcnt.
  change (occupied s') with (occupied (lslot b 0)) in Hcnt. rewrite Hocc in Hcnt. fold (read_head k b) in P1, Ch, Hcnt.
  assert (E : head (read_head k b) = head b /\ first_stored_sequence (read_head k b) = first_stored_sequence b /\
    next_ack_sequence (read_head k b) = next_ack_sequence b /\ defer_drop_timestamp_refresh (read_head k b) = defer_drop_timestamp_refresh b /\
    discarding_message (read_head k b) = discarding_message b /\ occupied_count (read_head k b) = occupied_count b /\
    message_query_valid (read_head k b) = message_query_valid b /\ message_query (read_head k b) = message_query b /\
    packet_query_valid (read_head k b) = packet_query_valid b /\ packet_query (read_head k b) = packet_query b)
    by (split_and!; reflexivity).
  assert (B : same_bounds b (read_head k b)) by (split_and!; reflexivity).
  revert P1 Ch Hcnt E B. generalize (read_head k b). intros b' P1 Ch Hcnt (E1 & E2 & E3 & E4 & E5 & E6 & E7 & E8 & E9 & E10) B.
  pose proof (proj1 Ch) as Ec.
  assert (K : forall o, (o < capacity b)%nat -> lcontent b' o = if (o =? 0)%nat then (s', (content b (position b 0)).2) else lcontent b o)
    by (intros; eapply changed_lcontent; eauto).
  assert (Hs : forall o, (o < capacity b)%nat -> lslot b' o = if (o =? 0)%nat then s' else lslot b o)
    by (intros; eapply changed_lslot; eauto).
  assert (Hsame : forall o, (o < capacity b)%nat -> stored b' o = stored b o /\ header (lslot b' o) = header (lslot b o)).
  { intros o Ho. unfold stored. rewrite Hs by assumption. destruct (Nat.eqb_spec o 0) as [->|]; split; reflexivity. }
  split; auto.
  - exists m. split; auto; try congruence.
    + eapply changed_window; [exact W|exact Ch|exact E1|exact E2|apply position_lt; assumption|]. intros _. split; [exact Hocc|reflexivity].
    + pose proof (core_count b m C). lia.
    + rewrite E3. apply C.
    + eapply cache_ext; [..|exact (core_cache b m C)]; auto. intros o Ho. unfold visible. rewrite Hs by assumption.
      destruct (Nat.eqb_spec o 0) as [->|]; reflexivity.
  - unfold bytes_at. rewrite K by assumption. reflexivity.
  - intros o Ho. rewrite K by lia. destruct o; [lia|reflexivity].
  - split; intros F; [eapply first_bound_same|eapply last_bound_same]; eauto.
Qed.

Lemma partly_stream k b b' : partly_read k b b' -> readable (lslot b 0) = true -> dropped (lslot b 0) = false -> (0 < capacity b)%nat ->
  stream b' = drop (payload_offset (lslot b 0) + k) (bytes_at b 0) ++ stream_view (capacity b - 1) b 1.
Proof.
  intros [_ Hc Hh Hb Ho _ _ _ _ _] Hr Hd Hpos. unfold stream. rewrite Hh. change (dropped (set_payload_offset _ _)) with (dropped (lslot b 0)).
  rewrite Hd, Hc. destruct (capacity b) as [|n] eqn:E; [lia|]. cbn [stream_view Nat.sub]. rewrite Hh.
  change (readable (set_payload_offset _ _)) with (readable (lslot b 0)). rewrite Hr, Hb, Nat.sub_0_r. f_equal.
  apply stream_view_ext. intros o Hoo. apply Ho. lia.
Qed.

(** * The loop *)

(** The effect of reading [n] bytes in a stream. *)
Record streamed (n : nat) (b b' : t) : Prop := {
  streamed_core : exists m', core b' m';
  streamed_last : last_bound b -> last_bound b';
  streamed_defer : defer_drop_timestamp_refresh b' = defer_drop_timestamp_refresh b;
  streamed_ack : next_ack_sequence b' = next_ack_sequence b;
  streamed_clean : ~ has_rejections b -> ~ has_rejections b' /\ (n <= length (stream b))%nat /\ stream b' = drop n (stream b);
}.

Lemma streamed_refl b m : core b m -> streamed 0 b b.
Proof. intros C. split; eauto. intros Hn. split_and!; auto. lia. Qed.

Lemma streamed_trans b b1 b2 n1 n2 : streamed n1 b b1 -> streamed n2 b1 b2 -> streamed (n1 + n2) b b2.
Proof.
  intros [_ A2 A3 A4 A5] [B1 B2 B3 B4 B5]. split; auto; try congruence. intros Hn. destruct (A5 Hn) as (H1 & H2 & H3).
  destruct (B5 H1) as (H4 & H5 & H6). rewrite H3, length_drop in H5. split_and!; auto; [lia|]. rewrite H6, H3, drop_drop. reflexivity.
Qed.

(** The unread bytes of the head packet. *)
Definition head_bytes (b : t) : list Z := drop (payload_offset (lslot b 0)) (bytes_at b 0).

Lemma head_facts b m : core b m -> readable (lslot b 0) = true ->
  dropped (lslot b 0) = false /\ rejected_payload (lslot b 0) = false /\ length (head_bytes b) = unread (lslot b 0) /\
  stream b = head_bytes b ++ stream_view (capacity b - 1) b 1 /\
  (payload_size (lslot b 0) <= PayloadPool.width)%nat /\ (payload_offset (lslot b 0) <= payload_size (lslot b 0))%nat /\
  (forall n, take n (drop (payload_offset (lslot b 0)) (PayloadPool.get (payloads b) (payload_index (lslot b 0)))) = take n (head_bytes b)).
Proof.
  intros C Hr. pose proof (core_window b m C) as W. pose proof (core_phys b m C) as P. pose proof Hr as Hr'.
  unfold readable in Hr'. apply andb_true_iff in Hr' as [Hocc Hrej]. apply negb_true_iff in Hrej.
  destruct (phys_slots b m P _ _ (lslot_lookup b W 0)) as [A1 A2 A3 A4 _ _ _ _].
  destruct (length_bytes_at b m 0 P W Hocc) as [L1 L2]. unfold size_at in *. split_and!; auto.
  - unfold head_bytes, unread. rewrite length_drop, L1. reflexivity.
  - unfold stream. rewrite (A1 Hocc). pose proof (proj1 (win_capacity b W)). destruct (capacity b) as [|n]; [lia|].
    cbn [stream_view]. rewrite Hr. cbn [Nat.sub]. rewrite Nat.sub_0_r. reflexivity.
  - intros n. unfold head_bytes. f_equal. f_equal. unfold bytes_at, lcontent, content. fold (lslot b 0). rewrite Hocc. reflexivity.
Qed.

Lemma partly_streamed k b b' m : core b m -> readable (lslot b 0) = true -> (k <= unread (lslot b 0))%nat ->
  partly_read k b b' -> streamed k b b'.
Proof.
  intros C Hr Hk Hp. pose proof (core_window b m C) as W.
  destruct (head_facts b m C Hr) as (Hd & Hrej & Hlen & Hst & _). pose proof Hp as [C' Ec Hh Hb Ho Ef Ea Ed Edm [_ L]].
  split; auto. intros Hn. split; [|split].
  - destruct C' as [m' C']. rewrite has_rejections_window in * by (apply C' || assumption). destruct Hn as [Hn1 Hn2]. split; [|congruence].
    intros o Hoo. rewrite Ec in Hoo. destruct o as [|o]; [rewrite Hh; exact Hrej|].
    rewrite (lcontent_lslot b b' (S o) (S o)) by (apply Ho; lia). apply Hn1. assumption.
  - rewrite Hst, length_app. lia.
  - rewrite (partly_stream k b b' Hp Hr Hd (proj1 (win_capacity b W))), Hst, drop_app_le by lia.
    unfold head_bytes. rewrite drop_drop. reflexivity.
Qed.

Lemma stopped_stream b : stopped b -> stream b = stream_view (capacity b) b 0.
Proof. intros [Hd _]. unfold stream. rewrite Hd. reflexivity. Qed.

Lemma consume_streamed b m : core b m -> readable (lslot b 0) = true -> unread (lslot b 0) = 0%nat ->
  streamed 0 b (consume_head (position b 0) b) /\ exists k, shifted (S k) b (consume_head (position b 0) b).
Proof.
  intros C Hr H0. destruct (head_facts b m C Hr) as (Hd & Hrej & Hlen & Hst & _).
  destruct (consume_spec b m C Hr H0) as (k & m' & C' & S' & B' & Hs' & Hn'). revert C' S' B' Hs' Hn'.
  generalize (consume_head (position b 0) b). intros b' C' S' B' Hs' Hn'. split; [|exists k; exact S'].
  split; eauto.
  - intros L. eapply last_bound_shifted; eauto.
  - apply S'.
  - apply S'.
  - intros Hn. destruct (Hn' Hn) as [H1 H2]. split_and!; auto; [lia|].
    rewrite stopped_stream, (stream_shifted _ _ _ S'), Hst by assumption. destruct (head_bytes b); [|simpl in Hlen; lia]. cbn [app].
    rewrite drop_0. pose proof (shifted_le _ _ _ S').
    replace (capacity b - 1)%nat with (k + (capacity b - (1 + k)))%nat by lia. rewrite stream_view_dropped; [f_equal; lia|].
    intros o Ho. assert (Hdo : dropped (lslot b o) = true) by (apply H2; lia). split; [assumption|].
    destruct (phys_slots b m (core_phys b m C) _ _ (lslot_lookup b (core_window b m C) o)) as [A1 _ _ _ _ _ _ _].
    unfold readable. destruct (occupied (lslot b o)); [|reflexivity]. rewrite A1 in Hdo by reflexivity. discriminate.
Qed.

Lemma read_round b k : (payload_offset (lslot b 0) + k <= maximum_data_payload_size)%nat ->
  update_slot (position b 0) (set_payload_offset (cast_u16 (payload_offset (lslot b 0) + k)))
    (set_buffered_payload_bytes (buffered_payload_bytes b - k)%nat b) = read_head k b.
Proof. intros H. rewrite cast_u16_id by assumption. destruct b; reflexivity. Qed.

Lemma overwrite_nil {A} at_ (dest : list A) : overwrite at_ [] dest = dest.
Proof. unfold overwrite. cbn. rewrite Nat.add_0_r. apply take_drop. Qed.

Section loop.
Context {C : Type} (due : option (PacketTimestamp.t -> C -> bool * C)).

(** The result of reading from [w] on. *)
Definition loop_result (w : nat) (dest : list Z) (removed : bool) (b : t) (r : nat * list Z * bool * C * t) : Prop :=
  let '(w', dest', removed', _, b') := r in
  (w <= w' <= length dest)%nat /\ streamed (w' - w) b b' /\
  (~ has_rejections b -> dest' = overwrite w (take (w' - w) (stream b)) dest) /\
  (~ has_rejections b -> due = None -> w' = Nat.min (length dest) (w + length (stream b))) /\
  (removed' = false -> removed = false /\ (first_bound b -> first_bound b')).

Lemma loop_stop w dest removed b m ctx : core b m -> (w <= length dest)%nat ->
  (~ has_rejections b -> due = None -> w = length dest \/ stream b = []) ->
  loop_result w dest removed b (w, dest, removed, ctx, b).
Proof.
  intros Hc Hw Hs. split; [lia|]. rewrite Nat.sub_diag. split; [eapply streamed_refl; eassumption|].
  split; [intros _; cbn [take]; symmetry; apply overwrite_nil|]. split; [|auto].
  intros Hn Hd. destruct (Hs Hn Hd) as [->|E]; [lia|]. rewrite E. cbn. lia.
Qed.

(** One round that reads [k] bytes of the head packet, then the rest. *)
Lemma loop_step w dest removed removed' b m b1 k r : core b m -> readable (lslot b 0) = true ->
  k = Nat.min (unread (lslot b 0)) (length dest - w) -> (w <= length dest)%nat -> streamed k b b1 ->
  loop_result (w + k) (overwrite w (take k (head_bytes b)) dest) removed' b1 r ->
  (removed' = false -> removed = false /\ (first_bound b -> first_bound b1)) ->
  loop_result w dest removed b r.
Proof.
  intros Hc Hr Hk Hw Hs H Hrem. destruct r as [[[[w' dest'] rem'] ctx'] b']. destruct H as (H1 & H2 & H3 & H4 & H5).
  destruct (head_facts b m Hc Hr) as (_ & _ & Hlen & Hst & _).
  assert (Hl : length (overwrite w (take k (head_bytes b)) dest) = length dest) by (apply overwrite_length; rewrite length_take; lia).
  rewrite Hl in *. split; [lia|]. split; [|split; [|split]].
  - replace (w' - w)%nat with (k + (w' - (w + k)))%nat by lia. eapply streamed_trans; eassumption.
  - intros Hn. destruct (streamed_clean _ _ _ Hs Hn) as (Hn1 & Hk' & E). rewrite H3, E by assumption.
    assert (Ek : take k (head_bytes b) = take k (stream b)) by (rewrite Hst, take_app_le by lia; reflexivity). rewrite Ek.
    replace (w' - w)%nat with (k + (w' - (w + k)))%nat by lia. rewrite <- (take_take_drop (stream b) k (w' - (w + k))).
    pose proof (overwrite_adjacent w (take k (stream b)) (take (w' - (w + k)) (drop k (stream b))) dest) as Ha.
    rewrite !length_take, length_drop in Ha. replace (w + k)%nat with (w + Nat.min k (length (stream b)))%nat at 1 by lia.
    apply Ha. lia.
  - intros Hn Hd. destruct (streamed_clean _ _ _ Hs Hn) as (Hn1 & Hk' & E). rewrite (H4 Hn1 Hd), E, length_drop. lia.
  - intros Hf. destruct (H5 Hf) as [Hf1 Hf2]. destruct (Hrem Hf1) as [Hf3 Hf4]. auto.
Qed.

Lemma stream_loop_spec fuel : forall n ctx w dest removed b m, core b m ->
  (forall off, (n <= off < capacity b)%nat -> occupied (lslot b off) = false) -> (n < fuel)%nat -> (w <= length dest)%nat ->
  loop_result w dest removed b (stream_loop fuel due ctx w dest removed b).
Proof.
  induction fuel as [|fuel IH]; intros n ctx w dest removed b m Hc Hn Hf Hw; [lia|].
  pose proof (core_window b m Hc) as W. cbn [stream_loop].
  destruct (Nat.leb_spec (length dest) w) as [|Hlt]; [eapply loop_stop; eauto; intros; left; lia|].
  rewrite find_first by assumption. destruct (readable (lslot b 0)) eqn:Hr.
  2:{ eapply loop_stop; eauto. intros _ _. right. unfold stream. destruct (dropped (lslot b 0)) eqn:Hd; [reflexivity|].
      destruct (capacity b); [reflexivity|]. cbn [stream_view]. rewrite Hr, Hd. reflexivity. }
  fold (lslot b 0). destruct (call_due due (timestamp (header (lslot b 0))) ctx) as [ready ctx'] eqn:Hdue.
  destruct ready; cbn [negb].
  2:{ eapply loop_stop; eauto. intros _ ->. discriminate. }
  destruct (head_facts b m Hc Hr) as (Hd & Hrej & Hlen & Hst & Hsz & Hoff & Htake). fold (unread (lslot b 0)).
  remember (Nat.min (unread (lslot b 0)) (length dest - w)) as k eqn:Hk. rewrite Htake.
  assert (Hku : (k <= unread (lslot b 0))%nat) by lia.
  assert (Hkw : (payload_offset (lslot b 0) + k <= maximum_data_payload_size)%nat) by (unfold unread, PayloadPool.width in *; lia).
  rewrite (read_round b k Hkw). pose proof (read_head_spec b m k Hc Hr Hku) as Hp.
  assert (Epos : slot_at (read_head k b) (position b 0) = lslot (read_head k b) 0).
  { unfold lslot, position. rewrite (partly_capacity _ _ _ Hp). reflexivity. }
  assert (Epos' : position b 0 = position (read_head k b) 0).
  { unfold position. rewrite (partly_capacity _ _ _ Hp). reflexivity. }
  rewrite Epos, Epos'. clear Epos Epos'. revert Hp. generalize (read_head k b). intros b1 Hp.
  pose proof (partly_streamed k b b1 m Hc Hr Hku Hp) as Hs1. destruct (partly_core _ _ _ Hp) as [m1 C1].
  pose proof (partly_head _ _ _ Hp) as Hh. assert (Hr1 : readable (lslot b1 0) = true) by (rewrite Hh; exact Hr).
  rewrite Hh. cbn [payload_offset payload_size set_payload_offset].
  destruct (Nat.eqb_spec (payload_offset (lslot b 0) + k) (payload_size (lslot b 0))) as [Hend|Hpart]; cbn [negb].
  - assert (Hu : unread (lslot b1 0) = 0%nat) by (rewrite Hh; unfold unread; cbn; lia).
    destruct (consume_streamed b1 m1 C1 Hr1 Hu) as [Hs2 [k2 S2]]. revert Hs2 S2. generalize (consume_head (position b1 0) b1). intros b2 Hs2 S2.
    destruct (streamed_core _ _ _ Hs2) as [m2 C2]. pose proof (streamed_trans _ _ _ _ _ Hs1 Hs2) as Hs. rewrite Nat.add_0_r in Hs.
    eapply (loop_step w dest removed true b m b2 k); eauto; [|discriminate]. apply (IH (n - 1)%nat ctx' _ _ _ b2 m2 C2); [|destruct n; [|lia]|].
    + intros off Ho. rewrite (shifted_capacity _ _ _ S2) in Ho. destruct (decide (S k2 + off < capacity b1)%nat) as [Hlt2|Hge].
      * rewrite (shifted_lslot _ _ _ _ S2 Hlt2). rewrite (partly_capacity _ _ _ Hp) in Hlt2.
        rewrite (lcontent_lslot b b1 (S k2 + off) (S k2 + off)) by (apply (partly_other _ _ _ Hp); lia). apply Hn. lia.
      * destruct (shifted_blank _ _ _ S2 off) as [[V _] _]; [lia..|exact V].
    + exfalso. unfold readable in Hr. rewrite Hn in Hr; [discriminate|]. pose proof (proj1 (win_capacity b W)). lia.
    + rewrite overwrite_length by (rewrite length_take; lia). lia.
  - eapply (loop_step w dest removed removed b m b1 k); eauto.
    + eapply loop_stop; [exact C1|rewrite overwrite_length by (rewrite length_take; lia); lia|].
      intros _ _. left. rewrite overwrite_length by (rewrite length_take; lia). unfold unread in Hk. lia.
    + intros Hrem. split; [assumption|]. apply Hp.
Qed.
End loop.

(** The whole read: a prefix of the stream is copied and removed. *)
Lemma pop_stream_spec {C} b m dest due (ctx : C) : inv b m ->
  let '(r, dest', _, b') := pop_stream b dest due ctx in
  (exists m', inv b' m') /\ next_ack_sequence b' = next_ack_sequence b /\ (bytes_written r <= length dest)%nat /\
  (~ has_rejections b -> ~ has_rejections b' /\
     (bytes_written r <= length (stream b))%nat /\ dest' = overwrite 0 (take (bytes_written r) (stream b)) dest /\
     stream b' = drop (bytes_written r) (stream b) /\
     (due = None -> bytes_written r = Nat.min (length dest) (length (stream b)))).
Proof.
  intros I. pose proof (inv_core b m I) as Hc. pose proof (core_window b m Hc) as W.
  assert (Hfail : forall e, (due = None -> dest = [] \/ stream b = []) ->
    (exists m', inv b m') /\ next_ack_sequence b = next_ack_sequence b /\ (bytes_written (received_failure e) <= length dest)%nat /\
    (~ has_rejections b -> ~ has_rejections b /\ (bytes_written (received_failure e) <= length (stream b))%nat /\
     dest = overwrite 0 (take (bytes_written (received_failure e)) (stream b)) dest /\
     stream b = drop (bytes_written (received_failure e)) (stream b) /\
     (due = None -> bytes_written (received_failure e) = Nat.min (length dest) (length (stream b))))).
  { intros e Hd. split_and!; eauto; cbn; [lia|]. intros Hn. split_and!; auto; [lia|]. intros H. destruct (Hd H) as [->| ->]; cbn; lia. }
  unfold pop_stream. destruct (Nat.eqb_spec (length dest) 0) as [H0|H0]; [apply Hfail; intros _; left; apply nil_length_inv; assumption|].
  rewrite find_first by assumption. destruct (readable (lslot b 0)) eqn:Hr.
  2:{ apply Hfail. intros _. right. unfold stream. destruct (dropped (lslot b 0)) eqn:Hd; [reflexivity|].
      destruct (capacity b); [reflexivity|]. cbn [stream_view]. rewrite Hr, Hd. reflexivity. }
  destruct (call_due due _ ctx) as [ready ctx'] eqn:Hdue. destruct ready; cbn [negb]; [|apply Hfail; intros ->; discriminate].
  pose proof (stream_loop_spec due (S (capacity b)) (capacity b) ctx' 0 dest false b m Hc ltac:(intros; lia) ltac:(lia) ltac:(lia)) as L.
  destruct (stream_loop _ _ _ _ _ _ _) as [[[[w dest'] removed] ctx''] b']. destruct L as (L1 & L2 & L3 & L4 & L5).
  rewrite Nat.sub_0_r in *. cbn [bytes_written]. destruct (streamed_core _ _ _ L2) as [m' C'].
  assert (Hb : let b'' := if removed then refresh_first_buffered_timestamp b' else b' in
    inv b'' m' /\ next_ack_sequence b'' = next_ack_sequence b /\ stream b'' = stream b' /\ (~ has_rejections b' -> ~ has_rejections b'')).
  { cbv zeta. destruct removed.
    - destruct (refresh_first_spec b' m' C') as (SS & F & L). destruct (same_state_slots _ _ SS) as (E1 & E2 & E3 & E4 & E5 & E6 & E7 & E8 & E9).
      split_and!.
      + split; [eapply same_state_core; eassumption|assumption|apply L, L2, I|rewrite E7, (streamed_defer _ _ _ L2); apply I].
      + rewrite E5. apply L2.
      + assert (Ec : capacity (refresh_first_buffered_timestamp b') = capacity b') by (unfold capacity; rewrite E1; reflexivity).
        unfold stream. rewrite Ec. assert (Hlc : forall o, lcontent (refresh_first_buffered_timestamp b') o = lcontent b' o).
        { intros o. unfold lcontent, content, position, slot_at. rewrite Ec, E1, E2, E4. reflexivity. }
        rewrite (lcontent_lslot _ _ 0 0 (Hlc 0%nat)). rewrite (stream_view_ext _ b' _ 0 0); [reflexivity|]. intros. apply Hlc.
      + unfold has_rejections. rewrite E1, E8. auto.
    - destruct (L5 eq_refl) as [_ F]. split_and!; auto; [|apply L2].
      split; [assumption|apply F, I|apply L2, I|rewrite (streamed_defer _ _ _ L2); apply I]. }
  destruct Hb as (B1 & B2 & B3 & B4). split_and!; eauto; [lia|]. intros Hn. destruct (streamed_clean _ _ _ L2 Hn) as (N1 & N2 & N3).
  split_and!; auto. rewrite B3. assumption.
Qed.
