(* ===== verification/ReceiveBufferDrops.v ===== *)
(** Gap deadlines, rejected payloads, discarded and dropped ranges of the receive
    buffer. *)
From stdpp Require Import gmap.
From S2P Require Import Prelude Sequence Packet Codec Control LossList ReceiveWindow.
From S2P Require Import PayloadPool OccupiedIndex RejectedMessages ReceiveBuffer ReceiveBufferFacts.
From S2P Require Import ReceiveBufferQueries ReceiveBufferSteps ReceiveBufferOps ReceiveBufferReads ReceiveBufferStream.
Import ReceiveBuffer.

(** * Changes of a vacant slot *)

(** The vacant slot at [off] takes other markers. *)
Definition remark (off : nat) (s' : Slot) (b : t) : t := set_slots (<[position b off := s']> (slots b)) b.

Record remarked (off : nat) (s' : Slot) (b b' : t) : Prop := {
  remarked_core : forall m, core b m -> core b' m;
  remarked_capacity : capacity b' = capacity b;
  remarked_frame : frame b b';
  remarked_count : occupied_count b' = occupied_count b;
  remarked_slot : forall o, (o < capacity b)%nat -> lcontent b' o = if (o =? off)%nat then (s', []) else lcontent b o;
  remarked_bounds : (first_bound b -> first_bound b') /\ (last_bound b -> last_bound b');
}.

Lemma remark_spec b m off s' : core b m -> (off < capacity b)%nat -> occupied (lslot b off) = false -> vacant s' ->
  header s' = header (lslot b off) -> remarked off s' b (remark off s' b).
Proof.
  intros C Ho Hocc Hv Hhd. pose proof (core_window b m C) as W. pose proof (lslot_lookup b W off) as Hl.
  assert (P1 : forall m, core b m -> phys (remark off s' b) m) by (intros m' C'; eapply remark_phys; eauto; apply C').
  pose proof (remark_changed b m _ _ s' (core_phys b m C) Hl Hocc Hv) as Ch. fold (remark off s' b) in Ch.
  pose proof (changed_count b _ _ _ _ Ch eq_refl (position_lt b W off)) as Hcnt. fold (lslot b off) in Hcnt.
  rewrite Hocc, (proj1 Hv) in Hcnt.
  assert (F : frame b (remark off s' b)) by (destruct b; reflexivity).
  assert (E : occupied_count (remark off s' b) = occupied_count b /\
    message_query_valid (remark off s' b) = message_query_valid b /\ message_query (remark off s' b) = message_query b /\
    packet_query_valid (remark off s' b) = packet_query_valid b /\ packet_query (remark off s' b) = packet_query b)
    by (split_and!; reflexivity).
  revert P1 Ch Hcnt E F. generalize (remark off s' b). intros b' P1 Ch Hcnt (E6 & E7 & E8 & E9 & E10) F.
  destruct (frame_fields _ _ F) as (E1 & E2 & E3 & E4 & E5). pose proof (proj1 Ch) as Ec.
  assert (Hs : forall o, (o < capacity b)%nat -> lslot b' o = if (o =? off)%nat then s' else lslot b o)
    by (intros; eapply changed_lslot; eauto).
  assert (Hsame : forall o, (o < capacity b)%nat -> stored b' o = stored b o /\ header (lslot b' o) = header (lslot b o)).
  { intros o Hoo. unfold stored. rewrite Hs by assumption. destruct (Nat.eqb_spec o off) as [->|]; [|auto].
    split; [rewrite Hocc; apply Hv|assumption]. }
  split; auto.
  - intros m' C'. split; auto.
    + eapply changed_window; [exact W|exact Ch|exact E1|exact E2|apply position_lt; assumption|]. rewrite (proj1 Hv). discriminate.
    + pose proof (core_count b m C). lia.
    + rewrite E3. apply C.
    + eapply cache_ext; [..|exact (core_cache b m C)]; auto. intros o Hoo. unfold visible, readable. rewrite Hs by assumption.
      destruct (Nat.eqb_spec o off) as [->|]; [|reflexivity]. rewrite (proj1 Hv), Hocc. reflexivity.
  - intros o Hoo. eapply changed_lcontent; eauto.
  - split; intros B; [eapply first_bound_same|eapply last_bound_same]; eauto using frame_bounds.
Qed.

Lemma remarked_inv off s' b b' m : inv b m -> remarked off s' b b' -> inv b' m.
Proof.
  intros [C F L D] [R1 R2 R3 R4 R5 [R6 R7]]. split; auto.
  destruct (frame_fields _ _ R3) as (_ & _ & _ & E & _). rewrite E. assumption.
Qed.

(** * Gap deadlines *)

(** An unsettled slot without a deadline takes one. *)
Definition gap_marked (deadline : Z) (s : Slot) : Slot :=
  if negb (settled s) && (gap_deadline_microseconds s =? 0) then set_gap_deadline deadline s else s.

Lemma gap_marked_idem d s : 0 < d -> gap_marked d (gap_marked d s) = gap_marked d s.
Proof.
  intros Hd. unfold gap_marked. destruct (negb (settled s) && (gap_deadline_microseconds s =? 0)) eqn:E; [|rewrite E; reflexivity].
  change (settled (set_gap_deadline d s)) with (settled s). cbn [gap_deadline_microseconds set_gap_deadline].
  rewrite (proj2 (Z.eqb_neq d 0)) by lia. rewrite andb_false_r. reflexivity.
Qed.

(** The markers of the offsets chosen by [f] are set, the rest is unchanged. *)
Record gaps_marked (d : Z) (f : nat -> bool) (b b' : t) : Prop := {
  gaps_inv : forall m, inv b m -> inv b' m;
  gaps_capacity : capacity b' = capacity b;
  gaps_frame : frame b b';
  gaps_content : forall o, (o < capacity b)%nat ->
    lcontent b' o = ((if f o then gap_marked d (lslot b o) else lslot b o), (lcontent b o).2);
}.

Lemma lcontent_split b o : lcontent b o = (lslot b o, (lcontent b o).2).
Proof. reflexivity. Qed.

Lemma mark_gap_at_spec b m d s : inv b m -> 0 < d -> SequenceNumber.wf s ->
  gaps_marked d (fun o => seq_at b o =? s) b (mark_gap_at d s b).
Proof.
  intros I Hd Hs. pose proof (inv_core b m I) as C. pose proof (core_window b m C) as W.
  assert (Hsame : (forall o, (o < capacity b)%nat -> seq_at b o = s -> gap_marked d (lslot b o) = lslot b o) ->
    gaps_marked d (fun o => seq_at b o =? s) b b).
  { intros H. split; auto using frame_refl. intros o Ho. rewrite lcontent_split at 1. f_equal.
    destruct (Z.eqb_spec (seq_at b o) s) as [E|]; [|reflexivity]. symmetry. auto. }
  pose proof (in_window_spec b W s Hs) as Hin. unfold mark_gap_at. cbv zeta in Hin.
  set (dist := SequenceNumber.distance_from s (first_stored_sequence b)) in *.
  assert (Etest : (0 <=? dist) && (Z.to_nat dist <? capacity b)%nat = negb ((dist <? 0) || (capacity b <=? Z.to_nat dist)%nat)).
  { destruct (Z.leb_spec 0 dist), (Z.ltb_spec dist 0), (Nat.ltb_spec (Z.to_nat dist) (capacity b)), (Nat.leb_spec (capacity b) (Z.to_nat dist));
      try reflexivity; lia. }
  rewrite Etest. destruct (_ || _); cbn [negb]; [apply Hsame; intros o Ho E; exfalso; eapply Hin; eauto|].
  destruct Hin as [Hlt Es]. fold (lslot b (Z.to_nat dist)).
  assert (Eg : negb (occupied (lslot b (Z.to_nat dist))) && negb (dropped (lslot b (Z.to_nat dist))) &&
    (gap_deadline_microseconds (lslot b (Z.to_nat dist)) =? 0) =
    negb (settled (lslot b (Z.to_nat dist))) && (gap_deadline_microseconds (lslot b (Z.to_nat dist)) =? 0)).
  { unfold settled. rewrite negb_orb. reflexivity. }
  rewrite Eg. destruct (negb (settled _) && _) eqn:Et.
  2:{ apply Hsame. intros o Ho E. unfold gap_marked. rewrite Es in E. apply seq_at_inj in E; auto. subst o. rewrite Et. reflexivity. }
  apply andb_true_iff in Et as [Et1 Et2]. pose proof Et1 as Et3. apply negb_true_iff in Et1. unfold settled in Et1. apply orb_false_iff in Et1 as [Eo Ed].
  destruct (wf_vacant _ (phys_slots b m (core_phys b m C) _ _ (lslot_lookup b W (Z.to_nat dist))) Eo) as (V1 & V2 & V3 & V4 & V5 & V6).
  assert (R : remarked (Z.to_nat dist) (set_gap_deadline d (lslot b (Z.to_nat dist))) b (remark (Z.to_nat dist) (set_gap_deadline d (lslot b (Z.to_nat dist))) b)).
  { eapply remark_spec; eauto. split_and!; auto; cbn; try lia. congruence. }
  change (update_slot (position b (Z.to_nat dist)) (set_gap_deadline d) b) with (remark (Z.to_nat dist) (set_gap_deadline d (lslot b (Z.to_nat dist))) b).
  split; [intros m' I'; eapply remarked_inv; eauto|apply R|apply R|].
  intros o Ho. rewrite (remarked_slot _ _ _ _ R) by assumption. rewrite Es.
  destruct (Nat.eqb_spec o (Z.to_nat dist)) as [->|Hne].
  - rewrite Z.eqb_refl. unfold gap_marked. rewrite Et3, Et2. cbn [andb]. f_equal.
    unfold lcontent, content. fold (lslot b (Z.to_nat dist)). rewrite Eo. reflexivity.
  - destruct (Z.eqb_spec (seq_at b o) (seq_at b (Z.to_nat dist))) as [E|]; [apply seq_at_inj in E; auto; contradiction|apply lcontent_split].
Qed.

Lemma gaps_trans d f g b b1 b2 : 0 < d -> gaps_marked d f b b1 -> gaps_marked d g b1 b2 -> gaps_marked d (fun o => f o || g o) b b2.
Proof.
  intros Hd [A1 A2 A3 A4] [B1 B2 B3 B4]. split; auto; [congruence|eapply frame_trans; eassumption|].
  intros o Ho. rewrite B4 by lia. assert (Es : lslot b1 o = if f o then gap_marked d (lslot b o) else lslot b o).
  { change (lslot b1 o) with (lcontent b1 o).1. rewrite A4 by assumption. reflexivity. }
  rewrite Es, A4 by assumption. cbn [snd]. f_equal. destruct (f o), (g o); cbn [orb]; auto using gap_marked_idem.
Qed.

(** [x] is one of the [n + 1] sequence numbers from [s] on. *)
Definition in_span (x s : SequenceNumber.t) (n : Z) : bool := (x - s) mod SequenceNumber.modulus <=? n.

Lemma in_span_step x s n : SequenceNumber.wf x -> SequenceNumber.wf s -> 0 <= n -> n + 1 < SequenceNumber.modulus ->
  in_span x s (n + 1) = (x =? s) || in_span x (SequenceNumber.next s) n.
Proof.
  intros Hx Hs Hn Hm. unfold in_span. rewrite SequenceNumber.next_mod, Zminus_mod_idemp_r. SequenceNumber.consts. unfold SequenceNumber.wf in *. SequenceNumber.consts.
  destruct (Z.eqb_spec x s) as [->|Hne]; cbn [orb].
  - rewrite Z.sub_diag. apply Z.leb_le. change (0 mod 2147483648) with 0. lia.
  - pose proof (Z.mod_pos_bound (x - s) 2147483648 ltac:(lia)) as B.
    assert (Hne0 : (x - s) mod 2147483648 <> 0) by (intros E; apply Z.mod_divide in E; [destruct E; lia|lia]).
    replace (x - (s + 1)) with (x - s - 1) by lia. rewrite <- (Zminus_mod_idemp_l (x - s) 1).
    rewrite (Z.mod_small ((x - s) mod 2147483648 - 1)) by lia.
    destruct (Z.leb_spec ((x - s) mod 2147483648) (n + 1)), (Z.leb_spec ((x - s) mod 2147483648 - 1) n); auto; lia.
Qed.

Lemma mark_gap_loop_spec n : forall b m d s, inv b m -> 0 < d -> SequenceNumber.wf s -> Z.of_nat n < SequenceNumber.half_range ->
  gaps_marked d (fun o => in_span (seq_at b o) s (Z.of_nat n)) b (mark_gap_loop n d s b).
Proof.
  induction n as [|n IH]; intros b m d s I Hd Hs Hn; cbn [mark_gap_loop]; pose proof (mark_gap_at_spec b m d s I Hd Hs) as M.
  - destruct M as [M1 M2 M3 M4]. split; auto. intros o Ho. rewrite M4 by assumption. f_equal.
    unfold in_span. assert (E : (seq_at b o =? s) = ((seq_at b o - s) mod SequenceNumber.modulus <=? 0)); [|rewrite E; reflexivity].
    pose proof (seq_at_wf b o) as Hx. unfold SequenceNumber.wf in *. SequenceNumber.consts.
    pose proof (Z.mod_pos_bound (seq_at b o - s) 2147483648 ltac:(lia)).
    destruct (Z.eqb_spec (seq_at b o) s) as [->|Hne]; [rewrite Z.sub_diag; reflexivity|]. symmetry. apply Z.leb_gt.
    assert ((seq_at b o - s) mod 2147483648 <> 0); [|lia]. intros E. apply Z.mod_divide in E; [destruct E; lia|lia].
  - pose proof (IH _ m d (SequenceNumber.next s) (gaps_inv _ _ _ _ M m I) Hd (SequenceNumber.next_wf s) ltac:(lia)) as M2.
    pose proof (gaps_trans _ _ _ _ _ _ Hd M M2) as [T1 T2 T3 T4]. split; auto. intros o Ho. rewrite T4 by assumption. f_equal.
    assert (Ef : seq_at (mark_gap_at d s b) o = seq_at b o).
    { unfold seq_at. destruct (frame_fields _ _ (gaps_frame _ _ _ _ M)) as (_ & -> & _). reflexivity. }
    rewrite Ef, Nat2Z.inj_succ, <- Z.add_1_r, in_span_step; [reflexivity|apply seq_at_wf|assumption|lia|SequenceNumber.consts; lia].
Qed.

(** The deadline is set on exactly the missing packets of the range. *)
Lemma mark_gap_spec b m range d : inv b m -> 0 <= d -> SequenceNumber.wf (range_first range) -> SequenceNumber.wf (range_last range) ->
  let span := SequenceNumber.distance_from (range_last range) (range_first range) in
  gaps_marked d (fun o => negb (d =? 0) && (0 <=? span) && in_span (seq_at b o) (range_first range) span) b (mark_gap b range d).
Proof.
  intros I Hd Hf Hl span. unfold mark_gap. fold span.
  assert (Hsame : gaps_marked d (fun _ => false) b b) by (split; auto using frame_refl; intros; apply lcontent_split).
  destruct (Z.eqb_spec d 0) as [->|Hne]; [exact Hsame|]. cbn [orb negb andb].
  destruct (Z.ltb_spec span 0) as [Hs|Hs].
  - rewrite (proj2 (Z.leb_gt 0 span)) by lia. exact Hsame.
  - rewrite (proj2 (Z.leb_le 0 span)) by lia. cbn [andb].
    pose proof (SequenceNumber.distance_range (range_last range) (range_first range)) as Hr.
    pose proof (mark_gap_loop_spec (Z.to_nat span) b m d (range_first range) I ltac:(lia) Hf) as H.
    rewrite Z2Nat.id in H by lia. apply H. unfold span. lia.
Qed.

(** * Rejected payloads *)

Lemma reject_core b m off : core b m -> (off < capacity b)%nat -> readable (lslot b off) = true ->
  let b' := reject (position b off) (invalidate_delivery_queries b) in
  core b' m /\ capacity b' = capacity b /\ frame b b' /\
  (forall o, (o < capacity b)%nat ->
     lcontent b' o = if (o =? off)%nat then (set_rejected_payload true (lslot b off), bytes_at b off) else lcontent b o).
Proof.
  intros C Ho Hr. pose proof (core_invalidated b m C) as C0.
  assert (F0 : frame b (invalidate_delivery_queries b)) by (destruct b; reflexivity).
  assert (K0 : forall o, lcontent (invalidate_delivery_queries b) o = lcontent b o) by reflexivity.
  assert (Q : message_query_valid (invalidate_delivery_queries b) = false /\ packet_query_valid (invalidate_delivery_queries b) = false) by (split; reflexivity).
  unfold bytes_at. rewrite <- (K0 off). change (position b off) with (position (invalidate_delivery_queries b) off).
  change (capacity b) with (capacity (invalidate_delivery_queries b)) in *. change (lslot b off) with (lslot (invalidate_delivery_queries b) off) in *.
  cbv zeta. revert C0 F0 K0 Q Ho Hr. generalize (invalidate_delivery_queries b). intros b0 C0 F0 K0 [Q1 Q2] Ho Hr.
  pose proof (core_window b0 m C0) as W. pose proof (lslot_lookup b0 W off) as Hl.
  pose proof (reject_phys b0 m _ _ (core_phys b0 m C0) Hl Hr) as P1. pose proof (reject_changed b0 m _ _ (core_phys b0 m C0) Hl Hr) as Ch.
  pose proof (changed_count b0 _ _ _ _ Ch eq_refl (position_lt b0 W off)) as Hcnt. fold (lslot b0 off) in Hcnt.
  assert (Hocc : occupied (lslot b0 off) = true) by (unfold readable in Hr; apply andb_true_iff in Hr; apply Hr).
  cbn [occupied set_rejected_payload] in Hcnt. rewrite Hocc in Hcnt.
  assert (F1 : frame b0 (reject (position b0 off) b0)) by (destruct b0; reflexivity).
  assert (E : occupied_count (reject (position b0 off) b0) = occupied_count b0 /\
    message_query_valid (reject (position b0 off) b0) = message_query_valid b0 /\
    packet_query_valid (reject (position b0 off) b0) = packet_query_valid b0) by (split_and!; reflexivity).
  revert P1 Ch Hcnt F1 E. generalize (reject (position b0 off) b0). intros b' P1 Ch Hcnt F1 (E1 & E2 & E3).
  destruct (frame_fields _ _ F1) as (G1 & G2 & G3 & G4 & G5). pose proof (proj1 Ch) as Ec.
  split; [split|split; [assumption|split; [eapply frame_trans; eassumption|]]]; auto.
  - eapply changed_window; [exact W|exact Ch|exact G1|exact G2|apply position_lt; assumption|]. intros _. split; [exact Hocc|reflexivity].
  - pose proof (core_count b0 m C0). lia.
  - rewrite G3. apply C0.
  - split; rewrite ?E2, ?E3, ?Q1, ?Q2; discriminate.
  - intros o Hoo. rewrite <- (K0 o). eapply changed_lcontent; eauto.
Qed.

(** The payload is rejected at its offset, and the prefix trimmed. *)
Lemma discard_message_payload_spec b m off : inv b m -> (off < capacity b)%nat -> readable (lslot b off) = true ->
  let b1 := reject (position b off) (invalidate_delivery_queries b) in
  discard_message_payload b (seq_at b off) = refresh_buffered_timestamp_bounds (trim_dropped_prefix b1).
Proof.
  intros I Ho Hr. pose proof (core_window b m (inv_core b m I)) as W. unfold discard_message_payload.
  rewrite find_seq_at, Hr by assumption. cbv zeta. f_equal. f_equal.
  change (first_stored_sequence (invalidate_delivery_queries b)) with (first_stored_sequence b).
  destruct W as [[Hc Hc'] Hh Hf Hs]. rewrite distance_seq_at by lia. rewrite Nat2Z.id.
  change (position (invalidate_delivery_queries b) off) with (position b off).
  assert (Hlt : (position b off < capacity b)%nat) by (apply Nat.mod_upper_bound; lia).
  unfold reject. assert (Es : slot_at (update_slot (position b off) (set_rejected_payload true)
    (index_occupied (position b off) false false (invalidate_delivery_queries b))) (position b off) =
    set_rejected_payload true (slot_at b (position b off))) by (apply list_lookup_total_insert_eq; assumption).
  rewrite Es. destruct b; reflexivity.
Qed.

Lemma discard_message_payload_inv b m s : inv b m -> SequenceNumber.wf s -> exists m', inv (discard_message_payload b s) m'.
Proof.
  intros I Hs. pose proof (inv_core b m I) as C. pose proof (core_window b m C) as W.
  pose proof (in_window_spec b W s Hs) as Hin. cbv zeta in Hin.
  destruct (_ || _) in Hin; [unfold discard_message_payload; rewrite find_outside by assumption; eauto|].
  destruct Hin as [Hlt Es]. rewrite Es. set (off := Z.to_nat _) in *.
  destruct (readable (lslot b off)) eqn:Hr; [|unfold discard_message_payload; rewrite find_seq_at, Hr by assumption; eauto].
  rewrite (discard_message_payload_spec b m off I Hlt Hr). destruct (reject_core b m off C Hlt Hr) as (C1 & _ & F1 & _).
  revert C1 F1. cbv zeta. generalize (reject (position b off) (invalidate_delivery_queries b)). intros b1 C1 F1.
  destruct (trim_refresh_inv b1 m C1) as (k & m' & I' & _); [|eauto].
  destruct (frame_fields _ _ F1) as (_ & _ & _ & E & _). rewrite E. apply I.
Qed.

(** * Acknowledged peer drops *)

Lemma peer_acknowledge_inv b m range : inv b m -> inv (acknowledge_peer_drop_range b range).2 m.
Proof.
  intros I. unfold acknowledge_peer_drop_range. destruct (_ || _); [exact I|]. apply advance_acknowledgement_inv.
  apply inv_set_ack; [apply SequenceNumber.next_wf|assumption].
Qed.

(** * Discarding a prefix *)

(** A slot is rewritten after its rejected payload has been forgotten. *)
Lemma wipe_round b i f : (i < capacity b)%nat -> let s := slot_at b i in
  update_slot i f (remove_rejected_message i b) =
  set_slots (<[i := f (set_rejected_payload false s)]> (slots b))
    (set_rejected (if rejected_payload s then RejectedMessages.remove_rejected_message (rejected b) (msg s) else rejected b) b).
Proof.
  intros Hi s. destruct (remove_rejected_slots b i s Hi eq_refl) as (R1 & R2 & R3). set (b' := remove_rejected_message i b) in *.
  assert (Es : slot_at b' i = set_rejected_payload false s) by (unfold slot_at; rewrite R1; apply list_lookup_total_insert_eq; exact Hi).
  apply t_ext.
  - cbn. rewrite Es, R1, list_insert_insert_eq. reflexivity.
  - exact R2.
  - exact (R3 _ _).
Qed.

(** [b'] is [b] with default slots at [n] offsets from [lo] on. *)
Record wiped (lo n : nat) (b b' : t) : Prop := {
  wiped_core : exists m', core b' m';
  wiped_capacity : capacity b' = capacity b;
  wiped_frame : frame b b';
  wiped_flags : message_query_valid b' = false /\ packet_query_valid b' = false;
  wiped_slot : forall o, (lo <= o < lo + n)%nat -> lslot b' o = default_slot;
  wiped_other : forall o, (o < capacity b)%nat -> ~ (lo <= o < lo + n)%nat -> lcontent b' o = lcontent b o;
}.

Lemma default_slot_vacant : vacant default_slot.
Proof. split_and!; auto; simpl; lia. Qed.

Lemma clear_core b m off s' : core b m -> message_query_valid b = false -> packet_query_valid b = false ->
  (off < capacity b)%nat -> occupied (lslot b off) = false -> vacant s' ->
  let b' := clear (position b off) s' b in
  core b' m /\ capacity b' = capacity b /\ frame b b' /\
  (forall o, (o < capacity b)%nat -> lcontent b' o = if (o =? off)%nat then (s', []) else lcontent b o).
Proof.
  intros C Q1 Q2 Ho Hocc Hv. pose proof (core_window b m C) as W. pose proof (lslot_lookup b W off) as Hl.
  destruct (clear_phys b m _ _ s' (core_phys b m C) Hl Hocc Hv) as [P1 Ch]. cbv zeta.
  pose proof (changed_count b _ _ _ _ Ch eq_refl (position_lt b W off)) as Hcnt. fold (lslot b off) in Hcnt. rewrite Hocc, (proj1 Hv) in Hcnt.
  assert (F1 : frame b (clear (position b off) s' b)) by (destruct b; reflexivity).
  assert (E : occupied_count (clear (position b off) s' b) = occupied_count b /\
    message_query_valid (clear (position b off) s' b) = message_query_valid b /\
    packet_query_valid (clear (position b off) s' b) = packet_query_valid b) by (split_and!; reflexivity).
  revert P1 Ch Hcnt F1 E. generalize (clear (position b off) s' b). intros b' P1 Ch Hcnt F1 (E1 & E2 & E3).
  destruct (frame_fields _ _ F1) as (G1 & G2 & G3 & G4 & G5).
  split; [split|split; [apply Ch|split; [assumption|]]]; auto.
  - eapply changed_window; [exact W|exact Ch|exact G1|exact G2|apply position_lt; assumption|]. rewrite (proj1 Hv). discriminate.
  - pose proof (core_count b m C). lia.
  - rewrite G3. apply C.
  - split; rewrite ?E2, ?E3, ?Q1, ?Q2; discriminate.
  - intros o Hoo. eapply changed_lcontent; eauto.
Qed.

(** One round of the discarding loop. *)
Definition discard_slot (i : nat) (b : t) : t :=
  let slot := slot_at b i in
  let b :=
    if occupied slot then
      let b := set_buffered_payload_bytes (buffered_payload_bytes b - (payload_size slot - payload_offset slot))%nat b in
      let b := set_payloads (PayloadPool.release (payloads b) (payload_index slot)) b in
      set_occupied_count (occupied_count b - 1)%nat b
    else b in
  update_slot i (fun _ => default_slot) (remove_rejected_message i (index_occupied i false true b)).

Lemma discard_slot_spec b m off : core b m -> message_query_valid b = false -> packet_query_valid b = false ->
  (off < capacity b)%nat -> wiped off 1 b (discard_slot (position b off) b).
Proof.
  intros C Q1 Q2 Ho. pose proof (core_window b m C) as W. pose proof (position_lt b W off) as Hp.
  assert (E : exists b', discard_slot (position b off) b = b' /\ (exists m', core b' m') /\ capacity b' = capacity b /\ frame b b' /\
    (message_query_valid b' = false /\ packet_query_valid b' = false) /\
    (forall o, (o < capacity b)%nat -> lcontent b' o = if (o =? off)%nat then (default_slot, []) else lcontent b o)).
  { unfold discard_slot. cbv zeta. fold (lslot b off). destruct (occupied (lslot b off)) eqn:Hocc.
    - exists (release_at off default_slot b). split; [rewrite wipe_round by exact Hp; destruct b; reflexivity|].
      destruct (release_at_core b m off default_slot C Q1 Q2 Ho Hocc default_slot_vacant) as (R1 & R2 & R3 & R4). auto 10.
    - exists (clear (position b off) default_slot b). split.
      + rewrite wipe_round by exact Hp. change (slot_at _ (position b off)) with (lslot b off).
        rewrite (proj1 (proj2 (wf_vacant _ (phys_slots b m (core_phys b m C) _ _ (lslot_lookup b W off)) Hocc))). destruct b; reflexivity.
      + destruct (clear_core b m off default_slot C Q1 Q2 Ho Hocc default_slot_vacant) as (R1 & R2 & R3 & R4). split_and!; eauto. }
  destruct E as (b' & -> & C' & E1 & F & Q & K). split; auto.
  - intros o Hoo. replace o with off by lia. change (lslot b' off) with (lcontent b' off).1. rewrite K, Nat.eqb_refl by assumption. reflexivity.
  - intros o Hoo Hne. rewrite K by assumption. destruct (Nat.eqb_spec o off); [lia|reflexivity].
Qed.

Lemma frame_position b b' off : frame b b' -> capacity b' = capacity b -> position b' off = position b off.
Proof. intros F E. unfold position. rewrite E. destruct (frame_fields _ _ F) as (-> & _). reflexivity. Qed.

Lemma discard_loop_step n index b : discard_loop (S n) index b = discard_loop n (index + 1) (discard_slot (position b index) b).
Proof. reflexivity. Qed.

Lemma discard_loop_spec n : forall index b m, core b m -> message_query_valid b = false -> packet_query_valid b = false ->
  (index + n <= capacity b)%nat -> wiped index n b (discard_loop n index b).
Proof.
  induction n as [|n IH]; intros index b m C Q1 Q2 Hn.
  - split; eauto using frame_refl. lia.
  - rewrite discard_loop_step. pose proof (discard_slot_spec b m index C Q1 Q2 ltac:(lia)) as [A1 A2 A3 [A4 A4'] A5 A6].
    revert A1 A2 A3 A4 A4' A5 A6. generalize (discard_slot (position b index) b). intros b1 [m1 C1] A2 A3 A4 A4' A5 A6.
    rewrite Nat.add_1_r. destruct (IH (S index) b1 m1 C1 A4 A4' ltac:(lia)) as [B1 B2 B3 B4 B5 B6]. split; auto.
    + congruence.
    + eapply frame_trans; eassumption.
    + intros o Ho. destruct (decide (o = index)) as [->|]; [|apply B5; lia].
      rewrite (lcontent_lslot b1 _ index index) by (apply B6; lia). apply A5. lia.
    + intros o Ho Hne. rewrite B6 by lia. apply A6; lia.
Qed.

(** [jumped k b b']: the window moved on by [k], possibly past all it held. *)
Record jumped (k : nat) (b b' : t) : Prop := {
  jumped_capacity : capacity b' = capacity b;
  jumped_first : first_stored_sequence b' = seq_at b k;
  jumped_content : forall off, (k + off < capacity b)%nat -> lcontent b' off = lcontent b (k + off);
  jumped_blank : forall off, (off < capacity b)%nat -> (capacity b <= k + off)%nat -> blank (lslot b' off);
  jumped_defer : defer_drop_timestamp_refresh b' = defer_drop_timestamp_refresh b;
}.

Lemma shifted_jumped k b b' : shifted k b b' -> jumped k b b'.
Proof. intros [S1 S2 S3 S4 S5 S6 S7]. split; assumption. Qed.

(** The frontier moves past [k] offsets that are blank in [b1]. *)
Lemma frontier_jumped b b1 k : window b1 -> capacity b1 = capacity b -> Z.of_nat k < 2 ^ 31 ->
  first_stored_sequence b1 = first_stored_sequence b -> next_ack_sequence b1 = next_ack_sequence b ->
  defer_drop_timestamp_refresh b1 = defer_drop_timestamp_refresh b ->
  (forall o, (o < k)%nat -> (o < capacity b)%nat -> blank (lslot b1 o)) ->
  (forall o, (k <= o < capacity b)%nat -> lcontent b1 o = lcontent b o) ->
  jumped k b (advance_frontier (Z.of_nat k) b1) /\ window (advance_frontier (Z.of_nat k) b1).
Proof.
  intros W1 Ec Hk Ef Ea Ed Hb Hc. destruct (le_lt_dec k (capacity b)) as [Hle|Hgt].
  - destruct (retire_many b b1 k W1 Ec Hle Ef Ea Ed) as [S W]; [intros; apply Hb; lia|assumption|]. split; [apply shifted_jumped|]; assumption.
  - assert (W2 : window (advance_frontier (Z.of_nat k) b1)).
    { apply advance_frontier_window; [assumption|lia|]. intros off Ho _. apply (Hb off); lia. }
    split; [|assumption]. split; auto; try lia.
    + unfold advance_frontier. cbn. rewrite u32_id by (unfold is_u32; lia). unfold seq_at. rewrite Ef. reflexivity.
    + intros off Ho _. unfold lslot. set (p := position _ off). change (slot_at (advance_frontier (Z.of_nat k) b1) p) with (slot_at b1 p).
      assert (Hp : (p < capacity b1)%nat) by apply (position_lt _ W2). destruct (position_offset_of b1 W1 p Hp) as [Ep Ho'].
      rewrite <- Ep. apply (Hb (offset_of b1 p)); lia.
Qed.

(** Every slot is blank in a window that discarded everything. *)
Lemma all_default b m : core b m -> (forall o, (o < capacity b)%nat -> lslot b o = default_slot) ->
  set_buffered_payload_bytes 0 (set_occupied_count 0 (set_slots ((fun _ => default_slot) <$> slots b) b)) = b.
Proof.
  intros C H. pose proof (core_window b m C) as W.
  assert (Hs : slots b = (fun _ => default_slot) <$> slots b).
  { apply list_eq. intros i. rewrite list_lookup_fmap. destruct (slots b !! i) as [s|] eqn:Hi; [|reflexivity]. cbn. f_equal.
    pose proof (lookup_lt_Some _ _ _ Hi) as Hlt. destruct (position_offset_of b W i Hlt) as [Ep Ho]. specialize (H _ Ho).
    unfold lslot in H. rewrite Ep, (slot_at_lookup b i s Hi) in H. assumption. }
  assert (Hn : occupied_count b = 0%nat).
  { rewrite (core_count b m C), Hs. clear. induction (slots b); simpl; auto. }
  assert (Hb : buffered_payload_bytes b = 0%nat).
  { rewrite (phys_bytes b m (core_phys b m C)), Hs. clear. induction (slots b); simpl; auto. }
  rewrite <- Hs. clear -Hn Hb. destruct b; cbn in *. subst. reflexivity.
Qed.

Lemma frame_invalidated b : frame b (invalidate_delivery_queries b).
Proof. destruct b; reflexivity. Qed.

(** The state after the frontier moved. *)
Lemma frontier_core b m k : core b m -> window (advance_frontier k b) -> message_query_valid b = false -> packet_query_valid b = false ->
  core (advance_frontier k b) m.
Proof.
  intros [C1 C2 C3 C4 C5] W Q1 Q2. split; auto.
  - eapply phys_ext; [..|exact C1]; reflexivity.
  - split; cbn; rewrite ?Q1, ?Q2; discriminate.
Qed.

Lemma jumped_stored k b b' off : jumped k b b' -> (off < capacity b)%nat -> stored b' off = true ->
  (k + off < capacity b)%nat /\ stored b (k + off) = true.
Proof.
  intros J Ho H. unfold stored in *. destruct (decide (k + off < capacity b)%nat) as [Hlt|Hge].
  - rewrite <- (lcontent_lslot b b' (k + off) off) by (apply J; assumption). auto.
  - destruct (jumped_blank k b b' J off Ho ltac:(lia)) as [V _]. rewrite (proj1 V) in H. discriminate.
Qed.

Lemma last_bound_jumped k b b' m m' : jumped k b b' -> core b m -> core b' m' -> same_bounds b b' -> last_bound b -> last_bound b'.
Proof.
  intros J C C' B L. destruct (le_lt_dec k (capacity b)) as [Hle|Hgt].
  - intros Hne.
    assert (S : shifted k b (set_next_ack_sequence (next_ack_sequence b) b')) by (destruct J; split; auto).
    assert (C2 : core (set_next_ack_sequence (next_ack_sequence b) b') m') by (apply core_set_ack; [apply C|assumption]).
    assert (L2 : last_bound (set_next_ack_sequence (next_ack_sequence b) b')) by (eapply last_bound_shifted; eauto).
    exact (L2 Hne).
  - intros Hne. exfalso. destruct (some_stored b' m' C' Hne) as (off & Ho & Hst). rewrite (jumped_capacity k b b' J) in Ho.
    destruct (jumped_stored k b b' off J Ho Hst). lia.
Qed.

Lemma jumped_rejections k b b' : window b -> window b' -> jumped k b b' -> discarding_message b' = discarding_message b ->
  ~ has_rejections b -> ~ has_rejections b'.
Proof.
  intros W W' J Ed. rewrite !has_rejections_window by assumption. intros [H1 H2]. split; [|congruence].
  intros off Ho. rewrite (jumped_capacity k b b' J) in Ho. destruct (decide (k + off < capacity b)%nat).
  - rewrite (lcontent_lslot b b' (k + off) off) by (apply J; assumption). apply H1. assumption.
  - destruct (jumped_blank k b b' J off Ho ltac:(lia)) as [(_ & Hv & _) _]. exact Hv.
Qed.

(** The window starts at [s], the acknowledgement is not behind it. *)
Lemma discard_before_spec b m s : inv b m -> SequenceNumber.wf s ->
  let d := SequenceNumber.distance_from s (first_stored_sequence b) in
  let '(e, b') := discard_before b s in
  e = Error.none /\ (d <= 0 -> b' = b) /\
  (0 < d -> (exists m', inv b' m') /\ jumped (Z.to_nat d) b b' /\ first_stored_sequence b' = s /\
    next_ack_sequence b' = (if SequenceNumber.distance_from (next_ack_sequence b) s <? 0 then s else next_ack_sequence b) /\
    (~ has_rejections b -> ~ has_rejections b')).
Proof.
  intros I Hs d. unfold discard_before. fold d. destruct (Z.leb_spec d 0) as [|Hd]; [split_and!; auto; lia|].
  pose proof (inv_core b m I) as C. pose proof (core_window b m C) as W. pose proof (SequenceNumber.distance_range s (first_stored_sequence b)) as Hr. fold d in Hr.
  assert (Eu : u32 d = d) by (apply u32_id; unfold is_u32; SequenceNumber.consts; lia). rewrite Eu.
  rewrite (proj2 (Z.leb_gt _ _)) by lia. cbv zeta. change (capacity (invalidate_delivery_queries b)) with (capacity b).
  pose proof (discard_loop_spec (Nat.min (Z.to_nat d) (capacity b)) 0 _ m (core_invalidated b m C) eq_refl eq_refl) as Hw.
  change (capacity (invalidate_delivery_queries b)) with (capacity b) in Hw. specialize (Hw ltac:(lia)).
  destruct Hw as [[m1 C1] H2 H3 [H4 H4'] H5 H6].
  assert (Hoth : forall o, (o < capacity b)%nat -> ~ (0 <= o < 0 + Nat.min (Z.to_nat d) (capacity b))%nat ->
    lcontent (discard_loop (Nat.min (Z.to_nat d) (capacity b)) 0 (invalidate_delivery_queries b)) o = lcontent b o) by exact H6.
  pose proof (frame_trans _ _ _ (frame_invalidated b) H3) as F. change (capacity (invalidate_delivery_queries b)) with (capacity b) in H2.
  clear H3 H6. revert C1 H2 H4 H4' H5 Hoth F. generalize (discard_loop (Nat.min (Z.to_nat d) (capacity b)) 0 (invalidate_delivery_queries b)).
  intros b1 C1 Ec Q1 Q2 Hdef Hoth F. destruct (frame_fields _ _ F) as (E1 & E2 & E3 & E4 & E5).
  assert (Ereset : (if (capacity b1 <=? Z.to_nat d)%nat then set_buffered_payload_bytes 0 (set_occupied_count 0
      (set_slots ((fun _ => default_slot) <$> slots b1) b1)) else b1) = b1).
  { destruct (Nat.leb_spec (capacity b1) (Z.to_nat d)); [|reflexivity]. apply (all_default b1 m1 C1). intros o Ho. apply Hdef. lia. }
  rewrite Ereset. clear Ereset.
  destruct (frontier_jumped b b1 (Z.to_nat d)) as [J W2]; auto; [apply C1|SequenceNumber.consts; lia| |intros; apply Hoth; lia|].
  { intros o Ho Ho'. rewrite Hdef by lia. split; [apply default_slot_vacant|auto]. }
  rewrite Z2Nat.id in J, W2 by lia. pose proof (frontier_core b1 m1 d C1 W2 Q1 Q2) as C2.
  assert (B2 : same_bounds b (advance_frontier d b1)) by (destruct (frame_bounds _ _ F) as (B1 & B2 & B3 & B4); split_and!; assumption).
  assert (A2 : next_ack_sequence (advance_frontier d b1) = next_ack_sequence b) by exact E3.
  assert (D2 : discarding_message (advance_frontier d b1) = discarding_message b) by exact E5.
  revert J W2 C2 B2 A2 D2. generalize (advance_frontier d b1). intros b2 J W2 C2 B2 A2 D2.
  assert (Ef : first_stored_sequence b2 = s) by (rewrite (jumped_first _ _ _ J); symmetry; apply seq_at_distance; [assumption|fold d; lia]).
  rewrite A2.
  assert (H3 : let b3 := if SequenceNumber.distance_from (next_ack_sequence b) s <? 0 then set_next_ack_sequence s b2 else b2 in
    core b3 m1 /\ jumped (Z.to_nat d) b b3 /\ same_bounds b b3 /\ discarding_message b3 = discarding_message b /\
    first_stored_sequence b3 = s /\
    next_ack_sequence b3 = (if SequenceNumber.distance_from (next_ack_sequence b) s <? 0 then s else next_ack_sequence b)).
  { cbv zeta. destruct (SequenceNumber.distance_from (next_ack_sequence b) s <? 0); split_and!; auto; try apply B2; [apply core_set_ack; assumption|].
    destruct J as [J1 J2 J3 J4 J5]. split; auto. }
  cbv zeta in H3. revert H3.
  generalize (if SequenceNumber.distance_from (next_ack_sequence b) s <? 0 then set_next_ack_sequence s b2 else b2).
  intros b3 (C3 & J3 & B3 & D3 & F3 & A3).
  destruct (refresh_first_spec b3 m1 C3) as (SS & FB & LB). destruct (same_state_slots _ _ SS) as (S1 & S2 & S3 & S4 & S5 & S6 & S7 & S8 & S9).
  split; [reflexivity|]. split; [lia|]. intros _. split; [|split; [|split; [|split]]].
  - exists m1. split; [eapply same_state_core; eassumption|assumption| |rewrite S7, (jumped_defer _ _ _ J3); apply I].
    apply LB. eapply last_bound_jumped; eauto. apply I.
  - destruct J3 as [K1 K2 K3 K4 K5]. split; unfold lcontent, content, lslot, slot_at, position, capacity in *; rewrite ?S1, ?S2, ?S3, ?S4, ?S7; auto.
  - congruence.
  - congruence.
  - intros Hn. pose proof (jumped_rejections _ b b3 W (core_window _ _ C3) J3 D3 Hn) as Hn3. unfold has_rejections in *. rewrite S1, S8. assumption.
Qed.
