(* ===== verification/ReceiveBufferRanges.v ===== *)
(** Dropped ranges of the receive buffer ([drop_range_impl]): which packets a
    drop removes, which it preserves, and where the window ends up. *)
From stdpp Require Import gmap.
From S2P Require Import Prelude Sequence Packet Codec Control LossList ReceiveWindow.
From S2P Require Import PayloadPool OccupiedIndex RejectedMessages ReceiveBuffer ReceiveBufferFacts.
From S2P Require Import ReceiveBufferQueries ReceiveBufferSteps ReceiveBufferOps ReceiveBufferReads ReceiveBufferStream.
From S2P Require Import ReceiveBufferDrops.
Import ReceiveBuffer.

(** * Stored packets and bounds *)

(** No packet appears, and while none disappears the bounds stay right. *)
Definition keeps (b b' : t) : Prop :=
  (occupied_count b' <= occupied_count b)%nat /\
  (occupied_count b' = occupied_count b -> (first_bound b -> first_bound b') /\ (last_bound b -> last_bound b')).

Lemma keeps_refl b : keeps b b.
Proof. split; auto. Qed.
Lemma keeps_trans b b1 b2 : keeps b b1 -> keeps b1 b2 -> keeps b b2.
Proof.
  intros [A1 A2] [B1 B2]. split; [lia|]. intros E. destruct (A2 ltac:(lia)), (B2 ltac:(lia)). auto.
Qed.

Lemma first_bound_jumped k b b' m m' : jumped k b b' -> core b m -> core b' m' -> same_bounds b b' ->
  (forall off, (off < k)%nat -> (off < capacity b)%nat -> occupied (lslot b off) = false) -> first_bound b -> first_bound b'.
Proof.
  intros J C C' (B1 & _ & B3 & _) Hv F Hne. pose proof (jumped_capacity k b b' J) as Ec.
  destruct (some_stored b' m' C' Hne) as (off & Ho & Hst). rewrite Ec in Ho.
  destruct (jumped_stored k b b' off J Ho Hst) as [Hk Hst'].
  destruct (F (stored_count b m _ C Hst')) as (f & (F1 & F2 & F3) & F4 & F5).
  assert (Hkf : (k <= f)%nat).
  { destruct (le_lt_dec k f) as [|Hlt]; [assumption|]. unfold stored in F2. rewrite (Hv f) in F2 by lia. discriminate. }
  assert (Hl : lslot b' (f - k) = lslot b f).
  { rewrite (lcontent_lslot b b' (k + (f - k)) (f - k)) by (apply J; lia). f_equal. lia. }
  exists (f - k)%nat. rewrite Ec, B1, B3, Hl. split_and!; auto.
  - split; [lia|]. split; [unfold stored; rewrite Hl; exact F2|]. intros q Hq. destruct (stored b' q) eqn:E; [|reflexivity].
    destruct (jumped_stored k b b' q J ltac:(lia) E) as [_ E']. rewrite F3 in E' by lia. discriminate.
  - rewrite F4. unfold seq_at. rewrite (jumped_first k b b' J). unfold seq_at.
    rewrite !SequenceNumber.advanced_mod, Zplus_mod_idemp_l. f_equal. lia.
Qed.

(** Moving the window keeps the bounds when only vacant slots leave. *)
Lemma keeps_jumped k b b' m m' : jumped k b b' -> core b m -> core b' m' -> same_bounds b b' ->
  (occupied_count b' <= occupied_count b)%nat ->
  (occupied_count b' = occupied_count b -> forall off, (off < k)%nat -> (off < capacity b)%nat -> occupied (lslot b off) = false) -> keeps b b'.
Proof.
  intros J C C' B Hle Hv. split; [assumption|]. intros E. split; [eapply first_bound_jumped|eapply last_bound_jumped]; eauto.
Qed.

(** * One slot *)

(** The marker left where a packet is dropped. *)
Definition dropped_slot (s : Slot) : Slot :=
  set_gap_deadline 0 (set_dropped true
    (if occupied s then set_payload_offset 0 (set_payload_size 0 (set_occupied false (set_rejected_payload false s))) else s)).

Lemma dropped_slot_vacant s : slot_wf s -> vacant (dropped_slot s).
Proof.
  intros Hw. unfold dropped_slot. destruct (occupied s) eqn:E.
  - split_and!; auto; cbn; lia.
  - destruct (wf_vacant s Hw E) as (V1 & V2 & V3 & V4 & V5 & V6). split_and!; auto; cbn; lia.
Qed.

(** [b'] is [b] with a drop marker at [off]. *)
Record dropped_at (off : nat) (b b' : t) : Prop := {
  dropped_core : exists m', core b' m';
  dropped_capacity : capacity b' = capacity b;
  dropped_frame : frame b b';
  dropped_keeps : keeps b b';
  dropped_content : forall o, (o < capacity b)%nat -> lcontent b' o = if (o =? off)%nat then (dropped_slot (lslot b off), []) else lcontent b o;
}.

Lemma drop_slot_occupied b off : (position b off < capacity b)%nat -> occupied (lslot b off) = true ->
  drop_slot (position b off) b = surrender off (dropped_slot (lslot b off)) b.
Proof.
  intros Hp Hocc. unfold drop_slot. fold (lslot b off). rewrite Hocc. cbv zeta. rewrite wipe_round by exact Hp.
  unfold update_slot, dropped_slot. rewrite Hocc.
  match goal with |- set_slots (<[_ := set_gap_deadline 0 (set_dropped true (slot_at ?x _))]> _) _ = _ =>
    assert (Es : slot_at x (position b off) =
      set_payload_offset 0 (set_payload_size 0 (set_occupied false (set_rejected_payload false (lslot b off)))))
      by (apply list_lookup_total_insert_eq; exact Hp) end.
  rewrite Es. unfold surrender, release_at, forget. cbn [slots set_slots set_occupied_count set_rejected].
  rewrite list_insert_insert_eq. destruct b; reflexivity.
Qed.

Lemma drop_slot_spec b m off : core b m -> (off < capacity b)%nat -> dropped_at off b (drop_slot (position b off) b).
Proof.
  intros C Ho. pose proof (core_window b m C) as W. pose proof (lslot_lookup b W off) as Hl.
  pose proof (dropped_slot_vacant _ (phys_slots b m (core_phys b m C) _ _ Hl)) as Hv.
  destruct (occupied (lslot b off)) eqn:Hocc.
  - rewrite drop_slot_occupied by (auto using position_lt).
    destruct (surrender_core b m off _ C Ho Hocc Hv) as (C' & E & F & K). pose proof (occupied_positive b m off C Hocc) as Hpos.
    split; auto. split; [cbn; lia|]. cbn. lia.
  - assert (E : drop_slot (position b off) b = remark off (dropped_slot (lslot b off)) b).
    { unfold drop_slot, dropped_slot. fold (lslot b off). rewrite Hocc. reflexivity. }
    assert (Hh : header (dropped_slot (lslot b off)) = header (lslot b off)) by (unfold dropped_slot; rewrite Hocc; reflexivity).
    rewrite E. destruct (remark_spec b m off _ C Ho Hocc Hv Hh) as [R1 R2 R3 R4 R5 R6]. split; eauto. split; [lia|auto].
Qed.

(** * The range *)

(** What the loop remembers when it preserves the slot at [off]. *)
Definition kept (preservation : DropPreservation.t) (off : nat) (p : drop_progress) (b : t) : option drop_progress :=
  match preservation with
  | DropPreservation.none => None
  | DropPreservation.received_packets =>
    if readable (lslot b off) then Some (preserve_here p (seq_at b off) (preserve_through p)) else None
  | DropPreservation.complete_messages =>
    if match preserve_through p with Some last => (off <=? last)%nat | None => false end then Some p
    else match complete_message_last_offset b off with
         | Some last => Some (preserve_here p (seq_at b off) (Some last))
         | None => None
         end
  end.

Lemma stored_at_spec b off : window b -> (off < capacity b)%nat ->
  stored_at b off = if stored b off then Some (lslot b off) else None.
Proof.
  intros W Ho. unfold stored_at, stored. fold (lslot b off). rewrite (u32_offset b W off Ho). fold (seq_at b off).
  destruct (occupied (lslot b off)) eqn:E; [|reflexivity]. rewrite (win_sequence b W off Ho E), Z.eqb_refl. reflexivity.
Qed.

Lemma complete_stored b off l : window b -> (off < capacity b)%nat -> complete_message_last_offset b off = Some l -> stored b off = true.
Proof.
  intros W Ho H. unfold complete_message_last_offset in H. rewrite stored_at_spec in H by assumption.
  destruct (stored b off); [reflexivity|discriminate].
Qed.

Lemma drop_at_kept preservation off p b : window b -> (off < capacity b)%nat ->
  drop_at preservation off p b =
  match kept preservation off p b with
  | Some p' => (p', b)
  | None => ({| newly_dropped := if negb (dropped (lslot b off)) then u64 (newly_dropped p + 1) else newly_dropped p;
                first_preserved := first_preserved p; preserve_through := preserve_through p |}, drop_slot (position b off) b)
  end.
Proof.
  intros W Ho. unfold drop_at, kept. fold (lslot b off). destruct preservation; [reflexivity| |].
  - destruct (match preserve_through p with Some last => _ | None => _ end); [reflexivity|].
    destruct (complete_message_last_offset b off) as [l|] eqn:E; [|reflexivity].
    rewrite (win_sequence b W off Ho (complete_stored b off l W Ho E)). reflexivity.
  - rewrite (u32_offset b W off Ho). fold (seq_at b off). unfold readable. destruct (occupied (lslot b off)) eqn:E; [|reflexivity].
    rewrite (win_sequence b W off Ho E), Z.eqb_refl, andb_true_r. destruct (rejected_payload (lslot b off)); reflexivity.
Qed.

(** Slots from [lo] to [lo + n] of [b] are kept or replaced by markers. *)
Record range_dropped (lo n : nat) (b b' : t) : Prop := {
  range_core : exists m', core b' m';
  range_capacity : capacity b' = capacity b;
  range_frame : frame b b';
  range_keeps : keeps b b';
  range_outside : forall o, (o < capacity b)%nat -> ~ (lo <= o < lo + n)%nat -> lcontent b' o = lcontent b o;
  range_inside : forall o, (lo <= o < lo + n)%nat -> lcontent b' o = lcontent b o \/ lcontent b' o = (dropped_slot (lslot b o), []);
}.

(** The first offset of the range that is kept. *)
Definition first_kept (lo n : nat) (b b' : t) (first : option nat) : Prop :=
  match first with
  | Some f => (lo <= f < lo + n)%nat /\ stored b f = true /\ lcontent b' f = lcontent b f /\
      forall o, (lo <= o < f)%nat -> lcontent b' o = (dropped_slot (lslot b o), [])
  | None => forall o, (lo <= o < lo + n)%nat -> lcontent b' o = (dropped_slot (lslot b o), [])
  end.

(** What [kept] guarantees: a message or packet kept first is stored. *)
Definition progress_ok (p : drop_progress) : Prop := preserve_through p <> None -> first_preserved p <> None.

Lemma kept_progress preservation off p b p' : window b -> (off < capacity b)%nat -> kept preservation off p b = Some p' -> progress_ok p ->
  progress_ok p' /\ first_preserved p' = Some (default (seq_at b off) (first_preserved p)) /\
  (first_preserved p = None -> stored b off = true) /\ preservation <> DropPreservation.none.
Proof.
  intros W Ho H Hp. unfold kept in H. destruct preservation; [discriminate| |].
  - destruct (preserve_through p) as [l|] eqn:El.
    + destruct (off <=? l)%nat.
      * injection H as <-. destruct (first_preserved p) as [x|] eqn:Ef; [|exfalso; apply Hp; congruence]. split_and!; auto; discriminate.
      * destruct (complete_message_last_offset b off) as [e|] eqn:Ee; [|discriminate]. injection H as <-.
        cbn. split; [intros _; cbn; destruct (first_preserved p); discriminate|]. split; [destruct (first_preserved p); reflexivity|].
        split; [|discriminate]. intros _. eapply complete_stored; eauto.
    + destruct (complete_message_last_offset b off) as [e|] eqn:Ee; [|discriminate]. injection H as <-.
      cbn. split; [intros _; cbn; destruct (first_preserved p); discriminate|]. split; [destruct (first_preserved p); reflexivity|].
      split; [|discriminate]. intros _. eapply complete_stored; eauto.
  - destruct (readable (lslot b off)) eqn:Er; [|discriminate]. injection H as <-. cbn.
    split; [intros _; cbn; destruct (first_preserved p); discriminate|]. split; [destruct (first_preserved p); reflexivity|].
    split; [|discriminate]. intros _. unfold readable in Er. apply andb_true_iff in Er. apply Er.
Qed.

Lemma frame_seq_at b b' o : frame b b' -> seq_at b' o = seq_at b o.
Proof. intros F. unfold seq_at. destruct (frame_fields _ _ F) as (_ & -> & _). reflexivity. Qed.

Lemma range_dropped_first lo n b b1 b' : dropped_at lo b b1 -> range_dropped (S lo) n b1 b' -> (lo + S n <= capacity b)%nat ->
  range_dropped lo (S n) b b' /\ lcontent b' lo = (dropped_slot (lslot b lo), []) /\
  (forall o, (lo < o < capacity b)%nat -> lslot b1 o = lslot b o) /\
  (forall first, first_kept (S lo) n b1 b' first -> first_kept lo (S n) b b' first).
Proof.
  intros [D1 D2 D3 D4 D5] [R1 R2 R3 R4 R5 R6] Hn.
  assert (Hlo : lcontent b' lo = (dropped_slot (lslot b lo), [])) by (rewrite R5, D5, Nat.eqb_refl by lia; reflexivity).
  assert (Hc : forall o, (o < capacity b)%nat -> o <> lo -> lcontent b1 o = lcontent b o).
  { intros o Ho Hne. rewrite D5 by assumption. rewrite (proj2 (Nat.eqb_neq _ _)) by assumption. reflexivity. }
  assert (Hs : forall o, (lo < o < capacity b)%nat -> lslot b1 o = lslot b o) by (intros o Ho; apply lcontent_lslot, Hc; lia).
  split; [split; auto|split; [assumption|split; [assumption|]]].
  - congruence.
  - eapply frame_trans; eassumption.
  - eapply keeps_trans; eassumption.
  - intros o Ho Hne. rewrite R5 by lia. apply Hc; lia.
  - intros o Ho. destruct (decide (o = lo)) as [->|Hne]; [right; exact Hlo|].
    destruct (R6 o ltac:(lia)) as [E|E]; [left; rewrite E; apply Hc; lia|right; rewrite E, Hs by lia; reflexivity].
  - intros [f|]; cbn.
    + intros (F1 & F2 & F3 & F4). split; [lia|]. unfold stored in *. rewrite Hs in F2 by lia. split; [exact F2|].
      split; [rewrite F3; apply Hc; lia|]. intros o Ho. destruct (decide (o = lo)) as [->|Hne]; [exact Hlo|]. rewrite F4, Hs by lia. reflexivity.
    + intros F o Ho. destruct (decide (o = lo)) as [->|Hne]; [exact Hlo|]. rewrite F, Hs by lia. reflexivity.
Qed.

Lemma drop_loop_spec preservation n : forall lo p b m, core b m -> (n = 0 \/ lo + n <= capacity b)%nat -> progress_ok p ->
  let '(p', b') := drop_loop preservation n lo p b in
  range_dropped lo n b b' /\
  (first_preserved p <> None -> first_preserved p' = first_preserved p) /\
  (first_preserved p = None -> exists first, first_kept lo n b b' first /\ first_preserved p' = seq_at b <$> first /\
    (first <> None -> preservation <> DropPreservation.none)).
Proof.
  induction n as [|n IH]; intros lo p b m C Hn Hp.
  - cbn [drop_loop]. split; [|split; [auto|]].
    + split; eauto using frame_refl, keeps_refl; intros; lia.
    + intros E. exists None. split; [cbn; intros; lia|split; [exact E|congruence]].
  - cbn [drop_loop]. pose proof (core_window b m C) as W. rewrite drop_at_kept by (auto; lia). rewrite Nat.add_1_r.
    destruct (kept preservation lo p b) as [p1|] eqn:Ek.
    + destruct (kept_progress preservation lo p b p1 W ltac:(lia) Ek Hp) as (Hp1 & Ef & Hst & Hne). specialize (IH (S lo) p1 b m C ltac:(lia) Hp1).
      destruct (drop_loop _ _ _ _ _) as [p' b']. destruct IH as ([R1 R2 R3 R4 R5 R6] & E & _). specialize (E ltac:(congruence)).
      assert (Hlo : lcontent b' lo = lcontent b lo) by (apply R5; lia).
      split; [split; auto|split].
      * intros o Ho Hne'. apply R5; lia.
      * intros o Ho. destruct (decide (o = lo)) as [->|]; [left; exact Hlo|apply R6; lia].
      * intros Hf. rewrite E, Ef. destruct (first_preserved p); [reflexivity|congruence].
      * intros Hf. exists (Some lo). rewrite E, Ef, Hf. split_and!; auto. split_and!; auto; lia.
    + pose proof (drop_slot_spec b m lo C ltac:(lia)) as D. revert D. generalize (drop_slot (position b lo) b). intros b1 D.
      destruct (dropped_core _ _ _ D) as [m1 C1].
      specialize (IH (S lo) {| newly_dropped := if negb (dropped (lslot b lo)) then u64 (newly_dropped p + 1) else newly_dropped p;
        first_preserved := first_preserved p; preserve_through := preserve_through p |} b1 m1 C1).
      rewrite (dropped_capacity _ _ _ D) in IH. specialize (IH ltac:(lia) Hp). destruct (drop_loop _ _ _ _ _) as [p' b']. cbn [first_preserved] in IH.
      destruct IH as (R & E1 & E2). destruct (range_dropped_first lo n b b1 b' D R ltac:(lia)) as (R' & _ & _ & Hfk).
      split; [exact R'|]. split; [exact E1|]. intros Hf. destruct (E2 Hf) as (first & F1 & F2 & F3).
      exists first. split_and!; auto. rewrite F2. destruct first; [|reflexivity]. cbn. f_equal. apply frame_seq_at, D.
Qed.

(** * The frontier *)

Lemma jumped_refl b : window b -> jumped 0 b b.
Proof. intros W. apply shifted_jumped, shifted_refl, W. Qed.

Lemma seq_at_jumped k b b' off : jumped k b b' -> seq_at b' off = seq_at b (k + off).
Proof.
  intros J. unfold seq_at at 1. rewrite (jumped_first k b b' J). unfold seq_at.
  rewrite !SequenceNumber.advanced_mod, Zplus_mod_idemp_l. f_equal. lia.
Qed.

Lemma jumped_trans b b1 b2 k1 k2 : jumped k1 b b1 -> jumped k2 b1 b2 -> jumped (k1 + k2) b b2.
Proof.
  intros J1 J2. pose proof (jumped_capacity _ _ _ J1) as E1. split.
  - rewrite (jumped_capacity _ _ _ J2). assumption.
  - rewrite (jumped_first _ _ _ J2). apply seq_at_jumped. assumption.
  - intros off Ho. rewrite (jumped_content _ _ _ J2), (jumped_content _ _ _ J1) by lia. f_equal. lia.
  - intros off Ho Hge. destruct (le_lt_dec (capacity b1) (k2 + off)) as [Hge2|Hlt2]; [apply (jumped_blank _ _ _ J2); lia|].
    rewrite (lcontent_lslot b1 b2 (k2 + off) off) by (apply J2; assumption). apply (jumped_blank _ _ _ J1); lia.
  - rewrite (jumped_defer _ _ _ J2). apply J1.
Qed.

Lemma distance_seq b x y : - SequenceNumber.half_range <= Z.of_nat x - Z.of_nat y < SequenceNumber.half_range ->
  SequenceNumber.distance_from (seq_at b x) (seq_at b y) = Z.of_nat x - Z.of_nat y.
Proof.
  intros H. apply SequenceNumber.distance_unique; [assumption|]. unfold seq_at. rewrite !SequenceNumber.advanced_mod.
  rewrite Zminus_mod_idemp_l, Zminus_mod_idemp_r. f_equal. lia.
Qed.

(** A frontier that does not move. *)
Lemma advance_frontier_0 b : window b -> advance_frontier 0 b = b.
Proof.
  intros W. pose proof W as [[Hc Hc'] Hh Hf _]. SequenceNumber.consts. unfold advance_frontier. cbv zeta. rewrite Z.add_0_r, u64_id by (unfold is_u64; lia).
  rewrite Z.mod_small, Nat2Z.id by lia. change (u32 0) with 0. rewrite Z.min_l by (cbn; lia).
  pose proof (seq_at_0 b W) as E0. unfold seq_at in E0. change (Z.of_nat 0) with 0 in E0.
  destruct b; cbn in *. rewrite E0, Z.sub_0_r, Nat2Z.id. reflexivity.
Qed.

Record frontier_moved (j : nat) (b b' : t) : Prop := {
  moved_core : exists m', core b' m';
  moved_jump : jumped j b b';
  moved_vacant : forall off, (off < j)%nat -> (off < capacity b)%nat -> occupied (lslot b off) = false;
  moved_bounds : same_bounds b b';
  moved_count : occupied_count b' = occupied_count b;
  moved_fields : next_ack_sequence b' = next_ack_sequence b /\ discarding_message b' = discarding_message b;
}.

Lemma frontier_moved_refl b m : core b m -> frontier_moved 0 b b.
Proof. intros C. split; eauto; [apply jumped_refl, C|lia|split_and!; reflexivity]. Qed.

(** Blank windows may move on freely. *)
Lemma frontier_moved_blank b m k : core b m -> Z.of_nat k < 2 ^ 31 -> (forall o, (o < capacity b)%nat -> blank (lslot b o)) ->
  frontier_moved k b (advance_frontier (Z.of_nat k) (if negb (Z.of_nat k =? 0) then invalidate_delivery_queries b else b)).
Proof.
  intros C Hk Hb. destruct (Z.eqb_spec (Z.of_nat k) 0) as [E|E]; cbn [negb].
  { replace k with 0%nat by lia. rewrite advance_frontier_0 by apply C. eapply frontier_moved_refl; eassumption. }
  pose proof (core_invalidated b m C) as C0. pose proof (frame_invalidated b) as F0.
  assert (K0 : forall o, lcontent (invalidate_delivery_queries b) o = lcontent b o) by reflexivity.
  assert (Ec : capacity (invalidate_delivery_queries b) = capacity b /\ occupied_count (invalidate_delivery_queries b) = occupied_count b /\
    message_query_valid (invalidate_delivery_queries b) = false /\ packet_query_valid (invalidate_delivery_queries b) = false) by (split_and!; reflexivity).
  revert C0 F0 K0 Ec. generalize (invalidate_delivery_queries b). intros b0 C0 F0 K0 (Ec & En & Q1 & Q2).
  destruct (frame_fields _ _ F0) as (E1 & E2 & E3 & E4 & E5). pose proof (core_window _ _ C0) as W0.
  destruct (frontier_jumped b b0 k W0 Ec Hk E2 E3 E4) as [J W].
  { intros o Ho Ho'. rewrite (lcontent_lslot b b0 o o) by apply K0. apply Hb. assumption. }
  { intros o Ho. apply K0. }
  pose proof (frontier_core b0 m _ C0 W Q1 Q2) as C1. split; eauto.
  - intros off _ Ho. apply (Hb off Ho).
  - destruct (frame_bounds _ _ F0) as (B1 & B2 & B3 & B4). split_and!; assumption.
Qed.

(** The frontier jump of a drop, after the loop ([b1]) and the trim ([b3]). *)
Lemma drop_frontier_spec b b1 b3 m1 m3 range p first k : window b -> core b1 m1 -> core b3 m3 -> capacity b1 = capacity b ->
  SequenceNumber.wf (range_last range) ->
  let e := SequenceNumber.distance_from (range_last range) (first_stored_sequence b) in
  let start := SequenceNumber.distance_from (range_first range) (first_stored_sequence b) in
  let lo := if 0 <? start then Z.to_nat start else 0%nat in
  let final := Nat.min (Z.to_nat e) (capacity b - 1) in
  0 <= e -> e + 1 < SequenceNumber.half_range ->
  first_stored_sequence b1 = first_stored_sequence b -> first_kept lo (final + 1 - lo) b b1 first ->
  first_preserved p = seq_at b <$> first -> (k <= capacity b)%nat -> jumped k b1 b3 -> stopped b3 ->
  (first <> None -> forall off, (off < k)%nat -> dropped (lslot b1 off) = true) ->
  exists j, frontier_moved j b3 (drop_frontier range start p b3).2 /\ (j = 0%nat \/ k = capacity b) /\
    Z.of_nat (k + j) < SequenceNumber.half_range.
Proof.
  intros W C1 C3 Ec Hwf e start lo final He He' Ef Hfk Hp Hk J Hst Hdr. unfold drop_frontier.
  pose proof (win_capacity b W) as [Hc Hc'].
  assert (Elast : range_last range = seq_at b (Z.to_nat e)) by (apply seq_at_distance; assumption).
  assert (Esb : forall o, seq_at b1 o = seq_at b o) by (intros; unfold seq_at; rewrite Ef; reflexivity).
  assert (Efirst : first_stored_sequence b3 = seq_at b k) by (rewrite (jumped_first _ _ _ J); apply Esb).
  assert (Edist : SequenceNumber.distance_from (range_last range) (first_stored_sequence b3) = e - Z.of_nat k).
  { rewrite Efirst, Elast, distance_seq; lia. }
  assert (Hrefl : exists j, frontier_moved j b3 b3 /\ (j = 0%nat \/ k = capacity b) /\ Z.of_nat (k + j) < SequenceNumber.half_range)
    by (exists 0%nat; split; [eapply frontier_moved_refl; eassumption|lia]).
  rewrite Edist. destruct (Z.leb_spec start 0) as [Hs|Hs]; cbn [andb]; [|exact Hrefl].
  destruct (Z.leb_spec 0 (e - Z.of_nat k)) as [Hke|Hke]; [|exact Hrefl].
  assert (Elo : lo = 0%nat) by (unfold lo; rewrite (proj2 (Z.ltb_ge 0 start)) by lia; reflexivity). rewrite Elo in Hfk.
  assert (Enext : SequenceNumber.next (range_last range) = seq_at b (Z.to_nat e + 1)) by (rewrite Elast, next_seq_at; f_equal; lia).
  assert (Hstop : (k < capacity b)%nat -> dropped (lslot b1 k) = false).
  { intros Hlt. rewrite <- (proj1 Hst). f_equal. symmetry. rewrite (lcontent_lslot b1 b3 (k + 0) 0) by (apply J; lia). f_equal. lia. }
  rewrite Enext, Efirst, Hp. destruct first as [f|]; cbn [fmap option_fmap option_map].
  - destruct Hfk as (F1 & F2 & F3 & F4). specialize (Hdr ltac:(discriminate)).
    assert (Hkf : k = f).
    { destruct (Nat.lt_trichotomy k f) as [Hlt|[Heq|Hgt]]; [exfalso|exact Heq|exfalso].
      - specialize (Hstop ltac:(lia)).
        change (lslot b1 k) with (lcontent b1 k).1 in Hstop. rewrite F4 in Hstop by lia. discriminate.
      - specialize (Hdr f Hgt). pose proof (dropped_vacant b1 m1 f C1 Hdr) as Hv. rewrite (lcontent_lslot b b1 f f F3) in Hv.
        unfold stored in F2. congruence. }
    subst f. rewrite !distance_seq by lia. rewrite Z.sub_diag, (proj2 (Z.leb_le 0 0)) by lia. rewrite (proj2 (Z.ltb_lt 0 _)) by lia. cbn [andb].
    rewrite distance_seq by lia. rewrite Z.sub_diag. change (u64 0) with 0. cbn [Z.eqb negb snd].
    rewrite advance_frontier_0 by apply C3. exact Hrefl.
  - assert (Hkc : k = capacity b).
    { destruct (decide (k < capacity b)%nat) as [Hlt|]; [exfalso|lia]. specialize (Hstop Hlt).
      change (lslot b1 k) with (lcontent b1 k).1 in Hstop. rewrite Hfk in Hstop by (unfold final; lia). discriminate. }
    subst k. rewrite distance_seq by lia.
    rewrite (u64_id (Z.of_nat (Z.to_nat e + 1) - Z.of_nat (capacity b))) by (unfold is_u64; SequenceNumber.consts; lia).
    replace (Z.of_nat (Z.to_nat e + 1) - Z.of_nat (capacity b)) with (Z.of_nat (Z.to_nat e + 1 - capacity b)) by lia. cbn [snd].
    exists (Z.to_nat e + 1 - capacity b)%nat. split; [|lia]. apply (frontier_moved_blank b3 m3); [assumption|SequenceNumber.consts; lia|].
    intros o Ho. rewrite (jumped_capacity _ _ _ J), Ec in Ho. apply (jumped_blank _ _ _ J); lia.
Qed.

(** * The whole drop *)

Lemma keeps_ack b a : keeps b (set_next_ack_sequence a b).
Proof.
  split; [cbn; lia|]. intros _. split; intros F.
  - eapply first_bound_ext; [..|exact F]; reflexivity.
  - eapply last_bound_ext; [..|exact F]; reflexivity.
Qed.

Lemma jumped_ack k b b' a a' : jumped k b b' -> jumped k (set_next_ack_sequence a b) (set_next_ack_sequence a' b').
Proof. intros [J1 J2 J3 J4 J5]. split; assumption. Qed.

Lemma frontier_keeps j b b' m : core b m -> frontier_moved j b b' -> keeps b b'.
Proof.
  intros C [[m' C'] J V B N _]. eapply keeps_jumped; eauto. lia.
Qed.

(** The acknowledgement is not behind the window. *)
Lemma catch_up_spec b m : core b m ->
  let b' := if 0 <? SequenceNumber.distance_from (first_stored_sequence b) (next_ack_sequence b)
            then advance_acknowledgement (set_next_ack_sequence (first_stored_sequence b) b) else b in
  exists a, b' = set_next_ack_sequence a b /\ SequenceNumber.wf a /\ SequenceNumber.distance_from (first_stored_sequence b) a <= 0.
Proof.
  intros C. pose proof (core_window b m C) as W. pose proof W as [[Hc Hc'] _ Hf _]. cbv zeta.
  destruct (Z.ltb_spec 0 (SequenceNumber.distance_from (first_stored_sequence b) (next_ack_sequence b))).
  - pose proof (core_set_ack b m _ Hf C) as C1. rewrite (advance_acknowledgement_spec _ (core_window _ _ C1) (core_ack _ _ C1)).
    exists (ack_target (set_next_ack_sequence (first_stored_sequence b) b)). split; [reflexivity|]. split; [apply ack_target_wf, C1|].
    assert (Eu : ack_target (set_next_ack_sequence (first_stored_sequence b) b) =
      seq_at b (unsettled_from (set_next_ack_sequence (first_stored_sequence b) b) 0)).
    { unfold ack_target. change (next_ack_sequence (set_next_ack_sequence (first_stored_sequence b) b)) with (first_stored_sequence b).
      change (first_stored_sequence (set_next_ack_sequence (first_stored_sequence b) b)) with (first_stored_sequence b).
      rewrite SequenceNumber.distance_self. change (capacity (set_next_ack_sequence _ b)) with (capacity b).
      destruct (capacity b) eqn:Ecap; [lia|]. reflexivity. }
    destruct (unsettled_from_spec (set_next_ack_sequence (first_stored_sequence b) b) 0 ltac:(lia)) as ((U1 & U2) & _).
    change (capacity (set_next_ack_sequence (first_stored_sequence b) b)) with (capacity b) in U2.
    rewrite Eu, <- (seq_at_0 b W) at 1. rewrite distance_seq by lia. lia.
  - exists (next_ack_sequence b). split; [destruct b; reflexivity|]. split; [apply C|lia].
Qed.

(** The state before the bounds are refreshed. *)
Definition drop_state (b1 : t) (range : SequenceRange) (start : Z) (p : drop_progress) : t :=
  let b := (drop_frontier range start p (trim_dropped_prefix (advance_acknowledgement b1))).2 in
  if 0 <? SequenceNumber.distance_from (first_stored_sequence b) (next_ack_sequence b)
  then advance_acknowledgement (set_next_ack_sequence (first_stored_sequence b) b) else b.

Record drop_settled (b1 b' : t) : Prop := {
  settled_core : exists m', core b' m';
  settled_keeps : keeps b1 b';
  settled_jump : exists k, jumped k b1 b' /\ Z.of_nat k < SequenceNumber.half_range /\
    (~ has_rejections b1 -> forall off, (off < k)%nat -> (off < capacity b1)%nat -> dropped (lslot b1 off) = true);
  settled_clean : ~ has_rejections b1 -> ~ has_rejections b';
  settled_ack : SequenceNumber.distance_from (first_stored_sequence b') (next_ack_sequence b') <= 0;
}.

Lemma drop_state_spec b b1 m1 range p first : window b -> core b1 m1 -> capacity b1 = capacity b ->
  SequenceNumber.wf (range_last range) ->
  let e := SequenceNumber.distance_from (range_last range) (first_stored_sequence b) in
  let start := SequenceNumber.distance_from (range_first range) (first_stored_sequence b) in
  let lo := if 0 <? start then Z.to_nat start else 0%nat in
  let final := Nat.min (Z.to_nat e) (capacity b - 1) in
  0 <= e -> e + 1 < SequenceNumber.half_range ->
  first_stored_sequence b1 = first_stored_sequence b -> first_kept lo (final + 1 - lo) b b1 first ->
  first_preserved p = seq_at b <$> first -> (first <> None -> ~ has_rejections b1) ->
  drop_settled b1 (drop_state b1 range start p).
Proof.
  intros W C1 Ec Hwf e start lo final He He' Ef Hfk Hp Hnr. unfold drop_state. cbv zeta.
  rewrite (advance_acknowledgement_spec b1 (core_window _ _ C1) (core_ack _ _ C1)).
  pose proof (core_set_ack b1 m1 _ (ack_target_wf b1 (core_ack _ _ C1)) C1) as C2. set (a := ack_target b1) in *. clearbody a.
  destruct (trim_spec _ m1 C2) as (k & m3 & T & Hst). destruct T as [T1 T2 T3 T4 T5 T6 T7 [T8 T9]].
  revert T1 T2 T3 T4 T5 T6 T7 T8 T9 Hst. generalize (trim_dropped_prefix (set_next_ack_sequence a b1)). intros b3 T1 T2 T3 T4 T5 T6 T7 T8 T9 Hst.
  assert (J3 : jumped k b1 b3) by (destruct (shifted_jumped _ _ _ T2) as [J1 J2 J3' J4 J5]; split; assumption).
  assert (K3 : keeps b1 b3).
  { eapply keeps_trans; [apply (keeps_ack b1 a)|]. eapply keeps_jumped; eauto using shifted_jumped. }
  assert (Hk : (k <= capacity b)%nat) by (rewrite <- Ec; exact (shifted_le _ _ _ T2)).
  destruct (drop_frontier_spec b b1 b3 m1 m3 range p first k) as (j & FM & Hj & Hkj); auto.
  { intros Hn off Ho. exact (proj2 (T6 (Hnr Hn)) off Ho). }
  fold start in FM. revert FM. generalize ((drop_frontier range start p b3).2). intros b4 FM.
  pose proof (frontier_keeps j b3 b4 m3 T1 FM) as K4. pose proof FM as [[m4 C4] J4 V4 B4 N4 [A4 D4]].
  destruct (catch_up_spec b4 m4 C4) as (a5 & E5 & Ha5 & Hd5). cbv zeta in E5. rewrite E5. clear E5.
  pose proof (jumped_trans _ _ _ _ _ J3 J4) as J.
  split; eauto using core_set_ack.
  - eapply keeps_trans; [exact K3|]. eapply keeps_trans; [exact K4|]. apply keeps_ack.
  - exists (k + j)%nat. split; [destruct J as [Q1 Q2 Q3 Q4 Q5]; split; assumption|]. split; [exact Hkj|].
    intros Hn off Ho Ho'. apply (proj2 (T6 Hn)). destruct Hj as [-> | ->]; lia.
  - intros Hn. pose proof (proj1 (T6 Hn)) as Hn3.
    exact (jumped_rejections j b3 b4 (core_window _ _ T1) (core_window _ _ C4) J4 D4 Hn3).
Qed.

Lemma range_rejections lo n b b' : window b -> range_dropped lo n b b' -> ~ has_rejections b -> ~ has_rejections b'.
Proof.
  intros W [[m' C'] E F K Hout Hin] Hn. pose proof (core_window _ _ C') as W'. rewrite has_rejections_window in * by assumption.
  destruct Hn as [H1 H2]. destruct (frame_fields _ _ F) as (_ & _ & _ & _ & Ed). split; [|congruence].
  intros o Ho. rewrite E in Ho. destruct (decide (lo <= o < lo + n)%nat) as [Hr|Hr].
  - destruct (Hin o Hr) as [Eq|Eq].
    + rewrite (lcontent_lslot b b' o o Eq). auto.
    + change (lslot b' o) with (lcontent b' o).1. rewrite Eq. cbn. specialize (H1 o Ho). unfold dropped_slot. destruct (occupied (lslot b o)); [reflexivity|exact H1].
  - rewrite (lcontent_lslot b b' o o (Hout o Ho Hr)). auto.
Qed.

(** The result of a drop that reaches the window: [b1] is [b] with its range dropped,
    and the window of [b1] has moved on. *)
Record drop_outcome (lo n : nat) (b b1 b' : t) : Prop := {
  outcome_inv : exists m', inv b' m';
  outcome_range : range_dropped lo n b b1;
  outcome_jump : exists k, jumped k b1 b' /\ Z.of_nat k < SequenceNumber.half_range /\
    (~ has_rejections b -> forall off, (off < k)%nat -> (off < capacity b)%nat -> dropped (lslot b1 off) = true);
  outcome_clean : ~ has_rejections b -> ~ has_rejections b';
  outcome_ack : SequenceNumber.distance_from (first_stored_sequence b') (next_ack_sequence b') <= 0;
}.

Definition no_progress : drop_progress := {| newly_dropped := 0; first_preserved := None; preserve_through := None |}.

Lemma same_state_jumped k b b1 b2 : same_state b1 b2 -> jumped k b b1 -> jumped k b b2.
Proof.
  intros SS [J1 J2 J3 J4 J5]. destruct (same_state_slots _ _ SS) as (E1 & E2 & E3 & E4 & E5 & E6 & E7 & E8 & E9).
  split; unfold lcontent, content, lslot, slot_at, position, capacity in *; rewrite ?E1, ?E2, ?E3, ?E4, ?E7; assumption.
Qed.

Lemma drop_range_impl_state b range preservation :
  let span := SequenceNumber.distance_from (range_last range) (range_first range) in
  let start := SequenceNumber.distance_from (range_first range) (first_stored_sequence b) in
  let e := SequenceNumber.distance_from (range_last range) (first_stored_sequence b) in
  let lo := if 0 <? start then Z.to_nat start else 0%nat in
  let final := Nat.min (Z.to_nat e) (capacity b - 1) in
  let '(p, b1) := drop_loop preservation (final + 1 - lo) lo no_progress b in
  0 <= span -> 0 <= e ->
  exists d, drop_range_impl b range preservation =
    (Error.none, d, let b5 := drop_state b1 range start p in
       if negb (occupied_count b5 =? occupied_count b)%nat then
         if defer_drop_timestamp_refresh b5 then set_drop_timestamp_refresh_pending true b5 else refresh_buffered_timestamp_bounds b5
       else b5).
Proof.
  cbv zeta. destruct (drop_loop _ _ _ _ _) as [p b1] eqn:El. intros Hs He. unfold drop_range_impl. cbv zeta.
  rewrite (proj2 (Z.ltb_ge _ _)), (proj2 (Z.ltb_ge _ _)) by assumption. unfold no_progress in El. rewrite El. unfold drop_state. cbv zeta.
  destruct (drop_frontier _ _ _ _) as [d b4]. cbn [snd]. exists d. reflexivity.
Qed.

Lemma drop_range_impl_spec b m range preservation : inv b m -> SequenceNumber.wf (range_last range) ->
  preservation = DropPreservation.none \/ ~ has_rejections b ->
  let span := SequenceNumber.distance_from (range_last range) (range_first range) in
  let start := SequenceNumber.distance_from (range_first range) (first_stored_sequence b) in
  let e := SequenceNumber.distance_from (range_last range) (first_stored_sequence b) in
  let lo := if 0 <? start then Z.to_nat start else 0%nat in
  let final := Nat.min (Z.to_nat e) (capacity b - 1) in
  e + 1 < SequenceNumber.half_range ->
  let '(err, d, b') := drop_range_impl b range preservation in
  (span < 0 -> err = Error.invalid_control_payload /\ b' = b) /\
  (0 <= span -> e < 0 -> err = Error.none /\ d = 0 /\ b' = b) /\
  (0 <= span -> 0 <= e -> err = Error.none /\
    drop_outcome lo (final + 1 - lo) b (drop_loop preservation (final + 1 - lo) lo no_progress b).2 b').
Proof.
  intros I Hwf Hpres span start e lo final He'.
  destruct (Z.lt_ge_cases span 0) as [Hs|Hs].
  { unfold drop_range_impl. fold span. rewrite (proj2 (Z.ltb_lt span 0) Hs). split; [auto|]. split; lia. }
  destruct (Z.lt_ge_cases e 0) as [He|He].
  { unfold drop_range_impl. fold span e. rewrite (proj2 (Z.ltb_ge span 0)), (proj2 (Z.ltb_lt e 0) He) by lia. split; [lia|]. split; [auto|lia]. }
  pose proof (drop_range_impl_state b range preservation) as Hst. cbv zeta in Hst. fold start e lo final in Hst.
  pose proof (inv_core b m I) as C. pose proof (core_window b m C) as W. pose proof (win_capacity b W) as [Hc _].
  assert (Hle : (final + 1 - lo = 0 \/ lo + (final + 1 - lo) <= capacity b)%nat) by (unfold final; lia).
  pose proof (drop_loop_spec preservation (final + 1 - lo) lo no_progress b m C Hle) as Hl.
  destruct (drop_loop _ _ _ _ _) as [p b1]. cbn [snd]. destruct (Hst Hs He) as [d ->]. clear Hst.
  destruct Hl as (R & _ & Hf); [intros E; exfalso; apply E; reflexivity|]. destruct (Hf eq_refl) as (first & F1 & F2 & F3).
  split; [lia|]. split; [lia|]. intros _ _. split; [reflexivity|].
  pose proof R as [[m1 C1] Ec F K _ _]. destruct (frame_fields _ _ F) as (_ & Ef & _ & Ed & _).
  assert (Hclean : ~ has_rejections b -> ~ has_rejections b1) by (apply (range_rejections lo (final + 1 - lo)); assumption).
  pose proof (drop_state_spec b b1 m1 range p first W C1 Ec Hwf He He' Ef F1 F2) as D. fold start in D.
  assert (Hnr : first <> None -> ~ has_rejections b1) by (intros Hn; apply Hclean; destruct Hpres as [->|]; [exfalso; exact (F3 Hn eq_refl)|assumption]).
  specialize (D Hnr). cbv zeta. revert D. generalize (drop_state b1 range start p). intros b5 [[m5 C5] K5 (k & J5 & Hk5 & Hd5) N5 A5].
  assert (Edef : defer_drop_timestamp_refresh b5 = false) by (rewrite (jumped_defer _ _ _ J5), Ed; apply I). rewrite Edef.
  pose proof (keeps_trans _ _ _ K K5) as [Hcnt Hkeep].
  assert (Hj : forall off, ~ has_rejections b -> (off < k)%nat -> (off < capacity b)%nat -> dropped (lslot b1 off) = true)
    by (intros off Hn Ho Ho'; apply Hd5; auto; lia).
  destruct (Nat.eqb_spec (occupied_count b5) (occupied_count b)) as [E|E]; cbn [negb].
  - destruct (Hkeep E) as [H1 H2]. split; eauto 6. exists m5. split; auto; [apply H1, I|apply H2, I].
  - destruct (refresh_bounds_spec b5 m5 C5) as (SS & FB & LB). destruct (same_state_slots _ _ SS) as (S1 & S2 & S3 & S4 & S5 & S6 & S7 & S8 & S9).
    split.
    + exists m5. split; auto; [eapply same_state_core; eassumption|congruence].
    + exact R.
    + exists k. split; [eapply same_state_jumped; eassumption|]. split; [exact Hk5|]. intros Hn off. apply Hj. assumption.
    + intros Hn. specialize (N5 (Hclean Hn)). unfold has_rejections in *. rewrite S1, S8. assumption.
    + rewrite S3, S5. exact A5.
Qed.
