(* ===== verification/ReceiveBufferPeerDrops.v ===== *)
(** Drops requested by the peer: complete messages survive a message-mode request,
    received packets survive a stream-mode request, everything else goes. *)
From stdpp Require Import gmap.
From S2P Require Import Prelude Sequence Packet Codec Control LossList ReceiveWindow.
From S2P Require Import PayloadPool OccupiedIndex RejectedMessages ReceiveBuffer ReceiveBufferFacts.
From S2P Require Import ReceiveBufferQueries ReceiveBufferSteps ReceiveBufferOps ReceiveBufferReads ReceiveBufferStream.
From S2P Require Import ReceiveBufferDrops ReceiveBufferRanges.
Import ReceiveBuffer.

(** * Complete messages *)

(** The offsets from [f] to [l] store one complete message. *)
Record whole_stored (b : t) (f l : nat) (m : Z) : Prop := {
  ws_range : (f <= l < capacity b)%nat;
  ws_slot : forall o, (f <= o <= l)%nat -> stored b o = true /\ msg (lslot b o) = m /\
    boundary (header (lslot b o)) =
      (if (f =? l)%nat then MessageBoundary.solo else if (o =? f)%nat then MessageBoundary.first
       else if (o =? l)%nat then MessageBoundary.last else MessageBoundary.subsequent);
}.

Definition in_message (b : t) (o : nat) : Prop := exists f l m, whole_stored b f l m /\ (f <= o <= l)%nat.

(** No packet has been read in part. *)
Definition unread_window (b : t) : Prop := forall o, (o < capacity b)%nat -> payload_offset (lslot b o) = 0%nat.

Section complete.
Context (b : t).
Hypothesis W : window b.
Hypothesis U : unread_window b.

Lemma message_start_whole f l m o : whole_stored b f l m -> (f < l)%nat -> (f <= o <= l)%nat ->
  forall q, (f <= q <= o)%nat -> message_start b m o q = Some f.
Proof.
  intros [R S] Hfl Ho. assert (Hne : (f =? l)%nat = false) by (apply Nat.eqb_neq; lia).
  induction q as [|q IH]; intros Hq; cbn [message_start]; [f_equal; lia|].
  rewrite stored_at_spec by (auto; lia). destruct (S (Datatypes.S q) ltac:(lia)) as (S1 & S2 & S3). rewrite S1.
  unfold msg in S2. rewrite S2, Z.eqb_refl. cbn [negb]. destruct (boundary_tests (lslot b (Datatypes.S q))) as (T1 & T2 & T3 & T4).
  rewrite T2, T3, T4, S3, Hne. destruct (Nat.eqb_spec (Datatypes.S q) f) as [Ef|Ef].
  - rewrite bool_decide_eq_true_2 by reflexivity. f_equal. exact Ef.
  - destruct (Nat.eqb_spec (Datatypes.S q) l) as [El|El].
    + assert (Eo : (Datatypes.S q =? o)%nat = true) by (apply Nat.eqb_eq; lia). rewrite Eo. cbn. apply IH. lia.
    + rewrite (bool_decide_eq_false_2 (MessageBoundary.subsequent = MessageBoundary.first)) by discriminate.
      rewrite (bool_decide_eq_true_2 (MessageBoundary.subsequent = MessageBoundary.subsequent)) by reflexivity. cbn [negb].
      rewrite !andb_false_r. cbn [andb]. apply IH. lia.
Qed.

Lemma message_end_whole f l m : whole_stored b f l m -> (f < l)%nat -> forall fuel i, (f < i <= l)%nat -> (l < i + fuel)%nat ->
  message_end fuel b m i = Some l.
Proof.
  intros [R S] Hfl. assert (Hne : (f =? l)%nat = false) by (apply Nat.eqb_neq; lia).
  induction fuel as [|fuel IH]; intros i Hi Hf; [lia|]. cbn [message_end]. rewrite stored_at_spec by (auto; lia).
  destruct (S i ltac:(lia)) as (S1 & S2 & S3). rewrite S1, (U i) by lia. unfold msg in S2. rewrite S2, Z.eqb_refl. cbn [negb orb Nat.eqb].
  destruct (boundary_tests (lslot b i)) as (T1 & T2 & T3 & T4). rewrite T3, T4, S3, Hne, (proj2 (Nat.eqb_neq i f)) by lia.
  destruct (Nat.eqb_spec i l) as [->|Hil]; [reflexivity|]. rewrite bool_decide_eq_false_2 by discriminate.
  rewrite bool_decide_eq_true_2 by reflexivity. cbn [negb]. rewrite Nat.add_1_r. apply IH; lia.
Qed.

Lemma complete_whole f l m o : whole_stored b f l m -> (f <= o <= l)%nat -> complete_message_last_offset b o = Some l.
Proof.
  intros Hw Ho. pose proof Hw as [R S]. destruct (S o Ho) as (S1 & S2 & S3). unfold complete_message_last_offset.
  rewrite stored_at_spec by (auto; lia). rewrite S1, (U o) by lia. cbn [Nat.eqb negb]. destruct (boundary_tests (lslot b o)) as (T1 & _).
  rewrite T1, S3. destruct (Nat.eqb_spec f l) as [->|Hfl]; [rewrite bool_decide_eq_true_2 by reflexivity; f_equal; lia|].
  rewrite bool_decide_eq_false_2 by (destruct (o =? f)%nat, (o =? l)%nat; discriminate). unfold msg in S2. rewrite S2.
  rewrite (message_start_whole f l m o Hw ltac:(lia) Ho o) by lia. rewrite stored_at_spec by (auto; lia).
  destruct (S f ltac:(lia)) as (F1 & F2 & F3). rewrite F1. destruct (boundary_tests (lslot b f)) as (_ & T2 & _). rewrite T2, F3.
  rewrite (proj2 (Nat.eqb_neq f l)), Nat.eqb_refl, bool_decide_eq_true_2 by (auto; lia). unfold msg in F2. rewrite F2, Z.eqb_refl. cbn [negb orb].
  apply (message_end_whole f l m Hw); lia.
Qed.

(** The converse: what the walks accept is a complete message. *)
Lemma message_start_sound m o : (o < capacity b)%nat -> forall q f, (q <= o)%nat -> message_start b m o q = Some f ->
  (f <= q)%nat /\ (f = 0%nat \/ boundary (header (lslot b f)) = MessageBoundary.first) /\
  forall i, (f < i <= q)%nat -> stored b i = true /\ msg (lslot b i) = m /\
    (boundary (header (lslot b i)) = MessageBoundary.subsequent \/ i = o /\ boundary (header (lslot b i)) = MessageBoundary.last).
Proof.
  intros Ho. induction q as [|q IH]; intros f Hq H; cbn [message_start] in H.
  { injection H as <-. split; [lia|]. split; [auto|]. lia. }
  rewrite stored_at_spec in H by (auto; lia). destruct (stored b (S q)) eqn:S1; [|discriminate].
  destruct (Z.eqb_spec (message_number (header (lslot b (S q)))) m) as [Em|]; cbn [negb] in H; [|discriminate].
  destruct (boundary_tests (lslot b (S q))) as (_ & T2 & T3 & T4). rewrite T2, T3, T4 in H.
  destruct (bool_decide (boundary (header (lslot b (S q))) = MessageBoundary.first)) eqn:Ef.
  { injection H as <-. apply bool_decide_eq_true_1 in Ef. split; [lia|]. split; [auto|lia]. }
  destruct (Nat.eqb_spec (S q) o) as [Eo|Eo]; cbn [negb andb] in H.
  - destruct (bool_decide (boundary _ = MessageBoundary.subsequent)) eqn:Es; cbn [negb andb] in H.
    + destruct (IH f ltac:(lia) H) as (I1 & I2 & I3). split; [lia|]. split; [assumption|]. intros i Hi.
      destruct (decide (i = S q)) as [->|]; [|apply I3; lia]. apply bool_decide_eq_true_1 in Es. auto.
    + destruct (bool_decide (boundary _ = MessageBoundary.last)) eqn:El; [|discriminate]. apply bool_decide_eq_true_1 in El.
      destruct (IH f ltac:(lia) H) as (I1 & I2 & I3). split; [lia|]. split; [assumption|]. intros i Hi.
      destruct (decide (i = S q)) as [->|]; [|apply I3; lia]. auto.
  - destruct (bool_decide (boundary _ = MessageBoundary.subsequent)) eqn:Es; cbn [negb andb] in H; [|discriminate].
    destruct (IH f ltac:(lia) H) as (I1 & I2 & I3). split; [lia|]. split; [assumption|]. intros i Hi.
    destruct (decide (i = S q)) as [->|]; [|apply I3; lia]. apply bool_decide_eq_true_1 in Es. auto.
Qed.

Lemma message_end_sound m : forall fuel i l, (i + fuel <= capacity b)%nat -> message_end fuel b m i = Some l ->
  (i <= l < capacity b)%nat /\ forall o, (i <= o <= l)%nat -> stored b o = true /\ msg (lslot b o) = m /\
    boundary (header (lslot b o)) = (if (o =? l)%nat then MessageBoundary.last else MessageBoundary.subsequent).
Proof.
  induction fuel as [|fuel IH]; intros i l Hi H; cbn [message_end] in H; [discriminate|].
  rewrite stored_at_spec in H by (auto; lia). destruct (stored b i) eqn:S1; [|discriminate].
  destruct (_ || _) eqn:Eg in H; [discriminate|]. apply orb_false_iff in Eg as [_ Em]. apply negb_false_iff, Z.eqb_eq in Em.
  destruct (boundary_tests (lslot b i)) as (_ & _ & T3 & T4). rewrite T3, T4 in H.
  destruct (bool_decide (boundary _ = MessageBoundary.last)) eqn:El.
  - injection H as <-. apply bool_decide_eq_true_1 in El. split; [lia|]. intros o Ho. replace o with i by lia. rewrite Nat.eqb_refl. auto.
  - destruct (bool_decide (boundary _ = MessageBoundary.subsequent)) eqn:Es; cbn [negb] in H; [|discriminate]. apply bool_decide_eq_true_1 in Es.
    rewrite Nat.add_1_r in H. destruct (IH (S i) l ltac:(lia) H) as [I1 I2]. split; [lia|]. intros o Ho.
    destruct (decide (o = i)) as [->|]; [|apply I2; lia]. rewrite (proj2 (Nat.eqb_neq i l)) by lia. auto.
Qed.

Lemma complete_sound o l : (o < capacity b)%nat -> complete_message_last_offset b o = Some l ->
  exists f m, whole_stored b f l m /\ (f <= o <= l)%nat.
Proof.
  intros Ho H. unfold complete_message_last_offset in H. rewrite stored_at_spec in H by assumption.
  destruct (stored b o) eqn:S1; [|discriminate]. rewrite (U o Ho) in H. cbn [Nat.eqb negb] in H.
  destruct (boundary_tests (lslot b o)) as (T1 & _). rewrite T1 in H.
  destruct (bool_decide (boundary (header (lslot b o)) = MessageBoundary.solo)) eqn:Es.
  { injection H as <-. apply bool_decide_eq_true_1 in Es. exists o, (msg (lslot b o)). split; [|lia].
    split; [lia|]. intros i Hi. replace i with o by lia. rewrite Nat.eqb_refl. auto. }
  destruct (message_start b _ o o) as [f|] eqn:Ef; [|discriminate].
  destruct (message_start_sound _ o Ho o f ltac:(lia) Ef) as (F1 & _ & F3).
  rewrite stored_at_spec in H by (auto; lia). destruct (stored b f) eqn:Sf; [|discriminate].
  destruct (boundary_tests (lslot b f)) as (_ & T2 & _). rewrite T2 in H. destruct (_ || _) eqn:Eg in H; [discriminate|].
  apply orb_false_iff in Eg as [Eb Em]. apply negb_false_iff, bool_decide_eq_true_1 in Eb. apply negb_false_iff, Z.eqb_eq in Em.
  rewrite Nat.add_1_r in H. destruct (message_end_sound (message_number (header (lslot b o))) (capacity b - S f) (S f) l ltac:(lia) H) as [M1 M2].
  exists f, (message_number (header (lslot b o))). split.
  - split; [lia|]. intros i Hi. rewrite (proj2 (Nat.eqb_neq f l)) by lia. destruct (Nat.eqb_spec i f) as [->|]; [auto|]. apply M2. lia.
  - split; [lia|]. destruct (le_lt_dec o l) as [|Hlt]; [assumption|exfalso]. destruct (M2 l ltac:(lia)) as (_ & _ & B).
    rewrite Nat.eqb_refl in B. destruct (F3 l ltac:(lia)) as (_ & _ & [B'|[E _]]); [congruence|lia].
Qed.
End complete.

(** Content that agrees on a message makes it a message of the other state. *)
Lemma whole_stored_ext b b' f l m : capacity b' = capacity b -> (forall o, (f <= o <= l)%nat -> lcontent b' o = lcontent b o) ->
  whole_stored b f l m -> whole_stored b' f l m.
Proof.
  intros Ec H [R S]. split; [lia|]. intros o Ho. unfold stored. rewrite (lcontent_lslot b b' o o (H o Ho)). apply S. assumption.
Qed.

Lemma in_message_dropped b b1 lo o : dropped_at lo b b1 -> ~ in_message b lo -> in_message b1 o <-> in_message b o.
Proof.
  intros [_ Ec _ _ K] Hno.
  assert (Hc : forall i, (i < capacity b)%nat -> i <> lo -> lcontent b1 i = lcontent b i).
  { intros i Hi Hne. rewrite K by assumption. rewrite (proj2 (Nat.eqb_neq _ _)) by assumption. reflexivity. }
  split; intros (f & l & m & Hw & Ho); exists f, l, m; (split; [|exact Ho]); pose proof Hw as [R S].
  - apply (whole_stored_ext b1); [congruence| |exact Hw]. intros i Hi. rewrite Ec in R. destruct (decide (i = lo)) as [->|]; [exfalso|symmetry; apply Hc; lia].
    destruct (S lo Hi) as (S1 & _). unfold stored in S1. change (lslot b1 lo) with (lcontent b1 lo).1 in S1. rewrite K, Nat.eqb_refl in S1 by lia.
    unfold dropped_slot in S1. cbn in S1. destruct (occupied (lslot b lo)) eqn:E; [discriminate|congruence].
  - apply (whole_stored_ext b); [exact Ec| |exact Hw]. intros i Hi. apply Hc; [lia|]. intros ->. apply Hno. exists f, l, m. auto.
Qed.

Lemma unread_dropped b b1 m lo : core b m -> (lo < capacity b)%nat -> dropped_at lo b b1 -> unread_window b -> unread_window b1.
Proof.
  intros C Hlo [_ Ec _ _ K] U o Ho. rewrite Ec in Ho. change (lslot b1 o) with (lcontent b1 o).1. rewrite K by assumption.
  destruct (Nat.eqb_spec o lo) as [->|]; [|apply U; assumption]. cbn. unfold dropped_slot. specialize (U lo Hlo).
  destruct (occupied (lslot b lo)); [reflexivity|exact U].
Qed.

(** The message-mode loop keeps the slots of complete messages and drops the others. *)
Lemma drop_loop_complete n : forall lo p b m, core b m -> (n = 0 \/ lo + n <= capacity b)%nat -> progress_ok p -> unread_window b ->
  (forall l, preserve_through p = Some l -> forall q, (lo <= q <= l)%nat -> in_message b q) ->
  let '(_, b') := drop_loop DropPreservation.complete_messages n lo p b in
  forall o, (lo <= o < lo + n)%nat ->
    (in_message b o -> lcontent b' o = lcontent b o) /\ (~ in_message b o -> lcontent b' o = (dropped_slot (lslot b o), [])).
Proof.
  induction n as [|n IH]; intros lo p b m C Hn Hp U Ht; cbn [drop_loop]; [intros o Ho; lia|].
  pose proof (core_window b m C) as W. rewrite drop_at_kept by (auto; lia). rewrite Nat.add_1_r.
  destruct (kept _ lo p b) as [p1|] eqn:Ek.
  - destruct (kept_progress _ lo p b p1 W ltac:(lia) Ek Hp) as (Hp1 & _).
    assert (Hin : in_message b lo /\ forall l, preserve_through p1 = Some l -> forall q, (lo <= q <= l)%nat -> in_message b q).
    { unfold kept in Ek. destruct (match preserve_through p with Some last => (lo <=? last)%nat | None => false end) eqn:Et.
      - injection Ek as <-. destruct (preserve_through p) as [l|]; [|discriminate]. apply Nat.leb_le in Et.
        split; [apply (Ht l); auto; lia|exact Ht].
      - destruct (complete_message_last_offset b lo) as [l|] eqn:Ec; [|discriminate]. injection Ek as <-.
        destruct (complete_sound b W U lo l ltac:(lia) Ec) as (f & mn & Hw & Hf).
        split; [exists f, l, mn; auto|]. cbn. intros l' [= <-] q Hq. exists f, l, mn. split; [exact Hw|lia]. }
    destruct Hin as [Hlo Ht1]. pose proof (IH (S lo) p1 b m C ltac:(lia) Hp1 U) as IH'.
    pose proof (drop_loop_spec DropPreservation.complete_messages n (S lo) p1 b m C ltac:(lia) Hp1) as R.
    destruct (drop_loop _ _ _ _ _) as [p' b']. specialize (IH' ltac:(intros l Hl q Hq; apply (Ht1 l Hl); lia)).
    intros o Ho. destruct (decide (o = lo)) as [->|]; [|apply IH'; lia]. split; [intros _|contradiction].
    apply (range_outside _ _ _ _ (proj1 R)); lia.
  - assert (Hno : ~ in_message b lo).
    { intros (f & l & mn & Hw & Hf). unfold kept in Ek. rewrite (complete_whole b W U f l mn lo Hw Hf) in Ek.
      destruct (match preserve_through p with Some _ => _ | None => _ end); discriminate. }
    assert (Hthrough : preserve_through p = None \/ exists l, preserve_through p = Some l /\ (l < lo)%nat).
    { unfold kept in Ek. destruct (preserve_through p) as [l|]; [right|left; reflexivity]. exists l. split; [reflexivity|].
      destruct (Nat.leb_spec lo l); [discriminate|assumption]. }
    pose proof (drop_slot_spec b m lo C ltac:(lia)) as D. revert D. generalize (drop_slot (position b lo) b). intros b1 D.
    destruct (dropped_core _ _ _ D) as [m1 C1]. pose proof (dropped_capacity _ _ _ D) as Ec.
    set (p1 := {| newly_dropped := _; first_preserved := first_preserved p; preserve_through := preserve_through p |}).
    pose proof (unread_dropped b b1 m lo C ltac:(lia) D U) as U1.
    pose proof (IH (S lo) p1 b1 m1 C1 ltac:(lia) Hp U1) as IH'.
    pose proof (drop_loop_spec DropPreservation.complete_messages n (S lo) p1 b1 m1 C1 ltac:(lia) Hp) as R.
    destruct (drop_loop _ _ _ _ _) as [p' b']. destruct R as (R & _ & _).
    destruct (range_dropped_first lo n b b1 b' D R ltac:(lia)) as (_ & Hlo & Hs & _).
    specialize (IH' ltac:(cbn; intros l Hl q Hq; destruct Hthrough as [E|(l' & E & Hlt)]; [congruence|]; replace l with l' in Hq by congruence; lia)).
    intros o Ho. destruct (decide (o = lo)) as [->|Hne]; [split; [contradiction|intros _; exact Hlo]|].
    destruct (IH' o ltac:(lia)) as [I1 I2]. rewrite (in_message_dropped b b1 lo o D Hno), Hs in * by lia.
    split; [|exact I2]. intros Hin. rewrite I1 by assumption. rewrite (dropped_content _ _ _ D) by lia.
    rewrite (proj2 (Nat.eqb_neq o lo)) by assumption. reflexivity.
Qed.

(** The stream-mode loop keeps the readable packets and drops the others. *)
Lemma drop_loop_received n : forall lo p b m, core b m -> (n = 0 \/ lo + n <= capacity b)%nat -> progress_ok p ->
  let '(_, b') := drop_loop DropPreservation.received_packets n lo p b in
  forall o, (lo <= o < lo + n)%nat ->
    lcontent b' o = if readable (lslot b o) then lcontent b o else (dropped_slot (lslot b o), []).
Proof.
  induction n as [|n IH]; intros lo p b m C Hn Hp; cbn [drop_loop]; [intros o Ho; lia|].
  pose proof (core_window b m C) as W. rewrite drop_at_kept by (auto; lia). rewrite Nat.add_1_r. cbn [kept].
  destruct (readable (lslot b lo)) eqn:Hr.
  - set (p1 := preserve_here p (seq_at b lo) (preserve_through p)).
    assert (Hp1 : progress_ok p1) by (intros _; cbn; destruct (first_preserved p); discriminate).
    pose proof (IH (S lo) p1 b m C ltac:(lia) Hp1) as IH'.
    pose proof (drop_loop_spec DropPreservation.received_packets n (S lo) p1 b m C ltac:(lia) Hp1) as R.
    destruct (drop_loop _ _ _ _ _) as [p' b']. intros o Ho. destruct (decide (o = lo)) as [->|]; [|apply IH'; lia].
    rewrite Hr. apply (range_outside _ _ _ _ (proj1 R)); lia.
  - pose proof (drop_slot_spec b m lo C ltac:(lia)) as D. revert D. generalize (drop_slot (position b lo) b). intros b1 D.
    destruct (dropped_core _ _ _ D) as [m1 C1]. pose proof (dropped_capacity _ _ _ D) as Ec.
    set (p1 := {| newly_dropped := _; first_preserved := first_preserved p; preserve_through := preserve_through p |}).
    pose proof (IH (S lo) p1 b1 m1 C1 ltac:(lia) Hp) as IH'.
    pose proof (drop_loop_spec DropPreservation.received_packets n (S lo) p1 b1 m1 C1 ltac:(lia) Hp) as R.
    destruct (drop_loop _ _ _ _ _) as [p' b']. destruct R as (R & _ & _).
    destruct (range_dropped_first lo n b b1 b' D R ltac:(lia)) as (_ & Hlo & Hs & _).
    intros o Ho. destruct (decide (o = lo)) as [->|Hne]; [rewrite Hr; exact Hlo|].
    rewrite (IH' o) by lia. rewrite Hs by lia. rewrite (dropped_content _ _ _ D) by lia.
    rewrite (proj2 (Nat.eqb_neq o lo)) by assumption. reflexivity.
Qed.
