(* ===== verification/ReceiveBufferTheorems.v ===== *)
(** Theorems on the receive buffer as a whole: its invariant under every operation,
    stream reads, peer drops, and two defects. *)
From stdpp Require Import gmap.
From S2P Require Import Prelude Sequence Packet Codec Control LossList ReceiveWindow.
From S2P Require Import PayloadPool OccupiedIndex RejectedMessages ReceiveBuffer ReceiveBufferFacts.
From S2P Require Import ReceiveBufferQueries ReceiveBufferSteps ReceiveBufferOps ReceiveBufferReads ReceiveBufferStream.
From S2P Require Import ReceiveBufferDrops ReceiveBufferRanges ReceiveBufferPeerDrops.
Import ReceiveBuffer.

(** * Reachable states *)

(** A packet whose header fields have their types' ranges. *)
Definition packet_typed (packet : PacketView) : Prop :=
  SequenceNumber.wf (sequence (data packet)) /\ is_u32 (message_number (data packet)).

(** The drops after which the books are right: those that preserve nothing, and those
    made while no payload is rejected; the range ends less than half the sequence
    space ahead, not exactly there.  A preserving drop while a payload is rejected
    can leave the window, as [peer_drop_loses_complete_message] below shows. *)
Definition drop_safe (b : t) (range : SequenceRange) (preservation : DropPreservation.t) : Prop :=
  SequenceNumber.wf (range_last range) /\
  SequenceNumber.distance_from (range_last range) (first_stored_sequence b) + 1 < SequenceNumber.half_range /\
  (preservation = DropPreservation.none \/ ~ has_rejections b).

Inductive operation : t -> t -> Prop :=
| op_insert b packet : packet_typed packet -> operation b (insert b packet).2
| op_first_complete_message b : operation b (first_complete_message b).2
| op_first_buffered_packet b : operation b (first_buffered_packet b).2
| op_has_complete_message b : operation b (has_complete_message b).2
| op_pop_message b destination : operation b (pop_message b destination).2
| op_pop_message_unordered b destination : operation b (pop_message_unordered b destination).2
| op_pop_stream (C : Type) b destination due (context : C) : operation b (pop_stream b destination due context).2
| op_mark_gap b range deadline : SequenceNumber.wf (range_first range) -> SequenceNumber.wf (range_last range) ->
    0 <= deadline -> operation b (mark_gap b range deadline)
| op_discard_message_payload b s : SequenceNumber.wf s -> operation b (discard_message_payload b s)
| op_discard_before b s : SequenceNumber.wf s -> operation b (discard_before b s).2
| op_acknowledge_peer_drop_range b range : operation b (acknowledge_peer_drop_range b range).2
| op_drop b range preservation : drop_safe b range preservation -> operation b (drop_range_impl b range preservation).2.

Inductive reachable : t -> Prop :=
| reach_make s capacity arena b : SequenceNumber.wf s -> length arena = (capacity * PayloadPool.width)%nat ->
    make s capacity arena = Some b -> reachable b
| reach_operation b b' : reachable b -> operation b b' -> reachable b'.

Lemma insert_inv b m packet : inv b m -> packet_typed packet -> exists m', inv (insert b packet).2 m'.
Proof.
  intros I [H1 H2]. destruct (decide (kind packet = PacketKind.data /\ (length (payload packet) <= maximum_data_payload_size)%nat)) as [[Hk Hl]|Hno].
  2:{ rewrite insert_rejected_packet; [eauto|]. destruct (decide (kind packet = PacketKind.data)); [right|left; assumption].
      destruct (le_lt_dec (length (payload packet)) maximum_data_payload_size); [exfalso; tauto|assumption]. }
  assert (Hp : packet_ok packet) by (split_and!; assumption).
  destruct (decide (0 <= SequenceNumber.distance_from (sequence (data packet)) (first_stored_sequence b) /\
    (Z.to_nat (SequenceNumber.distance_from (sequence (data packet)) (first_stored_sequence b)) < capacity b)%nat /\
    settled (lslot b (Z.to_nat (SequenceNumber.distance_from (sequence (data packet)) (first_stored_sequence b)))) = false)) as [(A1 & A2 & A3)|Hno].
  - destruct (insert_accepted b m packet I Hk Hp A1 A2 A3) as [[A _ _] _]. exact A.
  - rewrite insert_guards by assumption. cbv zeta. destruct (Z.ltb_spec (SequenceNumber.distance_from (sequence (data packet)) (first_stored_sequence b)) 0); [eauto|].
    destruct (Nat.leb_spec (capacity b) (Z.to_nat (SequenceNumber.distance_from (sequence (data packet)) (first_stored_sequence b)))); [eauto|].
    destruct (settled _) eqn:E; [eauto|]. exfalso. apply Hno. auto.
Qed.

Lemma operation_inv b b' m : operation b b' -> inv b m -> exists m', inv b' m'.
Proof.
  intros Hop. destruct Hop; intros I.
  - eapply insert_inv; eassumption.
  - rewrite (first_complete_message_state b m (inv_core b m I)). exists m. apply cached_message_inv, I.
  - rewrite (first_buffered_packet_state b m (inv_core b m I)). exists m. apply cached_packet_inv, I.
  - unfold has_complete_message. destruct (find b _); [|eauto]. destruct (_ && _); [eauto|].
    rewrite (first_complete_message_state b m (inv_core b m I)). exists m. apply cached_message_inv, I.
  - eapply pop_message_inv; eassumption.
  - eapply pop_unordered_inv; eassumption.
  - pose proof (pop_stream_spec b m destination due context I) as H. destruct (pop_stream _ _ _ _) as [[[r d] c] b']. apply H.
  - exists m. eapply gaps_inv; [apply (mark_gap_spec b m range deadline)|]; assumption.
  - eapply discard_message_payload_inv; eassumption.
  - pose proof (discard_before_spec b m s I H) as D. cbv zeta in D. destruct (discard_before b s) as [e b']. destruct D as (_ & D1 & D2). cbn [snd].
    destruct (Z.lt_ge_cases 0 (SequenceNumber.distance_from s (first_stored_sequence b))) as [Hd|Hd]; [apply D2, Hd|rewrite D1 by lia; eauto].
  - exists m. apply peer_acknowledge_inv, I.
  - destruct H as (H1 & H2 & H3). pose proof (drop_range_impl_spec b m range preservation I H1 H3 H2) as D.
    destruct (drop_range_impl _ _ _) as [[err d] b']. destruct D as (D1 & D2 & D3). cbn [snd].
    destruct (Z.lt_ge_cases (SequenceNumber.distance_from (range_last range) (range_first range)) 0) as [Hs|Hs]; [destruct (D1 Hs) as [_ ->]; eauto|].
    destruct (Z.lt_ge_cases (SequenceNumber.distance_from (range_last range) (first_stored_sequence b)) 0) as [He|He]; [destruct (D2 Hs He) as (_ & _ & ->); eauto|].
    apply (D3 Hs He).
Qed.

Lemma receive_reachable_inv b : reachable b -> exists m, inv b m.
Proof.
  induction 1 as [s capacity arena b Hs Ha Hm|b b' _ [m I] Hop].
  - exists ∅. exact (proj1 (receive_make_inv s capacity arena b Hs Ha Hm)).
  - eapply operation_inv; eassumption.
Qed.

(** ** The property *)

(** C6: The receive buffer's books are right after every sequence of its operations on a
    fresh buffer in which peer-requested drops (the ones that preserve messages or
    packets) are made only while no payload is rejected, and no dropped range ends
    exactly half the sequence space ahead; all other operations are unrestricted.
    In each such state a packet stored at an offset of the window has that
    offset's sequence number and is what a lookup by that number finds; the packet and byte
    counters equal what a scan of the slots would count; both bit indexes
    list exactly the readable and the stored slots; the rejected-message trie holds
    exactly the rejected messages; the cached delivery queries equal a fresh scan; and
    the timestamp bounds are those of the first and last stored packets. *)
Theorem receive_buffer_invariant b : reachable b ->
  (forall off, (off < capacity b)%nat -> occupied (lslot b off) = true -> sequence (header (lslot b off)) = seq_at b off) /\
  (forall off, (off < capacity b)%nat -> find b (seq_at b off) = if readable (lslot b off) then Some (position b off) else None) /\
  occupied_count b = countb occupied (slots b) /\
  buffered_payload_bytes b = sum_list_with unread (slots b) /\
  (forall i, (i < capacity b)%nat ->
     OccupiedIndex.member (hd 0%nat (level_offsets b)) (occupied_index b) i = readable (slot_at b i) /\
     OccupiedIndex.member (hd 0%nat (level_offsets b)) (storage_index b) i = occupied (slot_at b i)) /\
  (forall m, is_u32 m -> RejectedMessages.message_rejected (rejected b) m = bool_decide (m ∈ rejected_list (slots b))) /\
  (first_complete_message b).1 = message_answer b /\ (first_buffered_packet b).1 = packet_answer b /\
  first_bound b /\ last_bound b.
Proof.
  intros Hr. destruct (receive_reachable_inv b Hr) as [m [C F L _]]. pose proof C as [P W N _ K]. split_and!; auto.
  - apply W.
  - intros off Ho. apply find_seq_at; assumption.
  - apply (phys_bytes b m P).
  - intros i Hi. split; [apply (phys_readable b m P)|apply (phys_storage b m P)]; apply lookup_slot, Hi.
  - intros x Hx. apply (RejectedMessages.message_rejected_spec (capacity b)). apply (phys_rejected b m P).
  - apply (first_complete_message_spec b m); assumption.
  - apply (first_buffered_packet_spec b m); assumption.
Qed.

(** * Example packets *)

Definition solo_packet (s n : Z) (bytes : list Z) : PacketView :=
  {| kind := PacketKind.data;
     data := {| sequence := s; message_number := n; boundary := MessageBoundary.solo; in_order := true;
                encryption_key := EncryptionKey.none; retransmitted := false; timestamp := s; destination_socket_id := 0 |};
     control := default_control_header; payload := bytes |}.

#[export] Instance buffer_inhabited : Inhabited t := populate
  {| defer_drop_timestamp_refresh := false; drop_timestamp_refresh_pending := false; message_query_valid := false;
     packet_query_valid := false; message_query := None; packet_query := None; rejected := RejectedMessages.make 0;
     discarding_message := None;
     payloads := {| PayloadPool.payload := []; PayloadPool.sizes := []; PayloadPool.free_indices := [];
                    PayloadPool.next_unused := 0; PayloadPool.free_count := 0 |};
     slots := []; occupied_index := []; storage_index := []; level_offsets := []; first_stored_sequence := 0;
     next_ack_sequence := 0; head := 0; classified_loss_prefix := 0; occupied_count := 0; buffered_payload_bytes := 0;
     first_buffered_sequence := 0; last_buffered_sequence := 0; first_buffered_timestamp := 0; last_buffered_timestamp := 0 |}.

(** A fresh buffer of four packets, and packets inserted into it. *)
Definition empty_buffer : t := default inhabitant (make 0 4 (replicate (4 * PayloadPool.width) 0)).

Lemma empty_buffer_make : make 0 4 (replicate (4 * PayloadPool.width) 0) = Some empty_buffer.
Proof. vm_compute. reflexivity. Qed.

Lemma empty_buffer_reachable : reachable empty_buffer.
Proof.
  eapply (reach_make 0 4); [|apply length_replicate|exact empty_buffer_make]. unfold SequenceNumber.wf. SequenceNumber.consts. lia.
Qed.

Lemma insert_reachable b s n bytes : reachable b -> 0 <= s < 1000 -> 0 <= n < 1000 -> reachable (insert b (solo_packet s n bytes)).2.
Proof.
  intros H Hs Hn. eapply reach_operation; [exact H|]. constructor. split; [unfold SequenceNumber.wf; SequenceNumber.consts|unfold is_u32]; cbn; lia.
Qed.

Lemma receive_buffer_invariant_witness :
  let b := (insert (insert empty_buffer (solo_packet 2 7 [1; 2; 3])).2 (solo_packet 1 6 [4])).2 in
  reachable b /\ buffered_payload_bytes b = 4%nat /\ buffered_payload_bytes b = sum_list_with unread (slots b).
Proof.
  cbv zeta. assert (Hr : reachable (insert (insert empty_buffer (solo_packet 2 7 [1; 2; 3])).2 (solo_packet 1 6 [4])).2)
    by (do 2 (apply insert_reachable; [|lia..]); exact empty_buffer_reachable).
  split; [exact Hr|]. split; [vm_compute; reflexivity|]. apply (receive_buffer_invariant _ Hr).
Defined.

(** * Stream reads *)

(** C13: While no payload is rejected, [pop_stream] reads a byte stream.  It copies a
    prefix of the unread bytes of the consecutive packets at the head (across packets
    dropped as lost) into the destination, leaves the rest of the destination alone, and
    what remains is the rest of the stream: no byte is lost, repeated or reordered.  With
    no delivery clock it fills the destination or exhausts the stream.  (With a rejected
    payload in the window, reading up to its message discards the message's other packets.) *)
Theorem pop_stream_reads_stream {C} b destination due (context : C) : reachable b -> ~ has_rejections b ->
  let '(r, destination', _, b') := pop_stream b destination due context in
  let n := bytes_written r in
  (n <= length destination)%nat /\ (n <= length (stream b))%nat /\
  destination' = overwrite 0 (take n (stream b)) destination /\
  stream b' = drop n (stream b) /\ ~ has_rejections b' /\
  (due = None -> n = Nat.min (length destination) (length (stream b))).
Proof.
  intros Hr Hn. destruct (receive_reachable_inv b Hr) as [m I]. pose proof (pop_stream_spec b m destination due context I) as H.
  destruct (pop_stream _ _ _ _) as [[[r d] c] b']. destruct H as (_ & _ & H1 & H2). destruct (H2 Hn) as (A1 & A2 & A3 & A4 & A5). split_and!; auto.
Qed.

Lemma no_rejections_computed b : rejected_list (slots b) = [] -> discarding_message b = None -> ~ has_rejections b.
Proof. intros H1 H2 [H|H]; auto. Qed.

Lemma pop_stream_reads_stream_witness :
  let b := (insert (insert empty_buffer (solo_packet 0 7 [1; 2; 3])).2 (solo_packet 1 6 [4; 5])).2 in
  let '(r, d, _, b') := pop_stream b [0; 0; 0; 0] None tt in
  bytes_written r = 4%nat /\ d = [1; 2; 3; 4] /\ stream b' = [5].
Proof.
  cbv zeta. set (b := (insert (insert _ _).2 _).2).
  assert (Hr : reachable b) by (do 2 (apply insert_reachable; [|lia..]); exact empty_buffer_reachable).
  assert (Hn : ~ has_rejections b) by (apply no_rejections_computed; vm_compute; reflexivity).
  pose proof (pop_stream_reads_stream b [0; 0; 0; 0] None tt Hr Hn) as H.
  assert (Es : stream b = [1; 2; 3; 4; 5]) by (vm_compute; reflexivity). rewrite Es in H.
  destruct (pop_stream b [0; 0; 0; 0] None tt) as [[[r d] c] b']. destruct H as (_ & _ & H1 & H2 & _ & H3).
  rewrite (H3 eq_refl) in *. split_and!; auto.
Defined.

(** * Peer drops *)

(** The packet a lookup by sequence number finds: its header and bytes. *)
Definition packet_at (b : t) (s : SequenceNumber.t) : option (DataHeader * list Z) :=
  match find b s with
  | Some i => Some (header (slot_at b i), (content b i).2)
  | None => None
  end.

Lemma packet_at_seq b off : window b -> (off < capacity b)%nat ->
  packet_at b (seq_at b off) = if readable (lslot b off) then Some (header (lslot b off), bytes_at b off) else None.
Proof. intros W Ho. unfold packet_at. rewrite find_seq_at by assumption. destruct (readable (lslot b off)); reflexivity. Qed.

Lemma packet_at_older b s : SequenceNumber.distance_from s (first_stored_sequence b) < 0 -> packet_at b s = None.
Proof. intros H. unfold packet_at, find. rewrite (proj2 (Z.ltb_lt _ 0) H). reflexivity. Qed.

(** Where the packets of [b] are after a drop. *)
Lemma packet_after_drop lo n b b1 b' o : window b -> ~ has_rejections b -> drop_outcome lo n b b1 b' -> (o < capacity b)%nat ->
  packet_at b' (seq_at b o) = if readable (lslot b1 o) then Some (header (lslot b1 o), bytes_at b1 o) else None.
Proof.
  intros W Hn [[m' I'] R (k & J & Hk & Hd) _ _] Ho. pose proof (range_core _ _ _ _ R) as [m1 C1]. pose proof (range_capacity _ _ _ _ R) as Ec.
  pose proof (core_window _ _ C1) as W1. pose proof (core_window _ _ (inv_core _ _ I')) as W'. pose proof (win_capacity b W) as [_ Hc'].
  assert (Es : forall i, seq_at b1 i = seq_at b i) by (intros i; apply frame_seq_at, R).
  destruct (le_lt_dec k o) as [Hle|Hlt].
  - rewrite <- Es. replace o with (k + (o - k))%nat at 1 by lia. rewrite <- (seq_at_jumped k b1 b' _ J).
    pose proof (jumped_capacity _ _ _ J) as Ec'. rewrite packet_at_seq by (auto; lia).
    assert (K : lcontent b' (o - k) = lcontent b1 o) by (rewrite (jumped_content _ _ _ J) by lia; f_equal; lia).
    unfold bytes_at. rewrite (lcontent_lslot _ _ _ _ K), K. reflexivity.
  - pose proof (Hd Hn o Hlt Ho) as Hdr. pose proof (dropped_vacant b1 m1 o C1 Hdr) as Hv. unfold readable. rewrite Hv. cbn [andb].
    apply packet_at_older. rewrite (jumped_first _ _ _ J), <- Es, distance_seq by lia. lia.
Qed.

Lemma dropped_unreadable b m o : core b m -> readable (dropped_slot (lslot b o)) = false.
Proof. intros C. unfold readable, dropped_slot. cbn. destruct (occupied (lslot b o)) eqn:E; cbn; [|rewrite E]; reflexivity. Qed.

(** What a drop of [range] that spares the offsets in [keep] does: a backward range is
    refused, one that ends before the window changes nothing; otherwise every packet
    that is outside the range or spared is found afterwards under its sequence
    number with its header and bytes, and every other packet of the range is gone. *)
Definition drop_spares (b : t) (range : SequenceRange) (keep : nat -> Prop) (out : Error.t * Z * t) : Prop :=
  let start := SequenceNumber.distance_from (range_first range) (first_stored_sequence b) in
  let end_ := SequenceNumber.distance_from (range_last range) (first_stored_sequence b) in
  let '(err, _, b') := out in
  if SequenceNumber.distance_from (range_last range) (range_first range) <? 0
  then err = Error.invalid_control_payload /\ b' = b
  else err = Error.none /\
    if end_ <? 0 then b' = b
    else forall o, (o < capacity b)%nat ->
      (~ (start <= Z.of_nat o <= end_) \/ keep o -> packet_at b' (seq_at b o) = packet_at b (seq_at b o)) /\
      (start <= Z.of_nat o <= end_ -> ~ keep o -> packet_at b' (seq_at b o) = None).

(** It is enough to know what the loop over the window does. *)
Lemma drop_spares_loop b range preservation keep m : inv b m -> ~ has_rejections b -> SequenceNumber.wf (range_last range) ->
  SequenceNumber.distance_from (range_last range) (first_stored_sequence b) + 1 < SequenceNumber.half_range ->
  (forall n lo, (n = 0 \/ lo + n <= capacity b)%nat -> forall o, (lo <= o < lo + n)%nat ->
     let b1 := (drop_loop preservation n lo no_progress b).2 in
     (keep o -> lcontent b1 o = lcontent b o) /\ (~ keep o -> lcontent b1 o = (dropped_slot (lslot b o), []))) ->
  drop_spares b range keep (drop_range_impl b range preservation).
Proof.
  intros I Hn Hwf He' K. pose proof (inv_core b m I) as C. pose proof (core_window b m C) as W.
  pose proof (drop_range_impl_spec b m range preservation I Hwf (or_intror Hn) He') as D. unfold drop_spares.
  set (start := SequenceNumber.distance_from (range_first range) _) in *. set (end_ := SequenceNumber.distance_from (range_last range) (first_stored_sequence b)) in *.
  destruct (drop_range_impl _ _ _) as [[err d] b']. destruct D as (D1 & D2 & D3).
  destruct (Z.ltb_spec (SequenceNumber.distance_from (range_last range) (range_first range)) 0) as [Hs|Hs]; [auto|].
  destruct (Z.ltb_spec end_ 0) as [He|He]; [destruct (D2 Hs He) as (? & _ & ?); auto|].
  destruct (D3 Hs He) as [-> O]. clear D1 D2 D3. split; [reflexivity|]. intros o Ho.
  set (lo := if 0 <? start then Z.to_nat start else 0%nat) in *. set (final := Nat.min (Z.to_nat end_) (capacity b - 1)) in *.
  rewrite (packet_after_drop _ _ _ _ _ o W Hn O Ho), packet_at_seq by assumption.
  assert (Hin : (lo <= o < lo + (final + 1 - lo))%nat <-> start <= Z.of_nat o <= end_).
  { unfold lo, final. destruct (Z.ltb_spec 0 start); lia. }
  specialize (K (final + 1 - lo)%nat lo ltac:(unfold final; lia) o). pose proof (outcome_range _ _ _ _ _ O) as R.
  destruct (drop_loop _ _ _ _ _) as [p b1]. cbn [snd] in *. clear O. split.
  - intros Hor. assert (E : lcontent b1 o = lcontent b o).
    { destruct (decide (lo <= o < lo + (final + 1 - lo))%nat) as [Hi|Hi].
      - apply (K Hi). destruct Hor as [Hor|Hor]; [tauto|exact Hor].
      - apply (range_outside _ _ _ _ R); assumption. }
    unfold bytes_at. rewrite (lcontent_lslot _ _ _ _ E), E. reflexivity.
  - intros Hrange Hno. change (lslot b1 o) with (lcontent b1 o).1. rewrite (proj2 (K (proj2 Hin Hrange)) Hno).
    cbn [fst]. rewrite (dropped_unreadable b m o C). reflexivity.
Qed.

(** C12: A drop requested by the peer never removes what the receiver can still deliver,
    in every reachable state in which no payload is rejected and for every range that
    ends less than half the sequence space ahead.  In stream mode every received packet
    stays readable under its sequence number with its header and bytes, inside the range
    or outside.  In message mode, provided no packet has been read in part, this
    holds for every packet outside the range or of a complete buffered message,
    and every other packet of the range is gone.  A backward range is refused and a
    range before the window ignored. *)
Theorem peer_drop_keeps_complete_messages b range : reachable b -> ~ has_rejections b ->
  SequenceNumber.wf (range_last range) ->
  SequenceNumber.distance_from (range_last range) (first_stored_sequence b) + 1 < SequenceNumber.half_range ->
  drop_spares b range (fun o => readable (lslot b o) = true) (drop_peer_requested_stream_range b range) /\
  (unread_window b -> drop_spares b range (in_message b) (drop_peer_requested_range b range)).
Proof.
  intros Hr Hn Hwf He. destruct (receive_reachable_inv b Hr) as [m I]. pose proof (inv_core b m I) as C.
  assert (Hp : progress_ok no_progress) by (intros E; exfalso; apply E; reflexivity).
  split; [|intros U]; apply (drop_spares_loop b range _ _ m I Hn Hwf He); intros n lo Hle o Ho.
  - pose proof (drop_loop_received n lo no_progress b m C Hle Hp) as K. destruct (drop_loop _ _ _ _ _) as [p b1].
    specialize (K o Ho). cbn [snd]. destruct (readable (lslot b o)); split; intros; auto; congruence.
  - pose proof (drop_loop_complete n lo no_progress b m C Hle Hp U ltac:(discriminate)) as K.
    destruct (drop_loop _ _ _ _ _) as [p b1]. exact (K o Ho).
Qed.

(** A message behind a lost packet. *)
Definition gap_example : t := (insert empty_buffer (solo_packet 1 7 [1; 2; 3])).2.

Lemma gap_example_facts : reachable gap_example /\ ~ has_rejections gap_example /\ capacity gap_example = 4%nat /\
  first_stored_sequence gap_example = 0 /\ unread_window gap_example /\ in_message gap_example 1 /\ ~ in_message gap_example 0.
Proof.
  assert (Hc : capacity gap_example = 4%nat) by (vm_compute; reflexivity). split_and!.
  - apply insert_reachable; [exact empty_buffer_reachable|lia..].
  - apply no_rejections_computed; vm_compute; reflexivity.
  - exact Hc.
  - vm_compute. reflexivity.
  - intros o Ho. rewrite Hc in Ho. do 4 (destruct o as [|o]; [vm_compute; reflexivity|]). lia.
  - exists 1%nat, 1%nat, 7. split; [|lia]. split; [rewrite Hc; lia|]. intros o Ho. replace o with 1%nat by lia. vm_compute. auto.
  - intros (f & l & mn & [_ S] & Hf). destruct (S 0%nat ltac:(lia)) as (S1 & _). vm_compute in S1. discriminate.
Qed.

Lemma drop_spares_at b range keep out o : drop_spares b range keep out ->
  0 <= SequenceNumber.distance_from (range_last range) (range_first range) ->
  0 <= SequenceNumber.distance_from (range_last range) (first_stored_sequence b) -> (o < capacity b)%nat ->
  (keep o -> packet_at out.2 (seq_at b o) = packet_at b (seq_at b o)) /\
  (SequenceNumber.distance_from (range_first range) (first_stored_sequence b) <= Z.of_nat o
     <= SequenceNumber.distance_from (range_last range) (first_stored_sequence b) ->
   ~ keep o -> packet_at out.2 (seq_at b o) = None).
Proof.
  intros H Hs He Ho. unfold drop_spares in H. destruct out as [[err d] b']. rewrite !(proj2 (Z.ltb_ge _ _)) in H by assumption.
  destruct H as [_ H]. destruct (H o Ho) as [H1 H2]. auto.
Qed.

Lemma peer_drop_keeps_complete_messages_witness :
  let range := {| range_first := 0; range_last := 2 |} in
  packet_at (drop_peer_requested_stream_range gap_example range).2 (seq_at gap_example 1) = packet_at gap_example (seq_at gap_example 1) /\
  packet_at (drop_peer_requested_range gap_example range).2 (seq_at gap_example 1) = packet_at gap_example (seq_at gap_example 1) /\
  packet_at (drop_peer_requested_range gap_example range).2 (seq_at gap_example 0) = None.
Proof.
  destruct gap_example_facts as (Hr & Hn & Hc & Hf & U & Hmsg & Hno). intros range.
  assert (Hwf : SequenceNumber.wf (range_last range)) by (split; vm_compute; [discriminate|reflexivity]).
  assert (He : SequenceNumber.distance_from (range_last range) (first_stored_sequence gap_example) + 1 < SequenceNumber.half_range)
    by (rewrite Hf; vm_compute; reflexivity).
  assert (H1 : 0 <= SequenceNumber.distance_from (range_last range) (range_first range)) by (vm_compute; discriminate).
  assert (H2 : 0 <= SequenceNumber.distance_from (range_last range) (first_stored_sequence gap_example)) by (rewrite Hf; vm_compute; discriminate).
  destruct (peer_drop_keeps_complete_messages gap_example range Hr Hn Hwf He) as [S M]. specialize (M U).
  split; [|split].
  - apply (proj1 (drop_spares_at _ _ _ _ 1%nat S H1 H2 ltac:(rewrite Hc; lia))). vm_compute. reflexivity.
  - apply (proj1 (drop_spares_at _ _ _ _ 1%nat M H1 H2 ltac:(rewrite Hc; lia))). exact Hmsg.
  - apply (proj2 (drop_spares_at _ _ _ _ 0%nat M H1 H2 ltac:(rewrite Hc; lia))); [|exact Hno].
    rewrite Hf. vm_compute. split; discriminate.
Defined.

(** * Defects *)

(** An insertion never moves an acknowledgement that is behind the window. *)
Lemma insert_stalled b m packet : inv b m -> packet_typed packet -> ~ has_rejections b ->
  SequenceNumber.distance_from (next_ack_sequence b) (first_stored_sequence b) < 0 ->
  let b' := (insert b packet).2 in
  next_ack_sequence b' = next_ack_sequence b /\ first_stored_sequence b' = first_stored_sequence b /\ ~ has_rejections b'.
Proof.
  intros I [H1 H2] Hn Hd. destruct (decide (kind packet = PacketKind.data /\ (length (payload packet) <= maximum_data_payload_size)%nat)) as [[Hk Hl]|Hno].
  2:{ cbv zeta. rewrite insert_rejected_packet; [auto|]. destruct (decide (kind packet = PacketKind.data)); [right|left; assumption].
      destruct (le_lt_dec (length (payload packet)) maximum_data_payload_size); [exfalso; tauto|assumption]. }
  assert (Hp : packet_ok packet) by (split_and!; assumption).
  set (d := SequenceNumber.distance_from (sequence (data packet)) (first_stored_sequence b)).
  destruct (decide (0 <= d /\ (Z.to_nat d < capacity b)%nat /\ settled (lslot b (Z.to_nat d)) = false)) as [(A1 & A2 & A3)|Hno].
  - destruct (insert_accepted b m packet I Hk Hp A1 A2 A3) as [[_ (b1 & k & In & _ & Ha & Eb) Hcl] _]. cbv zeta.
    rewrite <- (Eb Hn) in *. destruct In as [J1 J2 _ _]. split; [|auto]. rewrite Ha. unfold ack_target.
    change (next_ack_sequence (set_next_ack_sequence (next_ack_sequence b) b1)) with (next_ack_sequence b).
    change (first_stored_sequence (set_next_ack_sequence (next_ack_sequence b) b1)) with (first_stored_sequence b1).
    rewrite J2, (proj2 (Z.ltb_lt _ 0) Hd). reflexivity.
  - cbv zeta. rewrite insert_guards by assumption. cbv zeta. fold d. destruct (Z.ltb_spec d 0); [auto|].
    destruct (Nat.leb_spec (capacity b) (Z.to_nat d)); [auto|]. destruct (settled _) eqn:E; [auto|]. exfalso. apply Hno. auto.
Qed.

Lemma inserts_stalled packets : forall b m, inv b m -> Forall packet_typed packets -> ~ has_rejections b ->
  SequenceNumber.distance_from (next_ack_sequence b) (first_stored_sequence b) < 0 ->
  next_ack_sequence (fold_left (fun b p => (insert b p).2) packets b) = next_ack_sequence b.
Proof.
  induction packets as [|p packets IH]; intros b m I Hp Hn Hd; [reflexivity|]. apply Forall_cons in Hp as [Hp1 Hp2]. cbn [fold_left].
  destruct (insert_stalled b m p I Hp1 Hn Hd) as (E1 & E2 & Hn'). destruct (insert_inv b m p I Hp1) as [m' I'].
  rewrite (IH _ m' I' Hp2 Hn'); [exact E1|]. rewrite E1, E2. exact Hd.
Qed.

(** C38: [discard_before] can stop acknowledgement for good.  Let no payload be rejected
    and let the discard move the window to [s], ahead of its start and of the
    acknowledgement number.  The acknowledgement number becomes [s] even when packet [s] is
    already stored: the discard does not advance it over stored packets.  If the
    application then reads the message that starts at [s], the number is behind the window,
    and whatever packets arrive from then on, it stays at [s]. *)
Theorem discard_before_stops_acknowledgement b s destination packets : reachable b -> ~ has_rejections b -> SequenceNumber.wf s ->
  0 < SequenceNumber.distance_from s (first_stored_sequence b) ->
  SequenceNumber.distance_from (next_ack_sequence b) s < 0 ->
  let b1 := (discard_before b s).2 in
  let '(r, _, b2) := pop_message b1 destination in
  received_error r = Error.none -> Forall packet_typed packets ->
  next_ack_sequence b1 = s /\ contains_data b1 s = true /\
  0 < SequenceNumber.distance_from (first_stored_sequence b2) s /\
  next_ack_sequence (fold_left (fun b p => (insert b p).2) packets b2) = s.
Proof.
  intros Hr Hn Hs Hd Ha. destruct (receive_reachable_inv b Hr) as [m I]. pose proof (discard_before_spec b m s I Hs) as D.
  cbv zeta in D |- *. destruct (discard_before b s) as [e b1]. cbn [snd]. destruct D as (_ & _ & D).
  destruct (D Hd) as ([m1 I1] & _ & Hf & Hack & Hclean). rewrite (proj2 (Z.ltb_lt _ 0) Ha) in Hack. specialize (Hclean Hn).
  pose proof (core_window _ _ (inv_core _ _ I1)) as W.
  destruct (pop_message_cases b1 m1 destination I1) as [(e' & He & ->)|(n & mn & Hw & Hl)]; [intros E; exfalso; exact (He E)|].
  destruct (pop_message_result b1 m1 destination n mn I1 Hw Hl) as (b2 & -> & k & m2 & I2 & S & Hk).
  intros _ Hp. destruct (Hk Hclean) as [Hclean2 _]. pose proof (shifted_le _ _ _ S) as Hle. pose proof (win_capacity b1 W) as [_ Hhalf].
  assert (Hn0 : (0 < n)%nat) by apply Hw.
  assert (E1 : SequenceNumber.distance_from (first_stored_sequence b2) s = Z.of_nat (n + k)).
  { rewrite (shifted_first _ _ _ S), <- Hf. rewrite <- (seq_at_0 b1 W), distance_seq by lia. lia. }
  assert (E2 : SequenceNumber.distance_from s (first_stored_sequence b2) = - Z.of_nat (n + k)).
  { rewrite (shifted_first _ _ _ S), <- Hf. rewrite <- (seq_at_0 b1 W) at 1. rewrite distance_seq by lia. lia. }
  split; [exact Hack|]. split.
  { rewrite <- Hf. unfold contains_data. rewrite find_first by assumption. destruct Hw as [_ Hw]. destruct (Hw 0%nat Hn0) as [R _].
    cbn [Nat.add] in R. rewrite R. reflexivity. }
  split; [lia|]. rewrite (inserts_stalled packets b2 m2 I2 Hp Hclean2); rewrite (shifted_ack _ _ _ S), Hack; [reflexivity|lia].
Qed.

(** Packets 1 and 2 arrive, packet 0 is given up, message 1 is read, packet 3 arrives: 1
    stays the acknowledgement number. *)
Lemma discard_before_stops_acknowledgement_witness :
  let b := (insert (insert empty_buffer (solo_packet 1 7 [1])).2 (solo_packet 2 8 [2])).2 in
  let b2 := (pop_message (discard_before b 1).2 [0]).2 in
  first_stored_sequence b2 = 2 /\ contains_data b2 2 = true /\
  next_ack_sequence (fold_left (fun b p => (insert b p).2) [solo_packet 3 9 [3]] b2) = 1.
Proof.
  intros b b2. split; [vm_compute; reflexivity|]. split; [vm_compute; reflexivity|].
  assert (Hr : reachable b) by (do 2 (apply insert_reachable; [|lia..]); exact empty_buffer_reachable).
  assert (Hn : ~ has_rejections b) by (apply no_rejections_computed; vm_compute; reflexivity).
  assert (Hs : SequenceNumber.wf 1) by (split; vm_compute; [discriminate|reflexivity]).
  assert (Hp : Forall packet_typed [solo_packet 3 9 [3]]) by (constructor; [split; split; vm_compute; congruence || reflexivity|constructor]).
  pose proof (discard_before_stops_acknowledgement b 1 [0] [solo_packet 3 9 [3]] Hr Hn Hs
    ltac:(vm_compute; reflexivity) ltac:(vm_compute; reflexivity)) as H.
  assert (He : received_error (pop_message (discard_before b 1).2 [0]).1.1 = Error.none) by (vm_compute; reflexivity).
  cbv zeta in H. unfold b2. destruct (pop_message (discard_before b 1).2 [0]) as [[r d] b3]. apply (H He Hp).
Defined.

(** Packet 1 is received and its payload rejected; packet 3 is a complete message. *)
Definition rejected_example : t :=
  let b := (insert empty_buffer (solo_packet 1 7 [1])).2 in
  let b := discard_message_payload b 1 in
  (insert b (solo_packet 3 9 [3])).2.

(** Why preserving drops are restricted in [drop_safe]: with message 1 rejected and message
    3 complete, a drop of packets 0 to 3 preserves both, the trim then discards the
    rejected one, and the frontier still jumps to the end of the range: message 3 is no
    longer readable, its slot stays counted, and packet 7, which shares the slot, is refused
    as a duplicate. *)
Example peer_drop_loses_complete_message :
  let b := rejected_example in
  let r := drop_peer_requested_range b {| range_first := 0; range_last := 3 |} in
  let b' := r.2 in
  let q := insert b' (solo_packet 7 10 [7]) in
  (in_message b 3 /\ contains_data b 3 = true) /\
  r.1.1 = Error.none /\ first_stored_sequence b' = 4 /\ contains_data b' 3 = false /\
  (first_complete_message b').1 = None /\ occupied_count b' = 1%nat /\
  insert_status q.1 = ReceiveStatus.duplicate /\ contains_data q.2 7 = false.
Proof.
  cbv zeta. split; [split; [|vm_compute; reflexivity]|split_and!; vm_compute; reflexivity].
  exists 3%nat, 3%nat, 9. split; [|lia]. split; [vm_compute; lia|].
  intros o Ho. replace o with 3%nat by lia. vm_compute. auto.
Qed.
