(* ===== verification/MessageStream.v ===== *)
(** Message streams: the frames that data packets carry, shared by the sending and the
    receiving side. *)
From stdpp Require Import gmap.
From S2P Require Import Prelude Sequence Packet.

(** * Message streams *)

(** What one data packet contributes to a message. *)
Record Frame := { frame_number : Z; frame_boundary : MessageBoundary.t; frame_payload : list Z }.

(** A message: its number and the payloads of its packets. *)
Definition Message : Type := Z * list (list Z).
Definition message_ok (x : Message) : Prop :=
  is_u32 x.1 /\ x.2 <> [] /\ Forall (fun bs => (length bs <= maximum_data_payload_size)%nat) x.2.
Definition message_data (x : Message) : list Z := concat x.2.

Definition boundary_at (n i : nat) : MessageBoundary.t :=
  if (n =? 1)%nat then MessageBoundary.solo else if (i =? 0)%nat then MessageBoundary.first
  else if (i =? n - 1)%nat then MessageBoundary.last else MessageBoundary.subsequent.

Definition frames_of (x : Message) : list Frame :=
  imap (fun i bs => {| frame_number := x.1; frame_boundary := boundary_at (length x.2) i; frame_payload := bs |}) x.2.
Definition frames (xs : list Message) : list Frame := concat (frames_of <$> xs).

(** [packet] carries frame [i] of the stream that starts at [s0]; the other header
    fields are free, so retransmissions carry the same frame. *)
Definition carries (s0 : SequenceNumber.t) (fs : list Frame) (i : nat) (packet : PacketView) : Prop :=
  exists f, fs !! i = Some f /\ kind packet = PacketKind.data /\
    sequence (data packet) = SequenceNumber.advanced s0 (Z.of_nat i) /\
    message_number (data packet) = frame_number f /\ boundary (data packet) = frame_boundary f /\
    payload packet = frame_payload f.

(** * Facts on streams *)

Lemma length_frames_of x : length (frames_of x) = length x.2.
Proof. apply length_imap. Qed.

Lemma frames_app xs ys : frames (xs ++ ys) = frames xs ++ frames ys.
Proof. unfold frames. rewrite fmap_app. apply concat_app. Qed.

Lemma frames_cons x xs : frames (x :: xs) = frames_of x ++ frames xs.
Proof. reflexivity. Qed.

Lemma frames_of_lookup x i f : frames_of x !! i = Some f ->
  exists bs, x.2 !! i = Some bs /\ f = {| frame_number := x.1; frame_boundary := boundary_at (length x.2) i; frame_payload := bs |}.
Proof.
  unfold frames_of. rewrite list_lookup_imap. destruct (x.2 !! i) as [bs|]; [|discriminate]. cbn. intros [= <-]. eauto.
Qed.

Lemma frames_ok xs i f : Forall message_ok xs -> frames xs !! i = Some f ->
  is_u32 (frame_number f) /\ (length (frame_payload f) <= maximum_data_payload_size)%nat.
Proof.
  revert i. induction xs as [|x xs IH]; intros i Hok Hf; [discriminate|]. apply Forall_cons in Hok as [(H1 & _ & H3) Hok].
  rewrite frames_cons in Hf. apply lookup_app_Some in Hf as [Hf|[_ Hf]]; [|eauto].
  destruct (frames_of_lookup x i f Hf) as (bs & Hb & ->). cbn. split; [assumption|]. rewrite Forall_lookup in H3. eauto.
Qed.

(** Only the last packet of a message is marked as one that ends it. *)
Lemma boundary_at_ends n i : (0 < n)%nat -> (i < n)%nat ->
  (boundary_at n i = MessageBoundary.solo \/ boundary_at n i = MessageBoundary.last) <-> i = (n - 1)%nat.
Proof.
  intros Hn Hi. unfold boundary_at. destruct (Nat.eqb_spec n 1), (Nat.eqb_spec i 0), (Nat.eqb_spec i (n - 1));
    (split; [intros [H|H]; first [discriminate H|lia]|intros H; first [lia|auto]]).
Qed.
