(* ===== verification/Reassembly.v ===== *)
(** Delivery through the receive buffer, end to end: packets of a message stream
    arrive in any order and any number of times between reads, and the reads return
    the messages in order. *)
From stdpp Require Import gmap.
From S2P Require Import Prelude Sequence Packet Codec Control LossList ReceiveWindow.
From S2P Require Import PayloadPool OccupiedIndex RejectedMessages ReceiveBuffer ReceiveBufferFacts.
From S2P Require Import ReceiveBufferQueries ReceiveBufferSteps ReceiveBufferOps ReceiveBufferTheorems MessageStream.
Import ReceiveBuffer.

(** * The receiver *)

(** The receiver: packets arrive, the application reads into [room] bytes. *)
Inductive event := Arrive (packet : PacketView) | Read (room : nat).

Definition receive (st : t * list (list Z)) (e : event) : t * list (list Z) :=
  match e with
  | Arrive packet => ((insert st.1 packet).2, st.2)
  | Read room =>
    let '(r, destination, b) := pop_message st.1 (replicate room 0) in
    (b, if bool_decide (received_error r = Error.none) then st.2 ++ [take (bytes_written r) destination] else st.2)
  end.
Definition receive_all (st : t * list (list Z)) (es : list event) : t * list (list Z) := fold_left receive es st.

(** * The invariant *)

(** A slot that holds nothing or the given frame. *)
Definition slot_holds (c : Slot * list Z) (f : option Frame) : Prop :=
  dropped c.1 = false /\
  (occupied c.1 = true -> exists fr, f = Some fr /\ readable c.1 = true /\ payload_offset c.1 = 0%nat /\
     msg c.1 = frame_number fr /\ boundary (header c.1) = frame_boundary fr /\ c.2 = frame_payload fr).

(** The acknowledgement number is that of the first packet missing: all before it
    are stored or read. *)
Definition acknowledges (b : t) (k : nat) : Prop :=
  (k <= capacity b)%nat /\ next_ack_sequence b = seq_at b k /\ (forall off, (off < k)%nat -> stored b off = true) /\
  ((k < capacity b)%nat -> stored b k = false).

(** [done] has been read and the window holds frames of [rest]. *)
Record consistent (s0 : SequenceNumber.t) (done rest : list Message) (b : t) : Prop := {
  cons_inv : exists m, inv b m;
  cons_clean : ~ has_rejections b;
  cons_first : first_stored_sequence b = SequenceNumber.advanced s0 (Z.of_nat (length (frames done)));
  cons_slots : forall off, (off < capacity b)%nat -> slot_holds (lcontent b off) (frames rest !! off);
  cons_ack : exists k, acknowledges b k;
}.

Lemma undropped_settled b off : dropped (lslot b off) = false -> settled (lslot b off) = stored b off.
Proof. intros H. unfold settled, stored. rewrite H. apply orb_false_r. Qed.

(** Storing a packet moves the acknowledgement past everything that is now complete. *)
Lemma insert_acknowledges b b1 off packet k : window b1 -> (forall o, (o < capacity b)%nat -> dropped (lslot b1 o) = false) ->
  inserted off packet b b1 -> (off < capacity b)%nat -> acknowledges b k ->
  next_ack_sequence b1 = ack_target (set_next_ack_sequence (next_ack_sequence b) b1) ->
  exists k', (k <= k')%nat /\ acknowledges b1 k'.
Proof.
  intros W Hd [In1 In2 [ix In3] In4] Hoff (K1 & K2 & K3 & K4) Ha.
  assert (Hst : forall o, (o < k)%nat -> stored b1 o = true).
  { intros o Ho. unfold stored. destruct (decide (o = off)) as [->|Hne].
    - change (lslot b1 off) with (lcontent b1 off).1. rewrite In3. reflexivity.
    - rewrite (lcontent_lslot b b1 o o) by (apply In4; lia). apply (K3 o Ho). }
  assert (Es : forall o, seq_at b1 o = seq_at b o) by (intros o; unfold seq_at; rewrite In2; reflexivity).
  revert Ha. unfold ack_target. cbn [next_ack_sequence set_next_ack_sequence first_stored_sequence].
  change (capacity (set_next_ack_sequence (next_ack_sequence b) b1)) with (capacity b1).
  change (seq_at (set_next_ack_sequence (next_ack_sequence b) b1)) with (seq_at b1).
  change (unsettled_from (set_next_ack_sequence (next_ack_sequence b) b1)) with (unsettled_from b1).
  change (first_stored_sequence (set_next_ack_sequence (next_ack_sequence b) b1)) with (first_stored_sequence b1).
  pose proof (win_capacity _ W) as [_ Hc]. rewrite K2, <- Es, (distance_seq_at b1) by (rewrite In1 in Hc; lia).
  rewrite (proj2 (Z.ltb_ge _ _)), Nat2Z.id by lia. cbn [orb].
  destruct (Nat.leb_spec (capacity b1) k) as [Hle|Hlt]; intros Ha.
  - exists k. split; [lia|]. split_and!; auto; try lia.
  - destruct (unsettled_from_spec b1 k ltac:(lia)) as (U1 & U2 & U3). exists (unsettled_from b1 k).
    split; [lia|]. split_and!; [lia|exact Ha| |].
    + intros o Ho. destruct (decide (o < k)%nat); [auto|]. rewrite <- undropped_settled by (apply Hd; lia). apply U2. lia.
    + intros Hu. rewrite <- undropped_settled by (apply Hd; lia). apply U3, Hu.
Qed.

(** Reading [n] packets leaves the acknowledgement where it was. *)
Lemma read_acknowledges b b' n k : shifted n b b' -> acknowledges b k ->
  (forall off, (off < n)%nat -> stored b off = true) -> acknowledges b' (k - n).
Proof.
  intros S' (K1 & K2 & K3 & K4) Hn. pose proof (shifted_le _ _ _ S') as Hle. pose proof (shifted_capacity _ _ _ S') as Ec.
  assert (Hk : (n <= k)%nat).
  { destruct (Nat.lt_ge_cases k n) as [Hlt|]; [|assumption]. pose proof (Hn k Hlt) as H. rewrite K4 in H by lia. discriminate. }
  split_and!.
  - lia.
  - rewrite (shifted_ack _ _ _ S'), K2. unfold seq_at. rewrite (shifted_first _ _ _ S'). unfold seq_at.
    rewrite !SequenceNumber.advanced_mod, Zplus_mod_idemp_l. f_equal. lia.
  - intros off Ho. unfold stored. rewrite (lcontent_lslot b b' (n + off) off) by (apply (shifted_content _ _ _ S'); lia).
    apply K3. lia.
  - intros Hlt. rewrite Ec in Hlt. destruct (decide (k < capacity b)%nat) as [Hin|Hout].
    + unfold stored. rewrite (lcontent_lslot b b' k (k - n)); [auto|]. rewrite (shifted_content _ _ _ S') by lia. f_equal. lia.
    + destruct (shifted_blank _ _ _ S' (k - n) ltac:(lia) ltac:(lia)) as ((V & _) & _). exact V.
Qed.

Section stream.
Context (s0 : SequenceNumber.t) (msgs : list Message).
Hypothesis Hok : Forall message_ok msgs.

Lemma carries_ok i packet : carries s0 (frames msgs) i packet -> kind packet = PacketKind.data /\ packet_ok packet.
Proof.
  intros (f & Hf & Hk & Hs & Hm & Hb & Hp). destruct (frames_ok msgs i f Hok Hf) as [H1 H2]. split; [assumption|].
  split; [rewrite Hs; apply SequenceNumber.advanced_wf|]. rewrite Hm, Hp. auto.
Qed.

Lemma consistent_arrive done rest b i packet : msgs = done ++ rest -> carries s0 (frames msgs) i packet ->
  Z.abs (Z.of_nat i - Z.of_nat (length (frames done))) < SequenceNumber.half_range ->
  consistent s0 done rest b ->
  consistent s0 done rest (insert b packet).2 /\ capacity (insert b packet).2 = capacity b /\
  (forall off, (off < capacity b)%nat -> stored b off = true -> stored (insert b packet).2 off = true) /\
  (forall off, (off < capacity b)%nat -> i = (length (frames done) + off)%nat -> stored (insert b packet).2 off = true).
Proof.
  intros Hmsgs Hc Hd [[m I] Hcl Hf Hs Hk0]. destruct (carries_ok i packet Hc) as [Hk Hp]. destruct Hc as (f & Hfi & _ & Hseq & Hm & Hb & Hpay).
  set (h := length (frames done)) in *. pose proof (inv_core b m I) as C. pose proof (core_window b m C) as W.
  rewrite Hmsgs, frames_app in Hfi.
  assert (Hi : (i < h + length (frames rest))%nat) by (apply lookup_lt_Some in Hfi; rewrite length_app in Hfi; exact Hfi).
  assert (Hdist : SequenceNumber.distance_from (sequence (data packet)) (first_stored_sequence b) = Z.of_nat i - Z.of_nat h).
  { rewrite Hseq, Hf. apply SequenceNumber.distance_unique; [SequenceNumber.consts; lia|]. rewrite !SequenceNumber.advanced_mod.
    rewrite Zminus_mod_idemp_l, Zminus_mod_idemp_r. f_equal. lia. }
  assert (Hsame : insert b packet = ((insert b packet).1, b) -> (forall off, (off < capacity b)%nat -> i = (h + off)%nat -> stored b off = true) ->
    consistent s0 done rest (insert b packet).2 /\ capacity (insert b packet).2 = capacity b /\
    (forall off, (off < capacity b)%nat -> stored b off = true -> stored (insert b packet).2 off = true) /\
    (forall off, (off < capacity b)%nat -> i = (h + off)%nat -> stored (insert b packet).2 off = true)).
  { intros -> Hst. cbn [snd]. split_and!; auto. split; eauto. }
  pose proof (insert_guards b packet Hk Hp) as Hg. cbv zeta in Hg. rewrite Hdist in Hg.
  destruct (Z.ltb_spec (Z.of_nat i - Z.of_nat h) 0) as [Hlt|Hge]; [apply Hsame; [rewrite Hg; reflexivity|lia]|].
  replace (Z.to_nat (Z.of_nat i - Z.of_nat h)) with (i - h)%nat in Hg by lia.
  destruct (Nat.leb_spec (capacity b) (i - h)) as [Hout|Hin]; [apply Hsame; [rewrite Hg; reflexivity|lia]|].
  assert (Efr : frames rest !! (i - h)%nat = Some f) by (rewrite lookup_app_r in Hfi by (fold h; lia); exact Hfi).
  destruct (settled (lslot b (i - h))) eqn:Hset.
  { apply Hsame; [rewrite Hg; reflexivity|]. intros off Ho E. replace off with (i - h)%nat by lia. unfold stored.
    destruct (Hs (i - h)%nat Hin) as [Hdr _]. unfold settled in Hset. change (lcontent b (i - h)).1 with (lslot b (i - h)) in Hdr.
    rewrite Hdr, orb_false_r in Hset. exact Hset. }
  clear Hsame Hg. pose proof (insert_accepted b m packet I Hk Hp) as A. cbv zeta in A. rewrite Hdist in A.
  replace (Z.to_nat (Z.of_nat i - Z.of_nat h)) with (i - h)%nat in A by lia.
  destruct (A ltac:(lia) Hin Hset) as [[A1 (b1 & k & In & _ & Na & Ab) A3] _]. clear A.
  pose proof In as [In1 In2 [ix In3] In4]. rewrite <- (Ab Hcl) in *. split; [split; auto|split; [exact In1|]].
  - rewrite In2. exact Hf.
  - intros off Ho. rewrite In1 in Ho. destruct (decide (off = i - h)%nat) as [->|Hne]; [|rewrite In4 by assumption; auto].
    rewrite In3, Efr. split; [reflexivity|]. intros _. exists f. split_and!; auto.
  - destruct Hk0 as [k0 K]. destruct A1 as [m1 I1].
    destruct (insert_acknowledges b b1 (i - h)%nat packet k0) as (k' & _ & K'); eauto; [apply (core_window _ _ (inv_core _ _ I1))|].
    intros o Ho. destruct (decide (o = i - h)%nat) as [->|Hne].
    + change (lslot b1 (i - h)) with (lcontent b1 (i - h)).1. rewrite In3. reflexivity.
    + rewrite (lcontent_lslot b b1 o o) by (apply In4; assumption). apply (Hs o Ho).
  - split.
    + intros off Ho Hst. unfold stored in *. destruct (decide (off = i - h)%nat) as [->|Hne].
      * change (lslot b1 (i - h)) with (lcontent b1 (i - h)).1. rewrite In3. reflexivity.
      * rewrite (lcontent_lslot b b1 off off) by (apply In4; assumption). exact Hst.
    + intros off Ho E. replace off with (i - h)%nat by lia. unfold stored. change (lslot b1 (i - h)) with (lcontent b1 (i - h)).1. rewrite In3. reflexivity.
Qed.

(** The message that a whole run of slots at the head holds is the next one. *)
Lemma whole_is_next x rest b n mn : x.2 <> [] -> (0 < n)%nat ->
  (forall o, (o < n)%nat -> slot_holds (lcontent b o) (frames (x :: rest) !! o)) ->
  (forall o, (o < n)%nat -> let s := lslot b o in readable s = true /\ msg s = mn /\ boundary (header s) = boundary_at n o) ->
  n = length x.2 /\ mn = x.1 /\ message_payload b 0 n = message_data x.
Proof.
  intros Hx Hn Hh Hw. assert (Hx' : (0 < length x.2)%nat) by (destruct x.2; [congruence|cbn; lia]).
  assert (Hf : forall o, (o < n)%nat -> (o < length x.2)%nat -> exists bs, x.2 !! o = Some bs /\ mn = x.1 /\
    boundary_at n o = boundary_at (length x.2) o /\ bytes_at b o = bs).
  { intros o Ho Ho'. destruct (Hh o Ho) as [_ Hocc]. destruct (Hw o Ho) as (Hr & Hm & Hb). pose proof Hr as Hr'.
    unfold readable in Hr'. apply andb_true_iff in Hr' as [Hoc _]. destruct (Hocc Hoc) as (fr & Efr & _ & _ & Em & Eb & Ep).
    rewrite frames_cons, lookup_app_l in Efr by (rewrite length_frames_of; assumption).
    destruct (frames_of_lookup x o fr Efr) as (bs & Hbs & ->). cbn in Em, Eb, Ep. exists bs. split_and!; auto.
    - rewrite <- Hm. exact Em.
    - rewrite <- Hb. exact Eb. }
  assert (En : n = length x.2).
  { destruct (Nat.lt_trichotomy n (length x.2)) as [Hlt|[Heq|Hgt]]; [exfalso|exact Heq|exfalso].
    - destruct (Hf (n - 1)%nat ltac:(lia) ltac:(lia)) as (bs & _ & _ & E & _).
      pose proof (proj2 (boundary_at_ends n (n - 1) Hn ltac:(lia)) eq_refl) as H1. rewrite E in H1.
      apply boundary_at_ends in H1; lia.
    - destruct (Hf (length x.2 - 1)%nat ltac:(lia) ltac:(lia)) as (bs & _ & _ & E & _).
      pose proof (proj2 (boundary_at_ends (length x.2) (length x.2 - 1) Hx' ltac:(lia)) eq_refl) as H1. rewrite <- E in H1.
      apply boundary_at_ends in H1; lia. }
  split; [exact En|]. split; [destruct (Hf 0%nat Hn Hx') as (bs & _ & E & _); exact E|].
  unfold message_payload, message_data. f_equal. apply list_eq. intros o. rewrite list_lookup_fmap.
  destruct (decide (o < n)%nat) as [Ho|Ho].
  - rewrite lookup_seq_lt by assumption. cbn. destruct (Hf o Ho ltac:(lia)) as (bs & Hbs & _ & _ & E). rewrite Hbs, <- E. reflexivity.
  - rewrite lookup_seq_ge by lia. cbn. symmetry. apply lookup_ge_None. lia.
Qed.

Lemma boundary_at_whole n o : boundary_at n o = (if (n =? 1)%nat then MessageBoundary.solo
  else if (o =? 0)%nat then MessageBoundary.first else if (o =? n - 1)%nat then MessageBoundary.last else MessageBoundary.subsequent).
Proof. reflexivity. Qed.

(** A read changes nothing or returns the next message. *)
Lemma consistent_read done rest b room : msgs = done ++ rest -> consistent s0 done rest b ->
  let '(r, destination, b') := pop_message b (replicate room 0) in
  (received_error r <> Error.none /\ b' = b) \/
  exists x rest', rest = x :: rest' /\ received_error r = Error.none /\ received_message_number r = x.1 /\
    take (bytes_written r) destination = message_data x /\ capacity b' = capacity b /\ consistent s0 (done ++ [x]) rest' b' /\
    (forall off, (length (frames_of x) + off < capacity b)%nat -> stored b' off = stored b (length (frames_of x) + off)) /\
    forall k, acknowledges b k -> (length (frames_of x) <= k)%nat /\ acknowledges b' (k - length (frames_of x)).
Proof.
  intros Hmsgs [[m I] Hcl Hf Hs [ka Ka]]. pose proof (inv_core b m I) as C. pose proof (core_window b m C) as W.
  destruct (pop_message_cases b m (replicate room 0) I) as [(e & He & ->)|(n & mn & Hw & Hl)]; [left; auto|].
  destruct (pop_message_result b m (replicate room 0) n mn I Hw Hl) as (b' & -> & k & m' & I' & S' & Hn).
  right. destruct Hw as [[Hn0 Hnc] Hw]. cbn [Nat.add] in *.
  assert (Hr0 : rest <> []).
  { intros ->. destruct (Hs 0%nat ltac:(lia)) as [_ H]. destruct (Hw 0%nat Hn0) as (Hr & _). unfold readable in Hr. apply andb_true_iff in Hr as [Ho _].
    destruct (H Ho) as (fr & E & _). discriminate. }
  destruct rest as [|x rest']; [congruence|]. exists x, rest'. split; [reflexivity|]. cbn [received_error received_message_number bytes_written].
  assert (Hx : message_ok x) by (rewrite Hmsgs in Hok; apply Forall_app in Hok as [_ Hok]; apply Forall_cons in Hok; apply Hok).
  destruct (whole_is_next x rest' b n mn) as (En & Em & Ep); [apply Hx|assumption|intros; apply Hs; lia| |].
  { intros o Ho. destruct (Hw o Ho) as (A & _ & B & D). auto. }
  rewrite Ep. split; [reflexivity|]. split; [exact Em|]. split.
  { rewrite Ep in Hl. apply (overwrite_read 0). exact Hl. }
  pose proof (shifted_capacity _ _ _ S') as Ec. split; [exact Ec|]. destruct (Hn Hcl) as [Hcl' Hdrop].
  assert (Ek : k = 0%nat).
  { destruct k as [|k]; [reflexivity|exfalso]. pose proof (shifted_le _ _ _ S'). specialize (Hdrop n ltac:(lia)).
    destruct (Hs n ltac:(lia)) as [Hdr _]. change (lcontent b n).1 with (lslot b n) in Hdr. congruence. }
  subst k. rewrite Nat.add_0_r in S'.
  assert (Hread : forall o, (o < n)%nat -> stored b o = true).
  { intros o Ho. destruct (Hw o Ho) as (Hr & _). unfold readable in Hr. apply andb_true_iff in Hr as [Hoc _]. exact Hoc. }
  split; [split; eauto|split].
  - rewrite (shifted_first _ _ _ S'). unfold seq_at. rewrite Hf, frames_app, length_app. cbn [frames fmap list_fmap concat].
    rewrite app_nil_r, length_frames_of, <- En, !SequenceNumber.advanced_mod, Zplus_mod_idemp_l. f_equal. lia.
  - intros off Ho. rewrite Ec in Ho. destruct (decide (n + off < capacity b)%nat) as [Hlt|Hge].
    + rewrite (shifted_content _ _ _ S') by assumption. specialize (Hs (n + off)%nat Hlt).
      rewrite frames_cons, lookup_app_r in Hs by (rewrite length_frames_of; lia). rewrite length_frames_of, <- En in Hs.
      replace (n + off - n)%nat with off in Hs by lia. exact Hs.
    + destruct (shifted_blank _ _ _ S' off Ho ltac:(lia)) as ((V & _) & Hd & _). split; [exact Hd|].
      change (lcontent b' off).1 with (lslot b' off). rewrite V. discriminate.
  - exists (ka - n)%nat. apply (read_acknowledges b); auto.
  - intros off Ho. rewrite length_frames_of, <- En in *. unfold stored.
    rewrite (lcontent_lslot b b' (n + off) off); [reflexivity|]. apply (shifted_content _ _ _ S'). exact Ho.
  - intros k Hk. rewrite length_frames_of, <- En. split; [|apply (read_acknowledges b); auto].
    destruct (Nat.lt_ge_cases k n) as [Hlt|]; [|assumption]. destruct Hk as (_ & _ & _ & K4). pose proof (Hread k Hlt) as E.
    rewrite K4 in E by lia. discriminate.
Qed.

(** A read with enough room delivers the next message once all of it is stored. *)
Lemma consistent_deliver done x rest b room : msgs = done ++ x :: rest -> consistent s0 done (x :: rest) b ->
  (length x.2 <= capacity b)%nat -> (forall off, (off < length x.2)%nat -> stored b off = true) ->
  (length (message_data x) <= room)%nat ->
  let '(r, destination, b') := pop_message b (replicate room 0) in
  received_error r = Error.none /\ take (bytes_written r) destination = message_data x.
Proof.
  intros Hmsgs Hc Hcap Hst Hroom. pose proof Hc as [[m I] Hcl Hf Hs _].
  assert (Hx : message_ok x) by (rewrite Hmsgs in Hok; apply Forall_app in Hok as [_ Hok]; apply Forall_cons in Hok; apply Hok).
  assert (Hx' : (0 < length x.2)%nat) by (destruct Hx as (_ & Hne & _); destruct x.2; [congruence|cbn; lia]).
  assert (Hslot : forall o, (o < length x.2)%nat -> let s := lslot b o in
    readable s = true /\ payload_offset s = 0%nat /\ msg s = x.1 /\ boundary (header s) = boundary_at (length x.2) o).
  { intros o Ho. destruct (Hs o ltac:(lia)) as [_ H]. destruct (H (Hst o Ho)) as (fr & Efr & A1 & A2 & A3 & A4 & _).
    rewrite frames_cons, lookup_app_l in Efr by (rewrite length_frames_of; assumption).
    destruct (frames_of_lookup x o fr Efr) as (bs & _ & ->). auto. }
  assert (Hw : whole_message b 0 (length x.2) x.1) by (split; [lia|]; intros o Ho; apply (Hslot o Ho)).
  destruct (whole_is_next x rest b (length x.2) x.1) as (_ & _ & Ep); [apply Hx|assumption|intros; apply Hs; lia| |].
  { intros o Ho. destruct (Hslot o Ho) as (A1 & _ & A3 & A4). auto. }
  destruct (pop_message_result b m (replicate room 0) _ _ I Hw) as (b' & -> & _); [rewrite Ep, length_replicate; exact Hroom|].
  cbn [received_error bytes_written]. split; [reflexivity|]. rewrite Ep. apply (overwrite_read 0). rewrite length_replicate. exact Hroom.
Qed.
End stream.


(** * Runs *)

(** Every packet that arrives carries a frame of the stream, within half the sequence
    space of the packets that have been read: [read] messages have. *)
Definition timely (s0 : SequenceNumber.t) (msgs : list Message) (read : nat) (packet : PacketView) : Prop :=
  exists i, carries s0 (frames msgs) i packet /\
    Z.abs (Z.of_nat i - Z.of_nat (length (frames (take read msgs)))) < SequenceNumber.half_range.

Fixpoint genuine (s0 : SequenceNumber.t) (msgs : list Message) (st : t * list (list Z)) (es : list event) : Prop :=
  match es with
  | [] => True
  | e :: es =>
    match e with Arrive packet => timely s0 msgs (length st.2) packet | Read _ => True end /\
    genuine s0 msgs (receive st e) es
  end.

(** A run has delivered [done]: the state holds frames of the rest. *)
Record run_state (s0 : SequenceNumber.t) (msgs : list Message) (cap : nat) (st : t * list (list Z)) (done rest : list Message) : Prop := {
  run_split : msgs = done ++ rest;
  run_output : st.2 = message_data <$> done;
  run_consistent : consistent s0 done rest st.1;
  run_capacity : capacity st.1 = cap;
}.

Lemma start_consistent s0 msgs cap arena b : SequenceNumber.wf s0 -> length arena = (cap * PayloadPool.width)%nat ->
  make s0 cap arena = Some b -> run_state s0 msgs cap (b, []) [] msgs.
Proof.
  intros Hs Ha Hm. destruct (receive_make_inv s0 cap arena b Hs Ha Hm) as [I Ec]. split; auto. cbn [fst].
  pose proof (core_window _ _ (inv_core _ _ I)) as W.
  assert (Eb : (first_stored_sequence b = s0 /\ next_ack_sequence b = s0) /\ (forall i, (i < capacity b)%nat -> slot_at b i = default_slot) /\ discarding_message b = None).
  { unfold make in Hm. destruct (PayloadPool.make cap arena); [|discriminate]. destruct (_ || _); [discriminate|].
    destruct (OccupiedIndex.layout cap) as [[offsets total]|]; [|discriminate]. injection Hm as <-. split_and!; auto.
    intros i Hi. unfold capacity in Hi. cbn in Hi. rewrite length_replicate in Hi. unfold slot_at. cbn. apply lookup_total_replicate_2. assumption. }
  destruct Eb as ([E1 E0] & E2 & E3).
  assert (El : forall off, lslot b off = default_slot) by (intros off; apply E2, position_lt, W).
  split; eauto.
  - rewrite has_rejections_window by assumption. split; [|exact E3]. intros off _. rewrite El. reflexivity.
  - rewrite E1, SequenceNumber.advanced_mod. cbn. rewrite Z.add_0_r, Z.mod_small; [reflexivity|exact Hs].
  - intros off Ho. split; change (lcontent b off).1 with (lslot b off); rewrite El; [reflexivity|discriminate].
  - exists 0%nat. split_and!; [lia|rewrite E0, <- E1; symmetry; apply seq_at_0, W|lia|]. intros _. unfold stored. rewrite El. reflexivity.
Qed.

Section runs.
Context (s0 : SequenceNumber.t) (msgs : list Message) (cap : nat).
Hypothesis Hok : Forall message_ok msgs.

Lemma run_read st done rest : run_state s0 msgs cap st done rest -> take (length st.2) msgs = done.
Proof. intros [-> -> _ _]. rewrite length_fmap. apply take_app_length. Qed.

Lemma receive_arrive packet st done rest : timely s0 msgs (length st.2) packet -> run_state s0 msgs cap st done rest ->
  run_state s0 msgs cap (receive st (Arrive packet)) done rest /\
  (forall off, (off < cap)%nat -> stored st.1 off = true -> stored (receive st (Arrive packet)).1 off = true) /\
  (forall off, (off < cap)%nat -> carries s0 (frames msgs) (length (frames done) + off) packet ->
     Z.of_nat off < SequenceNumber.half_range -> stored (receive st (Arrive packet)).1 off = true).
Proof.
  intros (i & Hc & Hd) R. rewrite (run_read st done rest R) in Hd. destruct R as [H1 H2 H3 H4].
  destruct (consistent_arrive s0 msgs Hok done rest st.1 i packet H1 Hc Hd H3) as (C' & E & K1 & _). rewrite H4 in *.
  split; [split; auto|]. split; [exact K1|]. intros off Ho Hc' Hoff.
  destruct (consistent_arrive s0 msgs Hok done rest st.1 _ packet H1 Hc' ltac:(lia) H3) as (_ & _ & _ & K2). rewrite H4 in K2. auto.
Qed.

Lemma receive_step e st done rest : match e with Arrive packet => timely s0 msgs (length st.2) packet | Read _ => True end ->
  run_state s0 msgs cap st done rest -> exists done' rest', run_state s0 msgs cap (receive st e) done' rest'.
Proof.
  intros Hg R. destruct e as [packet|room]; [exists done, rest; apply (receive_arrive packet st done rest Hg R)|].
  destruct R as [H1 H2 H3 H4]. cbn [receive].
  pose proof (consistent_read s0 msgs Hok done rest st.1 room H1 H3) as R. destruct (pop_message _ _) as [[r destination] b'].
  destruct R as [[Hne ->]|(x & rest' & Er & He & _ & Ed & Ec & C' & _ & _)].
  - rewrite bool_decide_eq_false_2 by assumption. exists done, rest. split; auto.
  - rewrite bool_decide_eq_true_2, Ed by assumption. exists (done ++ [x]), rest'. split; auto.
    + rewrite H1, Er, <- app_assoc. reflexivity.
    + cbn. rewrite H2, fmap_app. reflexivity.
    + cbn. congruence.
Qed.

Lemma receive_run es st done rest : genuine s0 msgs st es -> run_state s0 msgs cap st done rest ->
  exists done' rest', run_state s0 msgs cap (receive_all st es) done' rest'.
Proof.
  revert st done rest. induction es as [|e es IH]; intros st done rest Hg H; [eauto|].
  destruct Hg as [Hg1 Hg2]. destruct (receive_step e st done rest Hg1 H) as (d1 & r1 & H'). exact (IH _ d1 r1 Hg2 H').
Qed.

(** Frame [i] of the stream has been read or is stored in the window. *)
Definition held (st : t * list (list Z)) (i : nat) : Prop :=
  let read := length (frames (take (length st.2) msgs)) in
  (i < read)%nat \/ (read <= i < read + cap)%nat /\ stored st.1 (i - read) = true.

(** No event loses a frame that is held. *)
Lemma receive_held e st done rest i : match e with Arrive packet => timely s0 msgs (length st.2) packet | Read _ => True end ->
  run_state s0 msgs cap st done rest -> held st i -> held (receive st e) i.
Proof.
  intros Hg R Hi. unfold held in *. rewrite (run_read st done rest R) in Hi. destruct e as [packet|room].
  - destruct (receive_arrive packet st done rest Hg R) as (R' & K & _). rewrite (run_read _ _ _ R').
    destruct Hi as [Hi|[Hi Hs]]; [auto|]. right. split; [exact Hi|]. apply K; [lia|exact Hs].
  - pose proof R as [H1 H2 H3 H4]. cbn [receive].
    pose proof (consistent_read s0 msgs Hok done rest st.1 room H1 H3) as C. destruct (pop_message _ _) as [[r destination] b'].
    destruct C as [[Hne ->]|(x & rest' & Er & He & _ & Ed & Ec & _ & Hst & _)].
    + rewrite bool_decide_eq_false_2 by assumption. cbn [fst snd]. rewrite (run_read st done rest R). exact Hi.
    + rewrite bool_decide_eq_true_2 by assumption. cbn [fst snd]. rewrite H4 in Hst.
      assert (Et : take (length (st.2 ++ [take (bytes_written r) destination])) msgs = done ++ [x]).
      { rewrite length_app, H2, length_fmap, H1, Er. cbn [length]. rewrite (cons_middle x), app_assoc. apply take_app_length'.
        rewrite length_app. reflexivity. }
      rewrite Et, frames_app, length_app. change (frames [x]) with (frames_of x ++ []). rewrite app_nil_r.
      destruct Hi as [Hi|[Hi Hs]]; [left; lia|].
      destruct (Nat.lt_ge_cases i (length (frames done) + length (frames_of x))) as [Hlt|Hge]; [auto|]. right. split; [lia|].
      rewrite Hst by lia. rewrite <- Hs. f_equal. lia.
Qed.

Lemma run_held es st done rest i : genuine s0 msgs st es -> run_state s0 msgs cap st done rest ->
  held st i -> held (receive_all st es) i.
Proof.
  revert st done rest. induction es as [|e es IH]; intros st done rest Hg R Hi; [exact Hi|].
  destruct Hg as [Hg1 Hg2]. destruct (receive_step e st done rest Hg1 R) as (d1 & r1 & R').
  exact (IH _ d1 r1 Hg2 R' (receive_held e st done rest i Hg1 R Hi)).
Qed.

Lemma genuine_app es1 es2 st : genuine s0 msgs st (es1 ++ es2) <->
  genuine s0 msgs st es1 /\ genuine s0 msgs (receive_all st es1) es2.
Proof.
  revert st. induction es1 as [|e es1 IH]; intros st; cbn [app genuine]; [tauto|].
  rewrite IH. unfold receive_all. cbn [fold_left]. tauto.
Qed.

(** Frame [i] arrived during the run, at a moment when it lay at most [cap] packets
    behind what had been read. *)
Definition arrived (st : t * list (list Z)) (es : list event) (i : nat) : Prop :=
  exists es1 packet es2, es = es1 ++ Arrive packet :: es2 /\ carries s0 (frames msgs) i packet /\
    (i < length (frames (take (length (receive_all st es1).2) msgs)) + cap)%nat.

Lemma arrived_held es st done rest i : genuine s0 msgs st es -> run_state s0 msgs cap st done rest ->
  arrived st es i -> held (receive_all st es) i.
Proof.
  intros Hg R (es1 & packet & es2 & -> & Hc & Hi). apply genuine_app in Hg as [Hg1 [Hp Hg2]].
  destruct (receive_run es1 st done rest Hg1 R) as (d1 & r1 & R1).
  destruct (receive_arrive packet _ d1 r1 Hp R1) as (R2 & _ & K).
  unfold receive_all. rewrite fold_left_app. fold (receive_all st es1). set (st1 := receive_all st es1) in *.
  cbn [fold_left]. fold (receive_all (receive st1 (Arrive packet)) es2). apply (run_held _ _ d1 r1 i Hg2 R2).
  assert (Hhalf : Z.of_nat cap < SequenceNumber.half_range).
  { destruct R1 as [_ _ [[m I] _ _ _ _] <-]. apply (core_window _ _ (inv_core _ _ I)). }
  unfold held. rewrite (run_read _ _ _ R1) in Hi. rewrite (run_read _ _ _ R2).
  destruct (Nat.lt_ge_cases i (length (frames d1))); [auto|]. right. split; [lia|].
  apply K; [lia| |lia]. replace (length (frames d1) + (i - length (frames d1)))%nat with i by lia. exact Hc.
Qed.
End runs.

(** * An example stream *)

Definition frame_packet (s : Z) (f : Frame) : PacketView :=
  {| kind := PacketKind.data;
     data := {| sequence := s; message_number := frame_number f; boundary := frame_boundary f; in_order := true;
                encryption_key := EncryptionKey.none; retransmitted := false; timestamp := s; destination_socket_id := 0 |};
     control := default_control_header; payload := frame_payload f |}.

Definition example_messages : list Message := [(1, [[10; 11]; [12]]); (2, [[13]])].
Definition first_half : PacketView := frame_packet 0 {| frame_number := 1; frame_boundary := MessageBoundary.first; frame_payload := [10; 11] |}.
Definition second_half : PacketView := frame_packet 1 {| frame_number := 1; frame_boundary := MessageBoundary.last; frame_payload := [12] |}.
Definition second_message : PacketView := frame_packet 2 {| frame_number := 2; frame_boundary := MessageBoundary.solo; frame_payload := [13] |}.

(** The second message arrives first, then the first one twice and backwards. *)
Definition example_run : list event :=
  [Arrive second_message; Arrive second_half; Read 8; Arrive first_half; Arrive second_half; Read 8].

Lemma example_messages_ok : Forall message_ok example_messages.
Proof. repeat constructor; cbn; first [lia|discriminate|unfold maximum_data_payload_size; cbn; lia]. Qed.

Lemma example_carries : carries 0 (frames example_messages) 0 first_half /\
  carries 0 (frames example_messages) 1 second_half /\ carries 0 (frames example_messages) 2 second_message.
Proof. split_and!; (eexists; split_and!; [vm_compute; reflexivity|reflexivity..]). Qed.

Lemma example_timely i p read : carries 0 (frames example_messages) i p -> (i < 3)%nat -> (read < 2)%nat ->
  timely 0 example_messages read p.
Proof.
  intros H Hi Hr. exists i. split; [exact H|]. assert (Hl : (length (frames (take read example_messages)) <= 2)%nat).
  { destruct read as [|[|read]]; [cbn; lia|cbn; lia|lia]. }
  SequenceNumber.consts. lia.
Qed.

Lemma example_run_genuine : genuine 0 example_messages (empty_buffer, []) example_run.
Proof.
  destruct example_carries as (H1 & H2 & H3). unfold example_run. cbn [genuine].
  split_and!; try exact I; (eapply example_timely; [eassumption|lia|]); apply Nat.ltb_lt; vm_compute; reflexivity.
Qed.

(** * Theorems *)

(** Messages come out of the receive buffer whole, unaltered and in order.
    However packets of a message stream of any length are reordered, duplicated,
    retransmitted, lost or interleaved with reads, the messages read so far are the
    first ones of the stream, byte for byte.  The network only has to deliver each
    packet within half the sequence space of the reader's position, which the 31-bit
    sequence numbers need to be unambiguous. *)
Theorem reassembly_in_order s0 cap arena b msgs es : SequenceNumber.wf s0 -> length arena = (cap * PayloadPool.width)%nat ->
  make s0 cap arena = Some b -> Forall message_ok msgs ->
  genuine s0 msgs (b, []) es -> (receive_all (b, []) es).2 `prefix_of` (message_data <$> msgs).
Proof.
  intros Hs Ha Hm Hok Hg. pose proof (start_consistent s0 msgs cap arena b Hs Ha Hm) as H0.
  destruct (receive_run s0 msgs cap Hok es _ _ _ Hg H0) as (done & rest & [H1 H2 _ _]).
  rewrite H2, H1, fmap_app. apply prefix_app_r. reflexivity.
Qed.

Lemma reassembly_in_order_witness : (receive_all (empty_buffer, []) example_run).2 = [[10; 11; 12]] /\
  (receive_all (empty_buffer, []) example_run).2 `prefix_of` (message_data <$> example_messages).
Proof.
  split; [vm_compute; reflexivity|]. apply (reassembly_in_order 0 4 (replicate (4 * PayloadPool.width) 0)).
  - unfold SequenceNumber.wf. SequenceNumber.consts. lia.
  - apply length_replicate.
  - exact empty_buffer_make.
  - exact example_messages_ok.
  - exact example_run_genuine.
Defined.

(** C9: The receive buffer keeps what it needs and cannot get stuck.  Take any such run,
    with reads, failed reads, losses and repetitions anywhere in it.  If every packet
    of the next unread message has arrived at some point of the run, each at a moment
    when it lay within the window of [cap] packets after those already read, then a read
    with enough room returns that message: no read or arrival in between has lost a
    stored packet. *)
Theorem reassembly_progress s0 cap arena b msgs es x room : SequenceNumber.wf s0 -> length arena = (cap * PayloadPool.width)%nat ->
  make s0 cap arena = Some b -> Forall message_ok msgs ->
  genuine s0 msgs (b, []) es ->
  let st := receive_all (b, []) es in
  let read := length st.2 in
  msgs !! read = Some x -> (length (message_data x) <= room)%nat ->
  (forall j, (j < length x.2)%nat -> arrived s0 msgs cap (b, []) es (length (frames (take read msgs)) + j)) ->
  (receive_all (b, []) (es ++ [Read room])).2 = st.2 ++ [message_data x].
Proof.
  intros Hs Ha Hm Hok Hg st read Hx Hroom Hall. pose proof (start_consistent s0 msgs cap arena b Hs Ha Hm) as H0.
  destruct (receive_run s0 msgs cap Hok es _ _ _ Hg H0) as (done & rest & R). fold st in R. pose proof R as [H1 H2 H3 H4].
  assert (Er : read = length done) by (unfold read; rewrite H2, length_fmap; reflexivity).
  assert (Et : take read msgs = done) by (rewrite Er, H1, take_app_length; reflexivity).
  rewrite Er, H1, lookup_app_r in Hx by reflexivity. rewrite Nat.sub_diag in Hx. destruct rest as [|y rest]; [discriminate|]. injection Hx as ->.
  assert (Hst : forall j, (j < length x.2)%nat -> (j < cap)%nat /\ stored st.1 j = true).
  { intros j Hj. pose proof (arrived_held s0 msgs cap Hok es _ _ _ _ Hg H0 (Hall j Hj)) as K. fold st in K.
    unfold held in K. fold read in K. rewrite Et in K. destruct K as [K|[K1 K2]]; [lia|]. split; [lia|].
    rewrite <- K2. f_equal. lia. }
  assert (Hcap : (length x.2 <= capacity st.1)%nat).
  { destruct (decide (length x.2 = 0%nat)); [lia|]. destruct (Hst (length x.2 - 1)%nat ltac:(lia)). lia. }
  unfold receive_all at 1. rewrite fold_left_app. fold (receive_all (b, []) es). fold st. cbn [fold_left receive].
  pose proof (consistent_deliver s0 msgs Hok done x rest st.1 room H1 H3 Hcap (fun j Hj => proj2 (Hst j Hj)) Hroom) as D.
  destruct (pop_message st.1 (replicate room 0)) as [[r destination] b']. destruct D as [D1 D2].
  cbn [snd]. rewrite bool_decide_eq_true_2, D2 by assumption. reflexivity.
Qed.

(** In the example the second message arrived first of all, before a failed and a successful
    read. *)
Lemma reassembly_progress_witness :
  (receive_all (empty_buffer, []) (example_run ++ [Read 8])).2 = [[10; 11; 12]; [13]].
Proof.
  assert (E : (receive_all (empty_buffer, []) example_run).2 = [[10; 11; 12]]) by (vm_compute; reflexivity).
  destruct example_carries as (_ & _ & H3).
  rewrite (reassembly_progress 0 4 (replicate (4 * PayloadPool.width) 0) empty_buffer example_messages example_run (2, [[13]]) 8).
  - rewrite E. reflexivity.
  - unfold SequenceNumber.wf. SequenceNumber.consts. lia.
  - apply length_replicate.
  - exact empty_buffer_make.
  - exact example_messages_ok.
  - exact example_run_genuine.
  - rewrite E. reflexivity.
  - cbn. lia.
  - rewrite E. intros j Hj. replace j with 0%nat by (cbn in Hj; lia).
    exists [], second_message, (drop 1 example_run). split; [reflexivity|]. split; [exact H3|vm_compute; lia].
Defined.
