(* ===== verification/LinkSender.v ===== *)
(** The sending side of a link: the send buffer holds the frames of a message stream
    that the receiver has not acknowledged yet, and every packet it hands out carries
    one of them. *)
From stdpp Require Import gmap.
From S2P Require Import Prelude Sequence Packet Codec Control LossList.
From S2P Require Import RangeDropQueue PayloadPool Fenwick SendBuffer SendBufferFacts SendBufferSteps SendBufferTheorems.
From S2P Require Import MessageStream.
Import SendBuffer.

(** * Packets as datagrams *)

(** The runtime sends an outbound packet as one datagram: header and payload. *)
Definition data_packet (p : OutboundPacket) : PacketView :=
  {| kind := PacketKind.data; data := out_header p; control := default_control_header; payload := out_payload p |}.

Definition datagram (p : OutboundPacket) : list Z :=
  (encode_packet (data_packet p) (replicate (packet_header_size + length (out_payload p)) 0)).2.

Definition header_ok (h : DataHeader) : Prop :=
  SequenceNumber.wf (sequence h) /\ 0 <= message_number h < 2 ^ 26 /\ is_u32 (timestamp h) /\
  is_u32 (destination_socket_id h).

Lemma datagram_decodes p : header_ok (out_header p) -> decode_packet (datagram p) = Ok (data_packet p).
Proof.
  intros (H1 & H2 & H3 & H4). assert (Hwf : packet_wf (data_packet p)) by (split_and!; auto; apply H2).
  pose proof (encoded_decodes (data_packet p) (replicate (packet_header_size + length (out_payload p)) 0) Hwf) as H.
  change (encoded_payload (data_packet p)) with (out_payload p) in H. rewrite length_replicate in H. specialize (H (le_n _)).
  unfold datagram. destruct (encode_packet _ _) as [r storage] eqn:E. cbn [snd]. destruct H as (_ & Hd & Hr).
  rewrite (drop_ge (replicate _ _)) in Hr by (rewrite length_replicate; reflexivity).
  assert (Hl : (length storage <= packet_header_size + length (out_payload p))%nat).
  { apply (f_equal length) in Hr. rewrite length_drop in Hr. cbn [length] in Hr. lia. }
  rewrite take_ge in Hd by exact Hl. rewrite Hd. destruct p. reflexivity.
Qed.

(** * What the buffer holds *)

Record slot_carries (b : t) (s : Slot) (f : Frame) : Prop := {
  sc_occupied : occupied s = true;
  sc_number : message_number (header s) = frame_number f;
  sc_boundary : boundary (header s) = frame_boundary f;
  sc_payload : PayloadPool.get (payloads b) (payload_index s) = frame_payload f;
  sc_header : header_ok (header s);
}.

(** The buffer holds the frames of the stream from number [acked] on. *)
Record sending (s0 : SequenceNumber.t) (fs : list Frame) (acked : nat) (b : t) : Prop := {
  snd_inv : exists m, inv b m;
  snd_first : first_sequence b = SequenceNumber.advanced s0 (Z.of_nat acked);
  snd_length : length fs = (acked + sequence_span b)%nat;
  snd_position : next_sequence_position b = Z.of_nat (length fs);
  snd_packets : forall o s, packets b !! o = Some s ->
    exists f, fs !! (acked + o)%nat = Some f /\ slot_carries b s f /\ sequence_position s = Z.of_nat (acked + o);
}.

Section sender.
Context (s0 : SequenceNumber.t).

Lemma packet_number fs acked b m o s : sending s0 fs acked b -> inv b m -> packets b !! o = Some s ->
  sequence (header s) = SequenceNumber.advanced s0 (Z.of_nat (acked + o)).
Proof.
  intros H I Ho. rewrite (inv_sequence _ _ I o s Ho), (snd_first _ _ _ _ H), !SequenceNumber.advanced_mod, Zplus_mod_idemp_l.
  f_equal. lia.
Qed.

(** Packets handed out, for the first time or again, carry their frame. *)
Lemma handed_out fs acked b o s : sending s0 fs acked b -> packets b !! o = Some s ->
  forall p, p = outbound b s \/ p = outbound_retransmission b s ->
  header_ok (out_header p) /\ out_sequence_position p = Z.of_nat (acked + o) /\ carries s0 fs (acked + o) (data_packet p).
Proof.
  intros H Ho p Hp. destruct (snd_inv _ _ _ _ H) as [m I]. destruct (snd_packets _ _ _ _ H o s Ho) as (f & Hf & [C1 C2 C3 C4 C5] & C6).
  pose proof (packet_number fs acked b m o s H I Ho) as Hseq.
  assert (E : sequence (out_header p) = sequence (header s) /\ message_number (out_header p) = message_number (header s) /\
    boundary (out_header p) = boundary (header s) /\ timestamp (out_header p) = timestamp (header s) /\
    destination_socket_id (out_header p) = destination_socket_id (header s) /\
    out_payload p = PayloadPool.get (payloads b) (payload_index s) /\ out_sequence_position p = sequence_position s) by (destruct Hp as [->| ->]; split_and!; reflexivity).
  destruct E as (E1 & E2 & E3 & E4 & E5 & E6 & E7). split_and!.
  - unfold header_ok in *. rewrite E1, E2, E4, E5. exact C5.
  - congruence.
  - exists f. cbn [data_packet kind data payload]. rewrite E1, E2, E3, E6. split_and!; auto.
Qed.

(** Bookkeeping keeps the frames. *)
Lemma sending_evolves fs acked b b' : evolves b b' -> sending s0 fs acked b -> sending s0 fs acked b'.
Proof.
  intros E [[m I] H1 H2 Hpos H3]. pose proof (ev_frame _ _ E) as F. split.
  - exists m. exact (evolves_inv _ _ _ I E).
  - rewrite (fr_first _ _ F). exact H1.
  - rewrite (fr_span _ _ F). exact H2.
  - rewrite (fr_position _ _ F). exact Hpos.
  - intros o s Ho. destruct (similar_lookup _ _ _ _ (evolves_packets _ _ E) Ho) as (x & Hx & S).
    destruct (H3 o x Hx) as (f & Hf & [C1 C2 C3 C4 C5] & C6). exists f. split; [exact Hf|].
    split; [|rewrite (sim_position _ _ S); exact C6]. split; rewrite ?(sim_occupied _ _ S), ?(sim_header _ _ S), ?(sim_index _ _ S), ?(fr_payloads _ _ F); assumption.
Qed.

(** Sending an original only marks it. *)
Lemma sending_original fs acked b defer now o : sending s0 fs acked b -> (next_unsent_offset b <= o < sequence_span b)%nat ->
  unsent (slot_at b o) = true -> (forall k, (next_unsent_offset b <= k < o)%nat -> unsent (slot_at b k) = false) ->
  sending s0 fs acked (send_original defer now o b).
Proof.
  intros [[m I] H1 H2 Hpos H3] Ho Hu Hk. destruct (send_original_inv defer now o b m I Ho Hu Hk) as [I' Ep].
  split; [eauto|exact H1|exact H2|exact Hpos|]. intros o' s Hs. rewrite Ep in Hs.
  apply list_lookup_insert_Some in Hs as [(<- & <- & _)|[_ Hs]]; [|destruct (H3 _ _ Hs) as (f & Hf & C & C6); exists f; split_and!; [exact Hf|destruct C; split; assumption|exact C6]].
  destruct (H3 o (slot_at b o)) as (f & Hf & [C1 C2 C3 C4 C5] & C6); [apply (slot_at_packets b m); [exact I|lia]|].
  exists f. split_and!; [exact Hf| |exact C6]. split; assumption.
Qed.

Lemma sending_cursor fs acked b : sending s0 fs acked b ->
  (forall k, (next_unsent_offset b <= k < sequence_span b)%nat -> unsent (slot_at b k) = false) ->
  sending s0 fs acked (set_next_unsent_offset (sequence_span b) b).
Proof.
  intros [[m I] H1 H2 Hpos H3] Hk. split; [exists m; apply cursor_inv; assumption|exact H1|exact H2|exact Hpos|].
  intros o s Ho. destruct (H3 o s Ho) as (f & Hf & C & C6). exists f. split_and!; [exact Hf| |exact C6]. destruct C; split; assumption.
Qed.

Lemma packet_index b m s : inv b m -> s ∈ packets b -> exists o, (o < sequence_span b)%nat /\ packets b !! o = Some s.
Proof.
  intros I Hs. apply list_elem_of_lookup in Hs as [o Ho]. exists o. split; [|exact Ho].
  apply lookup_lt_Some in Ho. rewrite (length_packets b m I) in Ho. exact Ho.
Qed.

Lemma sending_next fs acked b defer allow now : sending s0 fs acked b ->
  let '(r, b') := next_packet b defer allow now in
  sending s0 fs acked b' /\
  (forall p, r = Some p -> header_ok (out_header p) /\ exists i, out_sequence_position p = Z.of_nat i /\ carries s0 fs i (data_packet p)).
Proof.
  intros H. pose proof (snd_inv _ _ _ _ H) as [m I]. unfold next_packet.
  assert (Hr : let '(r, b1) := (if allow then next_retransmission (retransmission_size b) defer b else (None, b)) in
    sending s0 fs acked b1 /\ forall p, r = Some p -> header_ok (out_header p) /\ exists i, out_sequence_position p = Z.of_nat i /\ carries s0 fs i (data_packet p)).
  { destruct allow; [|split; [exact H|discriminate]].
    pose proof (next_retransmission_spec defer (retransmission_size b) b m I (le_n _)) as R.
    destruct (next_retransmission _ _ _) as [[p|] b1]; destruct R as [R1 R2]; (split; [exact (sending_evolves _ _ _ _ R1 H)|]); [|discriminate].
    intros p' [= <-]. destruct R2 as (s & (D1 & _) & ->). destruct (packet_index b m s I D1) as (o & _ & Ho).
    destruct (handed_out fs acked b o s H Ho _ (or_intror eq_refl)) as [Q1 Q2]. eauto. }
  destruct (if allow then _ else _) as [[p|] b1]; destruct Hr as [H1 Hp]; [split; [exact H1|]; intros p' [= <-]; auto|].
  clear Hp. pose proof (snd_inv _ _ _ _ H1) as [m1 I1]. pose proof (inv_cursor _ _ I1) as Hc.
  pose proof (next_original_spec defer now b1 (sequence_span b1 - next_unsent_offset b1) (next_unsent_offset b1) ltac:(lia)) as R.
  rewrite set_cursor_id in R. destruct (next_original _ _ _ _) as [[p|] b2].
  - destruct R as (o & Ho & Hu & Hk & -> & ->). split; [apply sending_original; assumption|]. intros p' [= <-].
    destruct (handed_out fs acked b1 o (slot_at b1 o) H1) with (p := outbound b1 (slot_at b1 o)) as [Q1 Q2]; eauto.
    apply (slot_at_packets b1 m1); [exact I1|lia].
  - destruct R as [Hk ->]. split; [apply sending_cursor; assumption|discriminate].
Qed.

(** * Submitting and retiring *)

Lemma boundary_of_at n j : (j < n)%nat -> boundary_of (j =? 0)%nat (j + 1 =? n)%nat = boundary_at n j.
Proof.
  intros Hj. unfold boundary_of, boundary_at.
  destruct (Nat.eqb_spec j 0), (Nat.eqb_spec (j + 1) n), (Nat.eqb_spec n 1), (Nat.eqb_spec j (n - 1)); cbn; reflexivity || lia.
Qed.

(** The message as the stream carries it. *)
Definition submitted_message (b : t) (message : list Z) (p : EnqueueParameters) : Message :=
  (Z.land (enqueue_message_number p) 0x03ffffff, fragments (packet_count b message) (maximum_payload_size b) message).

Definition parameters_ok (p : EnqueueParameters) : Prop := is_u32 (enqueue_timestamp p) /\ is_u32 (enqueue_destination p).

Lemma masked_number n : 0 <= Z.land n 0x03ffffff < 2 ^ 26.
Proof. change 0x03ffffff with (Z.ones 26). rewrite Z.land_ones by lia. apply Z.mod_pos_bound. lia. Qed.

Lemma submitted_ok b m message p : inv b m -> message <> [] ->
  message_ok (submitted_message b message p) /\ message_data (submitted_message b message p) = message.
Proof.
  intros I Hne. pose proof (core_payload _ _ (inv_core _ _ I)) as [Hmax Hmax'].
  pose proof (packet_count_bounds b message ltac:(lia) Hne) as Hc. split; [split_and!|].
  - cbn. pose proof (masked_number (enqueue_message_number p)). unfold is_u32. lia.
  - cbn. intros E. apply (f_equal length) in E. rewrite length_fragments in E. cbn in E. rewrite E in Hc.
    destruct message; [congruence|cbn in Hc; lia].
  - cbn. apply Forall_forall. intros bs Hbs. pose proof (fragments_small _ _ _ _ Hbs). lia.
  - unfold message_data. cbn. rewrite concat_fragments. apply take_ge. exact Hc.
Qed.

Lemma sending_submit fs acked b message p : sending s0 fs acked b -> parameters_ok p ->
  match enqueue_message b message p with
  | (Error.none, b') => message <> [] /\ sending s0 (fs ++ frames_of (submitted_message b message p)) acked b'
  | (_, b') => b' = b
  end.
Proof.
  intros H [Hts Hds]. pose proof H as [[m I] H1 H2 Hpos H3]. pose proof (enqueue_message_spec b m message p I) as E.
  pose proof (enqueue_message_position b m message p I) as Epos. pose proof (inv_position _ _ I) as Hp0.
  pose proof (enqueue_message_first b message p) as Ef.
  destruct (enqueue_message b message p) as [[] b']; try (exact (proj1 E)). cbn [snd] in Ef.
  destruct (Epos eq_refl) as [Epos1 Epos2]. cbn [snd] in Epos1.
  destruct E as (Hne & m' & new & I' & Hm & Ep & El & _ & Hnew). split; [exact Hne|].
  assert (Espan : sequence_span b' = (sequence_span b + length new)%nat).
  { rewrite <- (length_packets b' m' I'), Ep, length_app, (length_packets b m I). reflexivity. }
  split; [eauto|rewrite Ef; exact H1| | |].
  - rewrite length_app, length_frames_of, Espan. cbn. rewrite length_fragments. lia.
  - rewrite Epos1, Hpos, length_app, length_frames_of. cbn. rewrite length_fragments. lia.
  - intros o s Ho. rewrite Ep in Ho. apply lookup_app_Some in Ho as [Ho|[Hge Ho]].
    + destruct (H3 o s Ho) as (f & Hf & [C1 C2 C3 C4 C5] & C6). exists f. split_and!; [apply lookup_app_l_Some, Hf| |exact C6]. split; auto.
      rewrite <- C4. pose proof (list_elem_of_lookup_2 _ _ _ Ho) as Hin.
      pose proof (same_payload b m b' m' s I I' (or_introl Hm) Hin) as Hs.
      exact (f_equal out_payload (Hs ltac:(rewrite Ep; apply elem_of_app; auto) C1)).
    + rewrite (length_packets b m I) in Hge, Ho. set (j := (o - sequence_span b)%nat) in *.
      assert (Hj : (j < packet_count b message)%nat) by (rewrite <- El; exact (lookup_lt_Some _ _ _ Ho)).
      destruct (lookup_lt_is_Some_2 (fragments (packet_count b message) (maximum_payload_size b) message) j) as [bytes Hb];
        [rewrite length_fragments; exact Hj|].
      destruct (Hnew j s bytes Ho Hb) as [N1 N2 N3 N4 N5 N6].
      eexists. split.
      { rewrite lookup_app_r by lia. replace (acked + o - length fs)%nat with j by lia.
        unfold frames_of. rewrite list_lookup_imap. cbn [snd submitted_message]. rewrite Hb. reflexivity. }
      split; [|rewrite N5, u64_id; [lia|unfold is_u64, u64_max in *; lia]].
      split; cbn [frame_number frame_boundary frame_payload]; rewrite ?N6; cbn; auto.
      * rewrite length_fragments. apply boundary_of_at, Hj.
      * apply (PayloadPool.inv_get _ _ _ (core_pool _ _ (inv_core _ _ I')) _ _ N2).
      * split_and!; cbn; auto; try apply masked_number. apply SequenceNumber.advanced_wf.
Qed.

(** An acknowledgement of the first [i] packets of the stream retires those still
    buffered. *)
Lemma sending_acknowledge fs acked b i : sending s0 fs acked b -> (i <= length fs)%nat ->
  Z.abs (Z.of_nat i - Z.of_nat acked) < SequenceNumber.half_range ->
  sending s0 fs (Nat.max acked i) (acknowledge_before b (SequenceNumber.advanced s0 (Z.of_nat i))).2.
Proof.
  intros H Hi Hd. pose proof H as [[m I] H1 H2 Hpos H3]. set (q := SequenceNumber.advanced s0 (Z.of_nat i)).
  assert (Hq : SequenceNumber.wf q) by apply SequenceNumber.advanced_wf.
  assert (Ed : SequenceNumber.distance_from q (first_sequence b) = Z.of_nat i - Z.of_nat acked).
  { rewrite H1. apply SequenceNumber.distance_unique; [lia|]. unfold q. rewrite !SequenceNumber.advanced_mod, <- Zminus_mod. f_equal. lia. }
  pose proof (acknowledge_spec b m q I Hq) as E. pose proof (acknowledge_first b q) as Ef. cbv zeta in E, Ef. rewrite Ed in E, Ef.
  pose proof (acknowledge_position b m q I Hq) as Epos.
  destruct (acknowledge_before b q) as [e b']. cbn [fst snd] in *.
  assert (Hcase : e = Error.none) by (destruct e; [reflexivity|exfalso; destruct E as (_ & _ & E); lia..]). subst e.
  destruct E as (Ep & Eneg & m' & Hm & I'). specialize (Ef eq_refl).
  destruct (Z.ltb_spec (Z.of_nat i - Z.of_nat acked) 0) as [Hlt|Hge].
  { rewrite (Eneg Hlt). replace (Nat.max acked i) with acked by lia. exact H. }
  destruct (Ef Hge) as [_ Ef']. replace (Nat.max acked i) with i by lia.
  replace (Z.to_nat (Z.of_nat i - Z.of_nat acked)) with (i - acked)%nat in Ep by lia.
  assert (Espan : sequence_span b' = (sequence_span b - (i - acked))%nat).
  { rewrite <- (length_packets b' m' I'), Ep, length_drop, (length_packets b m I). reflexivity. }
  split; [eauto|exact Ef'|lia|congruence|]. intros o s Ho. pose proof Ho as Ho'. rewrite Ep, lookup_drop in Ho.
  destruct (H3 _ s Ho) as (f & Hf & [C1 C2 C3 C4 C5] & C6). exists f. split_and!; [rewrite <- Hf; f_equal; lia| |rewrite C6; f_equal; lia]. split; auto.
  rewrite <- C4. pose proof (same_payload b m b' m' s I I' (or_intror Hm) (list_elem_of_lookup_2 _ _ _ Ho) (list_elem_of_lookup_2 _ _ _ Ho') C1) as Hs.
  exact (f_equal out_payload Hs).
Qed.
End sender.
