(* ===== verification/Link.v ===== *)
(** A sender and a receiver joined by a network that reorders, repeats, delays and
    loses datagrams in both directions: send buffer, packet codec, acknowledgement
    codec and receive buffer together. *)
From stdpp Require Import gmap.
From S2P Require Import Prelude Sequence Packet Codec Words Control LossList ReceiveWindow.
From S2P Require Import RangeDropQueue PayloadPool Fenwick SendBuffer SendBufferFacts SendBufferSteps SendBufferTheorems.
From S2P Require Import OccupiedIndex RejectedMessages ReceiveBuffer ReceiveBufferFacts ReceiveBufferQueries.
From S2P Require Import ReceiveBufferSteps ReceiveBufferOps ReceiveBufferTheorems MessageStream Reassembly LinkSender.

(** * The system *)

(** A datagram on its way, with the stream position it is about; the position is
    there to state how long datagrams may be delayed and is never read by an endpoint. *)
Definition transit : Type := Z * list Z.

Record link := {
  sender : SendBuffer.t;
  receiver : ReceiveBuffer.t;
  forward : list transit;      (* data datagrams sent so far *)
  backward : list transit;     (* acknowledgement datagrams sent so far *)
  accepted : list Message;     (* messages the send buffer took *)
  delivered : list (list Z);   (* messages the application has read *)
}.

(** A lite acknowledgement of everything before [s]. *)
Definition lite_acknowledgement (s : SequenceNumber.t) : Acknowledgement :=
  {| ack_kind := AcknowledgementKind.lite; acknowledgement_number := 0; next_sequence := s;
     round_trip_time_microseconds := 100000; round_trip_time_variance_microseconds := 50000;
     available_receive_buffer_packets := 0; receive_rate_packets_per_second := 0;
     estimated_link_capacity_packets_per_second := 0; receive_rate_bytes_per_second := 0;
     has_rate_metrics := false |}.

Definition acknowledgement_datagram (s : SequenceNumber.t) : list Z :=
  let payload := (encode_acknowledgement_payload (lite_acknowledgement s) (replicate 4 0)).2 in
  (encode_packet (packet_of ControlType.acknowledgement 0 payload) (replicate (packet_header_size + 4) 0)).2.

Inductive action :=
| Submit (message : list Z) (p : SendBuffer.EnqueueParameters)
| Transmit (defer allow : bool) (now : Z)
| LossReport (r : SequenceRange) (now minimum_repeat : Z)
| ResendLast
| ResendAll
| NoteSubmitted (q : SequenceNumber.t)
| NoteResent (q : SequenceNumber.t) (now : Z)
| Requeue (q : SequenceNumber.t)
| DataArrives (k : nat)
| ReadMessage (room : nat)
| Acknowledge
| AcknowledgementArrives (k : nat).

Definition with_sender (l : link) (b : SendBuffer.t) : link :=
  {| sender := b; receiver := receiver l; forward := forward l; backward := backward l;
     accepted := accepted l; delivered := delivered l |}.
Definition with_receiver (l : link) (b : ReceiveBuffer.t) : link :=
  {| sender := sender l; receiver := b; forward := forward l; backward := backward l;
     accepted := accepted l; delivered := delivered l |}.

(** The stream positions of the first packet not read and of the first packet kept by
    the sender. *)
Definition read_position (l : link) : nat := length (frames (take (length (delivered l)) (accepted l))).
Definition sender_position (l : link) : nat := length (frames (accepted l)) - SendBuffer.sequence_span (sender l).

(** One step.  Acknowledgements are lite ones.  The session retires through
    [acknowledge_submitted_before], which refuses acknowledgements of packets not yet
    handed to the socket and otherwise is [acknowledge_before]; the link accepts both. *)
Definition perform (l : link) (a : action) : link :=
  match a with
  | Submit message p =>
    let '(e, b) := SendBuffer.enqueue_message (sender l) message p in
    {| sender := b; receiver := receiver l; forward := forward l; backward := backward l;
       accepted := if bool_decide (e = Error.none) then accepted l ++ [submitted_message (sender l) message p] else accepted l;
       delivered := delivered l |}
  | Transmit defer allow now =>
    let '(r, b) := SendBuffer.next_packet (sender l) defer allow now in
    {| sender := b; receiver := receiver l;
       forward := match r with Some p => forward l ++ [(out_sequence_position p, datagram p)] | None => forward l end;
       backward := backward l; accepted := accepted l; delivered := delivered l |}
  | LossReport r now minimum_repeat => with_sender l (SendBuffer.request_retransmission (sender l) r now minimum_repeat).2
  | ResendLast => with_sender l (SendBuffer.request_retransmission_of_last_sent (sender l)).2
  | ResendAll => with_sender l (SendBuffer.request_retransmission_of_all_sent (sender l)).2
  | NoteSubmitted q => with_sender l (SendBuffer.note_packet_submitted (sender l) q)
  | NoteResent q now => with_sender l (SendBuffer.note_retransmission_sent (sender l) q now)
  | Requeue q => with_sender l (SendBuffer.requeue_prepared_retransmission (sender l) q)
  | DataArrives k =>
    match forward l !! k with
    | Some (_, d) =>
      match decode_packet d with
      | Ok packet => with_receiver l (ReceiveBuffer.insert (receiver l) packet).2
      | Err _ => l
      end
    | None => l
    end
  | ReadMessage room =>
    let '(r, destination, b) := ReceiveBuffer.pop_message (receiver l) (replicate room 0) in
    {| sender := sender l; receiver := b; forward := forward l; backward := backward l; accepted := accepted l;
       delivered := if bool_decide (received_error r = Error.none)
                    then delivered l ++ [take (bytes_written r) destination] else delivered l |}
  | Acknowledge =>
    let s := ReceiveBuffer.next_ack_sequence (receiver l) in
    let position := Z.of_nat (read_position l) + SequenceNumber.distance_from s (ReceiveBuffer.first_stored_sequence (receiver l)) in
    {| sender := sender l; receiver := receiver l; forward := forward l;
       backward := backward l ++ [(position, acknowledgement_datagram s)];
       accepted := accepted l; delivered := delivered l |}
  | AcknowledgementArrives k =>
    match backward l !! k with
    | Some (_, d) =>
      match decode_packet d with
      | Ok packet =>
        match decode_acknowledgement packet with
        | Ok a => with_sender l (SendBuffer.acknowledge_before (sender l) (next_sequence a)).2
        | Err _ => l
        end
      | Err _ => l
      end
    | None => l
    end
  end.

(** What the model assumes of the environment: header fields fit their width, and no
    datagram is delayed until the endpoint has moved half the sequence space on. *)
Definition in_time (t : option transit) (position : nat) : bool :=
  match t with
  | Some (p, _) => Z.abs (p - Z.of_nat position) <? SequenceNumber.half_range
  | None => true
  end.

Definition fits_u32 (x : Z) : bool := (0 <=? x) && (x <? 2 ^ 32).

Definition admissible (l : link) (a : action) : bool :=
  match a with
  | Submit _ p => fits_u32 (SendBuffer.enqueue_timestamp p) && fits_u32 (SendBuffer.enqueue_destination p)
  | DataArrives k => in_time (forward l !! k) (read_position l)
  | AcknowledgementArrives k => in_time (backward l !! k) (sender_position l)
  | _ => true
  end.

Inductive runs (l0 : link) : link -> Prop :=
| runs_start : runs l0 l0
| runs_step l a : runs l0 l -> admissible l a = true -> runs l0 (perform l a).

(** A fresh pair of buffers that agreed on the initial sequence number. *)
Definition fresh (s0 : SequenceNumber.t) (l : link) : Prop :=
  SequenceNumber.wf s0 /\
  (exists n max arena, length arena = (n * PayloadPool.width)%nat /\ SendBuffer.make s0 n max arena = Some (sender l)) /\
  (exists cap arena, length arena = (cap * PayloadPool.width)%nat /\ ReceiveBuffer.make s0 cap arena = Some (receiver l)) /\
  forward l = [] /\ backward l = [] /\ accepted l = [] /\ delivered l = [].

(** * The invariant *)

Record linked (s0 : SequenceNumber.t) (l : link) (acked k : nat) (done rest : list Message) : Prop := {
  lk_accepted : Forall message_ok (accepted l);
  lk_split : accepted l = done ++ rest;
  lk_delivered : delivered l = message_data <$> done;
  lk_sender : sending s0 (frames (accepted l)) acked (sender l);
  lk_receiver : consistent s0 done rest (receiver l);
  lk_ack : acknowledges (receiver l) k;
  lk_acked : (acked <= length (frames done) + k)%nat;
  lk_forward : forall position d, (position, d) ∈ forward l -> exists i p,
    position = Z.of_nat i /\ decode_packet d = Ok p /\ carries s0 (frames (accepted l)) i p;
  lk_backward : forall position d, (position, d) ∈ backward l -> exists i,
    position = Z.of_nat i /\ d = acknowledgement_datagram (SequenceNumber.advanced s0 position) /\
    (i <= length (frames done) + k)%nat;
}.

Lemma acknowledgement_decodes s : SequenceNumber.wf s -> exists packet,
  decode_packet (acknowledgement_datagram s) = Ok packet /\ decode_acknowledgement packet = Ok (lite_acknowledgement s).
Proof.
  intros Hs. set (a := lite_acknowledgement s). assert (Ha : ack_wf a) by (unfold a; split_and!; cbn; unfold is_u32; auto; lia).
  assert (E1 : (encode_acknowledgement_payload a (replicate 4 0)).2 = words_bytes (ack_words a)).
  { rewrite encode_ack_ok by (cbn; lia). cbn [snd]. rewrite drop_ge by (cbn; lia). apply app_nil_r. }
  set (p := packet_of ControlType.acknowledgement 0 (words_bytes (ack_words a))).
  assert (Hp : packet_wf p) by (unfold p; split_and!; cbn; auto; unfold is_u16, is_u32; lia).
  pose proof (encoded_decodes p (replicate (packet_header_size + 4) 0) Hp) as H.
  assert (Ee : encoded_payload p = words_bytes (ack_words a)) by reflexivity. rewrite Ee in H.
  assert (El : length (words_bytes (ack_words a)) = 4%nat) by reflexivity. rewrite El, length_replicate in H. specialize (H (le_n _)).
  exists (with_payload p (words_bytes (ack_words a))). split.
  - unfold acknowledgement_datagram. fold a. rewrite E1. fold p. destruct (encode_packet p _) as [r storage].
    destruct H as (_ & Hd & Hr). cbn [snd]. rewrite take_ge in Hd; [exact Hd|].
    rewrite (drop_ge (replicate _ _)) in Hr by (rewrite length_replicate; reflexivity).
    apply (f_equal length) in Hr. rewrite length_drop in Hr. cbn [length] in Hr. lia.
  - exact (decode_ack_words a Ha).
Qed.

Lemma carries_app s0 fs fs' i p : carries s0 fs i p -> carries s0 (fs ++ fs') i p.
Proof. intros (f & Hf & H). exists f. split; [apply lookup_app_l_Some, Hf|exact H]. Qed.

Lemma consistent_extend s0 done rest more b : consistent s0 done rest b -> consistent s0 done (rest ++ more) b.
Proof.
  intros [H1 H2 H3 H4 H5]. split; auto. intros off Ho. destruct (H4 off Ho) as [D S]. split; [exact D|]. intros Hocc.
  destruct (S Hocc) as (fr & E & H). exists fr. split; [|exact H]. rewrite frames_app. apply lookup_app_l_Some, E.
Qed.

(** The acknowledged prefix is part of the stream. *)
Lemma acknowledged_length s0 done rest b k : consistent s0 done rest b -> acknowledges b k ->
  (k <= length (frames rest))%nat.
Proof.
  intros C (K1 & _ & K3 & _). destruct k as [|k]; [lia|]. destruct (cons_slots _ _ _ _ C k ltac:(lia)) as [_ H].
  destruct (H (K3 k ltac:(lia))) as (fr & E & _). apply lookup_lt_Some in E. lia.
Qed.

Lemma acknowledges_unique b k k' : acknowledges b k -> acknowledges b k' -> k = k'.
Proof.
  intros (A1 & _ & A3 & A4) (B1 & _ & B3 & B4). destruct (Nat.lt_trichotomy k k') as [H|[H|H]]; [exfalso|exact H|exfalso].
  - pose proof (B3 k H) as E. rewrite A4 in E by lia. discriminate.
  - pose proof (A3 k' H) as E. rewrite B4 in E by lia. discriminate.
Qed.

Section link.
Context (s0 : SequenceNumber.t).

Lemma linked_read l acked k done rest : linked s0 l acked k done rest ->
  take (length (delivered l)) (accepted l) = done /\ read_position l = length (frames done) /\ sender_position l = acked.
Proof.
  intros [_ H2 H3 H4 _ _ _ _ _]. assert (E : take (length (delivered l)) (accepted l) = done).
  { rewrite H3, length_fmap, H2. apply take_app_length. }
  split; [exact E|]. unfold read_position, sender_position. rewrite E. split; [reflexivity|].
  rewrite (snd_length _ _ _ _ H4). lia.
Qed.

Lemma linked_with_sender l acked k done rest b : linked s0 l acked k done rest ->
  sending s0 (frames (accepted l)) acked b -> linked s0 (with_sender l b) acked k done rest.
Proof. intros [] H. split; assumption. Qed.

Lemma linked_bookkeeping l acked k done rest b : linked s0 l acked k done rest -> evolves (sender l) b ->
  linked s0 (with_sender l b) acked k done rest.
Proof.
  intros H E. apply linked_with_sender; [exact H|]. apply (sending_evolves s0 _ _ (sender l)); [exact E|]. apply H.
Qed.

Lemma linked_submit l acked k done rest message p : linked s0 l acked k done rest -> parameters_ok p ->
  exists rest', linked s0 (perform l (Submit message p)) acked k done rest'.
Proof.
  intros H Hp. pose proof H as [H1 H2 H3 H4 H5 H6 H7 H8 H9]. cbn [perform].
  pose proof (sending_submit s0 _ _ _ message p H4 Hp) as E. destruct (snd_inv _ _ _ _ H4) as [m I].
  destruct (SendBuffer.enqueue_message (sender l) message p) as [e b].
  destruct (decide (e = Error.none)) as [->|Hne].
  - destruct E as [Hmsg E]. rewrite bool_decide_eq_true_2 by reflexivity. set (x := submitted_message (sender l) message p) in *.
    assert (Ef : frames (accepted l) ++ frames_of x = frames (accepted l ++ [x])).
    { rewrite frames_app. unfold frames at 3. cbn. rewrite app_nil_r. reflexivity. }
    rewrite Ef in E. exists (rest ++ [x]). split; cbn [sender receiver forward backward accepted delivered with_sender with_receiver]; auto.
    + apply Forall_app. split; [exact H1|]. constructor; [|constructor]. apply (submitted_ok (sender l) m); assumption.
    + rewrite H2, app_assoc. reflexivity.
    + apply consistent_extend, H5.
    + intros position d Hin. destruct (H8 _ _ Hin) as (i & q & E1 & E2 & E3). exists i, q. split_and!; auto.
      rewrite <- Ef. apply carries_app, E3.
  - rewrite bool_decide_eq_false_2 by exact Hne. exists rest. assert (b = sender l) as -> by (destruct e; [congruence|exact E..]).
    destruct H. split; assumption.
Qed.

Lemma linked_transmit l acked k done rest defer allow now : linked s0 l acked k done rest ->
  linked s0 (perform l (Transmit defer allow now)) acked k done rest.
Proof.
  intros [H1 H2 H3 H4 H5 H6 H7 H8 H9]. cbn [perform]. pose proof (sending_next s0 _ _ _ defer allow now H4) as E.
  destruct (SendBuffer.next_packet (sender l) defer allow now) as [r b]. destruct E as [E1 E2]. split; cbn [sender receiver forward backward accepted delivered with_sender with_receiver]; auto.
  intros position d Hin. destruct r as [p|]; [|auto]. apply elem_of_app in Hin as [Hin|Hin]; [auto|].
  apply list_elem_of_singleton in Hin. injection Hin as -> ->. destruct (E2 p eq_refl) as (Hh & i & Ei & Hc).
  exists i, (data_packet p). split_and!; [exact Ei|apply datagram_decodes, Hh|exact Hc].
Qed.

Lemma linked_arrival l acked k done rest j : linked s0 l acked k done rest -> admissible l (DataArrives j) = true ->
  exists k', linked s0 (perform l (DataArrives j)) acked k' done rest.
Proof.
  intros H Ha. destruct (linked_read _ _ _ _ _ H) as (_ & Er & _). pose proof H as [H1 H2 H3 H4 H5 H6 H7 H8 H9]. cbn [perform].
  cbn [admissible] in Ha. destruct (forward l !! j) as [[position d]|] eqn:Ej; [|eauto].
  destruct (H8 position d (list_elem_of_lookup_2 _ _ _ Ej)) as (i & p & -> & -> & Hc). unfold in_time in Ha. rewrite Er in Ha. apply Z.ltb_lt in Ha.
  destruct (consistent_arrive s0 (accepted l) H1 done rest (receiver l) i p H2 Hc Ha H5) as (C' & Ec & Hst & _).
  destruct (cons_ack _ _ _ _ C') as [k' K']. exists k'.
  assert (Hk : (k <= k')%nat).
  { destruct H6 as (A1 & _ & A3 & _). destruct K' as (B1 & _ & B3 & B4). destruct (Nat.lt_ge_cases k' k) as [Hlt|]; [|assumption].
    pose proof (Hst k' ltac:(lia) (A3 k' Hlt)) as E. rewrite B4 in E by lia. discriminate. }
  split; cbn [sender receiver forward backward accepted delivered with_sender with_receiver]; auto; [lia|]. intros position d' Hin. destruct (H9 _ _ Hin) as (i' & E1 & E2 & E3). exists i'. split_and!; auto. lia.
Qed.

Lemma linked_pop l acked k done rest room : linked s0 l acked k done rest ->
  exists k' done' rest', linked s0 (perform l (ReadMessage room)) acked k' done' rest'.
Proof.
  intros H. pose proof H as [H1 H2 H3 H4 H5 H6 H7 H8 H9]. cbn [perform].
  pose proof (consistent_read s0 (accepted l) H1 done rest (receiver l) room H2 H5) as R.
  destruct (ReceiveBuffer.pop_message (receiver l) (replicate room 0)) as [[r destination] b'].
  destruct R as [[Hne ->]|(x & rest' & -> & He & _ & Ed & Ec & C' & _ & Hk)].
  - rewrite bool_decide_eq_false_2 by assumption. exists k, done, rest. destruct H. split; assumption.
  - rewrite bool_decide_eq_true_2, Ed by assumption. specialize (Hk k H6). destruct Hk as [Hk1 Hk2].
    exists (k - length (frames_of x))%nat, (done ++ [x]), rest'.
    assert (El : (length (frames (done ++ [x])) + (k - length (frames_of x)) = length (frames done) + k)%nat).
    { rewrite frames_app, length_app. unfold frames at 2. cbn. rewrite app_nil_r. lia. }
    split; cbn [sender receiver forward backward accepted delivered with_sender with_receiver]; auto.
    + rewrite H2, <- app_assoc. reflexivity.
    + rewrite H3, fmap_app. reflexivity.
    + rewrite El. exact H7.
    + intros position d Hin. destruct (H9 _ _ Hin) as (i & E1 & E2 & E3). exists i. rewrite El. auto.
Qed.

Lemma linked_acknowledge l acked k done rest : linked s0 l acked k done rest ->
  linked s0 (perform l Acknowledge) acked k done rest.
Proof.
  intros H. destruct (linked_read _ _ _ _ _ H) as (_ & Er & _). pose proof H as [H1 H2 H3 H4 H5 H6 H7 H8 H9]. cbn [perform].
  split; cbn [sender receiver forward backward accepted delivered with_sender with_receiver]; auto. intros position d Hin. apply elem_of_app in Hin as [Hin|Hin]; [auto|].
  apply list_elem_of_singleton in Hin. injection Hin as -> ->. destruct (cons_inv _ _ _ _ H5) as [m I].
  pose proof (core_window _ _ (ReceiveBufferSteps.inv_core _ _ I)) as W. pose proof (win_capacity _ W) as [_ Hcap].
  destruct H6 as (K1 & K2 & _). rewrite K2, (distance_seq_at (receiver l)) by lia. rewrite Er.
  exists (length (frames done) + k)%nat. split_and!; [lia| |lia]. f_equal. unfold seq_at.
  rewrite (cons_first _ _ _ _ H5), !SequenceNumber.advanced_mod, Zplus_mod_idemp_l. f_equal. lia.
Qed.

Lemma linked_retire l acked k done rest j : linked s0 l acked k done rest -> admissible l (AcknowledgementArrives j) = true ->
  exists acked', (acked <= acked')%nat /\ linked s0 (perform l (AcknowledgementArrives j)) acked' k done rest.
Proof.
  intros H Ha. destruct (linked_read _ _ _ _ _ H) as (_ & _ & Es). pose proof H as [H1 H2 H3 H4 H5 H6 H7 H8 H9]. cbn [perform].
  cbn [admissible] in Ha. destruct (backward l !! j) as [[position d]|] eqn:Ej; [|eauto].
  destruct (H9 position d (list_elem_of_lookup_2 _ _ _ Ej)) as (i & -> & -> & Hi). unfold in_time in Ha. rewrite Es in Ha. apply Z.ltb_lt in Ha.
  destruct (acknowledgement_decodes (SequenceNumber.advanced s0 (Z.of_nat i))) as (p & -> & ->); [apply SequenceNumber.advanced_wf|].
  cbn [next_sequence lite_acknowledgement]. exists (Nat.max acked i). split; [lia|].
  pose proof (acknowledged_length s0 done rest (receiver l) k H5 H6) as Hk.
  assert (Hl : (i <= length (frames (accepted l)))%nat) by (rewrite H2, frames_app, length_app; lia).
  split; cbn [sender receiver forward backward accepted delivered with_sender with_receiver]; auto; [|lia]. apply sending_acknowledge; [exact H4|exact Hl|lia].
Qed.

Lemma linked_start l : fresh s0 l -> linked s0 l 0 0 [] [].
Proof.
  intros (Hs & (n & max & arena & Ha & Hm) & (cap & arena' & Ha' & Hm') & Ef & Eb & Ec & Ed).
  pose proof (start_consistent s0 [] cap arena' (receiver l) Hs Ha' Hm') as [_ _ C _]. cbn [fst] in C.
  pose proof (send_make_inv s0 n max arena (sender l) Hs Ha Hm) as I. destruct (cons_ack _ _ _ _ C) as [k K].
  pose proof (acknowledged_length _ _ _ _ _ C K) as Hk. assert (k = 0%nat) as -> by (cbn in Hk; lia).
  split; rewrite ?Ef, ?Eb, ?Ec, ?Ed; auto.
  - assert (Hi : exists pool, sender l = SendBuffer.initial s0 n max pool).
    { revert Hm. unfold SendBuffer.make, SendBuffer.checked_send_capacity. destruct (_ || _); [discriminate|].
      destruct (PayloadPool.make n arena) as [pool|]; [|discriminate]. intros [= <-]. eauto. }
    destruct Hi as [pool E]. split; [eauto|..]; rewrite ?E; cbn.
    + rewrite SequenceNumber.advanced_mod, Z.add_0_r. symmetry. apply Z.mod_small. exact Hs.
    + reflexivity.
    + reflexivity.
    + intros o s Ho. discriminate.
  - intros position d Hin. apply not_elem_of_nil in Hin. contradiction.
  - intros position d Hin. apply not_elem_of_nil in Hin. contradiction.
Qed.

Lemma linked_step l a acked k done rest : linked s0 l acked k done rest -> admissible l a = true ->
  exists acked' k' done' rest', linked s0 (perform l a) acked' k' done' rest'.
Proof.
  intros H Ha. pose proof (snd_inv _ _ _ _ (lk_sender _ _ _ _ _ _ H)) as [m I].
  assert (Hev : forall b, evolves (sender l) b -> exists acked' k' done' rest', linked s0 (with_sender l b) acked' k' done' rest').
  { intros b E. exists acked, k, done, rest. apply linked_bookkeeping; assumption. }
  destruct a; cbn [perform].
  - assert (Hp : parameters_ok p) by (cbn [admissible] in Ha; unfold fits_u32 in Ha; b2p; split; unfold is_u32; lia).
    destruct (linked_submit l acked k done rest message p H Hp) as [rest' R]. eauto.
  - exists acked, k, done, rest. apply linked_transmit, H.
  - eapply Hev, request_retransmission_evolves, I.
  - eapply Hev, last_sent_evolves, I.
  - eapply Hev, all_sent_evolves, I.
  - eapply Hev, note_submitted_evolves, I.
  - eapply Hev, note_retransmission_evolves, I.
  - eapply Hev, requeue_evolves, I.
  - destruct (linked_arrival l acked k done rest k0 H Ha) as [k' R]. eauto.
  - destruct (linked_pop l acked k done rest room H) as (k' & done' & rest' & R). eauto.
  - exists acked, k, done, rest. apply linked_acknowledge, H.
  - destruct (linked_retire l acked k done rest k0 H Ha) as (acked' & _ & R). eauto.
Qed.

Lemma linked_runs l0 l : fresh s0 l0 -> runs l0 l -> exists acked k done rest, linked s0 l acked k done rest.
Proof.
  intros Hf. induction 1 as [|l a _ IH Ha]; [exists 0%nat, 0%nat, [], []; apply linked_start, Hf|].
  destruct IH as (acked & k & done & rest & H). exact (linked_step l a acked k done rest H Ha).
Qed.
End link.

(** * Theorems *)

(** C1: The link delivers messages reliably and in order.  A sender and a receiver that
    start from the same sequence number exchange encoded data and acknowledgement
    datagrams over a network that may lose, repeat, delay and reorder them, with any
    interleaving of submissions, transmissions, retransmission requests,
    acknowledgements and reads.  What the application has read is always an initial
    segment of the messages the sender accepted, byte for byte. *)
Theorem link_delivers_in_order s0 l0 l : fresh s0 l0 -> runs l0 l ->
  delivered l `prefix_of` (message_data <$> accepted l).
Proof.
  intros Hf Hr. destruct (linked_runs s0 l0 l Hf Hr) as (acked & k & done & rest & [_ H2 H3 _ _ _ _ _ _]).
  rewrite H2, H3, fmap_app. apply prefix_app_r. reflexivity.
Qed.

(** C2: Nothing is lost.  In every state of such a link each packet of each accepted message
    has been read, or lies in the receive buffer, or is still in the send buffer with
    its header and payload, ready to be sent again: acknowledgements never
    retire a packet that has not arrived. *)
Theorem link_never_loses s0 l0 l i f : fresh s0 l0 -> runs l0 l -> frames (accepted l) !! i = Some f ->
  (i < read_position l)%nat \/
  (exists off, (off < ReceiveBuffer.capacity (receiver l))%nat /\ i = (read_position l + off)%nat /\
     ReceiveBuffer.occupied (lslot (receiver l) off) = true /\ slot_holds (lcontent (receiver l) off) (Some f)) \/
  (exists o s, SendBufferFacts.packets (sender l) !! o = Some s /\ i = (sender_position l + o)%nat /\ slot_carries (sender l) s f).
Proof.
  intros Hf Hr Hi. destruct (linked_runs s0 l0 l Hf Hr) as (acked & k & done & rest & H).
  destruct (linked_read s0 l acked k done rest H) as (_ & Er & Es). rewrite Er, Es. destruct H as [_ H2 _ H4 H5 H6 H7 _ _].
  destruct (Nat.lt_ge_cases i (length (frames done))) as [|Hge]; [auto|right].
  destruct (Nat.lt_ge_cases i acked) as [Hlt|Hge'].
  - left. exists (i - length (frames done))%nat. destruct H6 as (K1 & _ & K3 & _).
    pose proof (cons_slots _ _ _ _ H5 (i - length (frames done)) ltac:(lia)) as S.
    rewrite H2, frames_app, lookup_app_r in Hi by assumption. rewrite Hi in S. split_and!; [lia|lia| |exact S]. apply K3. lia.
  - right. pose proof (lookup_lt_Some _ _ _ Hi) as Hl. rewrite (snd_length _ _ _ _ H4) in Hl.
    destruct (snd_inv _ _ _ _ H4) as [m I]. exists (i - acked)%nat, (SendBuffer.slot_at (sender l) (i - acked)).
    assert (Hp : SendBufferFacts.packets (sender l) !! (i - acked)%nat = Some (SendBuffer.slot_at (sender l) (i - acked)))
      by (apply (SendBufferFacts.slot_at_packets _ m); [exact I|lia]).
    split_and!; [exact Hp|lia|]. destruct (snd_packets _ _ _ _ H4 _ _ Hp) as (f' & Hf' & C & _).
    replace (acked + (i - acked))%nat with i in Hf' by lia. congruence.
Qed.

(** * An example run *)

Fixpoint admissible_all (l : link) (actions : list action) : bool :=
  match actions with
  | [] => true
  | a :: actions => admissible l a && admissible_all (perform l a) actions
  end.

Lemma runs_all actions : forall l0 l, runs l0 l -> admissible_all l actions = true -> runs l0 (fold_left perform actions l).
Proof.
  induction actions as [|a actions IH]; intros l0 l Hr Ha; [exact Hr|]. cbn [admissible_all] in Ha. apply andb_true_iff in Ha as [H1 H2].
  exact (IH l0 (perform l a) (runs_step l0 l a Hr H1) H2).
Qed.

Definition example_link : link :=
  {| sender := example_start;
     receiver := default inhabitant (ReceiveBuffer.make 2147483646 4 (replicate (4 * PayloadPool.width) 0));
     forward := []; backward := []; accepted := []; delivered := [] |}.

(** A message of two packets whose first transmission of the first packet is lost. *)
Definition example_actions : list action :=
  [Submit [1; 2; 3; 4] (example_parameters 1 100 0); Transmit false true 200; Transmit false true 201; DataArrives 1;
   ReadMessage 8; LossReport {| range_first := 2147483646; range_last := 2147483646 |} 300 0; Transmit false true 301;
   DataArrives 2; DataArrives 1; Acknowledge; ReadMessage 8; AcknowledgementArrives 0;
   Submit [5] (example_parameters 2 400 0)].

Lemma example_fresh : fresh 2147483646 example_link.
Proof.
  split; [split; vm_compute; [discriminate|reflexivity]|]. split; [|split; [|split_and!; reflexivity]].
  - exists 4%nat, 3%nat, (replicate (4 * PayloadPool.width) 0). split; [apply length_replicate|vm_compute; reflexivity].
  - exists 4%nat, (replicate (4 * PayloadPool.width) 0). split; [apply length_replicate|vm_compute; reflexivity].
Qed.

Lemma example_admissible : admissible_all example_link example_actions = true.
Proof. vm_compute. reflexivity. Qed.

Lemma link_delivers_in_order_witness :
  let l := fold_left perform example_actions example_link in
  delivered l = [[1; 2; 3; 4]] /\ delivered l `prefix_of` (message_data <$> accepted l).
Proof.
  cbv zeta. split; [vm_compute; reflexivity|].
  exact (link_delivers_in_order 2147483646 example_link _ example_fresh
    (runs_all example_actions example_link example_link (runs_start example_link) example_admissible)).
Defined.

Lemma link_never_loses_witness :
  let l := fold_left perform example_actions example_link in
  frames (accepted l) !! 2%nat = Some {| frame_number := 2; frame_boundary := MessageBoundary.solo; frame_payload := [5] |} /\
  exists o s, SendBufferFacts.packets (sender l) !! o = Some s.
Proof.
  cbv zeta. set (f := {| frame_number := 2; frame_boundary := MessageBoundary.solo; frame_payload := [5] |}).
  assert (E : frames (accepted (fold_left perform example_actions example_link)) !! 2%nat = Some f) by (vm_compute; reflexivity).
  assert (Er : read_position (fold_left perform example_actions example_link) = 2%nat) by (vm_compute; reflexivity).
  assert (Eo : ReceiveBuffer.occupied (lslot (receiver (fold_left perform example_actions example_link)) 0) = false)
    by (vm_compute; reflexivity).
  split; [exact E|].
  destruct (link_never_loses 2147483646 example_link _ 2 f example_fresh
    (runs_all example_actions example_link example_link (runs_start example_link) example_admissible) E)
    as [H|[(off & H1 & H2 & H3 & _)|(o & s & H & _)]].
  - exfalso. rewrite Er in H. lia.
  - exfalso. rewrite Er in H2. replace off with 0%nat in H3 by lia. rewrite Eo in H3. discriminate.
  - exists o, s. exact H.
Defined.
