(* ===== verification/Live.v ===== *)
(** Live-mode rate control: the arrival-rate estimator that fills the rate fields
    of a full acknowledgement, the controller that turns the configured or
    measured input rate into a pacing rate, and the drift sampler of the
    receiver's clock (live.hpp, live.cpp). *)
From S2P Require Import Prelude.

Definition saturating_u32 (value : Z) : Z := Z.min value u32_max.

Definition i64_min : Z := - 2 ^ 63.
Definition i64_max : Z := 2 ^ 63 - 1.

(** * Arrival rates *)

Record ArrivalRates := {
  packets_per_second : Z;
  bytes_per_second : Z;
  link_capacity_packets_per_second : Z;
  valid : bool;
}.

Definition no_rates : ArrivalRates :=
  {| packets_per_second := 0; bytes_per_second := 0;
     link_capacity_packets_per_second := 0; valid := false |}.

Module ArrivalRateEstimator.
Definition sample_count : nat := 16.

Record t := {
  intervals : list Z;
  payload_sizes : list Z;
  probe_intervals : list Z;
  sample_index : nat;
  samples : nat;
  probe_index : nat;
  probes : nat;
  previous_arrival_microseconds : Z;
  has_previous_arrival : bool;
  packet_header_size : Z;
}.

Definition make (header_bytes : Z) : t :=
  {| intervals := replicate sample_count 0; payload_sizes := replicate sample_count 0;
     probe_intervals := replicate sample_count 0; sample_index := 0; samples := 0;
     probe_index := 0; probes := 0; previous_arrival_microseconds := 0;
     has_previous_arrival := false; packet_header_size := header_bytes |}.

Definition observe (e : t) (payload_bytes arrival : Z) : t :=
  let sampled := has_previous_arrival e && (previous_arrival_microseconds e <? arrival) in
  let interval := u64 (arrival - previous_arrival_microseconds e) in
  {| intervals := if sampled then <[sample_index e := saturating_u32 interval]> (intervals e)
                  else intervals e;
     payload_sizes := if sampled
                      then <[sample_index e := saturating_u32 payload_bytes]> (payload_sizes e)
                      else payload_sizes e;
     probe_intervals := probe_intervals e;
     sample_index := if sampled then ((sample_index e + 1) mod sample_count)%nat
                     else sample_index e;
     samples := if sampled then Nat.min (samples e + 1) sample_count else samples e;
     probe_index := probe_index e; probes := probes e;
     previous_arrival_microseconds := arrival; has_previous_arrival := true;
     packet_header_size := packet_header_size e |}.

Definition observe_probe_pair (e : t) (first_arrival second_arrival : Z) : t :=
  if second_arrival <=? first_arrival then e
  else
    {| intervals := intervals e; payload_sizes := payload_sizes e;
       probe_intervals := <[probe_index e := saturating_u32 (u64 (second_arrival - first_arrival))]>
                            (probe_intervals e);
       sample_index := sample_index e; samples := samples e;
       probe_index := ((probe_index e + 1) mod sample_count)%nat;
       probes := Nat.min (probes e + 1) sample_count;
       previous_arrival_microseconds := previous_arrival_microseconds e;
       has_previous_arrival := has_previous_arrival e;
       packet_header_size := packet_header_size e |}.

(** A 64-bit accumulator over the first elements of an array. *)
Fixpoint accumulate (f : Z -> Z) (values : list Z) (sum : Z) : Z :=
  match values with
  | [] => sum
  | v :: values => accumulate f values (u64 (sum + f v))
  end.

Definition rates (e : t) : ArrivalRates :=
  if (samples e =? 0)%nat then no_rates
  else
    let interval_sum := accumulate id (take (samples e) (intervals e)) 0 in
    let byte_sum := accumulate (fun size => u64 (size + packet_header_size e))
                      (take (samples e) (payload_sizes e)) 0 in
    if interval_sum =? 0 then no_rates
    else
      let probe_sum := accumulate id (take (probes e) (probe_intervals e)) 0 in
      {| packets_per_second :=
           saturating_u32 (u64 (Z.of_nat (samples e) * 1000000) / interval_sum);
         bytes_per_second := saturating_u32 (u64 (byte_sum * 1000000) / interval_sum);
         link_capacity_packets_per_second :=
           if probe_sum =? 0 then 0
           else saturating_u32 (u64 (Z.of_nat (probes e) * 1000000) / probe_sum);
         valid := true |}.
End ArrivalRateEstimator.

(** * The live rate controller *)

Module LiveRateController.
Record Configuration := {
  input_bandwidth_bytes_per_second : Z;
  minimum_input_bandwidth_bytes_per_second : Z;
  maximum_bandwidth_bytes_per_second : Z;
  overhead_percent : Z;
  maximum_payload_size : Z;
  packet_header_size : Z;
}.
Definition eta_configuration (c : Configuration) : Configuration :=
  Build_Configuration (input_bandwidth_bytes_per_second c)
    (minimum_input_bandwidth_bytes_per_second c) (maximum_bandwidth_bytes_per_second c)
    (overhead_percent c) (maximum_payload_size c) (packet_header_size c).

Record t := {
  configuration : Configuration;
  average_payload_size : Z;
  estimated_input_bandwidth : Z;
  input_window_start_microseconds : Z;
  input_window_bytes : Z;
  input_window_started : bool;
}.
Definition eta_t (c : t) : t :=
  Build_t (configuration c) (average_payload_size c) (estimated_input_bandwidth c)
    (input_window_start_microseconds c) (input_window_bytes c) (input_window_started c).
Definition set_configuration : Configuration -> t -> t := ltac:(setter eta_t configuration).
Definition set_average_payload_size : Z -> t -> t := ltac:(setter eta_t average_payload_size).

Definition make (c : Configuration) : t :=
  {| configuration := c; average_payload_size := Z.max (maximum_payload_size c) 1;
     estimated_input_bandwidth := 0; input_window_start_microseconds := 0;
     input_window_bytes := 0; input_window_started := false |}.

Definition minimum_window_microseconds : Z := 100000.

(** The rate measured over a window of [elapsed] microseconds. *)
Definition measured_rate (window_bytes elapsed : Z) : Z :=
  if u64_max / 1000000 <? window_bytes then u64_max
  else u64 (window_bytes * 1000000) / elapsed.

Definition observe_input (c : t) (payload_bytes enqueue : Z) : t :=
  let start := if input_window_started c then input_window_start_microseconds c else enqueue in
  let room := u64_max - input_window_bytes c in
  let window := u64 (input_window_bytes c + Z.min payload_bytes room) in
  if (enqueue <=? start) || (enqueue - start <? minimum_window_microseconds) then
    {| configuration := configuration c; average_payload_size := average_payload_size c;
       estimated_input_bandwidth := estimated_input_bandwidth c;
       input_window_start_microseconds := start; input_window_bytes := window;
       input_window_started := true |}
  else
    let measured := measured_rate window (enqueue - start) in
    let old := estimated_input_bandwidth c in
    {| configuration := configuration c; average_payload_size := average_payload_size c;
       estimated_input_bandwidth :=
         if old =? 0 then measured else u64 (u64 (old - old / 8) + measured / 8);
       input_window_start_microseconds := enqueue; input_window_bytes := 0;
       input_window_started := true |}.

Definition observe_payload (c : t) (payload_bytes : Z) : t :=
  set_average_payload_size
    (Z.max (u64 (u64 (average_payload_size c * 127) + payload_bytes) / 128) 1) c.

Definition set_input_bandwidth (c : t) (rate : Z) : t :=
  set_configuration (ltac:(setter eta_configuration input_bandwidth_bytes_per_second)
                       rate (configuration c)) c.

Definition set_minimum_input_bandwidth (c : t) (rate : Z) : t :=
  set_configuration (ltac:(setter eta_configuration minimum_input_bandwidth_bytes_per_second)
                       rate (configuration c)) c.

Definition set_maximum_bandwidth (c : t) (rate : Z) : t :=
  set_configuration (ltac:(setter eta_configuration maximum_bandwidth_bytes_per_second)
                       rate (configuration c)) c.

Definition set_overhead_percent (c : t) (percent : Z) : t :=
  set_configuration (ltac:(setter eta_configuration overhead_percent)
                       (Z.min percent 100) (configuration c)) c.

Definition default_unlimited_rate : Z := 125000000.

Definition pacing_rate_bytes_per_second (c : t) : Z :=
  let cfg := configuration c in
  if maximum_bandwidth_bytes_per_second cfg <? 0 then default_unlimited_rate
  else if 0 <? maximum_bandwidth_bytes_per_second cfg
  then maximum_bandwidth_bytes_per_second cfg
  else
    let rate := input_bandwidth_bytes_per_second cfg in
    let rate := if rate =? 0
                then Z.max (estimated_input_bandwidth c)
                       (minimum_input_bandwidth_bytes_per_second cfg)
                else rate in
    if rate =? 0 then default_unlimited_rate
    else
      let multiplier := u32 (100 + overhead_percent cfg) in
      let rate := if u64_max / multiplier <? rate then u64_max
                  else u64 (rate * multiplier) / 100 in
      if rate =? 0 then default_unlimited_rate else rate.

Definition packet_interval_microseconds (c : t) : Z :=
  let packet_size := u64 (average_payload_size c + packet_header_size (configuration c)) in
  let rate := pacing_rate_bytes_per_second c in
  Z.max 1 (u64 (u64 (u64 (packet_size * 1000000) + rate) - 1) / rate).
End LiveRateController.

(** * The drift sampler *)

Record DriftUpdate := {
  window_complete : bool;
  correction_microseconds : Z;
  update_residual_microseconds : Z;
}.

Module DriftSampler.
Record t := {
  samples_per_window : Z;
  maximum_correction_microseconds : Z;
  samples : Z;
  sum_microseconds : Z;
  estimated_drift_microseconds : Z;
  residual_drift_microseconds : Z;
}.

Definition make (samples_per_window maximum_correction : Z) : t :=
  {| samples_per_window := Z.max samples_per_window 1;
     maximum_correction_microseconds := Z.max maximum_correction 1;
     samples := 0; sum_microseconds := 0; estimated_drift_microseconds := 0;
     residual_drift_microseconds := 0 |}.

Definition clamp (v low high : Z) : Z :=
  if v <? low then low else if high <? v then high else v.

Definition observe (s : t) (drift : Z) : DriftUpdate * t :=
  let sum := i64 (sum_microseconds s + drift) in
  let count := u64 (samples s + 1) in
  if count <? samples_per_window s then
    ({| window_complete := false; correction_microseconds := 0;
        update_residual_microseconds := residual_drift_microseconds s |},
     {| samples_per_window := samples_per_window s;
        maximum_correction_microseconds := maximum_correction_microseconds s;
        samples := count; sum_microseconds := sum;
        estimated_drift_microseconds := estimated_drift_microseconds s;
        residual_drift_microseconds := residual_drift_microseconds s |})
  else
    let observed := Z.quot sum (i64 count) in
    let estimation_error := i64 (observed - estimated_drift_microseconds s) in
    let correction := clamp estimation_error (- maximum_correction_microseconds s)
                        (maximum_correction_microseconds s) in
    let estimated := i64 (estimated_drift_microseconds s + correction) in
    let residual := i64 (observed - estimated) in
    ({| window_complete := true; correction_microseconds := correction;
        update_residual_microseconds := residual |},
     {| samples_per_window := samples_per_window s;
        maximum_correction_microseconds := maximum_correction_microseconds s;
        samples := 0; sum_microseconds := 0; estimated_drift_microseconds := estimated;
        residual_drift_microseconds := residual |}).
End DriftSampler.

(** * Proofs *)

Definition sumZ (l : list Z) : Z := fold_right Z.add 0 l.

Lemma sumZ_permutation l k : l ≡ₚ k -> sumZ l = sumZ k.
Proof. induction 1; simpl; lia. Qed.

Lemma sumZ_bounds lo hi l : Forall (fun x => lo <= x <= hi) l ->
  Z.of_nat (length l) * lo <= sumZ l <= Z.of_nat (length l) * hi.
Proof. induction 1; cbn [sumZ fold_right length]; unfold sumZ in *; lia. Qed.

Module ArrivalRates_.
Import ArrivalRateEstimator.

(** ** The ring of the last sixteen samples *)

(** [h] lists every sample so far, newest first. *)
Record window (ring : list Z) (index count : nat) (h : list Z) : Prop := {
  win_length : length ring = sample_count;
  win_index : index = (length h mod sample_count)%nat;
  win_count : count = Nat.min (length h) sample_count;
  win_lookup : forall j, (j < sample_count)%nat -> (j < length h)%nat ->
    ring !! ((length h - 1 - j) mod sample_count)%nat = h !! j;
  win_content : take count ring ≡ₚ take sample_count h;
}.

Lemma window_make : window (replicate sample_count 0) 0 0 [].
Proof. split; simpl; try reflexivity. intros; lia. Qed.

Lemma window_push ring index count h x : window ring index count h ->
  window (<[index := x]> ring) ((index + 1) mod sample_count) (Nat.min (count + 1) sample_count) (x :: h).
Proof.
  intros [W1 W2 W3 W4 W5]. set (n := length h) in *.
  assert (Hi : (index < sample_count)%nat) by (subst index; apply Nat.mod_upper_bound; discriminate).
  assert (Hn : (n = sample_count * (n / sample_count) + index)%nat)
    by (subst index; apply Nat.div_mod_eq).
  unfold sample_count in *. split; cbn [length]; fold n; unfold sample_count.
  - rewrite length_insert. assumption.
  - subst index. rewrite Nat.Div0.add_mod_idemp_l. f_equal. lia.
  - lia.
  - intros j Hj Hlt. destruct j as [|j]; cbn [lookup list_lookup].
    + replace (S n - 1 - 0)%nat with n by lia. rewrite <- W2. apply list_lookup_insert_eq. lia.
    + replace (S n - 1 - S j)%nat with (n - 1 - j)%nat by lia.
      rewrite list_lookup_insert_ne; [apply W4; lia|]. rewrite W2.
      pose proof (Nat.div_mod_eq (n - 1 - j) 16). pose proof (Nat.mod_upper_bound (n - 1 - j) 16 ltac:(lia)).
      intros E. lia.
  - destruct (Nat.lt_ge_cases n 16) as [Hs|Hs].
    + assert (Hin : index = n) by (rewrite W2; apply Nat.mod_small; lia). clear W2 Hn. subst index.
      replace (Nat.min (count + 1) 16) with (S n) by lia. replace count with n in W5 by lia.
      rewrite (take_S_r _ n x) by (apply list_lookup_insert_eq; lia).
      rewrite take_insert_ge by lia. rewrite W5, take_ge by (fold n; lia).
      rewrite take_ge by (cbn [length]; fold n; lia). symmetry. apply Permutation_cons_append.
    + replace (Nat.min (count + 1) 16) with 16%nat by lia. replace count with 16%nat in W5 by lia.
      rewrite take_ge in W5 by lia. rewrite take_ge by (rewrite length_insert; lia).
      pose proof (W4 15%nat ltac:(lia) ltac:(lia)) as Hold.
      replace ((n - 1 - 15) mod 16)%nat with index in Hold
        by (pose proof (Nat.div_mod_eq (n - 1 - 15) 16); pose proof (Nat.mod_upper_bound (n - 1 - 15) 16 ltac:(lia)); lia).
      destruct (lookup_lt_is_Some_2 h 15 ltac:(fold n; lia)) as [old Ho]. rewrite Ho in Hold.
      rewrite insert_take_drop by lia. rewrite <- (take_drop_middle ring index old Hold) in W5.
      rewrite (take_S_r h 15 old Ho), <- Permutation_cons_append, <- Permutation_middle in W5.
      apply Permutation_cons_inv in W5. rewrite <- Permutation_middle, W5. reflexivity.
Qed.

Lemma accumulate_sum f l : forall s bound, (forall x, x ∈ l -> 0 <= f x <= bound) -> 0 <= s ->
  s + Z.of_nat (length l) * bound <= u64_max -> accumulate f l s = s + sumZ (map f l).
Proof.
  induction l as [|x l IH]; intros s bound Hf Hs Hb; cbn [accumulate map sumZ fold_right length] in *; [lia|].
  pose proof (Hf x ltac:(apply elem_of_cons; auto)). pose proof (Nat2Z.is_nonneg (length l)).
  unfold u64_max in *. rewrite u64_id by (unfold is_u64; nia).
  rewrite (IH (s + f x) bound); unfold sumZ in *; try lia.
  intros y Hy. apply Hf. apply elem_of_cons. auto.
Qed.

Lemma length_take_le' {A} (l : list A) : (length (take 16 l) <= 16)%nat.
Proof. rewrite length_take. lia. Qed.

(** ** What the estimator has been told *)

Inductive event :=
| Arrival (payload_bytes arrival : Z)
| ProbePair (first_arrival second_arrival : Z).

Definition step (e : t) (ev : event) : t :=
  match ev with
  | Arrival payload_bytes arrival => observe e payload_bytes arrival
  | ProbePair first_arrival second_arrival => observe_probe_pair e first_arrival second_arrival
  end.

Definition event_ok (ev : event) : Prop :=
  match ev with
  | Arrival payload_bytes arrival => 0 <= payload_bytes /\ is_u64 arrival
  | ProbePair first_arrival second_arrival => is_u64 first_arrival /\ is_u64 second_arrival
  end.

(** The last arrival, and the gaps (length and payload size of the packet
    that ends it) and probe gaps, newest first. *)
Record history := { last_arrival : option Z; gaps : list (Z * Z); probe_gaps : list Z }.

Definition note (h : history) (ev : event) : history :=
  match ev with
  | Arrival payload_bytes arrival =>
      {| last_arrival := Some arrival;
         gaps := match last_arrival h with
                 | Some previous =>
                     if previous <? arrival
                     then (saturating_u32 (arrival - previous), saturating_u32 payload_bytes) :: gaps h
                     else gaps h
                 | None => gaps h
                 end;
         probe_gaps := probe_gaps h |}
  | ProbePair first_arrival second_arrival =>
      {| last_arrival := last_arrival h; gaps := gaps h;
         probe_gaps := if first_arrival <? second_arrival
                       then saturating_u32 (second_arrival - first_arrival) :: probe_gaps h
                       else probe_gaps h |}
  end.

Definition no_history : history := {| last_arrival := None; gaps := []; probe_gaps := [] |}.

(** Averages in unbounded arithmetic. *)
Definition average_rates (header : Z) (gs : list (Z * Z)) (ps : list Z) : ArrivalRates :=
  match gs with
  | [] => no_rates
  | _ =>
      let total := sumZ (map fst gs) in
      {| packets_per_second := saturating_u32 (Z.of_nat (length gs) * 1000000 / total);
         bytes_per_second :=
           saturating_u32 (sumZ (map (fun g => g.2 + header) gs) * 1000000 / total);
         link_capacity_packets_per_second :=
           match ps with
           | [] => 0
           | _ => saturating_u32 (Z.of_nat (length ps) * 1000000 / sumZ ps)
           end;
         valid := true |}
  end.

Record tracks (header : Z) (e : t) (h : history) : Prop := {
  tr_intervals : window (intervals e) (sample_index e) (samples e) (map fst (gaps h));
  tr_sizes : window (payload_sizes e) (sample_index e) (samples e) (map snd (gaps h));
  tr_probes : window (probe_intervals e) (probe_index e) (probes e) (probe_gaps h);
  tr_previous : last_arrival h = if has_previous_arrival e then Some (previous_arrival_microseconds e) else None;
  tr_header : packet_header_size e = header;
  tr_u64 : is_u64 (previous_arrival_microseconds e);
  tr_gaps : Forall (fun g => 1 <= g.1 <= u32_max /\ 0 <= g.2 <= u32_max) (gaps h);
  tr_probe_gaps : Forall (fun g => 1 <= g <= u32_max) (probe_gaps h);
}.

Lemma saturating_u32_bounds lo x : lo <= x -> lo <= u32_max -> lo <= saturating_u32 x <= u32_max.
Proof. unfold saturating_u32. lia. Qed.

Lemma tracks_make header : tracks header (make header) no_history.
Proof. split; simpl; try apply window_make; try reflexivity; try constructor; lia. Qed.

Lemma tracks_step header e h ev : tracks header e h -> event_ok ev -> tracks header (step e ev) (note h ev).
Proof.
  intros [T1 T2 T3 T4 T5 T6 T7 T8] Hev. destruct ev as [payload arrival|a b]; simpl in Hev |- *.
  - destruct Hev as [Hp Ha]. unfold observe. rewrite T4. destruct (has_previous_arrival e); simpl;
      [|split; simpl; auto]. unfold is_u64 in *.
    destruct (Z.ltb_spec (previous_arrival_microseconds e) arrival); [|split; simpl; auto].
    rewrite u64_id by (unfold is_u64; lia).
    split; simpl; auto; try (apply window_push; assumption). constructor; [|assumption]. simpl.
    split; apply saturating_u32_bounds; unfold u32_max; lia.
  - unfold observe_probe_pair, is_u64 in *. destruct (Z.leb_spec b a), (Z.ltb_spec a b); try lia; [split; simpl; auto|].
    rewrite u64_id by (unfold is_u64; lia). split; simpl; auto; [apply window_push; assumption|].
    constructor; [|assumption]. apply saturating_u32_bounds; unfold u32_max; lia.
Qed.

Lemma window_sum f ring index count h bound : window ring index count h ->
  (forall x, x ∈ h -> 0 <= f x <= bound) -> 16 * bound <= u64_max -> 0 <= bound ->
  accumulate f (take count ring) 0 = sumZ (map f (take 16 h)).
Proof.
  intros [W1 W2 W3 W4 W5] Hf Hb Hp.
  assert (Hl : (length (take count ring) <= 16)%nat) by (rewrite length_take, W1; unfold sample_count; lia).
  rewrite (accumulate_sum f _ 0 bound); [|intros x Hx; apply Hf|lia|nia].
  - rewrite Z.add_0_l. apply sumZ_permutation. change (f <$> take count ring ≡ₚ f <$> take 16 h).
    rewrite W5. reflexivity.
  - rewrite W5 in Hx. eapply elem_of_sublist; [exact Hx|apply sublist_take].
Qed.

Lemma length_window ring index count h : window ring index count h -> count = length (take 16 h).
Proof. intros W. rewrite (win_count _ _ _ _ W), length_take. unfold sample_count. lia. Qed.

Lemma rates_average header e h : tracks header e h -> 0 <= header <= u32_max ->
  rates e = average_rates header (take 16 (gaps h)) (take 16 (probe_gaps h)).
Proof.
  intros [T1 T2 T3 T4 T5 T6 T7 T8] Hh. unfold rates.
  assert (G1 : forall x, x ∈ map fst (gaps h) -> 1 <= x <= u32_max).
  { intros x Hx. apply list_elem_of_fmap in Hx as (g & -> & Hg). rewrite Forall_forall in T7. apply (T7 g Hg). }
  assert (G2 : forall x, x ∈ map snd (gaps h) -> 0 <= x <= u32_max).
  { intros x Hx. apply list_elem_of_fmap in Hx as (g & -> & Hg). rewrite Forall_forall in T7. apply (T7 g Hg). }
  assert (G3 : forall x, x ∈ probe_gaps h -> 1 <= x <= u32_max) by (rewrite Forall_forall in T8; exact T8).
  unfold u32_max in *.
  rewrite (window_sum id _ _ _ _ (2 ^ 32 - 1) T1), (window_sum id _ _ _ _ (2 ^ 32 - 1) T3),
    (window_sum (fun size => u64 (size + packet_header_size e)) _ _ _ _ (2 * (2 ^ 32 - 1)) T2);
    try (unfold u64_max; lia); try (intros x Hx; unfold id; (specialize (G1 x Hx) || specialize (G3 x Hx)); lia).
  2: { intros x Hx. specialize (G2 x Hx). rewrite T5, u64_id by (unfold is_u64; lia). lia. }
  rewrite (length_window _ _ _ _ T1), (length_window _ _ _ _ T3).
  rewrite !map_id. unfold average_rates. rewrite !firstn_map, !length_map.
  assert (B1 : Forall (fun x => 1 <= x <= 2 ^ 32 - 1) (map fst (take 16 (gaps h)))).
  { rewrite Forall_forall. intros x Hx. apply G1. rewrite <- firstn_map in Hx.
    eapply elem_of_sublist; [exact Hx|apply sublist_take]. }
  assert (B2 : map (fun size => u64 (size + packet_header_size e)) (map snd (take 16 (gaps h)))
    = map (fun g => g.2 + header) (take 16 (gaps h))).
  { rewrite map_map. apply map_ext_in. intros g Hg. rewrite T5. apply u64_id. unfold is_u64.
    apply list_elem_of_In in Hg. assert (Hg' : g ∈ gaps h) by (eapply elem_of_sublist; [exact Hg|apply sublist_take]).
    rewrite Forall_forall in T7. specialize (T7 g Hg'). lia. }
  assert (B3 : Forall (fun x => 0 <= x <= 2 * (2 ^ 32 - 1)) (map (fun g => g.2 + header) (take 16 (gaps h)))).
  { rewrite Forall_forall. intros x Hx. apply list_elem_of_fmap in Hx as (g & -> & Hg).
    assert (Hg' : g ∈ gaps h) by (eapply elem_of_sublist; [exact Hg|apply sublist_take]).
    rewrite Forall_forall in T7. specialize (T7 g Hg'). lia. }
  assert (B4 : Forall (fun x => 1 <= x <= 2 ^ 32 - 1) (take 16 (probe_gaps h))) by (apply Forall_take, T8).
  rewrite B2. apply sumZ_bounds in B1, B3, B4. rewrite length_map in B1, B3.
  pose proof (length_take_le' (gaps h)) as L1. pose proof (length_take_le' (probe_gaps h)) as L2.
  destruct (take 16 (gaps h)) as [|g gs] eqn:Eg; [reflexivity|].
  replace (length (g :: gs) =? 0)%nat with false by reflexivity.
  assert (1 <= Z.of_nat (length (g :: gs))) by (cbn [length]; lia).
  destruct (Z.eqb_spec (sumZ (map fst (g :: gs))) 0); [lia|].
  rewrite (u64_id (Z.of_nat (length (g :: gs)) * 1000000)), (u64_id (sumZ (map _ (g :: gs)) * 1000000)),
    (u64_id (Z.of_nat (length (take 16 (probe_gaps h))) * 1000000)) by (unfold is_u64; lia).
  f_equal. destruct (take 16 (probe_gaps h)) as [|p ps]; [reflexivity|]. cbn [length] in B4.
  destruct (Z.eqb_spec (sumZ (p :: ps)) 0); [lia|reflexivity].
Qed.
End ArrivalRates_.

(** C35: The arrival-rate estimator averages exactly the last sixteen arrival
    gaps and the last sixteen probe gaps.  Its ring buffers and 64-bit sums give
    the result of exact arithmetic on those samples, whatever arrivals and probe
    pairs came before; the only clipping is the saturation to 32 bits that the
    wire format needs, and rates are marked valid as soon as one gap exists. *)
Theorem arrival_rates_window header events :
  0 <= header <= u32_max -> Forall ArrivalRates_.event_ok events ->
  let h := fold_left ArrivalRates_.note events ArrivalRates_.no_history in
  ArrivalRateEstimator.rates
    (fold_left ArrivalRates_.step events (ArrivalRateEstimator.make header))
  = ArrivalRates_.average_rates header (take 16 (ArrivalRates_.gaps h))
      (take 16 (ArrivalRates_.probe_gaps h)).
Proof.
  intros Hh Hok. cbv zeta. apply ArrivalRates_.rates_average; [|assumption].
  assert (H0 := ArrivalRates_.tracks_make header). revert H0.
  generalize (ArrivalRateEstimator.make header) ArrivalRates_.no_history.
  induction Hok as [|ev events Hev _ IH]; intros e h He; simpl; [assumption|].
  apply IH, ArrivalRates_.tracks_step; assumption.
Qed.

Lemma arrival_rates_window_witness :
  packets_per_second (ArrivalRateEstimator.rates
    (fold_left ArrivalRates_.step
       [ArrivalRates_.Arrival 1316 1000; ArrivalRates_.Arrival 1316 2000; ArrivalRates_.Arrival 1316 4000]
       (ArrivalRateEstimator.make 44))) = 666.
Proof.
  rewrite (arrival_rates_window 44
    [ArrivalRates_.Arrival 1316 1000; ArrivalRates_.Arrival 1316 2000; ArrivalRates_.Arrival 1316 4000]).
  - vm_compute. reflexivity.
  - vm_compute. split; discriminate.
  - repeat constructor; vm_compute; (discriminate || reflexivity).
Defined.

(** * The pacing rate *)

Module LiveRates.
Import LiveRateController.

Inductive event :=
| Input (payload_bytes enqueue : Z)
| Payload (payload_bytes : Z)
| SetInput (rate : Z)
| SetMinimumInput (rate : Z)
| SetMaximum (rate : Z)
| SetOverhead (percent : Z).

Definition step (c : t) (ev : event) : t :=
  match ev with
  | Input payload_bytes enqueue => observe_input c payload_bytes enqueue
  | Payload payload_bytes => observe_payload c payload_bytes
  | SetInput rate => set_input_bandwidth c rate
  | SetMinimumInput rate => set_minimum_input_bandwidth c rate
  | SetMaximum rate => set_maximum_bandwidth c rate
  | SetOverhead percent => set_overhead_percent c percent
  end.

(** Arguments are in the range of their types; payloads have at most [limit] bytes. *)
Definition event_ok (limit : Z) (ev : event) : Prop :=
  match ev with
  | Input payload_bytes enqueue => 0 <= payload_bytes /\ is_u64 enqueue
  | Payload payload_bytes => 0 <= payload_bytes <= limit
  | SetInput rate | SetMinimumInput rate => is_u64 rate
  | SetMaximum rate => i64_min <= rate <= i64_max
  | SetOverhead percent => is_u32 percent
  end.

Record configuration_ok (limit : Z) (c : Configuration) : Prop := {
  cfg_input : is_u64 (input_bandwidth_bytes_per_second c);
  cfg_minimum : is_u64 (minimum_input_bandwidth_bytes_per_second c);
  cfg_maximum : i64_min <= maximum_bandwidth_bytes_per_second c <= i64_max;
  cfg_overhead : 0 <= overhead_percent c <= 100;
  cfg_payload : 0 <= maximum_payload_size c <= limit;
  cfg_header : 0 <= packet_header_size c <= limit;
}.

Record ok (limit : Z) (c : t) : Prop := {
  ok_configuration : configuration_ok limit (configuration c);
  ok_average : 1 <= average_payload_size c <= limit;
  ok_estimate : is_u64 (estimated_input_bandwidth c);
  ok_window : is_u64 (input_window_bytes c);
}.

Lemma measured_rate_u64 bytes elapsed : is_u64 bytes -> 0 < elapsed -> is_u64 (measured_rate bytes elapsed).
Proof.
  intros Hb He. unfold measured_rate, is_u64, u64_max in *.
  destruct (Z.ltb_spec ((2 ^ 64 - 1) / 1000000) bytes) as [|Hle]; [lia|].
  assert (bytes * 1000000 <= 2 ^ 64 - 1) by (Z.div_mod_to_equations; lia).
  rewrite u64_id by (unfold is_u64; lia). split; [apply Z.div_pos; lia|].
  apply Z.div_lt_upper_bound; nia.
Qed.

Lemma step_ok limit c ev : 1 <= limit < 2 ^ 32 -> ok limit c -> event_ok limit ev -> ok limit (step c ev).
Proof.
  intros Hl [[C1 C2 C3 C4 C5 C6] O2 O3 O4] Hev.
  destruct ev as [bytes enqueue|bytes|r|r|r|p]; cbn [step event_ok] in *; try (repeat split; simpl; try assumption;
    unfold is_u64, is_u32, i64_min, i64_max in *; lia).
  - destruct Hev as [Hb Hq]. unfold observe_input. cbv zeta. unfold is_u64, u64_max in *.
    set (start := if input_window_started c then _ else _).
    rewrite (u64_id (input_window_bytes c + _)) by (unfold is_u64; lia).
    set (window := input_window_bytes c + _). assert (Hw : is_u64 window) by (unfold window, is_u64; lia).
    destruct ((enqueue <=? start) || _) eqn:E; [split; simpl; [split; assumption|assumption|assumption|exact Hw]|].
    apply orb_false_iff in E as [E1 E2]. b2p.
    pose proof (measured_rate_u64 window (enqueue - start) Hw ltac:(lia)) as Hm. unfold is_u64 in Hm.
    split; simpl; [split; assumption|assumption| |unfold is_u64; lia]. unfold is_u64.
    destruct (_ =? 0); [assumption|]. set (old := estimated_input_bandwidth c) in *.
    rewrite (u64_id (old - old / 8)) by (unfold is_u64; zlia).
    rewrite u64_id; unfold is_u64; zlia.
  - split; simpl; [split; assumption| |assumption|assumption].
    rewrite (u64_id (average_payload_size c * 127)) by (unfold is_u64; lia).
    rewrite u64_id by (unfold is_u64; lia).
    assert ((average_payload_size c * 127 + bytes) / 128 <= limit) by zlia. lia.
Qed.

(** The rate the controller paces at when no absolute limit is set. *)
Definition input_rate (c : t) : Z :=
  if input_bandwidth_bytes_per_second (configuration c) =? 0
  then Z.max (estimated_input_bandwidth c) (minimum_input_bandwidth_bytes_per_second (configuration c))
  else input_bandwidth_bytes_per_second (configuration c).

Definition paced (c : t) : Z :=
  let maximum := maximum_bandwidth_bytes_per_second (configuration c) in
  if maximum <? 0 then default_unlimited_rate
  else if maximum =? 0 then
    if input_rate c =? 0 then default_unlimited_rate
    else
      let boosted := input_rate c * (100 + overhead_percent (configuration c)) in
      if u64_max <? boosted then u64_max else boosted / 100
  else maximum.

Lemma pacing_rate_paced limit c : ok limit c ->
  pacing_rate_bytes_per_second c = paced c /\ 1 <= paced c <= u64_max /\
  (maximum_bandwidth_bytes_per_second (configuration c) = 0 -> input_rate c <= paced c).
Proof.
  intros [[C1 C2 C3 C4 C5 C6] O2 O3 O4]. unfold pacing_rate_bytes_per_second, paced. fold (input_rate c). cbv zeta.
  assert (Hr : 0 <= input_rate c <= u64_max)
    by (unfold input_rate, is_u64, u64_max in *; destruct (_ =? 0); lia).
  unfold default_unlimited_rate, i64_min, i64_max, u64_max in *.
  set (mx := maximum_bandwidth_bytes_per_second (configuration c)) in *.
  set (o := overhead_percent (configuration c)) in *. set (r := input_rate c) in *.
  destruct (Z.ltb_spec mx 0); [lia|]. destruct (Z.ltb_spec 0 mx), (Z.eqb_spec mx 0); try lia.
  destruct (Z.eqb_spec r 0) as [Hz|Hz]; [lia|].
  rewrite (u32_id (100 + o)) by (unfold is_u32; lia).
  destruct (Z.ltb_spec ((2 ^ 64 - 1) / (100 + o)) r) as [Hb|Hb], (Z.ltb_spec (2 ^ 64 - 1) (r * (100 + o))) as [Hc|Hc].
  - simpl. lia.
  - exfalso. assert (r <= (2 ^ 64 - 1) / (100 + o)) by (apply Z.div_le_lower_bound; lia). lia.
  - exfalso. pose proof (Z.mul_div_le (2 ^ 64 - 1) (100 + o) ltac:(lia)). nia.
  - rewrite u64_id by (unfold is_u64; nia). assert (r <= r * (100 + o) / 100) by (apply Z.div_le_lower_bound; nia).
    assert (r * (100 + o) / 100 <= r * (100 + o)) by (apply Z.div_le_upper_bound; nia).
    destruct (Z.eqb_spec (r * (100 + o) / 100) 0); lia.
Qed.

(** The least number of whole microseconds that [bytes] take at [rate]. *)
Lemma ceiling_despite_wrap bytes rate : 0 <= bytes < 2 ^ 40 -> 1 <= rate <= u64_max ->
  let interval := Z.max 1 (u64 (u64 (u64 (bytes * 1000000) + rate) - 1) / rate) in
  bytes * 1000000 <= interval * rate /\ (interval = 1 \/ (interval - 1) * rate < bytes * 1000000).
Proof.
  unfold u64_max. intros Hb Hr. cbv zeta. rewrite (u64_id (bytes * 1000000)) by (unfold is_u64; lia).
  set (w := bytes * 1000000) in *. assert (0 <= w < 2 ^ 60) by lia.
  destruct (Z.lt_ge_cases (w + rate) (2 ^ 64)) as [Hs|Hs].
  - rewrite (u64_id (w + rate)), u64_id by (unfold is_u64; lia).
    pose proof (Z.mul_div_le (w + rate - 1) rate ltac:(lia)) as K1.
    pose proof (Z.mul_succ_div_gt (w + rate - 1) rate ltac:(lia)) as K2.
    set (q := (w + rate - 1) / rate) in *. destruct (Z.max_spec 1 q) as [[? ->]|[? ->]]; split; nia.
  - assert (E : u64 (w + rate) = w + rate - 2 ^ 64)
      by (unfold u64; rewrite <- (Z_mod_plus_full _ (-1)), Z.mod_small; lia).
    rewrite E. destruct (Z.eq_dec (w + rate - 2 ^ 64) 0) as [E0|E0].
    + rewrite E0. change (u64 (0 - 1)) with (2 ^ 64 - 1).
      assert ((2 ^ 64 - 1) / rate = 1) as -> by (symmetry; apply Z.div_unique with (2 ^ 64 - 1 - rate); lia). simpl. lia.
    + rewrite u64_id by (unfold is_u64; lia). rewrite Z.div_small by lia. simpl. lia.
Qed.
End LiveRates.

(** C36: The live pacing rate and packet interval are exact.  With a configured
    overhead of at most 100 percent and payload sizes below 2^32, after any sequence
    of observations and option changes: a negative maximum means the default
    125 MB/s, a positive one is used as is, and with zero the rate is the
    configured input rate, or else the larger of the measured and the minimum
    one, raised by the overhead percentage, saturating at 64 bits and never
    below the input rate.  The interval between packets is the exact ceiling of
    the time an average packet needs at that rate, even where the 64-bit sum in
    its formula wraps around, so the pacing rate is never exceeded. *)
Theorem live_pacing_exact limit configuration events :
  1 <= limit < 2 ^ 32 -> LiveRates.configuration_ok limit configuration ->
  Forall (LiveRates.event_ok limit) events ->
  let c := fold_left LiveRates.step events (LiveRateController.make configuration) in
  let size := LiveRateController.average_payload_size c
              + LiveRateController.packet_header_size (LiveRateController.configuration c) in
  let rate := LiveRateController.pacing_rate_bytes_per_second c in
  let interval := LiveRateController.packet_interval_microseconds c in
  rate = LiveRates.paced c /\ 1 <= rate <= u64_max /\
  (LiveRateController.maximum_bandwidth_bytes_per_second (LiveRateController.configuration c) = 0 ->
   LiveRates.input_rate c <= rate) /\
  1 <= LiveRateController.average_payload_size c <= limit /\
  size * 1000000 <= interval * rate /\ (interval = 1 \/ (interval - 1) * rate < size * 1000000).
Proof.
  intros Hl Hc Hev. cbv zeta.
  assert (H0 : LiveRates.ok limit (LiveRateController.make configuration)).
  { split; simpl; [assumption| |unfold is_u64; lia|unfold is_u64; lia].
    pose proof (LiveRates.cfg_payload _ _ Hc). lia. }
  assert (Hok : LiveRates.ok limit (fold_left LiveRates.step events (LiveRateController.make configuration))).
  { revert H0. generalize (LiveRateController.make configuration).
    induction Hev as [|ev events He _ IH]; intros c H0; simpl; [assumption|]. apply IH, LiveRates.step_ok; assumption. }
  set (c := fold_left _ _ _) in *. destruct (LiveRates.pacing_rate_paced limit c Hok) as (P1 & P2 & P3).
  rewrite P1. split; [reflexivity|]. split; [exact P2|]. split; [exact P3|]. split; [apply Hok|].
  unfold LiveRateController.packet_interval_microseconds. rewrite P1. cbv zeta.
  pose proof (LiveRates.ok_average _ _ Hok). pose proof (LiveRates.cfg_header _ _ (LiveRates.ok_configuration _ _ Hok)).
  rewrite (u64_id (LiveRateController.average_payload_size c + _)) by (unfold is_u64; lia).
  apply LiveRates.ceiling_despite_wrap; [lia|exact P2].
Qed.

Lemma live_pacing_exact_witness :
  LiveRateController.pacing_rate_bytes_per_second
    (fold_left LiveRates.step
       [LiveRates.Input 1000 0; LiveRates.Input 1000 200000]
       (LiveRateController.make
          {| LiveRateController.input_bandwidth_bytes_per_second := 0;
             LiveRateController.minimum_input_bandwidth_bytes_per_second := 0;
             LiveRateController.maximum_bandwidth_bytes_per_second := 0;
             LiveRateController.overhead_percent := 25;
             LiveRateController.maximum_payload_size := 1316;
             LiveRateController.packet_header_size := 44 |})) = 12500.
Proof.
  match goal with |- context [LiveRateController.make ?cfg] =>
    destruct (live_pacing_exact 1500 cfg [LiveRates.Input 1000 0; LiveRates.Input 1000 200000]) as [H _] end.
  - lia.
  - split; vm_compute; split; (discriminate || reflexivity).
  - repeat constructor; vm_compute; (discriminate || reflexivity).
  - rewrite H. vm_compute. reflexivity.
Defined.

(** * Drift *)

Module Drift.
Import DriftSampler.

Definition feed (d : Z) (s : t) : t := (observe s d).2.

Section Window.
Context (n M d : Z) (Hn : 1 <= n <= 2 ^ 20) (HM : 1 <= M <= 2 ^ 40) (Hd : - 2 ^ 40 <= d <= 2 ^ 40).

(** [i] samples into the window that follows [k] complete ones. *)
Definition at_window (k i : Z) : t :=
  {| samples_per_window := n; maximum_correction_microseconds := M; samples := i;
     sum_microseconds := i * d; estimated_drift_microseconds := clamp d (- (k * M)) (k * M);
     residual_drift_microseconds := if k =? 0 then 0 else d - clamp d (- (k * M)) (k * M) |}.

Lemma feed_inside k i : 0 <= i -> i + 1 < n -> feed d (at_window k i) = at_window k (i + 1).
Proof.
  intros Hi Hin. unfold feed, observe, at_window. simpl.
  rewrite i64_id, u64_id by (unfold is_u64; nia).
  rewrite (proj2 (Z.ltb_lt (i + 1) n)) by lia. simpl. f_equal. lia.
Qed.

Lemma feed_last k : 0 <= k -> feed d (at_window k (n - 1)) = at_window (k + 1) 0.
Proof.
  intros Hk. unfold feed, observe, at_window. simpl.
  replace ((n - 1) * d + d) with (d * n) by lia. replace (n - 1 + 1) with n by lia.
  rewrite (u64_id n), (i64_id n), (i64_id (d * n)) by (unfold is_u64; nia).
  rewrite Z.ltb_irrefl, Z.quot_mul by lia. simpl.
  set (e := clamp d (- (k * M)) (k * M)).
  assert (He : - 2 ^ 40 <= e <= 2 ^ 40 /\ (d <= e \/ 0 <= e) /\ (e <= d \/ e <= 0)).
  { unfold e, clamp. destruct (Z.ltb_spec d (- (k * M))), (Z.ltb_spec (k * M) d); nia. }
  rewrite (i64_id (d - e)) by lia.
  assert (Hc : - M <= clamp (d - e) (- M) M <= M /\ e + clamp (d - e) (- M) M = clamp d (- ((k + 1) * M)) ((k + 1) * M)
     /\ - 2 ^ 41 <= clamp (d - e) (- M) M <= 2 ^ 41).
  { unfold e, clamp. destruct (Z.ltb_spec d (- (k * M))), (Z.ltb_spec (k * M) d); try nia;
    repeat match goal with |- context [?a <? ?b] => destruct (Z.ltb_spec a b) end; nia. }
  destruct Hc as (H1 & H2 & H3). rewrite (i64_id (e + _)) by lia. rewrite H2.
  assert (- 2 ^ 42 <= clamp d (- ((k + 1) * M)) ((k + 1) * M) <= 2 ^ 42) by lia.
  rewrite i64_id by lia. f_equal. destruct (Z.eqb_spec (k + 1) 0); [lia|reflexivity].
Qed.

Lemma feed_iter k i : 0 <= k -> Z.of_nat i < n -> Nat.iter i (feed d) (at_window k 0) = at_window k (Z.of_nat i).
Proof.
  intros Hk. induction i as [|i IH]; intros Hi; [reflexivity|]. rewrite Nat.iter_succ.
  rewrite IH by lia. rewrite feed_inside by lia. f_equal. lia.
Qed.

Lemma feed_window k : 0 <= k -> Nat.iter (Z.to_nat n) (feed d) (at_window k 0) = at_window (k + 1) 0.
Proof.
  intros Hk. replace (Z.to_nat n) with (S (Z.to_nat (n - 1))) by lia. rewrite Nat.iter_succ.
  rewrite feed_iter by lia. rewrite Z2Nat.id by lia. apply feed_last. assumption.
Qed.

Lemma feed_windows k : Nat.iter (k * Z.to_nat n) (feed d) (at_window 0 0) = at_window (Z.of_nat k) 0.
Proof.
  induction k as [|k IH]; [reflexivity|]. cbn [Nat.mul]. rewrite Nat.iter_add, IH, feed_window by lia.
  f_equal. lia.
Qed.
End Window.

(** ** Arbitrary drifts *)

Section Samples.
Context (n M D : Z) (Hn : 1 <= n <= 2 ^ 20) (HM : 1 <= M <= 2 ^ 40) (HD : 0 <= D <= 2 ^ 40).

Definition run (xs : list Z) : t := fold_left (fun s x => feed x s) xs (make n M).

(** The samples since the last complete window. *)
Definition current_window (xs : list Z) : list Z := drop (length xs / Z.to_nat n * Z.to_nat n) xs.

Record sampled (xs : list Z) (s : t) : Prop := {
  sampled_window : samples_per_window s = n;
  sampled_maximum : maximum_correction_microseconds s = M;
  sampled_count : samples s = Z.of_nat (length (current_window xs));
  sampled_sum : sum_microseconds s = sumZ (current_window xs);
  sampled_estimate : - D <= estimated_drift_microseconds s <= D;
}.

Lemma length_current xs : length (current_window xs) = (length xs mod Z.to_nat n)%nat.
Proof. unfold current_window. rewrite length_drop. pose proof (Nat.div_mod_eq (length xs) (Z.to_nat n)). lia. Qed.

Lemma current_snoc xs x : current_window (xs ++ [x]) =
  if (S (length (current_window xs)) =? Z.to_nat n)%nat then [] else current_window xs ++ [x].
Proof.
  set (k := Z.to_nat n). assert (Hk : (0 < k)%nat) by (unfold k; lia).
  pose proof (length_current xs) as Hl. fold k in Hl.
  pose proof (Nat.div_mod_eq (length xs) k) as E. pose proof (Nat.mod_upper_bound (length xs) k ltac:(lia)) as Hb.
  assert (El : length (xs ++ [x]) = S (length xs)) by (rewrite length_app; cbn; lia).
  destruct (Nat.eqb_spec (S (length (current_window xs))) k) as [Hf|Hf].
  - unfold current_window. fold k. assert (Ed : (length (xs ++ [x]) / k = S (length xs / k))%nat).
    { symmetry. apply (Nat.div_unique _ _ _ 0); [lia|]. rewrite El. lia. }
    apply drop_ge. rewrite Ed, El. lia.
  - assert (Ed : (length (xs ++ [x]) / k = length xs / k)%nat).
    { symmetry. apply (Nat.div_unique _ _ _ (S (length xs mod k))); [lia|]. rewrite El. lia. }
    unfold current_window. fold k. rewrite Ed. apply drop_app_le. lia.
Qed.

Lemma quot_bounds w : w <> [] -> Forall (fun x => - D <= x <= D) w -> - D <= Z.quot (sumZ w) (Z.of_nat (length w)) <= D.
Proof.
  intros Hw Hb. apply sumZ_bounds in Hb. assert (Hl : 0 < Z.of_nat (length w)) by (destruct w; [congruence|cbn; lia]).
  split; [apply Z.quot_le_lower_bound|apply Z.quot_le_upper_bound]; lia.
Qed.

(** One sample: inside a window nothing is corrected; the sample that completes it
    corrects the estimate by the clamped difference to the window's average. *)
Lemma observe_sampled xs x s : sampled xs s -> Forall (fun x => - D <= x <= D) (xs ++ [x]) ->
  let '(u, s') := observe s x in
  let w := current_window xs ++ [x] in
  let average := Z.quot (sumZ w) n in
  window_complete u = (Z.of_nat (length w) =? n) /\
  correction_microseconds u =
    (if window_complete u then clamp (average - estimated_drift_microseconds s) (- M) M else 0) /\
  - M <= correction_microseconds u <= M /\
  estimated_drift_microseconds s' = estimated_drift_microseconds s + correction_microseconds u /\
  (window_complete u = true -> residual_drift_microseconds s' = average - estimated_drift_microseconds s') /\
  sampled (xs ++ [x]) s'.
Proof.
  intros [S1 S2 S3 S4 S5] Hx. pose proof (length_current xs) as Hl.
  pose proof (Nat.mod_upper_bound (length xs) (Z.to_nat n) ltac:(lia)) as Hb.
  apply Forall_app in Hx as [Hxs Hx]. assert (Hw : Forall (fun x => - D <= x <= D) (current_window xs ++ [x]))
    by (apply Forall_app; split; [apply Forall_drop|]; assumption).
  pose proof (quot_bounds (current_window xs ++ [x]) ltac:(intros E; apply app_eq_nil in E as [_ E]; discriminate) Hw) as Hq.
  pose proof (sumZ_bounds _ _ _ Hw) as Hs. rewrite length_app in Hq, Hs. cbn [length] in Hq, Hs.
  assert (Esum : sum_microseconds s + x = sumZ (current_window xs ++ [x])).
  { rewrite S4. generalize (current_window xs). induction l as [|y l IH]; cbn [app sumZ fold_right] in *; unfold sumZ in *; lia. }
  pose proof (current_snoc xs x) as Ec. unfold observe. cbv zeta. rewrite S1, S2, S3, Esum, length_app. cbn [length].
  replace (Z.of_nat (length (current_window xs)) + 1) with (Z.of_nat (length (current_window xs) + 1)) by lia.
  rewrite u64_id by (unfold is_u64; lia). rewrite (i64_id (sumZ _)) by nia.
  destruct (Z.ltb_spec (Z.of_nat (length (current_window xs) + 1)) n) as [Hlt|Hge].
  - rewrite (proj2 (Z.eqb_neq _ _)) by lia. cbn [window_complete correction_microseconds estimated_drift_microseconds residual_drift_microseconds].
    split_and!; auto; try lia; try discriminate. destruct (Nat.eqb_spec (S (length (current_window xs))) (Z.to_nat n)); [lia|].
    split; cbn; auto; rewrite Ec; [rewrite length_app; cbn; lia|reflexivity].
  - assert (Hf : Z.of_nat (length (current_window xs) + 1) = n) by lia. rewrite (proj2 (Z.eqb_eq _ _) Hf), (i64_id (Z.of_nat _)) by lia.
    cbn [window_complete correction_microseconds estimated_drift_microseconds residual_drift_microseconds].
    rewrite Hf in *. set (a := Z.quot _ n) in *. set (e := estimated_drift_microseconds s) in *. rewrite (i64_id (a - e)) by lia.
    set (c := clamp (a - e) (- M) M).
    assert (Hc : - M <= c <= M /\ - D <= e + c <= D).
    { unfold c, clamp. destruct (Z.ltb_spec (a - e) (- M)), (Z.ltb_spec M (a - e)); lia. }
    rewrite (i64_id (e + c)), (i64_id (a - _)) by lia. split_and!; auto; try lia.
    destruct (Nat.eqb_spec (S (length (current_window xs))) (Z.to_nat n)); [|lia]. split; cbn; auto; try lia; rewrite Ec; reflexivity.
Qed.

Lemma run_sampled xs : Forall (fun x => - D <= x <= D) xs -> sampled xs (run xs).
Proof.
  induction xs as [|x xs IH] using rev_ind; intros Hx.
  { split; unfold run; cbn; try lia; unfold current_window; rewrite drop_nil; reflexivity. }
  pose proof Hx as Hx'. apply Forall_app in Hx' as [Hxs _]. pose proof (observe_sampled xs x (run xs) (IH Hxs) Hx) as H.
  unfold run, feed in *. rewrite fold_left_app. cbn [fold_left]. destruct (observe _ x) as [u s']. apply H.
Qed.
End Samples.
End Drift.

(** C37: The drift sampler corrects in bounded steps and converges.  For any samples
    up to [D] in size: a window is complete with every [n]-th sample; the correction is
    then the difference of the window's average and the estimate, clamped to the
    configured maximum [M], and zero inside a window; the estimate moves by
    exactly the correction and stays within [D]; the residual is what
    remains of the average.  Under a constant drift [d] the estimate after [k]
    complete windows is [d] clamped to [k] maximal steps, so it reaches [d] exactly and
    stays there.  (Windows up to 2^20 samples, drifts and steps up to 2^40.) *)
Theorem drift_converges n M : 1 <= n <= 2 ^ 20 -> 1 <= M <= 2 ^ 40 ->
  (forall D xs x, 0 <= D <= 2 ^ 40 -> Forall (fun x => - D <= x <= D) (xs ++ [x]) ->
   let s := Drift.run n M xs in
   let '(u, s') := DriftSampler.observe s x in
   let w := Drift.current_window n xs ++ [x] in
   let average := Z.quot (sumZ w) n in
   window_complete u = (Z.of_nat (length xs + 1) mod n =? 0) /\
   correction_microseconds u =
     (if window_complete u
      then DriftSampler.clamp (average - DriftSampler.estimated_drift_microseconds s) (- M) M else 0) /\
   - M <= correction_microseconds u <= M /\
   DriftSampler.estimated_drift_microseconds s'
     = DriftSampler.estimated_drift_microseconds s + correction_microseconds u /\
   - D <= DriftSampler.estimated_drift_microseconds s' <= D /\
   (window_complete u = true -> DriftSampler.residual_drift_microseconds s'
      = average - DriftSampler.estimated_drift_microseconds s')) /\
  (forall d k, - 2 ^ 40 <= d <= 2 ^ 40 ->
   let s := Nat.iter (k * Z.to_nat n) (Drift.feed d) (DriftSampler.make n M) in
   DriftSampler.estimated_drift_microseconds s
     = DriftSampler.clamp d (- (Z.of_nat k * M)) (Z.of_nat k * M) /\
   (Z.abs d <= Z.of_nat k * M -> DriftSampler.estimated_drift_microseconds s = d)).
Proof.
  intros Hn HM. split.
  - intros D xs x HD Hx s. pose proof (Drift.observe_sampled n M D Hn HM HD xs x s) as H.
    pose proof (Drift.length_current n Hn xs) as Hl.
    pose proof (Nat.mod_upper_bound (length xs) (Z.to_nat n) ltac:(lia)) as Hb.
    destruct (DriftSampler.observe s x) as [u s']. destruct H as (H1 & H2 & H3 & H4 & H5 & H6); [|exact Hx|].
    { apply Drift.run_sampled; auto. apply Forall_app in Hx. apply Hx. }
    pose proof (Drift.sampled_estimate _ _ _ _ _ H6) as [E1 E2]. split_and!; auto; try apply H3. rewrite H1, length_app, Hl. cbn [length].
    rewrite Nat2Z.inj_add, Nat2Z.inj_mod, Z2Nat.id, Nat2Z.inj_add by lia.
    rewrite <- Zplus_mod_idemp_l. set (r := Z.of_nat (length xs) mod n).
    assert (0 <= r < n) by (apply Z.mod_pos_bound; lia). change (Z.of_nat 1) with 1.
    destruct (Z.eqb_spec (r + 1) n) as [E|E]; [rewrite E, Z_mod_same_full; reflexivity|].
    rewrite Z.mod_small by lia. symmetry. apply Z.eqb_neq. lia.
  - intros d k Hd. cbv zeta. assert (E0 : DriftSampler.make n M = Drift.at_window n M d 0 0).
    { unfold DriftSampler.make, Drift.at_window. f_equal; try lia.
      rewrite Z.mul_0_l. change (- 0) with 0. unfold DriftSampler.clamp.
      destruct (Z.ltb_spec d 0), (Z.ltb_spec 0 d); lia. }
    rewrite E0, Drift.feed_windows by assumption. simpl. split; [reflexivity|].
    intros Ha. unfold DriftSampler.clamp.
    destruct (Z.ltb_spec d (- (Z.of_nat k * M))), (Z.ltb_spec (Z.of_nat k * M) d); lia.
Qed.

Lemma drift_converges_witness :
  (- 5000 <= correction_microseconds (DriftSampler.observe (Drift.run 4 5000 [9000; 12000; 15000]) 18000).1 <= 5000) /\
  DriftSampler.estimated_drift_microseconds
    (Nat.iter (3 * Z.to_nat 4) (Drift.feed 12000) (DriftSampler.make 4 5000)) = 12000.
Proof.
  destruct (drift_converges 4 5000) as [H1 H2]; [lia|lia|]. split.
  - specialize (H1 20000 [9000; 12000; 15000] 18000 ltac:(lia) ltac:(repeat constructor; lia)).
    cbv zeta in H1. destruct (DriftSampler.observe _ 18000) as [u s']. apply H1.
  - apply (H2 12000 3%nat); vm_compute; (discriminate || (split; discriminate)).
Defined.
