(* ===== verification/Timing.v ===== *)
(** Timers and clocks of a connection: the control timer scheduler, the
    sender's retransmission timer, the packet pacer, the timer wake monitor and
    the time-stamp based delivery clock (timing.hpp, timing.cpp). *)
From S2P Require Import Prelude Sequence Rtt Live.

Module TimerActionKind.
Inductive t := full_acknowledgement | lite_acknowledgement | periodic_loss_report | keepalive.
#[export] Instance eq_dec : EqDecision t.
Proof. solve_decision. Defined.
End TimerActionKind.

(** * The control timer scheduler *)

Module ControlTimerScheduler.
Record Configuration := {
  acknowledgement_interval_microseconds : Z;
  keepalive_interval_microseconds : Z;
  lite_acknowledgement_packet_interval : Z;
}.

Record t := {
  configuration : Configuration;
  next_ack_microseconds : Z;
  next_nak_microseconds : Z;
  last_send_microseconds : Z;
  packets_since_full_ack : Z;
  next_lite_ack_threshold : Z;
  nak_interval_microseconds : Z;
  acknowledgement_dirty : bool;
  has_loss : bool;
}.
Definition eta_t (s : t) : t :=
  Build_t (configuration s) (next_ack_microseconds s) (next_nak_microseconds s)
    (last_send_microseconds s) (packets_since_full_ack s) (next_lite_ack_threshold s)
    (nak_interval_microseconds s) (acknowledgement_dirty s) (has_loss s).
Definition set_configuration : Configuration -> t -> t := ltac:(setter eta_t configuration).
Definition set_next_ack : Z -> t -> t := ltac:(setter eta_t next_ack_microseconds).
Definition set_next_nak : Z -> t -> t := ltac:(setter eta_t next_nak_microseconds).
Definition set_last_send : Z -> t -> t := ltac:(setter eta_t last_send_microseconds).
Definition set_packets : Z -> t -> t := ltac:(setter eta_t packets_since_full_ack).
Definition set_threshold : Z -> t -> t := ltac:(setter eta_t next_lite_ack_threshold).
Definition set_nak_interval : Z -> t -> t := ltac:(setter eta_t nak_interval_microseconds).
Definition set_dirty : bool -> t -> t := ltac:(setter eta_t acknowledgement_dirty).
Definition set_has_loss : bool -> t -> t := ltac:(setter eta_t has_loss).

Definition make (start : Z) (c : Configuration) : t :=
  let c := {| acknowledgement_interval_microseconds :=
                Z.max (acknowledgement_interval_microseconds c) 1;
              keepalive_interval_microseconds := Z.max (keepalive_interval_microseconds c) 1;
              lite_acknowledgement_packet_interval :=
                Z.max (lite_acknowledgement_packet_interval c) 1 |} in
  {| configuration := c;
     next_ack_microseconds := u64 (start + acknowledgement_interval_microseconds c);
     next_nak_microseconds := u64 (start + minimum_nak_interval_microseconds);
     last_send_microseconds := start;
     packets_since_full_ack := 0;
     next_lite_ack_threshold := lite_acknowledgement_packet_interval c;
     nak_interval_microseconds := minimum_nak_interval_microseconds;
     acknowledgement_dirty := false; has_loss := false |}.

Definition set_keepalive_interval (s : t) (microseconds : Z) : t :=
  set_configuration
    {| acknowledgement_interval_microseconds :=
         acknowledgement_interval_microseconds (configuration s);
       keepalive_interval_microseconds := Z.max microseconds 1;
       lite_acknowledgement_packet_interval :=
         lite_acknowledgement_packet_interval (configuration s) |} s.

Definition on_data_received (s : t) : t :=
  set_packets (u32 (packets_since_full_ack s + 1)) (set_dirty true s).

Definition on_receive_buffer_released (s : t) (now : Z) (expedite : bool) : t :=
  let s := set_dirty true s in
  if expedite then set_next_ack (Z.min (next_ack_microseconds s) now) s else s.

(** The bookkeeping of a full acknowledgement sent at [now]. *)
Definition full_acknowledgement_sent (s : t) (now : Z) : t :=
  let s := set_dirty false s in
  let s := set_packets 0 s in
  let s := set_threshold (lite_acknowledgement_packet_interval (configuration s)) s in
  set_next_ack (u64 (now + acknowledgement_interval_microseconds (configuration s))) s.

Definition flush_full_acknowledgement (s : t) (now : Z) : bool * t :=
  if negb (acknowledgement_dirty s) then (false, s)
  else (true, full_acknowledgement_sent s now).

Definition on_packet_sent (s : t) (now : Z) : t := set_last_send now s.

Definition set_loss_state (s : t) (loss : bool) (now nak_interval : Z) (defer : bool) : t :=
  let previous_interval := nak_interval_microseconds s in
  let interval := Z.max nak_interval minimum_nak_interval_microseconds in
  let s := set_nak_interval interval s in
  let s :=
    if loss && negb (has_loss s) then
      set_next_nak
        (if defer then if u64_max - interval <? now then u64_max else u64 (now + interval)
         else now) s
    else s in
  let s :=
    if loss && has_loss s && (interval <? previous_interval) then
      set_next_nak
        (Z.min (next_nak_microseconds s) (u64 (now + Z.min interval (u64_max - now)))) s
    else s in
  set_has_loss loss s.

Definition next_deadline (s : t) (now : Z) : Z :=
  let deadline :=
    u64 (last_send_microseconds s
         + Z.min (keepalive_interval_microseconds (configuration s))
             (u64_max - last_send_microseconds s)) in
  let deadline :=
    if acknowledgement_dirty s then
      let deadline := Z.min deadline (next_ack_microseconds s) in
      if next_lite_ack_threshold s <=? packets_since_full_ack s
      then Z.min deadline now else deadline
    else deadline in
  if has_loss s then Z.min deadline (next_nak_microseconds s) else deadline.

(** The three stages of [poll]; each may push one action. *)
Definition poll_acknowledgement (s : t) (now : Z) : list TimerActionKind.t * t :=
  if acknowledgement_dirty s && (next_ack_microseconds s <=? now) then
    ([TimerActionKind.full_acknowledgement], full_acknowledgement_sent s now)
  else if acknowledgement_dirty s && (next_lite_ack_threshold s <=? packets_since_full_ack s) then
    ([TimerActionKind.lite_acknowledgement],
     set_threshold (u32 (next_lite_ack_threshold s
                         + lite_acknowledgement_packet_interval (configuration s))) s)
  else ([], s).

Definition poll_loss (s : t) (now : Z) : list TimerActionKind.t * t :=
  if has_loss s && (next_nak_microseconds s <=? now) then
    ([TimerActionKind.periodic_loss_report],
     set_next_nak (u64 (now + nak_interval_microseconds s)) s)
  else ([], s).

Definition poll_keepalive (s : t) (now : Z) : list TimerActionKind.t * t :=
  if u64 (last_send_microseconds s + keepalive_interval_microseconds (configuration s)) <=? now
  then ([TimerActionKind.keepalive], set_last_send now s)
  else ([], s).

Definition poll (s : t) (now : Z) : list TimerActionKind.t * t :=
  let '(a, s) := poll_acknowledgement s now in
  let '(b, s) := poll_loss s now in
  let '(c, s) := poll_keepalive s now in
  (a ++ b ++ c, s).
End ControlTimerScheduler.

(** * The sender's retransmission timer *)

Module SenderRetransmissionTimer.
Record t := {
  last_acknowledgement_microseconds : Z;
  timeout_multiplier : Z;
  armed : bool;
}.

Definition make (start : Z) : t :=
  {| last_acknowledgement_microseconds := start; timeout_multiplier := 1; armed := false |}.

Definition on_data_packet_sent (r : t) (now : Z) : t :=
  if armed r then r
  else {| last_acknowledgement_microseconds := now; timeout_multiplier := 1; armed := true |}.

Definition on_acknowledgement_received (r : t) (now : Z) (has_packets_in_flight : bool) : t :=
  {| last_acknowledgement_microseconds := now; timeout_multiplier := 1;
     armed := has_packets_in_flight |}.

Definition on_no_packets_in_flight (r : t) : t :=
  {| last_acknowledgement_microseconds := last_acknowledgement_microseconds r;
     timeout_multiplier := 1; armed := false |}.

Definition synchronization_interval_microseconds : Z := 10000.

Definition timeout_interval (r : t) (srtt variation : Z) : Z :=
  let round_trip_timeout :=
    u64 (u64 (srtt + u64 (4 * variation)) + 2 * synchronization_interval_microseconds) in
  if negb (round_trip_timeout =? 0)
     && ((u64_max - synchronization_interval_microseconds) / round_trip_timeout
         <? timeout_multiplier r)
  then u64_max
  else u64 (u64 (timeout_multiplier r * round_trip_timeout)
            + synchronization_interval_microseconds).

Definition next_deadline (r : t) (srtt variation : Z) : option Z :=
  if negb (armed r) then None
  else
    let interval := timeout_interval r srtt variation in
    if u64_max - last_acknowledgement_microseconds r <? interval then Some u64_max
    else Some (u64 (last_acknowledgement_microseconds r + interval)).

Definition poll (r : t) (now srtt variation : Z) : bool * t :=
  match next_deadline r srtt variation with
  | None => (false, r)
  | Some deadline =>
      if now <? deadline then (false, r)
      else
        (true,
         if timeout_multiplier r =? u32_max then r
         else {| last_acknowledgement_microseconds := last_acknowledgement_microseconds r;
                 timeout_multiplier := u32 (timeout_multiplier r + 1); armed := armed r |})
  end.
End SenderRetransmissionTimer.

(** * The packet pacer *)

Record PaceDecision := { ready : bool; next_ready_microseconds : Z }.

Module PacketPacer.
Record t := {
  bytes_per_second : Z;
  flow_window_packets : Z;
  next_send_microseconds : Z;
  schedule_credit_microseconds : Z;
  has_schedule : bool;
}.
Definition eta_t (p : t) : t :=
  Build_t (bytes_per_second p) (flow_window_packets p) (next_send_microseconds p)
    (schedule_credit_microseconds p) (has_schedule p).

Definition default_schedule_credit_microseconds : Z := 1000.

Definition make (rate flow_window : Z) : t :=
  {| bytes_per_second := Z.max rate 1; flow_window_packets := Z.max flow_window 1;
     next_send_microseconds := 0;
     schedule_credit_microseconds := default_schedule_credit_microseconds;
     has_schedule := false |}.

Definition query (p : t) (now packets_in_flight : Z) : PaceDecision :=
  {| ready := (packets_in_flight <? flow_window_packets p) && (next_send_microseconds p <=? now);
     next_ready_microseconds := next_send_microseconds p |}.

Definition send_interval (p : t) (bytes : Z) : Z :=
  Z.max 1 (u64 (u64 (u64 (bytes * 1000000) + bytes_per_second p) - 1) / bytes_per_second p).

(** [submillisecond] is the platform switch
    ROBOTWEAX_SRT_SUBMILLISECOND_TIMER_PACING. *)
Definition on_packet_sent (submillisecond : bool) (p : t) (bytes now : Z) : t :=
  let interval := send_interval p bytes in
  if submillisecond then
    let keeps_schedule :=
      has_schedule p
      && (now <=? u64 (next_send_microseconds p + schedule_credit_microseconds p)) in
    let base := if keeps_schedule then next_send_microseconds p else now in
    {| bytes_per_second := bytes_per_second p; flow_window_packets := flow_window_packets p;
       next_send_microseconds := u64 (base + interval);
       schedule_credit_microseconds := schedule_credit_microseconds p; has_schedule := true |}
  else
    {| bytes_per_second := bytes_per_second p; flow_window_packets := flow_window_packets p;
       next_send_microseconds := u64 (Z.max (next_send_microseconds p) now + interval);
       schedule_credit_microseconds := schedule_credit_microseconds p;
       has_schedule := has_schedule p |}.

Definition set_schedule_credit : Z -> t -> t := ltac:(setter eta_t schedule_credit_microseconds).
Definition set_rate (rate : Z) (p : t) : t :=
  ltac:(setter eta_t bytes_per_second) (Z.max rate 1) p.
Definition set_flow_window (packets : Z) (p : t) : t :=
  ltac:(setter eta_t flow_window_packets) (Z.max packets 1) p.
End PacketPacer.

(** * The timer wake monitor *)

Module TimerWakeMonitor.
Definition late_threshold_microseconds : Z := 1000.
Definition punctual_threshold_microseconds : Z := 250.
Definition late_streak_to_enter : nat := 3.
Definition punctual_streak_to_leave : nat := 16.

Record t := { late_streak : nat; punctual_streak : nat; coarse : bool }.

Definition make : t := {| late_streak := 0; punctual_streak := 0; coarse := false |}.

Definition observe (m : t) (lateness : Z) : t :=
  if late_threshold_microseconds <? lateness then
    let streak := if (late_streak m <? late_streak_to_enter)%nat then S (late_streak m)
                  else late_streak m in
    {| late_streak := streak; punctual_streak := 0;
       coarse := if (late_streak_to_enter <=? streak)%nat then true else coarse m |}
  else if lateness <=? punctual_threshold_microseconds then
    let streak := if (punctual_streak m <? punctual_streak_to_leave)%nat
                  then S (punctual_streak m) else punctual_streak m in
    {| late_streak := 0; punctual_streak := streak;
       coarse := if (punctual_streak_to_leave <=? streak)%nat then false else coarse m |}
  else {| late_streak := 0; punctual_streak := punctual_streak m; coarse := coarse m |}.
End TimerWakeMonitor.

(** * The delivery clock *)

Module TsbpdClock.
Definition maximum_tsbpd_slew_parts_per_million : Z := 1000.
Definition parts_per_million : Z := 1000000.

(** [shared_state] names a shared clock (see [heap] below). *)
Record t := {
  shared_state : option nat;
  time_base_microseconds : Z;
  latest_unwrapped_timestamp : Z;
  last_slew_timestamp : Z;
  delay_microseconds : Z;
  target_drift_microseconds : Z;
  applied_drift_microseconds : Z;
  slew_remainder : Z;
  drift_sampler : DriftSampler.t;
  first_round_trip_time_microseconds : option Z;
}.
Definition eta_t (c : t) : t :=
  Build_t (shared_state c) (time_base_microseconds c) (latest_unwrapped_timestamp c)
    (last_slew_timestamp c) (delay_microseconds c) (target_drift_microseconds c)
    (applied_drift_microseconds c) (slew_remainder c) (drift_sampler c)
    (first_round_trip_time_microseconds c).
Definition set_shared_state : option nat -> t -> t := ltac:(setter eta_t shared_state).
Definition set_latest : Z -> t -> t := ltac:(setter eta_t latest_unwrapped_timestamp).
Definition set_last_slew : Z -> t -> t := ltac:(setter eta_t last_slew_timestamp).
Definition set_delay : Z -> t -> t := ltac:(setter eta_t delay_microseconds).
Definition set_target : Z -> t -> t := ltac:(setter eta_t target_drift_microseconds).
Definition set_applied : Z -> t -> t := ltac:(setter eta_t applied_drift_microseconds).
Definition set_remainder : Z -> t -> t := ltac:(setter eta_t slew_remainder).
Definition set_sampler : DriftSampler.t -> t -> t := ltac:(setter eta_t drift_sampler).
Definition set_first_rtt : option Z -> t -> t :=
  ltac:(setter eta_t first_round_trip_time_microseconds).

Definition make (handshake_arrival : Z) (handshake_timestamp : PacketTimestamp.t)
    (delay : Z) : t :=
  {| shared_state := None;
     time_base_microseconds := i64 (i64 handshake_arrival - handshake_timestamp);
     latest_unwrapped_timestamp := handshake_timestamp;
     last_slew_timestamp := handshake_timestamp;
     delay_microseconds := delay;
     target_drift_microseconds := 0; applied_drift_microseconds := 0; slew_remainder := 0;
     drift_sampler := DriftSampler.make 1000 5000;
     first_round_trip_time_microseconds := None |}.

(** ** One clock *)

Definition project (c : t) (timestamp : PacketTimestamp.t) : Z :=
  let latest_low := u32 (latest_unwrapped_timestamp c) in
  let distance := i32 (u32 (timestamp - latest_low)) in
  let candidate_signed := i64 (i64 (latest_unwrapped_timestamp c) + distance) in
  if candidate_signed <=? 0 then 0 else candidate_signed.

Definition unwrap (c : t) (timestamp : PacketTimestamp.t) : Z * t :=
  let candidate := project c timestamp in
  (candidate, set_latest (Z.max (latest_unwrapped_timestamp c) candidate) c).

Definition advance_applied_drift (c : t) (unwrapped : Z) : t :=
  if unwrapped <=? last_slew_timestamp c then c
  else
    let elapsed := u64 (unwrapped - last_slew_timestamp c) in
    let c := set_last_slew unwrapped c in
    if applied_drift_microseconds c =? target_drift_microseconds c then set_remainder 0 c
    else
      let scaled_budget :=
        u64 (u64 (elapsed * maximum_tsbpd_slew_parts_per_million) + slew_remainder c) in
      let budget := scaled_budget / parts_per_million in
      let c := set_remainder (scaled_budget mod parts_per_million) c in
      if budget =? 0 then c
      else
        let difference := i64 (target_drift_microseconds c - applied_drift_microseconds c) in
        let magnitude := if difference <? 0 then u64 (i64 (- difference)) else u64 difference in
        let step := i64 (Z.min budget magnitude) in
        let c := set_applied
                   (i64 (applied_drift_microseconds c
                         + if difference <? 0 then i64 (- step) else step)) c in
        if applied_drift_microseconds c =? target_drift_microseconds c
        then set_remainder 0 c else c.

(** The local arrival time of source time [unwrapped], plus the delay. *)
Definition delivery_of (c : t) (unwrapped : Z) : Z :=
  let signed_delivery :=
    i64 (time_base_microseconds c + i64 unwrapped + delay_microseconds c
         + applied_drift_microseconds c) in
  if signed_delivery <=? 0 then 0 else signed_delivery.

Definition own_delivery_time (timestamp : PacketTimestamp.t) (c : t) : Z * t :=
  let '(unwrapped, c) := unwrap c timestamp in
  let c := advance_applied_drift c unwrapped in
  (delivery_of c unwrapped, c).

Definition own_control_delivery_time (timestamp : PacketTimestamp.t) (c : t) : Z * t :=
  (delivery_of c (project c timestamp), c).

Definition own_observe_arrival (timestamp : PacketTimestamp.t) (arrival : Z)
    (rtt : option Z) (advance_epoch : bool) (c : t) : DriftUpdate * t :=
  let c := match first_round_trip_time_microseconds c, rtt with
           | None, Some _ => set_first_rtt rtt c
           | _, _ => c
           end in
  let c :=
    if advance_epoch then c
    else
      let local_source_time :=
        i64 (i64 arrival - time_base_microseconds c - applied_drift_microseconds c) in
      if 0 <? local_source_time
      then set_latest (Z.max (latest_unwrapped_timestamp c) local_source_time) c else c in
  let '(unwrapped, c) :=
    if advance_epoch then unwrap c timestamp else (project c timestamp, c) in
  let rtt_delta :=
    match rtt with
    | Some r => Z.quot (r - default 0 (first_round_trip_time_microseconds c)) 2
    | None => 0
    end in
  let expected_arrival := i64 (time_base_microseconds c + i64 unwrapped + rtt_delta) in
  let '(update, sampler) :=
    DriftSampler.observe (drift_sampler c) (i64 (i64 arrival - expected_arrival)) in
  let c := set_sampler sampler c in
  (update,
   if window_complete update
   then set_target (i64 (target_drift_microseconds c + correction_microseconds update)) c
   else c).

(** ** Clocks shared by the members of a group

    The shared clocks, addressed by index; a clock that is itself shared
    forwards to the next.  The mutex makes each operation one step. *)
Abbreviation heap := (list t).

Fixpoint forward {A} (fuel : nat) (f : t -> A * t) (h : heap) (l : nat) : option (A * heap) :=
  match fuel with
  | O => None
  | S fuel =>
      match h !! l with
      | None => None
      | Some cell =>
          match shared_state cell with
          | Some l' => forward fuel f h l'
          | None => let '(a, cell) := f cell in Some (a, <[l := cell]> h)
          end
      end
  end.

Definition on_clock {A} (f : t -> A * t) (h : heap) (c : t) : option (A * heap * t) :=
  match shared_state c with
  | Some l => match forward (length h) f h l with
              | Some (a, h) => Some (a, h, c)
              | None => None
              end
  | None => let '(a, c) := f c in Some (a, h, c)
  end.

Definition delivery_time (timestamp : PacketTimestamp.t) : heap -> t -> option (Z * heap * t) :=
  on_clock (own_delivery_time timestamp).

Definition control_delivery_time (timestamp : PacketTimestamp.t)
    : heap -> t -> option (Z * heap * t) :=
  on_clock (own_control_delivery_time timestamp).

Definition observe_arrival (timestamp : PacketTimestamp.t) (arrival : Z) (rtt : option Z)
    (advance_epoch : bool) : heap -> t -> option (DriftUpdate * heap * t) :=
  on_clock (own_observe_arrival timestamp arrival rtt advance_epoch).

Definition ready (timestamp : PacketTimestamp.t) (now : Z) (h : heap) (c : t)
    : option (bool * heap * t) :=
  match delivery_time timestamp h c with
  | Some (delivery, h, c) => Some (delivery <=? now, h, c)
  | None => None
  end.

Definition too_late (timestamp : PacketTimestamp.t) (now tolerance : Z) (h : heap) (c : t)
    : option (bool * heap * t) :=
  match delivery_time timestamp h c with
  | Some (delivery, h, c) =>
      Some ((delivery <? now) && (tolerance <? u64 (now - delivery)), h, c)
  | None => None
  end.

Definition share_group_clock (h : heap) (state : option nat) (c : t) : heap * option nat * t :=
  match state with
  | None => (h ++ [c], Some (length h), set_shared_state (Some (length h)) c)
  | Some l =>
      (match h !! l with
       | Some cell =>
           <[l := set_delay (Z.max (delay_microseconds cell) (delay_microseconds c)) cell]> h
       | None => h
       end, Some l, set_shared_state (Some l) c)
  end.
End TsbpdClock.
