(* ===== verification/TimingFacts.v ===== *)
(** Correctness of the timers and clocks. *)
From S2P Require Import Prelude Sequence Rtt Live Timing.

(** * The control timer scheduler *)

Module Scheduler.
Import ControlTimerScheduler.

Inductive event :=
| SetKeepalive (microseconds : Z)
| DataReceived
| BufferReleased (now : Z) (expedite : bool)
| Flush (now : Z)
| PacketSent (now : Z)
| LossState (loss : bool) (now nak_interval : Z) (defer : bool)
| Poll (now : Z).

Definition step (s : t) (ev : event) : t :=
  match ev with
  | SetKeepalive microseconds => set_keepalive_interval s microseconds
  | DataReceived => on_data_received s
  | BufferReleased now expedite => on_receive_buffer_released s now expedite
  | Flush now => (flush_full_acknowledgement s now).2
  | PacketSent now => on_packet_sent s now
  | LossState loss now nak_interval defer => set_loss_state s loss now nak_interval defer
  | Poll now => (poll s now).2
  end.

Definition event_ok (ev : event) : Prop :=
  match ev with
  | SetKeepalive x | BufferReleased x _ | Flush x | PacketSent x | Poll x => is_u64 x
  | LossState _ now nak_interval _ => is_u64 now /\ is_u32 nak_interval
  | DataReceived => True
  end.

Record configuration_ok (c : Configuration) : Prop := {
  co_ack : 1 <= acknowledgement_interval_microseconds c;
  co_keepalive : 1 <= keepalive_interval_microseconds c <= u64_max;
}.

Record ok (s : t) : Prop := {
  so_configuration : configuration_ok (configuration s);
  so_last : is_u64 (last_send_microseconds s);
  so_nak : 1 <= nak_interval_microseconds s;
}.

Lemma full_sent_ok s now : ok s -> ok (full_acknowledgement_sent s now).
Proof. intros [C L N]. split; assumption. Qed.

Lemma scheduler_poll_ok s now : ok s -> is_u64 now -> ok (poll s now).2.
Proof.
  intros [C L N] Hn. unfold poll, poll_acknowledgement.
  destruct (acknowledgement_dirty s && _); [|destruct (_ && _)];
    unfold poll_loss; destruct (_ && _); unfold poll_keepalive; destruct (_ <=? _); split; assumption.
Qed.

Lemma scheduler_step_ok s ev : ok s -> event_ok ev -> ok (step s ev).
Proof.
  intros [[C1 C2] L N] He. destruct ev as [x| |x e|x|x|loss x n d|x]; cbn [step event_ok] in *.
  - split; simpl; auto. split; simpl; auto. unfold is_u64, u64_max in *. lia.
  - repeat split; simpl; auto; apply C2 || apply L.
  - unfold on_receive_buffer_released. destruct e; repeat split; simpl; auto; apply C2 || apply L.
  - unfold flush_full_acknowledgement. destruct (negb _); [|apply full_sent_ok]; repeat split; auto; apply C2 || apply L.
  - repeat split; simpl; auto; apply C2 || apply He.
  - unfold set_loss_state. cbv zeta.
    assert (1 <= Z.max n minimum_nak_interval_microseconds) by (unfold minimum_nak_interval_microseconds; lia).
    destruct (loss && negb _), (loss && _ && _); repeat split; simpl; auto; apply C2 || apply L.
  - apply scheduler_poll_ok; [repeat split; auto; apply C2 || apply L|assumption].
Qed.

(** The keepalive deadline does not pass the end of 64-bit time. *)
Definition keepalive_fits (s : t) : Prop :=
  last_send_microseconds s + keepalive_interval_microseconds (configuration s) <= u64_max.

Lemma deadline_keepalive s : ok s -> keepalive_fits s ->
  u64 (last_send_microseconds s + Z.min (keepalive_interval_microseconds (configuration s))
         (u64_max - last_send_microseconds s))
  = last_send_microseconds s + keepalive_interval_microseconds (configuration s) /\
  u64 (last_send_microseconds s + keepalive_interval_microseconds (configuration s))
  = last_send_microseconds s + keepalive_interval_microseconds (configuration s).
Proof.
  unfold keepalive_fits. intros [[C1 C2] L N] Hk. unfold is_u64, u64_max in *.
  rewrite Z.min_l by lia. rewrite u64_id by (unfold is_u64; lia). auto.
Qed.

(** What is due, stage by stage. *)
Lemma next_deadline_due s now : ok s -> keepalive_fits s ->
  next_deadline s now <= now <->
  acknowledgement_dirty s = true /\ (next_ack_microseconds s <= now \/ next_lite_ack_threshold s <= packets_since_full_ack s) \/
  has_loss s = true /\ next_nak_microseconds s <= now \/
  last_send_microseconds s + keepalive_interval_microseconds (configuration s) <= now.
Proof.
  intros Hs Hk. unfold next_deadline. rewrite (proj1 (deadline_keepalive s Hs Hk)). cbv zeta.
  destruct (acknowledgement_dirty s), (has_loss s);
    try destruct (Z.leb_spec (next_lite_ack_threshold s) (packets_since_full_ack s)); intuition (try lia; try discriminate).
Qed.

Lemma poll_due s now : ok s -> keepalive_fits s ->
  (poll s now).1 <> [] <->
  acknowledgement_dirty s = true /\ (next_ack_microseconds s <= now \/ next_lite_ack_threshold s <= packets_since_full_ack s) \/
  has_loss s = true /\ next_nak_microseconds s <= now \/
  last_send_microseconds s + keepalive_interval_microseconds (configuration s) <= now.
Proof.
  intros Hs Hk. pose proof (proj2 (deadline_keepalive s Hs Hk)) as E. unfold poll, poll_acknowledgement.
  destruct (acknowledgement_dirty s) eqn:Ed, (Z.leb_spec (next_ack_microseconds s) now),
    (Z.leb_spec (next_lite_ack_threshold s) (packets_since_full_ack s)); cbn [andb]; unfold poll_loss;
    cbn [has_loss next_nak_microseconds full_acknowledgement_sent set_dirty set_packets set_threshold set_next_ack];
    destruct (has_loss s) eqn:El, (Z.leb_spec (next_nak_microseconds s) now); cbn [andb]; unfold poll_keepalive;
    cbn [last_send_microseconds configuration full_acknowledgement_sent set_dirty set_packets set_threshold set_next_ack set_next_nak];
    rewrite E; destruct (Z.leb_spec (last_send_microseconds s + keepalive_interval_microseconds (configuration s)) now);
    cbn [fst app]; intuition (try discriminate; try lia).
Qed.

(** After a poll only a backlog of lite acknowledgements can be due at once. *)
Lemma poll_progress s now : ok s -> keepalive_fits s -> 0 <= now ->
  now + acknowledgement_interval_microseconds (configuration s) <= u64_max ->
  now + nak_interval_microseconds s <= u64_max ->
  now + keepalive_interval_microseconds (configuration s) <= u64_max ->
  next_deadline (poll s now).2 now <= now ->
  acknowledgement_dirty (poll s now).2 = true /\
  next_lite_ack_threshold (poll s now).2 <= packets_since_full_ack (poll s now).2.
Proof.
  intros Hs Hk H0 H1 H2 H3. pose proof Hs as [[C1 C2] L N]. pose proof (proj2 (deadline_keepalive s Hs Hk)) as E.
  assert (Hok : is_u64 now) by (unfold is_u64, u64_max in *; lia).
  assert (Hk' : keepalive_fits (poll s now).2 /\
    last_send_microseconds (poll s now).2 + keepalive_interval_microseconds (configuration s) > now /\
    configuration (poll s now).2 = configuration s /\
    (has_loss (poll s now).2 = true -> next_nak_microseconds (poll s now).2 > now) /\
    (acknowledgement_dirty (poll s now).2 = true -> next_ack_microseconds (poll s now).2 > now)).
  { unfold poll, poll_acknowledgement, keepalive_fits in *. unfold is_u64, u64_max in *.
    destruct (acknowledgement_dirty s) eqn:Ed, (Z.leb_spec (next_ack_microseconds s) now),
      (Z.leb_spec (next_lite_ack_threshold s) (packets_since_full_ack s)); cbn [andb]; unfold poll_loss;
      cbn [has_loss next_nak_microseconds nak_interval_microseconds full_acknowledgement_sent set_dirty set_packets set_threshold set_next_ack];
      destruct (has_loss s) eqn:El, (Z.leb_spec (next_nak_microseconds s) now); cbn [andb]; unfold poll_keepalive;
      cbn [last_send_microseconds configuration full_acknowledgement_sent set_dirty set_packets set_threshold set_next_ack set_next_nak];
      rewrite E; destruct (Z.leb_spec (last_send_microseconds s + keepalive_interval_microseconds (configuration s)) now);
      simpl; rewrite ?Ed, ?El, ?(u64_id (now + _)) by (unfold is_u64; lia);
      repeat split; try discriminate; intros; try lia. }
  destruct Hk' as (K1 & K2 & K3 & K4 & K5).
  intros Hd. apply (next_deadline_due _ _ (scheduler_poll_ok s now Hs Hok) K1) in Hd. rewrite K3 in Hd.
  destruct Hd as [[D1 [D2|D2]]|[[D1 D2]|D]]; [specialize (K5 D1); lia|auto|specialize (K4 D1); lia|lia].
Qed.
End Scheduler.

(** C28: The scheduler's deadline and its poll agree, short of the end of 64-bit time.
    After any sequence of events that leaves the last send plus the keepalive
    interval below 2^64, polling at [now] emits an action exactly when the
    announced next deadline is not later than [now], so a caller that sleeps until
    the deadline neither misses an action nor wakes for nothing.  If [now] plus each of the
    acknowledgement, loss-report and keepalive intervals is below 2^64 as well,
    polling makes progress: right after it only a backlog of lite acknowledgements can
    still be due, every other deadline lies in the future. *)
Theorem scheduler_deadline_exact start configuration events now :
  is_u64 start -> is_u64 now ->
  ControlTimerScheduler.keepalive_interval_microseconds configuration <= u64_max ->
  Forall Scheduler.event_ok events ->
  let s := fold_left Scheduler.step events (ControlTimerScheduler.make start configuration) in
  let s' := (ControlTimerScheduler.poll s now).2 in
  Scheduler.keepalive_fits s ->
  ((ControlTimerScheduler.poll s now).1 <> [] <-> ControlTimerScheduler.next_deadline s now <= now) /\
  (now + ControlTimerScheduler.acknowledgement_interval_microseconds
           (ControlTimerScheduler.configuration s) <= u64_max ->
   now + ControlTimerScheduler.nak_interval_microseconds s <= u64_max ->
   now + ControlTimerScheduler.keepalive_interval_microseconds
           (ControlTimerScheduler.configuration s) <= u64_max ->
   ControlTimerScheduler.next_deadline s' now <= now ->
   ControlTimerScheduler.acknowledgement_dirty s' = true /\
   ControlTimerScheduler.next_lite_ack_threshold s' <= ControlTimerScheduler.packets_since_full_ack s').
Proof.
  intros Hst Hnow Hkc Hev. cbv zeta. intros Hk.
  assert (Hok : Scheduler.ok (fold_left Scheduler.step events (ControlTimerScheduler.make start configuration))).
  { clear Hk. assert (H0 : Scheduler.ok (ControlTimerScheduler.make start configuration)).
    { split; simpl; [split; simpl; unfold u64_max in *; lia|assumption|unfold minimum_nak_interval_microseconds; lia]. }
    revert H0. generalize (ControlTimerScheduler.make start configuration).
    induction Hev as [|ev events He _ IH]; intros s H0; simpl; [assumption|]. apply IH, Scheduler.scheduler_step_ok; assumption. }
  split.
  - rewrite Scheduler.next_deadline_due, Scheduler.poll_due by assumption. reflexivity.
  - unfold is_u64 in Hnow. apply Scheduler.poll_progress; [assumption|assumption|lia].
Qed.

Definition example_schedule : list Scheduler.event :=
  [Scheduler.DataReceived; Scheduler.LossState true 2000 20000 false; Scheduler.PacketSent 3000].

Lemma scheduler_deadline_exact_witness :
  (ControlTimerScheduler.poll
     (fold_left Scheduler.step example_schedule
        (ControlTimerScheduler.make 1000
           {| ControlTimerScheduler.acknowledgement_interval_microseconds := 10000;
              ControlTimerScheduler.keepalive_interval_microseconds := 1000000;
              ControlTimerScheduler.lite_acknowledgement_packet_interval := 64 |})) 11000).1 <> [].
Proof.
  match goal with |- context [ControlTimerScheduler.make 1000 ?c] =>
    destruct (scheduler_deadline_exact 1000 c example_schedule 11000) as [H _] end.
  - split; vm_compute; (discriminate || reflexivity).
  - split; vm_compute; (discriminate || reflexivity).
  - vm_compute. discriminate.
  - repeat constructor; vm_compute; (discriminate || reflexivity).
  - vm_compute. discriminate.
  - apply H. vm_compute. discriminate.
Defined.

(** C40: Past the end of 64-bit time deadline and poll disagree.  If the last send
    plus the keepalive interval passes 2^64 and nothing else is pending, the
    announced deadline saturates at the largest value, but [poll] compares
    with the wrapped sum: it sends a keepalive at every moment from the last
    send on. *)
Theorem keepalive_wraps_in_poll s now :
  Scheduler.ok s -> ~ Scheduler.keepalive_fits s -> is_u64 now ->
  ControlTimerScheduler.last_send_microseconds s <= now ->
  ControlTimerScheduler.acknowledgement_dirty s = false ->
  ControlTimerScheduler.has_loss s = false ->
  ControlTimerScheduler.next_deadline s now = u64_max /\
  (ControlTimerScheduler.poll s now).1 = [TimerActionKind.keepalive].
Proof.
  intros [[C1 C2] L N] Hk Hnow Hl Hd Hh. unfold Scheduler.keepalive_fits, is_u64, u64_max in *.
  set (l := ControlTimerScheduler.last_send_microseconds s) in *.
  set (k := ControlTimerScheduler.keepalive_interval_microseconds (ControlTimerScheduler.configuration s)) in *.
  split.
  - unfold ControlTimerScheduler.next_deadline. rewrite Hd, Hh. fold l k. unfold u64_max.
    rewrite Z.min_r by lia. rewrite u64_id; unfold is_u64; lia.
  - unfold ControlTimerScheduler.poll, ControlTimerScheduler.poll_acknowledgement. rewrite Hd. cbn [andb].
    unfold ControlTimerScheduler.poll_loss. rewrite Hh. cbn [andb].
    unfold ControlTimerScheduler.poll_keepalive. fold l k.
    assert (E : u64 (l + k) = l + k - 2 ^ 64) by (unfold u64; rewrite <- (Z_mod_plus_full _ (-1)), Z.mod_small; lia).
    rewrite E, (proj2 (Z.leb_le (l + k - 2 ^ 64) now)) by lia. reflexivity.
Qed.

Definition endless_schedule : ControlTimerScheduler.t :=
  ControlTimerScheduler.set_keepalive_interval
    (ControlTimerScheduler.make 1000
       {| ControlTimerScheduler.acknowledgement_interval_microseconds := 10000;
          ControlTimerScheduler.keepalive_interval_microseconds := 1000000;
          ControlTimerScheduler.lite_acknowledgement_packet_interval := 64 |}) u64_max.

Lemma keepalive_wraps_in_poll_witness :
  ControlTimerScheduler.next_deadline endless_schedule 2000 = u64_max /\
  (ControlTimerScheduler.poll endless_schedule 2000).1 = [TimerActionKind.keepalive].
Proof.
  apply (keepalive_wraps_in_poll endless_schedule 2000).
  - split; [split|split|]; vm_compute; try split; (reflexivity || discriminate).
  - vm_compute. intros H. apply H. reflexivity.
  - split; vm_compute; (reflexivity || discriminate).
  - vm_compute. discriminate.
  - reflexivity.
  - reflexivity.
Defined.

(** * The retransmission timer *)

Module Retransmission.
Import SenderRetransmissionTimer.

Record ok (r : t) : Prop := {
  ro_last : is_u64 (last_acknowledgement_microseconds r);
  ro_multiplier : 1 <= timeout_multiplier r <= u32_max;
}.

(** SRTT + 4 RTTVar + 2 SYN. *)
Definition round_trip (srtt variation : Z) : Z := srtt + 4 * variation + 20000.

Lemma timeout_interval_exact r srtt variation : ok r -> is_u32 srtt -> is_u32 variation ->
  timeout_interval r srtt variation
  = Z.min u64_max (timeout_multiplier r * round_trip srtt variation + 10000).
Proof.
  intros [L M] Hs Hv. unfold timeout_interval, round_trip, synchronization_interval_microseconds, is_u32, u32_max, u64_max in *.
  rewrite (u64_id (4 * variation)), (u64_id (srtt + 4 * variation)), (u64_id (srtt + 4 * variation + 2 * 10000)) by (unfold is_u64; lia).
  replace (srtt + 4 * variation + 2 * 10000) with (srtt + 4 * variation + 20000) by lia.
  set (x := srtt + 4 * variation + 20000). set (m := timeout_multiplier r) in *.
  assert (20000 <= x < 2 ^ 35) by lia.
  destruct (Z.eqb_spec x 0); [lia|]. cbn [negb andb].
  destruct (Z.ltb_spec ((2 ^ 64 - 1 - 10000) / x) m) as [H1|H1].
  - assert (2 ^ 64 - 1 - 10000 < m * x) by (apply Z.div_lt_upper_bound in H1 || (pose proof (Z.mul_succ_div_gt (2 ^ 64 - 1 - 10000) x ltac:(lia)); nia); lia). lia.
  - assert (m * x <= 2 ^ 64 - 1 - 10000) by (pose proof (Z.mul_div_le (2 ^ 64 - 1 - 10000) x ltac:(lia)); nia).
    rewrite (u64_id (m * x)), u64_id by (unfold is_u64; nia). lia.
Qed.

Lemma next_deadline_exact r srtt variation : ok r -> is_u32 srtt -> is_u32 variation ->
  next_deadline r srtt variation
  = if armed r then Some (Z.min u64_max (last_acknowledgement_microseconds r
                                         + timeout_multiplier r * round_trip srtt variation + 10000))
    else None.
Proof.
  intros Hr Hs Hv. unfold next_deadline. rewrite (timeout_interval_exact r) by assumption.
  destruct Hr as [L M]. destruct (armed r); [|reflexivity]. cbn [negb]. unfold is_u64, is_u32, u64_max, u32_max in *.
  assert (0 <= timeout_multiplier r * round_trip srtt variation) by (unfold round_trip; nia).
  set (y := timeout_multiplier r * round_trip srtt variation) in *.
  destruct (Z.ltb_spec (2 ^ 64 - 1 - last_acknowledgement_microseconds r) (Z.min (2 ^ 64 - 1) (y + 10000))); f_equal; [lia|].
  rewrite u64_id by (unfold is_u64; lia). lia.
Qed.

Lemma poll_ok r now srtt variation : ok r -> ok (poll r now srtt variation).2.
Proof.
  intros Hr. unfold poll. destruct (next_deadline r srtt variation); [|assumption].
  destruct (_ <? _); [assumption|]. destruct (Z.eqb_spec (timeout_multiplier r) u32_max); [assumption|].
  destruct Hr as [L M]. simpl. split; simpl; [assumption|]. unfold u32_max in *.
  rewrite u32_id by (unfold is_u32; lia). lia.
Qed.

(** Polls at the given times and estimates; the number of expirations. *)
Fixpoint polls (r : t) (ps : list (Z * Z * Z)) : nat * t :=
  match ps with
  | [] => (0%nat, r)
  | (now, srtt, variation) :: ps =>
      let '(expired, r) := poll r now srtt variation in
      let '(n, r) := polls r ps in
      ((if expired then 1 else 0) + n, r)%nat
  end.

Lemma polls_spec ps : forall r, ok r ->
  ok (polls r ps).2 /\ armed (polls r ps).2 = armed r /\
  last_acknowledgement_microseconds (polls r ps).2 = last_acknowledgement_microseconds r /\
  timeout_multiplier (polls r ps).2 = Z.min u32_max (timeout_multiplier r + Z.of_nat (polls r ps).1).
Proof.
  induction ps as [|[[now srtt] variation] ps IH]; intros r Hr; cbn [polls].
  { destruct Hr as [L M]. cbn [fst snd]. split; [split; assumption|]. repeat split; try reflexivity. lia. }
  pose proof (poll_ok r now srtt variation Hr) as Hr'.
  assert (Hp : armed (poll r now srtt variation).2 = armed r /\
    last_acknowledgement_microseconds (poll r now srtt variation).2 = last_acknowledgement_microseconds r /\
    timeout_multiplier (poll r now srtt variation).2
    = Z.min u32_max (timeout_multiplier r + if (poll r now srtt variation).1 then 1 else 0)).
  { destruct Hr as [L M]. unfold poll. destruct (next_deadline r srtt variation); [|repeat split; simpl; lia].
    destruct (_ <? _); [repeat split; simpl; lia|]. destruct (Z.eqb_spec (timeout_multiplier r) u32_max); simpl;
      [repeat split; lia|]. unfold u32_max in *. rewrite u32_id by (unfold is_u32; lia). repeat split. lia. }
  destruct (poll r now srtt variation) as [e r1]. cbn [fst snd] in *. specialize (IH r1 Hr').
  destruct (polls r1 ps) as [n r2]. cbn [fst snd] in *. destruct IH as (I1 & I2 & I3 & I4), Hp as (P1 & P2 & P3).
  split; [assumption|]. split; [congruence|]. split; [congruence|]. rewrite I4, P3. destruct e; lia.
Qed.
End Retransmission.

(** C29: The retransmission timeout grows linearly and restarts with an
    acknowledgement, as documented:  after an acknowledgement at [t0] and any
    number of polls [n] of which expired, the next expiration is due at
    [t0 + (n + 1) * (SRTT + 4 * RTTVar + 2 * SYN) + SYN], saturating at the end of
    64-bit time with the count saturating at 32 bits; a poll expires exactly
    when that moment has come, and never once nothing is in flight. *)
Theorem retransmission_timeout_linear r t0 in_flight ps now srtt variation :
  is_u64 t0 -> is_u32 srtt -> is_u32 variation ->
  let started := SenderRetransmissionTimer.on_acknowledgement_received r t0 in_flight in
  let '(n, r') := Retransmission.polls started ps in
  let deadline :=
    Z.min u64_max (t0 + Z.min u32_max (Z.of_nat n + 1) * (srtt + 4 * variation + 20000) + 10000) in
  SenderRetransmissionTimer.next_deadline r' srtt variation = (if in_flight then Some deadline else None) /\
  (SenderRetransmissionTimer.poll r' now srtt variation).1 = in_flight && (deadline <=? now).
Proof.
  intros Ht Hs Hv. cbv zeta.
  assert (Hok : Retransmission.ok (SenderRetransmissionTimer.on_acknowledgement_received r t0 in_flight))
    by (split; simpl; [assumption|unfold u32_max; lia]).
  pose proof (Retransmission.polls_spec ps _ Hok) as H.
  destruct (Retransmission.polls _ ps) as [n r']. cbn [fst snd] in H. destruct H as (H1 & H2 & H3 & H4).
  simpl in H2, H3, H4. pose proof (Retransmission.next_deadline_exact r' srtt variation H1 Hs Hv) as E.
  rewrite H2, H3, H4 in E. replace (1 + Z.of_nat n) with (Z.of_nat n + 1) in E by lia.
  unfold Retransmission.round_trip in E. split; [exact E|].
  unfold SenderRetransmissionTimer.poll. rewrite E. destruct in_flight; [|reflexivity]. rewrite Z.leb_antisym.
  destruct (now <? _); reflexivity.
Qed.

Lemma retransmission_timeout_linear_witness :
  (SenderRetransmissionTimer.poll
     (Retransmission.polls
        (SenderRetransmissionTimer.on_acknowledgement_received (SenderRetransmissionTimer.make 0) 5000 true)
        [(200000, 100000, 10000)]).2 334999 100000 10000).1 = false.
Proof.
  pose proof (retransmission_timeout_linear (SenderRetransmissionTimer.make 0) 5000 true
    [(200000, 100000, 10000)] 334999 100000 10000
    ltac:(split; vm_compute; (discriminate || reflexivity)) ltac:(split; vm_compute; (discriminate || reflexivity))
    ltac:(split; vm_compute; (discriminate || reflexivity))) as H.
  cbv zeta in H.
  match type of H with context [Retransmission.polls ?s ?l] =>
    assert (E : (Retransmission.polls s l).1 = 1%nat) by (vm_compute; reflexivity);
    destruct (Retransmission.polls s l) as [n r'] end.
  cbn [fst snd] in *. subst n. destruct H as [_ H]. rewrite H. vm_compute. reflexivity.
Defined.

(** * The packet pacer *)

Module Pacing.
Import PacketPacer.

(** A packet handed over: its size, the time, and how many packets are in flight. *)
Record Send := { size : Z; at_ : Z; in_flight : Z }.




Record ok (p : t) : Prop := {
  po_rate : 1 <= bytes_per_second p <= u64_max;
  po_credit : 0 <= schedule_credit_microseconds p < 2 ^ 62;
  po_next : 0 <= next_send_microseconds p < 2 ^ 63;
}.








(** Every send hits its slot with at most the credit's delay. *)
Fixpoint punctual (p : t) (sends : list Send) : Prop :=
  match sends with
  | [] => True
  | s :: sends =>
      at_ s <= next_send_microseconds p + schedule_credit_microseconds p /\
      punctual (on_packet_sent true p (size s) (at_ s)) sends
  end.

End Pacing.



(** * The wake monitor *)

Module WakeMonitor.
Import TimerWakeMonitor.

Definition late (x : Z) : bool := late_threshold_microseconds <? x.
Definition punctual (x : Z) : bool := x <=? punctual_threshold_microseconds.

(** Punctual wake-ups since the last late one. *)
Definition quiet_run (h : list Z) : nat :=
  fold_left (fun n x => if late x then 0%nat else if punctual x then S n else n) h 0%nat.

(** Consecutive late wake-ups at the end. *)
Definition late_run (h : list Z) : nat := fold_left (fun n x => if late x then S n else 0%nat) h 0%nat.

Definition run (h : list Z) : t := fold_left observe h make.

Lemma run_snoc h x : run (h ++ [x]) = observe (run h) x.
Proof. unfold run. rewrite fold_left_app. reflexivity. Qed.

Lemma late_run_snoc h x : late_run (h ++ [x]) = if late x then S (late_run h) else 0%nat.
Proof. unfold late_run. rewrite fold_left_app. reflexivity. Qed.

Lemma quiet_run_snoc h x :
  quiet_run (h ++ [x]) = if late x then 0%nat else if punctual x then S (quiet_run h) else quiet_run h.
Proof. unfold quiet_run. rewrite fold_left_app. reflexivity. Qed.

Lemma streaks h :
  late_streak (run h) = Nat.min 3 (late_run h) /\ punctual_streak (run h) = Nat.min 16 (quiet_run h).
Proof.
  induction h as [|x h [IH1 IH2]] using rev_ind; [split; reflexivity|].
  rewrite run_snoc, late_run_snoc, quiet_run_snoc. unfold observe. rewrite IH1, IH2.
  unfold late_streak_to_enter, punctual_streak_to_leave. fold (late x) (punctual x).
  destruct (late x); [|destruct (punctual x)]; cbn [late_streak punctual_streak]; split; try lia;
    match goal with |- context [(?a <? ?b)%nat] => destruct (Nat.ltb_spec a b) end; lia.
Qed.

Lemma quiet_run_after h x r : late x = true -> quiet_run (h ++ [x] ++ r) = quiet_run r.
Proof. intros Hx. unfold quiet_run. rewrite !fold_left_app. simpl. rewrite Hx. reflexivity. Qed.

Lemma late_run_three h : (3 <= late_run h)%nat <->
  exists old a b c, h = old ++ [a; b; c] /\ late a = true /\ late b = true /\ late c = true.
Proof.
  split.
  - unfold late_run. destruct h as [|c h _] using rev_ind; [simpl; lia|]. rewrite fold_left_app. simpl.
    destruct (late c) eqn:Ec; [|lia]. destruct h as [|b h _] using rev_ind; [simpl; lia|]. rewrite fold_left_app. simpl.
    destruct (late b) eqn:Eb; [|lia]. destruct h as [|a h _] using rev_ind; [simpl; lia|]. rewrite fold_left_app. simpl.
    destruct (late a) eqn:Ea; [|lia]. intros _. exists h, a, b, c. rewrite <- !app_assoc. auto.
  - intros (old & a & b & c & -> & Ha & Hb & Hc). unfold late_run. rewrite fold_left_app. simpl.
    rewrite Ha, Hb, Hc. lia.
Qed.

(** Three late wake-ups in a row, and since then never sixteen punctual ones
    without a late one in between. *)
Definition entered_and_not_left (h : list Z) : Prop :=
  exists old a b c recent, h = old ++ [a; b; c] ++ recent /\
    late a = true /\ late b = true /\ late c = true /\
    forall p, p `prefix_of` recent -> (quiet_run p < 16)%nat.

Lemma entered_quiet h : entered_and_not_left h -> (quiet_run h < 16)%nat.
Proof.
  intros (old & a & b & c & recent & -> & _ & _ & Hc & Hq).
  replace (old ++ [a; b; c] ++ recent) with ((old ++ [a; b]) ++ [c] ++ recent) by (rewrite <- !app_assoc; reflexivity).
  rewrite quiet_run_after by assumption. apply Hq. reflexivity.
Qed.

Lemma entered_snoc h x : entered_and_not_left (h ++ [x]) <->
  (3 <= late_run (h ++ [x]))%nat \/
  entered_and_not_left h /\ (quiet_run (h ++ [x]) < 16)%nat.
Proof.
  split.
  - intros (old & a & b & c & recent & E & Ha & Hb & Hc & Hq). destruct recent as [|y recent _] using rev_ind.
    { left. apply late_run_three. exists old, a, b, c. auto. }
    right. assert (E' : (old ++ [a; b; c] ++ recent) ++ [y] = h ++ [x]) by (rewrite E, <- !app_assoc; reflexivity).
    apply app_inj_tail in E' as [<- <-]. split.
    + exists old, a, b, c, recent. split; [reflexivity|]. repeat split; try assumption.
      intros p Hp. apply Hq. apply prefix_app_r. assumption.
    + replace ((old ++ [a; b; c] ++ recent) ++ [y]) with ((old ++ [a; b]) ++ [c] ++ (recent ++ [y]))
        by (rewrite <- !app_assoc; reflexivity).
      rewrite quiet_run_after by assumption. apply Hq. reflexivity.
  - intros [Hl|[(old & a & b & c & recent & -> & Ha & Hb & Hc & Hq) Hx]].
    + apply late_run_three in Hl as (old & a & b & c & E & Ha & Hb & Hc). exists old, a, b, c, [].
      rewrite E, app_nil_r. repeat split; try assumption. intros p Hp. apply prefix_nil_inv in Hp as ->.
      unfold quiet_run. simpl. lia.
    + exists old, a, b, c, (recent ++ [x]). split; [rewrite <- !app_assoc; reflexivity|]. repeat split; try assumption.
      intros p Hp. destruct Hp as [k Hk]. destruct k as [|y k _] using rev_ind.
      * rewrite app_nil_r in Hk. subst p.
        replace ((old ++ [a; b; c] ++ recent) ++ [x]) with ((old ++ [a; b]) ++ [c] ++ (recent ++ [x])) in Hx
          by (rewrite <- !app_assoc; reflexivity). rewrite quiet_run_after in Hx by assumption. exact Hx.
      * rewrite app_assoc in Hk. apply app_inj_tail in Hk as [Hk _]. apply Hq. exists k. assumption.
Qed.
End WakeMonitor.

(** The wake monitor's hysteresis.  After any history of wake-up delays, the
    timers are reported as coarse exactly when at some point three wake-ups in
    a row were more than 1 ms late and since then there have never been
    sixteen wake-ups within 250 us without a late one in between; the
    saturating streak counters lose nothing. *)
Theorem wake_monitor_hysteresis h :
  TimerWakeMonitor.coarse (WakeMonitor.run h) = true <-> WakeMonitor.entered_and_not_left h.
Proof.
  induction h as [|x h IH] using rev_ind.
  { split; [discriminate|]. intros (old & a & b & c & recent & E & _). destruct old; discriminate. }
  rewrite WakeMonitor.entered_snoc, <- IH.
  destruct (WakeMonitor.streaks h) as [L P].
  pose proof (WakeMonitor.run_snoc h x) as R. pose proof (WakeMonitor.late_run_snoc h x) as LR.
  pose proof (WakeMonitor.quiet_run_snoc h x) as QR. rewrite R, LR, QR.
  unfold TimerWakeMonitor.observe. rewrite L, P.
  unfold TimerWakeMonitor.late_streak_to_enter, TimerWakeMonitor.punctual_streak_to_leave.
  fold (WakeMonitor.late x) (WakeMonitor.punctual x).
  set (l := WakeMonitor.late_run h). set (q := WakeMonitor.quiet_run h).
  destruct (WakeMonitor.late x); [|destruct (WakeMonitor.punctual x)]; cbn [TimerWakeMonitor.coarse].
  - destruct (Nat.ltb_spec (Nat.min 3 l) 3);
      match goal with |- context [(3 <=? ?n)%nat] => destruct (Nat.leb_spec 3 n) end; intuition lia.
  - destruct (Nat.ltb_spec (Nat.min 16 q) 16);
      match goal with |- context [(16 <=? ?n)%nat] => destruct (Nat.leb_spec 16 n) end; intuition (try discriminate; try lia).
  - enough (TimerWakeMonitor.coarse (WakeMonitor.run h) = true -> (q < 16)%nat) by (intuition lia).
    intros Hc. apply IH in Hc. apply WakeMonitor.entered_quiet. exact Hc.
Qed.
