(* ===== verification/Tsbpd.v ===== *)
(** The delivery clock: 32-bit timestamps are unwrapped to the sender's time
    line, drift is applied as a slew, and a group's members share one clock. *)
From S2P Require Import Prelude Sequence Live Timing.
Import TsbpdClock.

(** Times below 2^53 microseconds (285 years) leave every 64-bit sum of the
    clock in range. *)
Definition time_limit : Z := 2 ^ 53.

Record ok (c : t) : Prop := {
  ok_latest : 0 <= latest_unwrapped_timestamp c < time_limit;
  ok_slew : 0 <= last_slew_timestamp c <= latest_unwrapped_timestamp c;
  ok_base : - 2 ^ 60 <= time_base_microseconds c <= 2 ^ 60;
  ok_delay : is_u32 (delay_microseconds c);
  ok_target : - 2 ^ 60 <= target_drift_microseconds c <= 2 ^ 60;
  ok_applied : - 2 ^ 60 <= applied_drift_microseconds c <= 2 ^ 60;
  ok_remainder : 0 <= slew_remainder c < 1000000;
}.

(** The timestamp a packet of source time [T] carries. *)
Definition wire (T : Z) : PacketTimestamp.t := u32 T.

Lemma project_exact c T : 0 <= latest_unwrapped_timestamp c < time_limit -> 0 <= T < time_limit ->
  - 2 ^ 31 <= T - latest_unwrapped_timestamp c < 2 ^ 31 -> project c (wire T) = T.
Proof.
  unfold time_limit. intros HL HT Hd. unfold project, wire. set (L := latest_unwrapped_timestamp c) in *.
  assert (E : i32 (u32 (u32 T - u32 L)) = T - L).
  { unfold u32. rewrite <- Zminus_mod. unfold i32.
    rewrite Zplus_mod_idemp_l, Z.mod_small; lia. }
  rewrite E, (i64_id L), i64_id by lia. replace (L + (T - L)) with T by lia.
  destruct (Z.leb_spec T 0); lia.
Qed.

Lemma delivery_of_exact c T : ok c -> 0 <= T < time_limit ->
  delivery_of c T = Z.max 0 (time_base_microseconds c + T + delay_microseconds c + applied_drift_microseconds c).
Proof.
  intros [O1 O2 O3 O4 O5 O6 O7] HT. unfold delivery_of, time_limit, is_u32 in *.
  rewrite (i64_id T), i64_id by lia. destruct (Z.leb_spec (time_base_microseconds c + T + delay_microseconds c + applied_drift_microseconds c) 0); lia.
Qed.

(** One slew step: what moves, what stays, and how far it may move. *)
Record slewed (c c' : t) (T : Z) : Prop := {
  sl_base : time_base_microseconds c' = time_base_microseconds c;
  sl_delay : delay_microseconds c' = delay_microseconds c;
  sl_target : target_drift_microseconds c' = target_drift_microseconds c;
  sl_latest : latest_unwrapped_timestamp c' = latest_unwrapped_timestamp c;
  sl_last : last_slew_timestamp c' = Z.max (last_slew_timestamp c) T;
  sl_between : Z.min (applied_drift_microseconds c) (target_drift_microseconds c)
               <= applied_drift_microseconds c'
               <= Z.max (applied_drift_microseconds c) (target_drift_microseconds c);
  sl_speed : 1000000 * Z.abs (applied_drift_microseconds c' - applied_drift_microseconds c) + slew_remainder c'
             <= 1000 * (last_slew_timestamp c' - last_slew_timestamp c) + slew_remainder c;
  sl_remainder : 0 <= slew_remainder c' < 1000000;
}.

Lemma advance_slewed c T : ok c -> 0 <= T < time_limit -> slewed c (advance_applied_drift c T) T.
Proof.
  intros [O1 O2 O3 O4 O5 O6 O7] HT. unfold time_limit in *. unfold advance_applied_drift.
  destruct (Z.leb_spec T (last_slew_timestamp c)) as [Hle|Hlt]; [split; lia|]. cbv zeta.
  rewrite (u64_id (T - _)) by (unfold is_u64; lia). set (e := T - last_slew_timestamp c).
  cbn [applied_drift_microseconds target_drift_microseconds set_last_slew slew_remainder].
  destruct (Z.eqb_spec (applied_drift_microseconds c) (target_drift_microseconds c)) as [Heq|Hne];
    [split; simpl; lia|].
  unfold maximum_tsbpd_slew_parts_per_million, parts_per_million.
  rewrite (u64_id (e * 1000)), (u64_id (e * 1000 + slew_remainder c)) by (unfold is_u64; lia).
  set (w := e * 1000 + slew_remainder c). pose proof (Z.div_mod w 1000000 ltac:(lia)) as Hdiv.
  pose proof (Z.mod_pos_bound w 1000000 ltac:(lia)) as Hmod.
  set (q := w / 1000000) in *. set (r := w mod 1000000) in *.
  destruct (Z.eqb_spec q 0) as [Hq|Hq]; [split; simpl; lia|].
  cbn [applied_drift_microseconds target_drift_microseconds set_remainder set_last_slew].
  set (a := applied_drift_microseconds c) in *. set (g := target_drift_microseconds c) in *.
  assert (0 < q <= 2 ^ 53) by (unfold e in *; lia).
  rewrite (i64_id (g - a)) by lia.
  destruct (Z.ltb_spec (g - a) 0) as [Hs|Hs].
  - rewrite (i64_id (- (g - a))), (u64_id (- (g - a))), (i64_id (Z.min q (- (g - a)))),
      (i64_id (- Z.min q _)), i64_id by (unfold is_u64; lia).
    destruct (_ =? _); split; simpl; fold a g; lia.
  - rewrite (u64_id (g - a)), (i64_id (Z.min q (g - a))), i64_id by (unfold is_u64; lia).
    destruct (_ =? _); split; simpl; fold a g; lia.
Qed.

Lemma delivery_step c T : ok c -> 0 <= T < time_limit ->
  - 2 ^ 31 <= T - latest_unwrapped_timestamp c < 2 ^ 31 ->
  let '(d, c') := own_delivery_time (wire T) c in
  ok c' /\ d = Z.max 0 (time_base_microseconds c + T + delay_microseconds c + applied_drift_microseconds c') /\
  latest_unwrapped_timestamp c' = Z.max (latest_unwrapped_timestamp c) T /\
  slewed (set_latest (Z.max (latest_unwrapped_timestamp c) T) c) c' T.
Proof.
  intros Hok HT Hd. unfold own_delivery_time, unwrap. rewrite project_exact by (try apply Hok; assumption). cbv zeta.
  set (c1 := set_latest (Z.max (latest_unwrapped_timestamp c) T) c). pose proof Hok as [O1 O2 O3 O4 O5 O6 O7].
  assert (H1 : ok c1) by (split; unfold c1; simpl; try assumption; lia).
  pose proof (advance_slewed c1 T H1 HT) as S. pose proof S as [S1 S2 S3 S4 S5 S6 S7 S8].
  assert (H2 : ok (advance_applied_drift c1 T)).
  { split; rewrite ?S1, ?S2, ?S3, ?S4, ?S5; unfold c1 in *; simpl in *; try assumption; lia. }
  split; [exact H2|]. split; [|split; [exact S4|exact S]].
  rewrite delivery_of_exact by assumption. rewrite S1, S2. reflexivity.
Qed.

(** The delivery times of a sequence of packets. *)
Fixpoint deliveries (c : t) (timestamps : list PacketTimestamp.t) : list Z :=
  match timestamps with
  | [] => []
  | ts :: timestamps => let '(d, c) := own_delivery_time ts c in d :: deliveries c timestamps
  end.

(** Every packet's source time is less than half the timestamp range from the
    newest one before it. *)
Fixpoint near (latest : Z) (Ts : list Z) : Prop :=
  match Ts with
  | [] => True
  | T :: Ts => 0 <= T < time_limit /\ - 2 ^ 31 <= T - latest < 2 ^ 31 /\ near (Z.max latest T) Ts
  end.

(** C26: Timestamp wrap-around is invisible.  Packets may arrive in any order and
    the 32-bit timestamps may wrap any number of times: as long as each
    packet's source time is within half the timestamp range of the newest one
    seen, its delivery time is the clock's base plus its full source time plus
    the delay and the settled drift, or zero if that is negative. *)
Theorem tsbpd_unwraps_reordered c Ts : ok c -> near (latest_unwrapped_timestamp c) Ts ->
  applied_drift_microseconds c = target_drift_microseconds c ->
  deliveries c (map wire Ts)
  = map (fun T => Z.max 0 (time_base_microseconds c + T + delay_microseconds c + applied_drift_microseconds c)) Ts.
Proof.
  revert c. induction Ts as [|T Ts IH]; intros c Hok Hn Hset; [reflexivity|]. destruct Hn as (HT & Hd & Hn).
  cbn [map deliveries]. pose proof (delivery_step c T Hok HT Hd) as H.
  destruct (own_delivery_time (wire T) c) as [d c']. destruct H as (H1 & H2 & H3 & S).
  destruct S as [S1 S2 S3 S4 S5 S6 S7 S8]. simpl in *.
  assert (Ha : applied_drift_microseconds c' = applied_drift_microseconds c) by lia.
  rewrite IH; [rewrite S1, S2, Ha, H2, Ha; reflexivity|assumption|rewrite H3; assumption|congruence].
Qed.

Lemma tsbpd_unwraps_reordered_witness :
  deliveries (make 5000000 4294967000 120000) (map wire [4294967200; 4294967500; 4294967250])
  = [5120200; 5120500; 5120250].
Proof.
  rewrite (tsbpd_unwraps_reordered (make 5000000 4294967000 120000) [4294967200; 4294967500; 4294967250]).
  - vm_compute. reflexivity.
  - split; vm_compute; split; (reflexivity || discriminate).
  - vm_compute. repeat split; (reflexivity || discriminate).
  - reflexivity.
Defined.

(** ** In order, while the drift is being corrected *)

Fixpoint in_order (latest : Z) (Ts : list Z) : Prop :=
  match Ts with
  | [] => True
  | T :: Ts => 0 <= T < time_limit /\ latest <= T < latest + 2 ^ 31 /\ in_order T Ts
  end.

(** The local time of source time [T], before drift. *)
Definition nominal (c : t) (T : Z) : Z := time_base_microseconds c + T + delay_microseconds c.

Definition lowest_drift (c : t) : Z := Z.min (applied_drift_microseconds c) (target_drift_microseconds c).

Lemma in_order_ge latest Ts T : in_order latest Ts -> T ∈ Ts -> latest <= T.
Proof.
  revert latest. induction Ts as [|x Ts IH]; intros latest H Hin; [apply elem_of_nil in Hin as []|].
  destruct H as (_ & H1 & H2). apply elem_of_cons in Hin as [->|Hin]; [lia|]. specialize (IH _ H2 Hin). lia.
Qed.

(** Delivery times of a packet sequence as seen from its start. *)
Lemma in_order_from j : forall c Ts d T, ok c -> in_order (latest_unwrapped_timestamp c) Ts ->
  0 <= nominal c (latest_unwrapped_timestamp c) + lowest_drift c ->
  deliveries c (map wire Ts) !! j = Some d -> Ts !! j = Some T ->
  1000000 * Z.abs (d - nominal c T - applied_drift_microseconds c)
    <= 1000 * (T - last_slew_timestamp c) + slew_remainder c /\
  lowest_drift c <= d - nominal c T <= Z.max (applied_drift_microseconds c) (target_drift_microseconds c).
Proof.
  induction j as [|j IH]; intros c Ts d T Hok Ho Hpos Hd HT; (destruct Ts as [|T0 Ts]; [discriminate|]);
    destruct Ho as (HT0 & Ho1 & Ho2); cbn [map deliveries] in Hd; unfold nominal, lowest_drift in *;
    pose proof (delivery_step c T0 Hok HT0 ltac:(lia)) as H;
    destruct (own_delivery_time (wire T0) c) as [d0 c']; destruct H as (H1 & H2 & H3 & S);
    destruct S as [S1 S2 S3 S4 S5 S6 S7 S8]; simpl in S1, S2, S3, S4, S5, S6, S7, Hd, HT;
    pose proof (ok_slew _ Hok).
  - injection Hd as <-. injection HT as <-. lia.
  - specialize (IH c' Ts d T H1). rewrite H3 in IH. replace (Z.max (latest_unwrapped_timestamp c) T0) with T0 in IH by lia.
    destruct (IH Ho2) as [I1 I2]; [rewrite S1, S2; lia|assumption|assumption|]. rewrite S1, S2, S3, ?S5 in *.
    pose proof (in_order_ge _ _ T Ho2 ltac:(eapply list_elem_of_lookup_2; eassumption)). lia.
Qed.

(** The state after the first [i + 1] packets starts at the [i]-th. *)
Lemma in_order_split i : forall c Ts d T, ok c -> in_order (latest_unwrapped_timestamp c) Ts ->
  0 <= nominal c (latest_unwrapped_timestamp c) + lowest_drift c ->
  deliveries c (map wire Ts) !! i = Some d -> Ts !! i = Some T ->
  exists c', ok c' /\ in_order (latest_unwrapped_timestamp c') (drop (S i) Ts) /\
    0 <= nominal c' (latest_unwrapped_timestamp c') + lowest_drift c' /\
    deliveries c' (map wire (drop (S i) Ts)) = drop (S i) (deliveries c (map wire Ts)) /\
    last_slew_timestamp c' = T /\ d = nominal c T + applied_drift_microseconds c' /\
    (forall x, nominal c' x = nominal c x).
Proof.
  induction i as [|i IH]; intros c Ts d T Hok Ho Hpos Hd HT; (destruct Ts as [|T0 Ts]; [discriminate|]);
    destruct Ho as (HT0 & Ho1 & Ho2); cbn [map deliveries] in Hd |- *; unfold nominal, lowest_drift in *;
    pose proof (delivery_step c T0 Hok HT0 ltac:(lia)) as H;
    destruct (own_delivery_time (wire T0) c) as [d0 c']; destruct H as (H1 & H2 & H3 & S);
    destruct S as [S1 S2 S3 S4 S5 S6 S7 S8]; simpl in S1, S2, S3, S4, S5, S6, S7, Hd, HT;
    pose proof (ok_slew _ Hok).
  - injection Hd as <-. injection HT as <-. exists c'. rewrite S1, S2, S3, H3.
    replace (Z.max (latest_unwrapped_timestamp c) T0) with T0 by lia. cbn [drop].
    split; [assumption|]. split; [assumption|]. repeat split; lia.
  - specialize (IH c' Ts d T H1). rewrite H3 in IH. replace (Z.max (latest_unwrapped_timestamp c) T0) with T0 in IH by lia.
    destruct (IH Ho2) as (c2 & J1 & J2 & J3 & J4 & J5 & J6 & J7); [rewrite S1, S2; lia|assumption|assumption|].
    exists c2. rewrite S1, S2 in *. cbn [drop]. auto 8.
Qed.

(** C27: Drift correction never reorders or jolts the stream.  While the clock
    works off a pending drift correction, packets in source order are
    delivered in order, and the distance between any two deliveries differs
    from their distance at the source by less than 1000 parts per million plus
    one microsecond; each delivery time lies between those for the applied and
    the target drift. *)
Theorem tsbpd_in_order_delivery c Ts i j Ti Tj di dj : ok c ->
  in_order (latest_unwrapped_timestamp c) Ts ->
  0 <= nominal c (latest_unwrapped_timestamp c) + lowest_drift c ->
  (i < j)%nat -> Ts !! i = Some Ti -> Ts !! j = Some Tj ->
  deliveries c (map wire Ts) !! i = Some di -> deliveries c (map wire Ts) !! j = Some dj ->
  di <= dj /\ 1000 * Z.abs ((dj - di) - (Tj - Ti)) < (Tj - Ti) + 1000 /\
  lowest_drift c <= dj - nominal c Tj <= Z.max (applied_drift_microseconds c) (target_drift_microseconds c).
Proof.
  intros Hok Ho Hpos Hij HTi HTj Hdi Hdj.
  destruct (in_order_split i c Ts di Ti Hok Ho Hpos Hdi HTi) as (c' & J1 & J2 & J3 & J4 & J5 & J6 & J7).
  destruct (in_order_from j c Ts dj Tj Hok Ho Hpos Hdj HTj) as [_ HB].
  assert (Hj : (j = S i + (j - S i))%nat) by lia. rewrite Hj in HTj, Hdj. rewrite <- lookup_drop in HTj, Hdj.
  rewrite <- J4 in Hdj.
  destruct (in_order_from (j - S i) c' (drop (S i) Ts) dj Tj J1 J2 J3 Hdj HTj) as [K1 _].
  rewrite J7, J5 in K1. pose proof (ok_remainder _ J1).
  pose proof (in_order_ge _ _ Tj J2 ltac:(eapply list_elem_of_lookup_2; eassumption)) as Hge.
  pose proof (ok_slew _ J1) as Hsl. rewrite J5 in Hsl. unfold nominal in *.
  split; [|split; [|exact HB]]; lia.
Qed.

(** A clock that has seen a thousand arrivals 2 ms late. *)
Definition drifting_clock : t := Eval vm_compute in
  Nat.iter 1000 (fun c => (own_observe_arrival 4294967000 5002000 None true c).2)
    (make 5000000 4294967000 120000).

Lemma tsbpd_in_order_delivery_witness : exists d0 d2,
  deliveries drifting_clock (map wire [4294967200; 4294999000; 4295967200]) !! 0%nat = Some d0 /\
  deliveries drifting_clock (map wire [4294967200; 4294999000; 4295967200]) !! 2%nat = Some d2 /\
  d0 <= d2 /\ d2 - d0 - 1000000 = 1000.
Proof.
  exists 5120200, 6121200.
  assert (E0 : deliveries drifting_clock (map wire [4294967200; 4294999000; 4295967200]) !! 0%nat = Some 5120200)
    by (vm_compute; reflexivity).
  assert (E2 : deliveries drifting_clock (map wire [4294967200; 4294999000; 4295967200]) !! 2%nat = Some 6121200)
    by (vm_compute; reflexivity).
  split; [exact E0|]. split; [exact E2|]. split; [|reflexivity].
  refine (proj1 (tsbpd_in_order_delivery drifting_clock [4294967200; 4294999000; 4295967200]
    0 2 4294967200 4295967200 5120200 6121200 _ _ _ _ eq_refl eq_refl E0 E2)).
  - split; vm_compute; split; (reflexivity || discriminate).
  - vm_compute. repeat split; (reflexivity || discriminate).
  - vm_compute. discriminate.
  - lia.
Defined.

(** * Shared clocks *)

(** Members join one after the other, sharing the state the first one creates. *)
Fixpoint join (h : heap) (state : option nat) (members : list t) : heap * option nat * list t :=
  match members with
  | [] => (h, state, [])
  | c :: members =>
      let '(h, state, c) := share_group_clock h state c in
      let '(h, state, rest) := join h state members in
      (h, state, c :: rest)
  end.

Definition longest_delay (first : Z) (members : list t) : Z :=
  fold_left (fun d c => Z.max d (delay_microseconds c)) members first.

Lemma longest_delay_ge members : forall first,
  first <= longest_delay first members /\ forall c, c ∈ members -> delay_microseconds c <= longest_delay first members.
Proof.
  unfold longest_delay. induction members as [|m members IH]; intros first; simpl.
  { split; [lia|]. intros c Hc. apply elem_of_nil in Hc as []. }
  destruct (IH (Z.max first (delay_microseconds m))) as [H1 H2]. split; [lia|].
  intros c Hc. apply elem_of_cons in Hc as [->|Hc]; [lia|auto].
Qed.

Lemma set_delay_twice x y c : set_delay x (set_delay y c) = set_delay x c.
Proof. reflexivity. Qed.

Lemma join_rest members : forall h l cell, h !! l = Some cell ->
  join h (Some l) members
  = (<[l := set_delay (longest_delay (delay_microseconds cell) members) cell]> h, Some l,
     map (set_shared_state (Some l)) members).
Proof.
  induction members as [|m members IH]; intros h l cell Hl; cbn [join].
  { unfold longest_delay. simpl. rewrite list_insert_id; [reflexivity|]. rewrite Hl. destruct cell; reflexivity. }
  unfold share_group_clock. rewrite Hl.
  pose proof (lookup_lt_Some _ _ _ Hl) as Hlt.
  rewrite (IH _ l (set_delay (Z.max (delay_microseconds cell) (delay_microseconds m)) cell))
    by (apply list_lookup_insert_eq; assumption).
  rewrite list_insert_insert_eq, set_delay_twice. reflexivity.
Qed.

(** A group has one delivery clock.  When the members of a group share
    their clocks, the shared clock is the first member's with the longest
    delay negotiated by any of them, so nobody's buffering is shortened; from
    then on a delivery time, a control delivery time or a drift sample
    asked through any member is the shared clock's answer and moves the shared clock,
    so all members keep one time line. *)
Theorem group_clock_shared first rest h state members :
  shared_state first = None -> join [] None (first :: rest) = (h, state, members) ->
  exists clock, h = [clock] /\
    clock = set_delay (longest_delay (delay_microseconds first) rest) first /\
    (forall m, m ∈ first :: rest -> delay_microseconds m <= delay_microseconds clock) /\
    forall m A (f : t -> A * t), m ∈ members ->
      on_clock f h m = let '(a, clock') := f clock in Some (a, [clock'], m).
Proof.
  intros Hf. cbn [join]. unfold share_group_clock. simpl app. cbn [length].
  rewrite (join_rest rest [first] 0 first) by reflexivity. intros [= <- <- <-].
  exists (set_delay (longest_delay (delay_microseconds first) rest) first).
  destruct (longest_delay_ge rest (delay_microseconds first)) as [H1 H2].
  split; [reflexivity|]. split; [reflexivity|]. split.
  - intros m Hm. apply elem_of_cons in Hm as [->|Hm]; simpl; [assumption|auto].
  - intros m A f Hm.
    assert (Hs : shared_state m = Some 0%nat).
    { apply elem_of_cons in Hm as [->|Hm]; [reflexivity|].
      apply list_elem_of_fmap in Hm as (x & -> & _). reflexivity. }
    unfold on_clock. rewrite Hs. cbn [length forward lookup list_lookup insert list_insert].
    change (shared_state (set_delay _ first)) with (shared_state first). rewrite Hf.
    destruct (f _) as [a c']. reflexivity.
Qed.

Lemma group_clock_shared_witness : exists h state members m,
  join [] None [make 1000 0 120000; make 2000 0 200000] = (h, state, members) /\ m ∈ members /\
  (fun r => r.1.1) <$> delivery_time 500 h m = Some 201500.
Proof.
  set (members := map (set_shared_state (Some 0%nat)) [make 1000 0 120000; make 2000 0 200000]).
  exists [set_delay 200000 (make 1000 0 120000)], (Some 0%nat), members,
    (set_shared_state (Some 0%nat) (make 2000 0 200000)).
  assert (E : join [] None [make 1000 0 120000; make 2000 0 200000]
    = ([set_delay 200000 (make 1000 0 120000)], Some 0%nat, members)) by (vm_compute; reflexivity).
  assert (Hm : set_shared_state (Some 0%nat) (make 2000 0 200000) ∈ members) by (right; left).
  split; [exact E|]. split; [exact Hm|].
  destruct (group_clock_shared (make 1000 0 120000) [make 2000 0 200000] _ _ _ eq_refl E)
    as (clock & _ & -> & _ & H).
  unfold delivery_time. rewrite (H _ _ (own_delivery_time 500) Hm). vm_compute. reflexivity.
Defined.
